(* ===== verification/_CoqProject ===== *)
-Q . S2P
Prelude.v
RustStr.v
Proc.v
Wire.v
Router.v
Ninep.v
NinepReplies.v
NinepInv.v
NinepSpec.v
NinepConn.v
Serve.v
NinepClient.v
SshAuth.v
SshServe.v
Sftp.v
Fuse.v
Handler.v
Worker.v
System.v
Serialize.v
Store.v
Fs.v
Env.v
Req.v
Runtime.v
Tables.v
Main.v
Program.v
Lifecycle.v
