(* ===== verification/Prelude.v ===== *)
(** * Pinhead: a virtual filesystem served by Lua handlers

    Pinhead ([src/src]) runs a Lua script that registers handler functions for
    path patterns, and serves the resulting tree of files through several
    frontends: a 9P2000 server (Unix socket, TCP, TLS, UDP), an SFTP server over
    SSH, and a FUSE mount.  A frontend turns each protocol message into a
    [Request] (operation, path, payload); one router task matches the path
    against the patterns, picks the handler and waits for the worker pool, whose
    workers each run the script's functions in a Lua state of their own; the
    reply goes back to the frontend, which encodes it.

    ** Files

    - [Prelude] (this file): byte strings, results, machine integers (an [N] with
      its wrap-around written out), slices, and the class [IterOrder] of the
      iteration orders a Rust [HashMap] may have.
    - [RustStr]: the functions of Rust's [str] and [String] the program uses, as
      executable definitions on byte lists, with UTF-8 validation and lossy
      decoding.
    - [Proc]: effectful handlers as trees of critical sections, requests and
      sends ([proc]), with three readings (alone: [run]; in any environment:
      [may]; interleaved with others: [step]) and their proof rules ([wp], [rg],
      [steps_ok]).
    - [Wire]: 9P integers, strings, qids, stat records and multiplexer frames
      ([src/src/frontend/ninep.rs]).
    - [Router]: operations ([fsop.rs]), the merge of the registrations
      ([main.rs]), [dispatch] and the router loop ([router.rs]).
    - [Ninep]: the state [NinepState] of the 9P server and every message handler
      ([ninep.rs]); [NinepReplies], [NinepInv] and [NinepSpec] prove what the
      handlers answer, which invariants they keep when connections interleave,
      and what each message does; [NinepConn] models streams, the message loop,
      the multiplexer and UDP, and [Serve] the accept loops.
    - [NinepClient]: the 9P client ([ninep_client.rs]) and its composition with
      the server.
    - [SshAuth], [SshServe], [Sftp]: authentication, the running SSH server with its
      connections, and the SFTP subsystem ([sshfs.rs]).
    - [Fuse]: the FUSE frontend ([fuse.rs]).
    - [Handler]: the host functions a script calls while it runs, in [compile]
      and again in each worker, and the call of a registered function
      ([handler.rs]).
    - [Worker]: the dispatcher and the workers ([worker.rs]) as a step relation;
      [System]: the frontends, known through the class [Frontend], the router task
      and the pool composed through their channels.
    - [Serialize]: Lua values, JSON values, path queries and CSV
      ([serialize.rs]); [Store]: the databases [doc] and [sql] ([store.rs]);
      [Fs], [Env], [Req]: files, environment and HTTP ([fs.rs], [env.rs],
      [req.rs]), each over an interface of what it calls.
    - [Runtime] and [Tables]: the tables of functions a script may call
      ([setup_runtime_apis] of [handler.rs]) and its working directory.
    - [Main]: the start of the program ([main.rs]), and the composition of the
      script, the routes and the workers; [Program]: what it starts, running, with
      9P servers, FUSE mounts and SFTP connections as the frontends; [Lifecycle]:
      the servers' tasks and socket files, and the shutdown.

    A definition has the name of the Rust item it models, or of the item and the
    part of it (the map of the development gives the lines).  A method on a
    shared object takes and returns the object's state; a critical section of a
    lock is one [Lock] of a [proc]; a call of the router is one [Call], whose
    answer is arbitrary unless a theorem fixes a backend; what is written to the
    peer is a [Send]; [?] on an error is [Fail] and an index out of range is
    [Panic].

    ** What the theorems show

    - Requests: every reply in the running program, at any point of any schedule,
      is what the Lua function of the last registration of the pattern and the
      operation returned in a worker that re-executed the script and served some
      of the requests answered before ([Program.program_answers_requests], for a
      script whose runs are the same); the program starts the
      frontends the script asked for ([Main.main_starts_frontends]).
    - Composition of the tasks: no reply is doubled or overtaken
      ([System.replies_linearizable]); when Lua states can be built and handlers
      return, the router and the pool answer every request in a bounded number of
      their steps ([System.program_drains]), and one handler that does not return
      stops every frontend ([System.looping_handler_blocks]).  The frontends make
      only steps they can make with arbitrary replies
      ([System.program_refines_frontends]), so that what their files show at every
      point of every interleaving holds in the program
      ([Program.program_sessions_wf], [Program.program_inodes_wf]).  The pool keeps
      every request in one place until it is answered, or lost with a worker that
      ended ([Worker.pool_conserves_requests]), and in the program it never grows
      ([System.pool_stays_small]).  The program ends after an interrupt and leaves
      no socket file ([Lifecycle.program_leaves_no_socket]).
    - Workers: a worker runs the script again, and holds under each name the
      function its own run registered at that position, whatever the two runs do
      ([Handler.workers_hold_registered_functions]).
    - Protocol safety: each 9P message, SFTP packet and FUSE operation gets
      exactly one reply with its tag, id or type ([NinepConn], [NinepReplies],
      [Sftp], [Fuse]), an extended SFTP request none; the two malformed messages
      that make a 9P handler panic.
    - Invariants under interleaving: the 9P tables ([NinepInv]), the inode table
      ([Fuse.fuse_table_wf]) and the worker pool, at every point of every
      schedule.
    - Functional behaviour: walking, reading, listing, creating and renaming by
      9P message ([NinepSpec]); the client against the server, for whole files
      ([NinepClient]); the streams of a multiplexed connection
      ([Serve.mux_stream_answers]); SFTP and FUSE operations; which passwords and
      keys are accepted, and the base64 decoder against an encoder ([SshAuth]); that no
      SFTP loop runs before one of them was, at any point of any run of the SSH server
      ([SshServe.sftp_needs_credentials]).
    - Client and server: a script that reads a file with [ninep_client] gets what the
      router of the other server serves ([Runtime.script_reads_remote_file]).
    - Data: JSON values survive the way through Lua, CSV text the way through
      rows ([Serialize]); a document store is a map from keys to values and a
      closed handle is dead ([Store]); the last write of an environment variable
      wins ([Env]); what a file's metadata becomes ([Fs]); how a call of the
      HTTP client ends, errors and panics included ([Req], [Tables]); a jq filter gives all its outputs or its first error
      ([Runtime.json_jq_outputs]).
    - Accept loops: the UDP server sends one datagram for each it gets that has a
      header, an empty one when the handler fails, until a malformed one ends it; the
      TCP server serves one connection at a time ([Serve]).
    - Divergences: theorems named after what goes wrong ([stat_strings_overrun],
      [format_ls_misreads], [tcp_client_stalls], [readdir_never_ends],
      [openssh_keys_not_loaded], [pool_stays_small],
      [bare_script_at_root], ...) state defects of the code as it is.

    ** Bounds and fuel

    Integers wrap as in the release profile the repository builds with, and
    [usize] has 64 bits.  Theorems about counters (qids, fids, handles, inodes)
    bound the number of steps below [2 ^ 64].  Loops that are not structural take
    fuel: the message loops need more than the bytes of their input, as each
    message takes at least four of them ([NinepConn.run_connection],
    [Sftp.sftp_loop]); a read from the multiplexer gets two units more than the
    queued payloads ([NinepConn.mux_fuel]); the client's read loop needs two
    turns and its write loop one per chunk ([NinepClient.client_write_terminates]); the printers of numbers get
    one unit per bit; the cleanup of the pool gets one per worker it may add.
    The theorems about these loops give their result, not only its correctness if
    there is one.

    ** Not modelled

    Addresses and file descriptors of sockets (a bind succeeds or fails), TLS
    handshakes, host keys; failures of writing a reply (the code ignores them); the
    messages printed while the program runs; time, which the schedules replace.
    A call of a Lua function returns or does not as the parameter [returns] says;
    what it computes depends on its worker's Lua state and its arguments only, so
    that handlers of two workers do not see each other's writes to files,
    databases or the environment.  Tables made from JSON are gone through in
    insertion order (Lua's is arbitrary; what is encoded from them is sorted).
    The writer task of a database runs as soon as it is spawned, and the removal of
    a socket file is taken to succeed (the code ignores its failure).
    The Lua VM ([mlua]), the trie of [matchit], the SSH and SFTP codecs
    ([russh], [russh_sftp]), the FUSE kernel protocol ([fuser]), SQLite
    ([rusqlite]), libcurl ([curl]), the printers and parsers of the formats
    ([serde_json], [serde_yaml], [toml], [csv]) and the jq engine ([jaq]) are
    parameters of the definitions that use them, with laws where a theorem needs
    one.  [json.rs], [task.rs], [source.rs], [sink.rs] and [processor.rs] belong
    to no module of the program. *)
From stdpp Require Export base numbers list gmap strings relations.
From Stdlib Require Export Ascii NArith Lia.
From Stdlib Require String.

(** * Bytes and literals

    A Rust [&[u8]], [Vec<u8>], [Bytes], [&str] or [String] is the list of its
    bytes; a [String] additionally satisfies [RustStr.valid_utf8]. *)
Abbreviation byte := Ascii.ascii (only parsing).
Abbreviation bytes := (list Ascii.ascii).

Definition str (s : string) : bytes := String.list_ascii_of_string s.

(** * Results, as Rust's [Result<A, E>] *)
Inductive result (A E : Type) : Type :=
| Ok (a : A)
| Err (e : E).
Arguments Ok {A E} a.
Arguments Err {A E} e.

Definition result_ok {A E} (r : result A E) : option A :=
  match r with Ok a => Some a | Err _ => None end.

Definition result_map {A B E} (f : A -> B) (r : result A E) : result B E :=
  match r with Ok a => Ok (f a) | Err e => Err e end.

Definition result_map_err {A E F} (f : E -> F) (r : result A E) : result A F :=
  match r with Ok a => Ok a | Err e => Err (f e) end.

Definition result_bind {A B E} (r : result A E) (k : A -> result B E) : result B E :=
  match r with Ok a => k a | Err e => Err e end.

#[export] Instance result_eq_dec {A E} `{EqDecision A, EqDecision E} :
  EqDecision (result A E).
Proof. solve_decision. Defined.

(** * Machine integers

    An unsigned integer is an [N] below [2 ^ w]; the conversions and the
    arithmetic that can leave the range wrap, as they do in the release
    profile the repository builds with. *)
Definition wrap (w : N) (n : N) : N := N.modulo n (2 ^ w).
Definition u8_wrap : N -> N := wrap 8.
Definition u16_wrap : N -> N := wrap 16.
Definition u32_wrap : N -> N := wrap 32.
Definition u64_wrap : N -> N := wrap 64.

(** [n as u8] as a byte, and a byte as a number. *)
Definition chr (n : N) : byte := ascii_of_N (u8_wrap n).
Definition ord (b : byte) : N := N_of_ascii b.

(** [a - b] on [u64], wrapping. *)
Definition u64_sub (a b : N) : N := u64_wrap (a + 2 ^ 64 - u64_wrap b).
(** [i as u64] of an [i64], and back. *)
Definition as_u64 (i : Z) : N := Z.to_N (i mod 2 ^ 64).
Definition as_i64 (i : N) : Z := if N.ltb i (2 ^ 63) then Z.of_N i else Z.of_N i - 2 ^ 64.
(** [a.saturating_add(b)] on [usize]. *)
Definition usize_saturating_add (a b : N) : N := N.min (a + b) (2 ^ 64 - 1).

(** The number of bytes of a buffer, as the [usize] [buf.len()]. *)
Definition lenN {A} (l : list A) : N := N.of_nat (length l).

(** [buf[i..j]], the bounds having been checked. *)
Definition slice {A} (i j : nat) (l : list A) : list A := take (j - i) (drop i l).

(** * Iteration over a [HashMap]

    Rust leaves the order unspecified: it is some permutation of the entries. *)
Class IterOrder (K V : Type) `{Countable K} := {
  iter_order : gmap K V -> list (K * V);
  iter_order_perm m : iter_order m ≡ₚ map_to_list m;
}.

(** One possible order, to evaluate the definitions with. *)
Definition default_order {K V} `{Countable K} : IterOrder K V :=
  {| iter_order := map_to_list; iter_order_perm m := reflexivity (map_to_list m) |}.

Lemma iter_order_elem {K V} `{IterOrder K V} (m : gmap K V) k v :
  (k, v) ∈ iter_order m <-> m !! k = Some v.
Proof. rewrite iter_order_perm. apply elem_of_map_to_list. Qed.

Create HintDb pinhead.

(** * Tactics and generic lemmas *)

(** An element of an explicit list, and the names of one being different. *)
Ltac solve_in := first [apply list_elem_of_here | apply list_elem_of_further; solve_in].
Ltac solve_names := apply (bool_decide_unpack _); vm_compute; exact I.

Lemma wrap_small w n : (n < 2 ^ w)%N -> wrap w n = n.
Proof. apply N.mod_small. Qed.

Lemma wrap_lt w n : (wrap w n < 2 ^ w)%N.
Proof. apply N.mod_lt. apply N.pow_nonzero. done. Qed.

Lemma wrap_wrap w n : wrap w (wrap w n) = wrap w n.
Proof. apply wrap_small, wrap_lt. Qed.

Lemma lenN_app {A} (l k : list A) : lenN (l ++ k) = (lenN l + lenN k)%N.
Proof. unfold lenN. rewrite length_app. lia. Qed.

Lemma lenN_nat {A} (l : list A) : N.to_nat (lenN l) = length l.
Proof. unfold lenN. lia. Qed.

Lemma length_slice {A} (i j : nat) (l : list A) :
  j <= length l -> length (slice i j l) = j - i.
Proof. intros. unfold slice. rewrite length_take, length_drop. lia. Qed.

Lemma slice_app_l {A} (j : nat) (l k : list A) :
  j = length l -> slice 0 j (l ++ k) = l.
Proof. intros ->. unfold slice. rewrite Nat.sub_0_r, drop_0. apply take_app_length. Qed.

Lemma slice_app_r {A} (i j : nat) (l k : list A) :
  length l <= i -> slice i j (l ++ k) = slice (i - length l) (j - length l) k.
Proof.
  intros. unfold slice. rewrite drop_app_ge by done. f_equal. lia.
Qed.

Lemma slice_app_mid {A} (i j : nat) (pre s post : list A) :
  length pre = i -> i + length s = j -> slice i j (pre ++ s ++ post) = s.
Proof.
  intros <- <-. unfold slice. rewrite drop_app_length.
  replace (_ + length s - _) with (length s) by lia. apply take_app_length.
Qed.

Lemma slice_full {A} (j : nat) (l : list A) : length l <= j -> slice 0 j l = l.
Proof. intros. unfold slice. rewrite drop_0. apply take_ge. lia. Qed.

Lemma ord_chr n : ord (chr n) = u8_wrap n.
Proof.
  unfold ord, chr. apply N_ascii_embedding.
  change 256%N with (2 ^ 8)%N. apply wrap_lt.
Qed.

Lemma ord_lt b : (ord b < 256)%N.
Proof. apply N_ascii_bounded. Qed.

Lemma chr_ord b : chr (ord b) = b.
Proof.
  unfold chr. unfold u8_wrap. rewrite wrap_small; [apply ascii_N_embedding|].
  apply ord_lt.
Qed.

Lemma result_map_err_ok {A E F} (f : E -> F) (r : result A E) a :
  result_map_err f r = Ok a <-> r = Ok a.
Proof. destruct r; simpl; split; congruence. Qed.

Lemma as_u64_i64 i : (i < 2 ^ 64)%N -> as_u64 (as_i64 i) = i.
Proof.
  intros Hi. unfold as_u64, as_i64. destruct (N.ltb_spec i (2 ^ 63)).
  - rewrite Z.mod_small by lia. lia.
  - replace (Z.of_N i - 2 ^ 64)%Z with (Z.of_N i + (-1) * 2 ^ 64)%Z by lia.
    rewrite Z.mod_add, Z.mod_small by lia. lia.
Qed.

#[export] Hint Rewrite @lenN_app @lenN_nat @length_app @length_take @length_drop : pinhead.

(** A prefix, element by element. *)
Lemma prefix_by_lookup {A} (l1 l2 : list A) :
  l1 `prefix_of` l2 <-> forall i x, l1 !! i = Some x -> l2 !! i = Some x.
Proof.
  split; [intros [l ->] i x Hi; by apply lookup_app_l_Some|].
  revert l2. induction l1 as [|a l1 IH]; intros l2 H; [apply prefix_nil|].
  destruct l2 as [|b l2]; [discriminate (H 0 a eq_refl)|]. pose proof (H 0 a eq_refl) as E. injection E as ->.
  apply prefix_cons, IH. intros i x Hi. exact (H (S i) x Hi).
Qed.
