(* ===== verification/RustStr.v ===== *)
(** The functions of Rust's standard library on [&str] and [&[u8]] that the
    program uses: prefixes, splitting, trimming, [lines], decimal and
    hexadecimal printing and parsing, and [String::from_utf8_lossy].  They are
    executable on byte lists; the lemmas are the ones the components share. *)
From S2P Require Import Prelude.

(** * Prefixes, suffixes and splitting *)

(** [s.strip_prefix(p)] *)
Fixpoint strip_prefix (p s : bytes) : option bytes :=
  match p, s with
  | [], _ => Some s
  | a :: p', b :: s' => if Ascii.eqb a b then strip_prefix p' s' else None
  | _ :: _, [] => None
  end.

(** [s.starts_with(p)] *)
Definition starts_with (p s : bytes) : bool :=
  match strip_prefix p s with Some _ => true | None => false end.

(** [s.ends_with(c)] for a character [c] *)
Definition ends_with (c : byte) (s : bytes) : bool :=
  match last s with Some b => Ascii.eqb b c | None => false end.

(** [s.contains(c)] for a character [c] *)
Definition contains_char (c : byte) (s : bytes) : bool := existsb (Ascii.eqb c) s.

(** [s.find(needle)]: the byte index of the first occurrence. *)
Fixpoint find (needle s : bytes) : option nat :=
  if starts_with needle s then Some 0
  else match s with
       | [] => None
       | _ :: t => S <$> find needle t
       end.

(** [s.contains(needle)] *)
Definition contains (needle s : bytes) : bool :=
  match find needle s with Some _ => true | None => false end.

(** [s.split(c)]: the pieces between the separators; never empty. *)
Fixpoint split_on (c : byte) (s : bytes) : list bytes :=
  match s with
  | [] => [[]]
  | b :: t =>
      if Ascii.eqb b c then [] :: split_on c t
      else match split_on c t with
           | h :: r => (b :: h) :: r
           | [] => [[b]]
           end
  end.

(** [s.split_once(c)] *)
Fixpoint split_once (c : byte) (s : bytes) : option (bytes * bytes) :=
  match s with
  | [] => None
  | b :: t =>
      if Ascii.eqb b c then Some ([], t)
      else match split_once c t with
           | Some (h, r) => Some (b :: h, r)
           | None => None
           end
  end.

(** [s.rsplit_once(c)] *)
Fixpoint rsplit_once (c : byte) (s : bytes) : option (bytes * bytes) :=
  match s with
  | [] => None
  | b :: t =>
      match rsplit_once c t with
      | Some (h, r) => Some (b :: h, r)
      | None => if Ascii.eqb b c then Some ([], t) else None
      end
  end.

(** [s.rsplit(c).next()], which is never [None]. *)
Definition rsplit_next (c : byte) (s : bytes) : bytes :=
  match rsplit_once c s with Some (_, r) => r | None => s end.

Fixpoint trim_start_matches (c : byte) (s : bytes) : bytes :=
  match s with
  | b :: t => if Ascii.eqb b c then trim_start_matches c t else s
  | [] => []
  end.
Definition trim_end_matches (c : byte) (s : bytes) : bytes :=
  rev (trim_start_matches c (rev s)).
Definition trim_matches (c : byte) (s : bytes) : bytes :=
  trim_end_matches c (trim_start_matches c s).

Definition is_empty {A} (l : list A) : bool :=
  match l with [] => true | _ => false end.

(** [l.join(sep)] *)
Fixpoint join (sep : bytes) (l : list bytes) : bytes :=
  match l with
  | [] => []
  | [s] => s
  | s :: r => s ++ sep ++ join sep r
  end.

(** * UTF-8

    [utf8_head s] looks at the first character of [s]: [Some (true, k)] when
    the first [k] bytes are a well-formed character, [Some (false, k)] when
    they are a maximal ill-formed part, which [from_utf8_lossy] replaces by one
    U+FFFD. *)
Definition in_range (lo hi : N) (b : byte) : bool :=
  N.leb lo (ord b) && N.leb (ord b) hi.
Definition is_cont : byte -> bool := in_range 128 191.

(** The second byte of a three-byte and of a four-byte character. *)
Definition second3 (b0 b1 : byte) : bool :=
  if N.eqb (ord b0) 224 then in_range 160 191 b1
  else if N.eqb (ord b0) 237 then in_range 128 159 b1
  else is_cont b1.
Definition second4 (b0 b1 : byte) : bool :=
  if N.eqb (ord b0) 240 then in_range 144 191 b1
  else if N.eqb (ord b0) 244 then in_range 128 143 b1
  else is_cont b1.

(** The continuation bytes accepted by the tests, and whether all were. *)
Fixpoint utf8_tail (tests : list (byte -> bool)) (k : nat) (t : bytes) : bool * nat :=
  match tests, t with
  | [], _ => (true, k)
  | p :: tests', b :: t' => if p b then utf8_tail tests' (S k) t' else (false, k)
  | _ :: _, [] => (false, k)
  end.

Definition utf8_tests (b0 : byte) : option (list (byte -> bool)) :=
  if N.ltb (ord b0) 128 then Some []
  else if in_range 194 223 b0 then Some [is_cont]
  else if in_range 224 239 b0 then Some [second3 b0; is_cont]
  else if in_range 240 244 b0 then Some [second4 b0; is_cont; is_cont]
  else None.

Definition utf8_head (s : bytes) : option (bool * nat) :=
  match s with
  | [] => None
  | b0 :: t =>
      match utf8_tests b0 with
      | Some tests => Some (utf8_tail tests 1 t)
      | None => Some (false, 1)
      end
  end.

Fixpoint utf8_chunks_fuel (n : nat) (s : bytes) : list (bool * bytes) :=
  match n with
  | O => []
  | S n =>
      match utf8_head s with
      | None => []
      | Some (v, k) => (v, take k s) :: utf8_chunks_fuel n (drop k s)
      end
  end.

Definition utf8_chunks (s : bytes) : list (bool * bytes) :=
  utf8_chunks_fuel (length s) s.

(** U+FFFD, the replacement character. *)
Definition replacement : bytes := [chr 239; chr 191; chr 189].

(** [String::from_utf8_lossy(s)] *)
Definition from_utf8_lossy (s : bytes) : bytes :=
  concat (map (fun c : bool * bytes => if fst c then snd c else replacement) (utf8_chunks s)).

Definition valid_utf8 (s : bytes) : bool := forallb fst (utf8_chunks s).

(** The characters of a string, each as its encoding ([s.chars()]). *)
Definition chars (s : bytes) : list bytes := map snd (utf8_chunks s).

(** [char::is_whitespace]: the Unicode property [White_Space]. *)
Definition whitespace_chars : list bytes :=
  map (fun n => [chr n]) [9; 10; 11; 12; 13; 32]%N ++
  map (fun n => [chr 194; chr n]) [133; 160]%N ++
  [[chr 225; chr 154; chr 128]] ++
  map (fun n => [chr 226; chr 128; chr n])
    [128; 129; 130; 131; 132; 133; 134; 135; 136; 137; 138; 168; 169; 175]%N ++
  [[chr 226; chr 129; chr 159]; [chr 227; chr 128; chr 128]].
Definition is_whitespace (c : bytes) : bool :=
  existsb (fun w => bool_decide (c = w)) whitespace_chars.

Fixpoint split_ws (cs : list bytes) : list bytes :=
  match cs with
  | [] => [[]]
  | c :: r =>
      if is_whitespace c then [] :: split_ws r
      else match split_ws r with h :: q => (c ++ h) :: q | [] => [c] end
  end.

(** [s.split(char::is_whitespace).filter(|s| !s.is_empty())], which is also
    [s.split_whitespace()]. *)
Definition split_whitespace (s : bytes) : list bytes :=
  List.filter (fun p => negb (is_empty p)) (split_ws (chars s)).

Fixpoint drop_ws (cs : list bytes) : list bytes :=
  match cs with
  | c :: r => if is_whitespace c then drop_ws r else cs
  | [] => []
  end.
(** [s.trim()] *)
Definition trim (s : bytes) : bytes :=
  concat (rev (drop_ws (rev (drop_ws (chars s))))).

Definition strip_cr (s : bytes) : bytes :=
  if ends_with (chr 13) s then removelast s else s.
Fixpoint lines_of (pieces : list bytes) : list bytes :=
  match pieces with
  | [] => []
  | [s] => if is_empty s then [] else [s]
  | s :: r => strip_cr s :: lines_of r
  end.
(** [s.lines()] *)
Definition lines (s : bytes) : list bytes := lines_of (split_on (chr 10) s).

(** * Numbers *)

Fixpoint dec_digits (fuel : nat) (n : N) : bytes :=
  match fuel with
  | O => []
  | S f => (if N.ltb n 10 then [] else dec_digits f (n / 10)) ++ [chr (48 + n mod 10)]
  end.
(** [format!("{n}")]: a number of [k] bits has at most [k + 1] digits. *)
Definition dec (n : N) : bytes := dec_digits (S (N.to_nat (N.size n))) n.

Definition hex_digit (n : N) : byte :=
  if N.ltb n 10 then chr (48 + n) else chr (87 + n).
Fixpoint hex_digits (k : nat) (n : N) : bytes :=
  match k with
  | O => []
  | S k => hex_digits k (n / 16) ++ [hex_digit (n mod 16)]
  end.
(** [format!("{n:016x}")] of a [u64]: sixteen digits always suffice. *)
Definition hex16 (n : N) : bytes := hex_digits 16 n.

Definition is_ascii_digit (b : byte) : bool := in_range 48 57 b.
Fixpoint parse_digits (acc : N) (s : bytes) : option N :=
  match s with
  | [] => Some acc
  | b :: t =>
      if is_ascii_digit b then parse_digits (acc * 10 + (ord b - 48)) t else None
  end.
(** [s.parse::<u64>().ok()] *)
Definition parse_u64 (s : bytes) : option N :=
  let s := match strip_prefix (str "+") s with Some t => t | None => s end in
  match s with
  | [] => None
  | _ => match parse_digits 0 s with
         | Some n => if N.ltb n (2 ^ 64) then Some n else None
         | None => None
         end
  end.

(** * Lemmas: prefixes and splitting *)
Lemma strip_prefix_Some p s r : strip_prefix p s = Some r <-> s = p ++ r.
Proof.
  revert s. induction p as [|a p IH]; intros s; simpl; [split; congruence|].
  destruct s as [|b s]; [split; discriminate|].
  destruct (Ascii.eqb_spec a b) as [->|Hne].
  - rewrite IH. split; [intros ->; done | congruence].
  - split; [discriminate | congruence].
Qed.

Lemma strip_prefix_app p r : strip_prefix p (p ++ r) = Some r.
Proof. by apply strip_prefix_Some. Qed.

Lemma starts_with_spec p s : starts_with p s = true <-> exists r, s = p ++ r.
Proof.
  unfold starts_with. destruct (strip_prefix p s) as [r|] eqn:E.
  - apply strip_prefix_Some in E. naive_solver.
  - split; [discriminate|]. intros [r ->]. by rewrite strip_prefix_app in E.
Qed.

Lemma starts_with_app p r : starts_with p (p ++ r) = true.
Proof. apply starts_with_spec. eauto. Qed.

Lemma ends_with_spec c s : ends_with c s = true <-> exists t, s = t ++ [c].
Proof.
  unfold ends_with. split.
  - destruct (last s) as [b|] eqn:E; [|discriminate].
    intros ->%Ascii.eqb_eq. apply last_Some in E as [t ->]. eauto.
  - intros [t ->]. rewrite last_snoc. apply Ascii.eqb_refl.
Qed.

Lemma contains_char_spec c s : contains_char c s = true <-> c ∈ s.
Proof.
  unfold contains_char. rewrite existsb_exists, list_elem_of_In. split.
  - intros (x & Hx & ->%Ascii.eqb_eq). done.
  - intros H. exists c. by rewrite Ascii.eqb_refl.
Qed.

Lemma contains_char_app c s t :
  contains_char c (s ++ t) = contains_char c s || contains_char c t.
Proof. apply existsb_app. Qed.

Lemma split_on_ne c s : split_on c s <> [].
Proof. destruct s as [|b s]; simpl; [done|]. by repeat case_match. Qed.

Lemma split_on_no_sep c s p : p ∈ split_on c s -> contains_char c p = false.
Proof.
  revert p. induction s as [|b s IH]; intros p; simpl.
  { by intros ->%list_elem_of_singleton. }
  destruct (Ascii.eqb_spec b c) as [->|Hne].
  { intros [->|Hp]%elem_of_cons; [done|eauto]. }
  destruct (split_on c s) as [|h r] eqn:E; [by apply split_on_ne in E|].
  intros [->|Hp]%elem_of_cons.
  - simpl. rewrite (proj2 (Ascii.eqb_neq c b)) by done. apply IH. left.
  - apply IH. by right.
Qed.

Lemma join_cons sep p r : r <> [] -> join sep (p :: r) = p ++ sep ++ join sep r.
Proof. by destruct r. Qed.

Lemma join_split_on c s : join [c] (split_on c s) = s.
Proof.
  induction s as [|b s IH]; [done|]. simpl.
  destruct (Ascii.eqb_spec b c) as [->|Hne].
  { rewrite join_cons by apply split_on_ne. by rewrite IH. }
  destruct (split_on c s) as [|h r] eqn:E; [by apply split_on_ne in E|].
  destruct r as [|h' r]; simpl in *; by rewrite <-IH.
Qed.

Lemma split_on_no_char c s : contains_char c s = false -> split_on c s = [s].
Proof.
  induction s as [|b s IH]; [done|]. simpl.
  intros [Hb Hs]%orb_false_iff. rewrite IH by done.
  rewrite Ascii.eqb_sym in Hb. by rewrite Hb.
Qed.

Lemma split_on_app_sep c p s :
  contains_char c p = false -> split_on c (p ++ c :: s) = p :: split_on c s.
Proof.
  induction p as [|b p IH]; simpl.
  { by rewrite Ascii.eqb_refl. }
  intros [Hb Hs]%orb_false_iff. rewrite IH by done.
  rewrite Ascii.eqb_sym in Hb. by rewrite Hb.
Qed.

Lemma split_once_Some c s h r :
  split_once c s = Some (h, r) <-> s = h ++ c :: r /\ contains_char c h = false.
Proof.
  revert h r. induction s as [|b s IH]; intros h r; simpl.
  { split; [discriminate|]. intros [H _]. by destruct h. }
  destruct (Ascii.eqb_spec b c) as [->|Hne].
  - split; [intros [= <- <-]; done|]. intros [Hs Hr].
    destruct h as [|x h]; simplify_eq/=; [done|]. by rewrite Ascii.eqb_refl in Hr.
  - assert (Hcb : Ascii.eqb c b = false) by (apply Ascii.eqb_neq; congruence). split.
    + destruct (split_once c s) as [[h' r']|] eqn:E; [|done]. intros [= <- <-].
      destruct (proj1 (IH h' r') eq_refl) as [-> Hh]. split; [done|]. simpl. by rewrite Hcb.
    + intros [Hs Hr]. destruct h as [|x h]; simplify_eq/=. rewrite Hcb in Hr. simpl in Hr.
      by rewrite (proj2 (IH h r)).
Qed.

Lemma rsplit_once_None c s : rsplit_once c s = None <-> contains_char c s = false.
Proof.
  induction s as [|b s IH]; simpl; [done|].
  rewrite orb_false_iff, <-IH, (Ascii.eqb_sym c b).
  destruct (rsplit_once c s) as [[h r]|]; [naive_solver|].
  destruct (Ascii.eqb b c); naive_solver.
Qed.

Lemma rsplit_once_Some c s h r :
  rsplit_once c s = Some (h, r) <-> s = h ++ c :: r /\ contains_char c r = false.
Proof.
  revert h r. induction s as [|b s IH]; intros h r; simpl.
  { split; [discriminate|]. intros [H _]. by destruct h. }
  destruct (rsplit_once c s) as [[h' r']|] eqn:E.
  - destruct (proj1 (IH h' r') eq_refl) as [-> Hr']. split.
    + intros [= <- <-]. done.
    + intros [Hs Hr]. destruct h as [|x h]; simplify_eq/=.
      * rewrite contains_char_app in Hr. simpl in Hr.
        rewrite Ascii.eqb_refl, orb_true_r in Hr. done.
      * assert (Some (h', r') = Some (h, r)) as [= -> ->]; [|done].
        by apply IH.
  - apply rsplit_once_None in E as Hn. destruct (Ascii.eqb_spec b c) as [->|Hne].
    + split; [intros [= <- <-]; done|].
      intros [Hs Hr]. destruct h as [|x h]; simplify_eq/=; [done|].
      rewrite contains_char_app in Hn. simpl in Hn.
      rewrite Ascii.eqb_refl, orb_true_r in Hn. done.
    + split; [discriminate|]. intros [Hs Hr]. destruct h as [|x h]; simplify_eq/=.
      rewrite contains_char_app in Hn. simpl in Hn.
      rewrite Ascii.eqb_refl, orb_true_r in Hn. done.
Qed.

(** * Lemmas: UTF-8 *)
Lemma utf8_tail_bounds tests k t v n :
  utf8_tail tests k t = (v, n) -> k <= n /\ n <= k + length t.
Proof.
  revert k t. induction tests as [|p tests IH]; intros k t; simpl.
  { intros [= <- <-]. lia. }
  destruct t as [|b t]; simpl; [intros [= <- <-]; lia|].
  destruct (p b); [|intros [= <- <-]; lia].
  intros H%IH. lia.
Qed.

Lemma utf8_tail_true tests k t n :
  utf8_tail tests k t = (true, n) -> n = k + length tests /\ length tests <= length t.
Proof.
  revert k t. induction tests as [|p tests IH]; intros k t; simpl.
  { intros [= <-]. lia. }
  destruct t as [|b t]; simpl; [discriminate|].
  destruct (p b); [|discriminate]. intros H%IH. lia.
Qed.

(** The verdict on a well-formed character depends on its own bytes only. *)
Lemma utf8_tail_local tests k t t' n :
  utf8_tail tests k t = (true, n) ->
  utf8_tail tests k (take (length tests) t ++ t') = (true, n).
Proof.
  revert k t. induction tests as [|p tests IH]; intros k t; simpl; [done|].
  destruct t as [|b t]; simpl; [done|].
  destruct (p b); [|done]. apply IH.
Qed.

Lemma utf8_head_bounds s v k :
  utf8_head s = Some (v, k) -> 1 <= k /\ k <= length s.
Proof.
  destruct s as [|b0 t]; simpl; [discriminate|].
  destruct (utf8_tests b0) as [tests|].
  - intros [= H]. apply utf8_tail_bounds in H. lia.
  - intros [= <- <-]. lia.
Qed.

Lemma utf8_head_None s : utf8_head s = None <-> s = [].
Proof. destruct s as [|b0 t]; simpl; [done|]. case_match; naive_solver. Qed.

Lemma utf8_head_local s t k :
  utf8_head s = Some (true, k) -> utf8_head (take k s ++ t) = Some (true, k).
Proof.
  destruct s as [|b0 s]; simpl; [discriminate|].
  destruct (utf8_tests b0) as [tests|] eqn:E; [|discriminate].
  intros [= H]. pose proof H as [-> Hl]%utf8_tail_true.
  simpl. rewrite E. f_equal. by apply utf8_tail_local.
Qed.

Lemma utf8_chunks_fuel_enough n m s :
  length s <= n -> length s <= m -> utf8_chunks_fuel n s = utf8_chunks_fuel m s.
Proof.
  revert m s. induction n as [|n IH]; intros m s Hn Hm.
  { destruct s; [|simpl in Hn; lia]. by destruct m. }
  destruct m as [|m].
  { destruct s; [done|simpl in Hm; lia]. }
  simpl. destruct (utf8_head s) as [[v k]|] eqn:E; [|done].
  apply utf8_head_bounds in E. f_equal. apply IH; rewrite length_drop; lia.
Qed.

(** The defining equation of the chunks, free of fuel. *)
Lemma utf8_chunks_eq s :
  utf8_chunks s =
  match utf8_head s with
  | None => []
  | Some (v, k) => (v, take k s) :: utf8_chunks (drop k s)
  end.
Proof.
  unfold utf8_chunks. destruct s as [|b s]; [done|].
  change (length (b :: s)) with (S (length s)).
  cbn [utf8_chunks_fuel]. destruct (utf8_head (b :: s)) as [[v k]|] eqn:E; [|done].
  f_equal. apply utf8_head_bounds in E. simpl in E.
  apply utf8_chunks_fuel_enough; rewrite length_drop; simpl; lia.
Qed.

(** Induction along the chunks of a string. *)
Lemma utf8_rect_len (P : bytes -> Prop) :
  P [] ->
  (forall s v k, utf8_head s = Some (v, k) -> P (drop k s) -> P s) ->
  forall n s, length s <= n -> P s.
Proof.
  intros H0 H1 n. induction n as [|n IH]; intros s Hs.
  { destruct s; [done|simpl in Hs; lia]. }
  destruct (utf8_head s) as [[v k]|] eqn:E.
  - eapply H1; [done|]. apply utf8_head_bounds in E.
    apply IH. rewrite length_drop. lia.
  - apply utf8_head_None in E. by subst.
Qed.

Lemma utf8_ind (P : bytes -> Prop) :
  P [] ->
  (forall s v k, utf8_head s = Some (v, k) -> P (drop k s) -> P s) ->
  forall s, P s.
Proof. intros H0 H1 s. by apply (utf8_rect_len P H0 H1 (length s)). Qed.

Lemma utf8_chunks_concat s : concat (map snd (utf8_chunks s)) = s.
Proof.
  induction s as [|s v k E IH] using utf8_ind; [done|].
  rewrite utf8_chunks_eq, E. simpl. rewrite IH. apply take_drop.
Qed.

Lemma chars_concat s : concat (chars s) = s.
Proof. apply utf8_chunks_concat. Qed.

Lemma utf8_chunks_app_char c s k :
  utf8_head c = Some (true, k) -> k = length c ->
  utf8_chunks (c ++ s) = (true, c) :: utf8_chunks s.
Proof.
  intros H ->. rewrite utf8_chunks_eq.
  rewrite <-(firstn_all c) at 1.
  rewrite (utf8_head_local _ _ _ H).
  by rewrite take_app_length, drop_app_length.
Qed.

Lemma utf8_head_take s k :
  utf8_head s = Some (true, k) ->
  utf8_head (take k s) = Some (true, k) /\ length (take k s) = k.
Proof.
  intros H. split.
  - rewrite <-(app_nil_r (take k s)). by apply utf8_head_local.
  - apply utf8_head_bounds in H. rewrite length_take. lia.
Qed.

(** A valid string is its own lossy decoding. *)
Lemma from_utf8_lossy_id s : valid_utf8 s = true -> from_utf8_lossy s = s.
Proof.
  unfold valid_utf8, from_utf8_lossy.
  induction s as [|s v k E IH] using utf8_ind; [done|].
  rewrite utf8_chunks_eq, E. simpl.
  intros [-> Hv]%andb_true_iff. simpl. rewrite IH by done. apply take_drop.
Qed.

(** The lossy decoding is always a valid string. *)
Lemma from_utf8_lossy_valid s : valid_utf8 (from_utf8_lossy s) = true.
Proof.
  unfold valid_utf8, from_utf8_lossy.
  induction s as [|s v k E IH] using utf8_ind; [done|].
  rewrite (utf8_chunks_eq s), E. cbn [map fst snd concat]. destruct v.
  - destruct (utf8_head_take s k E) as [Hh Hl].
    by rewrite (utf8_chunks_app_char _ _ k).
  - by rewrite (utf8_chunks_app_char replacement _ 3).
Qed.

(** * Lemmas: numbers *)
Lemma hex_digit_inj n m : (n < 16)%N -> (m < 16)%N -> hex_digit n = hex_digit m -> n = m.
Proof.
  intros Hn Hm H%(f_equal ord). unfold hex_digit in H.
  destruct (N.ltb_spec n 10), (N.ltb_spec m 10); rewrite !ord_chr in H;
    unfold u8_wrap in H; rewrite !wrap_small in H by lia; lia.
Qed.

Lemma length_hex_digits k n : length (hex_digits k n) = k.
Proof.
  revert n. induction k as [|k IH]; intros n; [done|].
  simpl. rewrite length_app, IH. simpl. lia.
Qed.

Lemma hex_digits_inj k n m :
  (n < 16 ^ N.of_nat k)%N -> (m < 16 ^ N.of_nat k)%N ->
  hex_digits k n = hex_digits k m -> n = m.
Proof.
  revert n m. induction k as [|k IH]; intros n m Hn Hm H; [simpl in *; lia|].
  simpl in H. apply app_inj_2 in H as [H1 [= H2]]; [|done].
  apply hex_digit_inj in H2; [|apply N.mod_lt; done..].
  rewrite Nat2N.inj_succ, N.pow_succ_r' in Hn, Hm.
  apply IH in H1; [|apply N.Div0.div_lt_upper_bound; lia..].
  rewrite (N.div_mod' n 16), (N.div_mod' m 16). lia.
Qed.

Lemma hex16_inj n m : (n < 2 ^ 64)%N -> (m < 2 ^ 64)%N -> hex16 n = hex16 m -> n = m.
Proof. intros. by apply (hex_digits_inj 16). Qed.

Lemma parse_digits_app acc s t :
  parse_digits acc (s ++ t) =
  match parse_digits acc s with Some n => parse_digits n t | None => None end.
Proof.
  revert acc. induction s as [|b s IH]; intros acc; [done|]. simpl.
  destruct (is_ascii_digit b); [apply IH|done].
Qed.

Lemma is_ascii_digit_dec n : (n < 10)%N -> is_ascii_digit (chr (48 + n)) = true.
Proof.
  intros H. unfold is_ascii_digit, in_range. rewrite ord_chr. unfold u8_wrap.
  rewrite wrap_small by lia. apply andb_true_iff. split; apply N.leb_le; lia.
Qed.

Lemma parse_digits_dec fuel n :
  (n < 10 ^ N.of_nat fuel)%N -> parse_digits 0 (dec_digits fuel n) = Some n.
Proof.
  revert n. induction fuel as [|f IH]; intros n Hn.
  { simpl in *. f_equal. lia. }
  rewrite Nat2N.inj_succ, N.pow_succ_r' in Hn. cbn [dec_digits].
  assert (Hm : (n mod 10 < 10)%N) by (apply N.mod_lt; done).
  rewrite parse_digits_app.
  assert (H1 : parse_digits 0 (if N.ltb n 10 then [] else dec_digits f (n / 10))
             = Some (n / 10)%N).
  { destruct (N.ltb_spec n 10).
    - simpl. by rewrite N.div_small.
    - apply IH. apply N.Div0.div_lt_upper_bound. lia. }
  rewrite H1. cbn [parse_digits]. rewrite is_ascii_digit_dec by done.
  rewrite ord_chr. unfold u8_wrap. rewrite wrap_small by lia.
  f_equal. pose proof (N.div_mod' n 10) as Hd. clear -Hd Hm. revert Hd Hm. generalize (n / 10)%N, (n mod 10)%N. lia.
Qed.

Lemma dec_fuel n : (n < 10 ^ N.of_nat (S (N.to_nat (N.size n))))%N.
Proof.
  rewrite Nat2N.inj_succ, N2Nat.id.
  apply N.lt_le_trans with (2 ^ N.size n)%N; [apply N.size_gt|].
  transitivity (2 ^ N.succ (N.size n))%N; [apply N.pow_le_mono_r; lia|].
  apply N.pow_le_mono_l. lia.
Qed.

Lemma parse_digits_dec_full n : parse_digits 0 (dec n) = Some n.
Proof. apply parse_digits_dec, dec_fuel. Qed.

Lemma dec_inj n m : dec n = dec m -> n = m.
Proof.
  intros H%(f_equal (parse_digits 0)). rewrite !parse_digits_dec_full in H. congruence.
Qed.

Lemma dec_digit_head fuel n :
  exists b t, dec_digits (S fuel) n = b :: t /\ is_ascii_digit b = true.
Proof.
  revert n. induction fuel as [|f IH]; intros n.
  - exists (chr (48 + n mod 10)), []. cbn [dec_digits].
    split; [by destruct (N.ltb n 10)|].
    apply is_ascii_digit_dec, N.mod_lt. done.
  - destruct (IH (n / 10)%N) as (b & t & E & Hb).
    cbn [dec_digits] in *. destruct (N.ltb n 10).
    + exists (chr (48 + n mod 10)), []. split; [done|].
      apply is_ascii_digit_dec, N.mod_lt. done.
    + rewrite E. simpl. eauto.
Qed.

Lemma parse_u64_dec n : (n < 2 ^ 64)%N -> parse_u64 (dec n) = Some n.
Proof.
  intros Hn. unfold parse_u64.
  destruct (dec_digit_head (N.to_nat (N.size n)) n) as (b & t & E & Hb).
  change (dec_digits _ n) with (dec n) in E.
  assert (strip_prefix (str "+") (dec n) = None) as ->.
  { destruct (strip_prefix (str "+") (dec n)) as [r|] eqn:S; [|done].
    apply strip_prefix_Some in S. rewrite E in S. simpl in S. by simplify_eq. }
  rewrite parse_digits_dec_full. rewrite E.
  by destruct (N.ltb_spec n (2 ^ 64)); [|lia].
Qed.

(** A needle is contained exactly when the text has it somewhere. *)
Lemma contains_spec needle s : contains needle s = true <-> exists a b, s = a ++ needle ++ b.
Proof.
  unfold contains. split.
  - intros H. assert (Hf : exists n, find needle s = Some n).
    { destruct (find needle s); [by eexists|done]. }
    clear H. destruct Hf as [n Hf]. revert n Hf. induction s as [|b s IH]; intros n Hf; cbn [find] in Hf.
    + destruct (starts_with needle []) eqn:E; [|done]. apply starts_with_spec in E as [r Hr].
      by exists [], r.
    + destruct (starts_with needle (b :: s)) eqn:E.
      * apply starts_with_spec in E as [r Hr]. by exists [], r.
      * destruct (find needle s) as [m|]; [|done]. destruct (IH m eq_refl) as (x & y & ->).
        by exists (b :: x), y.
  - intros (a & b & ->). induction a as [|c a IH]; cbn [app].
    + destruct needle as [|c needle]; [by destruct b|]. cbn [app find].
      change (c :: needle ++ b) with ((c :: needle) ++ b). by rewrite starts_with_app.
    + cbn [find]. destruct (starts_with needle (c :: a ++ needle ++ b)); [done|].
      by destruct (find needle (a ++ needle ++ b)).
Qed.

(** A text that contains a needle contains the needle's parts. *)
Lemma contains_infix p needle q s :
  contains (p ++ needle ++ q) s = true -> contains needle s = true.
Proof.
  rewrite !contains_spec. intros (a & b & ->). exists (a ++ p), (q ++ b). by rewrite <-!app_assoc.
Qed.

(** * ASCII text *)

(** A visible ASCII character. *)
Definition graphic (b : byte) : bool := in_range 33 126 b.

Lemma graphic_bounds b : graphic b = true -> (33 <= ord b <= 126)%N.
Proof. unfold graphic, in_range. intros [?%N.leb_le ?%N.leb_le]%andb_true_iff. lia. Qed.

Lemma utf8_chunks_ascii_cons b s :
  (ord b < 128)%N -> utf8_chunks (b :: s) = (true, [b]) :: utf8_chunks s.
Proof.
  intros Hb. apply (utf8_chunks_app_char [b] s 1); [|done].
  simpl. unfold utf8_tests. by rewrite (proj2 (N.ltb_lt _ _) Hb).
Qed.

Lemma chars_ascii_app s t : forallb graphic s = true -> chars (s ++ t) = map (fun b => [b]) s ++ chars t.
Proof.
  induction s as [|b s IH]; [done|]. cbn [forallb app]. intros [Hb Hs]%andb_true_iff.
  apply graphic_bounds in Hb. unfold chars in *. rewrite utf8_chunks_ascii_cons by lia.
  cbn [map snd app]. by rewrite IH.
Qed.

Lemma valid_utf8_ascii_app s t : forallb graphic s = true -> valid_utf8 (s ++ t) = valid_utf8 t.
Proof.
  induction s as [|b s IH]; [done|]. cbn [forallb app]. intros [Hb Hs]%andb_true_iff.
  apply graphic_bounds in Hb. unfold valid_utf8 in *. rewrite utf8_chunks_ascii_cons by lia.
  cbn [forallb fst andb]. by apply IH.
Qed.

Lemma graphic_not_whitespace b : graphic b = true -> is_whitespace [b] = false.
Proof.
  intros Hb%graphic_bounds. rewrite <-(chr_ord b). set (n := ord b) in *. clearbody n.
  assert (H : forallb (fun k => negb (is_whitespace [chr (N.of_nat k)])) (seq 33 94) = true)
    by (vm_compute; reflexivity).
  rewrite forallb_forall in H. specialize (H (N.to_nat n)). rewrite N2Nat.id in H.
  apply negb_true_iff, H, in_seq. lia.
Qed.

Lemma split_ws_word s cs :
  forallb graphic s = true ->
  split_ws (map (fun b => [b]) s ++ cs) =
  match split_ws cs with h :: q => (s ++ h) :: q | [] => [s] end.
Proof.
  intros Hs. induction s as [|b s IH].
  { simpl. destruct (split_ws cs) eqn:E; [|done]. destruct cs as [|c cs]; [done|].
    simpl in E. destruct (is_whitespace c); [done|]. by destruct (split_ws cs). }
  cbn [forallb] in Hs. apply andb_true_iff in Hs as [Hb Hs]. cbn [map app split_ws].
  rewrite graphic_not_whitespace by done. rewrite IH by done.
  by destruct (split_ws cs).
Qed.

Lemma chars_space s : chars (str " " ++ s) = [" "%char] :: chars s.
Proof. unfold chars. change (str " " ++ s) with (" "%char :: s). by rewrite utf8_chunks_ascii_cons by (vm_compute; done). Qed.

(** The words of a text of words separated by spaces. *)
Lemma split_whitespace_words w ws :
  Forall (fun w => w <> [] /\ forallb graphic w = true) (w :: ws) ->
  split_whitespace (join (str " ") (w :: ws)) = w :: ws.
Proof.
  intros Hws. unfold split_whitespace.
  assert (H : forall w ws, Forall (fun w => w <> [] /\ forallb graphic w = true) (w :: ws) ->
            split_ws (chars (join (str " ") (w :: ws))) = w :: ws).
  { clear. intros w ws. revert w. induction ws as [|v ws IH]; intros w Hws;
      inversion Hws as [|? ? [_ Hw] Hws']; subst.
    - cbn [join]. rewrite <-(app_nil_r w) at 1. rewrite chars_ascii_app, split_ws_word by done.
      cbn. by rewrite app_nil_r.
    - rewrite join_cons by done. rewrite chars_ascii_app, chars_space, split_ws_word by done.
      cbn [split_ws]. change (is_whitespace [" "%char]) with true. cbn iota.
      rewrite IH by done. by rewrite app_nil_r. }
  rewrite H by done. clear H. induction Hws as [|u us [Hu _] Hus IH]; [done|].
  cbn [List.filter]. destruct u; [done|]. simpl. by rewrite IH.
Qed.

(** Reading back words written with spaces between them. *)
Lemma split_lossy_words w ws :
  Forall (fun w => w <> [] /\ forallb graphic w = true) (w :: ws) ->
  split_whitespace (from_utf8_lossy (join (str " ") (w :: ws))) = w :: ws.
Proof.
  intros Hws. rewrite from_utf8_lossy_id; [by apply split_whitespace_words|].
  revert w Hws. induction ws as [|v ws IH]; intros w Hws; inversion Hws as [|? ? [_ Hw] Hws']; subst.
  - cbn [join]. rewrite <-(app_nil_r w). by rewrite valid_utf8_ascii_app.
  - rewrite join_cons by done. rewrite valid_utf8_ascii_app by done.
    change (str " " ++ ?s) with (" "%char :: s). unfold valid_utf8.
    rewrite utf8_chunks_ascii_cons by (vm_compute; done). cbn [forallb fst andb]. by apply IH.
Qed.

(** Splitting at a separator splits each side. *)
Lemma split_on_join_app c p q : split_on c (p ++ c :: q) = split_on c p ++ split_on c q.
Proof.
  induction p as [|b p IH]; cbn [app split_on].
  - rewrite Ascii.eqb_refl. done.
  - rewrite IH. destruct (Ascii.eqb b c); [done|].
    destruct (split_on c p) as [|h r] eqn:E; [by apply split_on_ne in E|done].
Qed.
