(* ===== verification/Proc.v ===== *)
(** Effectful request handlers.

    The server's handlers are asynchronous Rust functions that (a) run short
    critical sections on shared state, (b) send a request to the path router
    and wait for its reply, and (c) write reply messages; they end by returning
    a value, by returning an error through [?], or by panicking.  A handler is
    the tree of these actions ([proc]); its continuation after a critical
    section or a router call is a function of what it observed, so nothing is
    assumed about the other tasks that run between two actions.

    Three readings of the same tree are given: [run] executes it alone against
    a stateful backend; [may] lists every observable result under an arbitrary
    environment; [step] interleaves any number of handlers on one shared state.
    [wp] and [rg] are the proof rules for the last two. *)
From S2P Require Import Prelude.


Section proc.
Context {St Rq Rp M E : Type}.

Inductive proc (A : Type) : Type :=
| Ret (a : A)
| Fail (e : E)
| Panic
| Lock (upd : St -> St) (k : St -> proc A)   (* the state before [upd] goes to [k] *)
| Call (rq : Rq) (k : Rp -> proc A)
| Send (m : M) (k : proc A).

(** How a handler ends. *)
Inductive outcome (A : Type) : Type :=
| ORet (a : A)
| OFail (e : E)
| OPanic.
End proc.
Arguments proc : clear implicits.
Arguments outcome : clear implicits.
Arguments Ret {St Rq Rp M E A} a.
Arguments Fail {St Rq Rp M E A} e.
Arguments Panic {St Rq Rp M E A}.
Arguments Lock {St Rq Rp M E A} upd k.
Arguments Call {St Rq Rp M E A} rq k.
Arguments Send {St Rq Rp M E A} m k.
Arguments ORet {E A} a.
Arguments OFail {E A} e.
Arguments OPanic {E A}.

Section combinators.
Context {St Rq Rp M E : Type}.
Abbreviation proc := (proc St Rq Rp M E).

Fixpoint bind {A B} (p : proc A) (f : A -> proc B) : proc B :=
  match p with
  | Ret a => f a
  | Fail e => Fail e
  | Panic => Panic
  | Lock upd k => Lock upd (fun s => bind (k s) f)
  | Call rq k => Call rq (fun r => bind (k r) f)
  | Send m k => Send m (bind k f)
  end.

(** [if let Err(e) = p { h(e) }] *)
Fixpoint catch {A} (p : proc A) (h : E -> proc A) : proc A :=
  match p with
  | Ret a => Ret a
  | Fail e => h e
  | Panic => Panic
  | Lock upd k => Lock upd (fun s => catch (k s) h)
  | Call rq k => Call rq (fun r => catch (k r) h)
  | Send m k => Send m (catch k h)
  end.

(** Reading and updating the shared state in one critical section. *)
Definition get {A} (f : St -> A) : proc A := Lock id (fun s => Ret (f s)).
Definition update (f : St -> St) : proc unit := Lock f (fun _ => Ret tt).
Definition modify {A} (f : St -> A * St) : proc A :=
  Lock (fun s => snd (f s)) (fun s => Ret (fst (f s))).
Definition send (m : M) : proc unit := Send m (Ret tt).
Definition call (rq : Rq) : proc Rp := Call rq Ret.

(** [o.ok_or(e)?], and [o.unwrap()] or an indexing that panics. *)
Definition ok_or {A} (o : option A) (e : E) : proc A :=
  match o with Some a => Ret a | None => Fail e end.
Definition unwrap {A} (o : option A) : proc A :=
  match o with Some a => Ret a | None => Panic end.
(** [if cond { return Err(e) }] *)
Definition fail_if (b : bool) (e : E) : proc unit :=
  if b then Fail e else Ret tt.
End combinators.

Declare Scope proc_scope.
Delimit Scope proc_scope with proc.
Notation "'let!' x ':=' p 'in' q" := (bind p (fun x => q))
  (at level 200, x name, p at level 100, q at level 200, right associativity) : proc_scope.
Notation "'let!' ' x ':=' p 'in' q" := (bind p (fun x => q))
  (at level 200, x strict pattern, p at level 100, q at level 200, right associativity) : proc_scope.
Notation "p ';!' q" := (bind p (fun _ => q))
  (at level 200, q at level 200, right associativity) : proc_scope.

(** * Sequential execution against a backend *)
Section run.
Context {St Rq Rp M E W : Type}.
Variable backend : W -> Rq -> W * Rp.

Fixpoint run {A} (p : proc St Rq Rp M E A) (w : W) (s : St) :
    outcome E A * W * St * list M :=
  match p with
  | Ret a => (ORet a, w, s, [])
  | Fail e => (OFail e, w, s, [])
  | Panic => (OPanic, w, s, [])
  | Lock upd k => run (k s) w (upd s)
  | Call rq k => let '(w', r) := backend w rq in run (k r) w' s
  | Send m k => let '(o, w', s', ms) := run k w s in (o, w', s', m :: ms)
  end.

Lemma run_bind {A B} (p : proc St Rq Rp M E A) (f : A -> proc St Rq Rp M E B) w s :
  run (bind p f) w s =
  match run p w s with
  | (ORet a, w', s', ms) =>
      let '(o, w'', s'', ms') := run (f a) w' s' in (o, w'', s'', ms ++ ms')
  | (OFail e, w', s', ms) => (OFail e, w', s', ms)
  | (OPanic, w', s', ms) => (OPanic, w', s', ms)
  end.
Proof.
  revert w s. induction p as [a|e| |upd k IH|rq k IH|m k IH]; intros w s; simpl.
  - by destruct (run (f a) w s) as [[[??]?]?].
  - done.
  - done.
  - apply IH.
  - destruct (backend w rq) as [w' r]. apply IH.
  - rewrite IH. destruct (run k w s) as [[[[a|e|] w'] s'] ms]; [|done..].
    by destruct (run (f a) w' s') as [[[??]?]?].
Qed.

Lemma run_catch {A} (p : proc St Rq Rp M E A) (h : E -> proc St Rq Rp M E A) w s :
  run (catch p h) w s =
  match run p w s with
  | (OFail e, w', s', ms) =>
      let '(o, w'', s'', ms') := run (h e) w' s' in (o, w'', s'', ms ++ ms')
  | r => r
  end.
Proof.
  revert w s. induction p as [a|e| |upd k IH|rq k IH|m k IH]; intros w s; simpl.
  - done.
  - by destruct (run (h e) w s) as [[[??]?]?].
  - done.
  - apply IH.
  - destruct (backend w rq) as [w' r]. apply IH.
  - rewrite IH. destruct (run k w s) as [[[[a|e|] w'] s'] ms]; [done| |done].
    by destruct (run (h e) w' s') as [[[??]?]?].
Qed.
End run.

(** * Every observable result, whatever the environment does *)
Section may.
Context {St Rq Rp M E : Type}.
Abbreviation proc := (proc St Rq Rp M E).

(** [may p ms o]: in some environment [p] sends [ms] and ends with [o]. *)
Inductive may {A} : proc A -> list M -> outcome E A -> Prop :=
| may_ret a : may (Ret a) [] (ORet a)
| may_fail e : may (Fail e) [] (OFail e)
| may_panic : may Panic [] OPanic
| may_lock upd k s ms o : may (k s) ms o -> may (Lock upd k) ms o
| may_call rq k r ms o : may (k r) ms o -> may (Call rq k) ms o
| may_send m k ms o : may k ms o -> may (Send m k) (m :: ms) o.

Fixpoint wp {A} (p : proc A) (Q : list M -> outcome E A -> Prop) : Prop :=
  match p with
  | Ret a => Q [] (ORet a)
  | Fail e => Q [] (OFail e)
  | Panic => Q [] OPanic
  | Lock upd k => forall s, wp (k s) Q
  | Call rq k => forall r, wp (k r) Q
  | Send m k => wp k (fun ms o => Q (m :: ms) o)
  end.

Lemma wp_sound {A} (p : proc A) Q ms o : wp p Q -> may p ms o -> Q ms o.
Proof.
  intros Hw Hm. revert Q Hw.
  induction Hm as [| | |upd k s ms o Hm IH|rq k r ms o Hm IH|m k ms o Hm IH];
    intros Q Hw; simpl in Hw; try done.
  - eapply IH, Hw.
  - eapply IH, Hw.
  - exact (IH _ Hw).
Qed.

Lemma wp_mono {A} (p : proc A) (Q Q' : list M -> outcome E A -> Prop) :
  (forall ms o, Q ms o -> Q' ms o) -> wp p Q -> wp p Q'.
Proof.
  revert Q Q'. induction p as [a|e| |upd k IH|rq k IH|m k IH];
    intros Q Q' HQ; simpl; eauto.
  apply IH. eauto.
Qed.

Lemma wp_may {A} (p : proc A) : wp p (may p).
Proof.
  induction p as [a|e| |upd k IH|rq k IH|m k IH]; simpl; try constructor.
  - intros s. eapply wp_mono; [|apply IH]. intros ms o. apply may_lock.
  - intros r. eapply wp_mono; [|apply IH]. intros ms o. apply may_call.
  - eapply wp_mono; [|exact IH]. intros ms o. apply may_send.
Qed.

Lemma wp_and {A} (p : proc A) Q Q' : wp p Q -> wp p Q' -> wp p (fun ms o => Q ms o /\ Q' ms o).
Proof.
  intros H H'. eapply wp_mono; [|apply wp_may]. intros ms o Hm.
  split; eapply wp_sound; eassumption.
Qed.

(** Continue after a sub-handler that returned; propagate [Err] and panics. *)
Definition wp_then {A B} (f : A -> proc B) (Q : list M -> outcome E B -> Prop)
    (ms : list M) (o : outcome E A) : Prop :=
  match o with
  | ORet a => wp (f a) (fun ms' o' => Q (ms ++ ms') o')
  | OFail e => Q ms (OFail e)
  | OPanic => Q ms OPanic
  end.

Lemma wp_bind {A B} (p : proc A) (f : A -> proc B) Q :
  wp p (wp_then f Q) -> wp (bind p f) Q.
Proof.
  revert Q. induction p as [a|e| |upd k IH|rq k IH|m k IH]; intros Q; simpl; auto.
Qed.

Lemma wp_catch {A} (p : proc A) (h : E -> proc A) Q :
  wp p (fun ms o => match o with
                    | OFail e => wp (h e) (fun ms' o' => Q (ms ++ ms') o')
                    | o => Q ms o
                    end) -> wp (catch p h) Q.
Proof.
  revert Q. induction p as [a|e| |upd k IH|rq k IH|m k IH]; intros Q; simpl; auto.
Qed.

Lemma may_complete {A} (p : proc A) :
  inhabited St -> inhabited Rp -> exists ms o, may p ms o.
Proof.
  intros [s] [r]. induction p as [a|e| |upd k IH|rq k IH|m k [ms [o IH]]].
  - eauto using may_ret.
  - eauto using may_fail.
  - eauto using may_panic.
  - destruct (IH s) as (ms & o & H). eauto using may_lock.
  - destruct (IH r) as (ms & o & H). eauto using may_call.
  - eauto using may_send.
Qed.
End may.

(** What one run sends and returns is among the possible results. *)
Lemma run_may {St Rq Rp M E W A} (backend : W -> Rq -> W * Rp)
    (p : proc St Rq Rp M E A) w s o w' s' ms :
  run backend p w s = (o, w', s', ms) -> may p ms o.
Proof.
  revert w s w' s' ms. induction p as [a|e| |upd k IH|rq k IH|m k IH];
    intros w s w' s' ms; simpl.
  - intros [= <- <- <- <-]. apply may_ret.
  - intros [= <- <- <- <-]. apply may_fail.
  - intros [= <- <- <- <-]. apply may_panic.
  - intros H. eapply may_lock, IH, H.
  - destruct (backend w rq) as [w1 r]. intros H. eapply may_call, IH, H.
  - destruct (run backend k w s) as [[[o1 w1] s1] ms1] eqn:H.
    intros [= <- <- <- <-]. eapply may_send, IH, H.
Qed.

(** * Interleaved execution

    A pool of handlers runs on one shared state: each step is one action of one
    handler, the reply to a router call being arbitrary. *)
Section interleave.
Context {St Rq Rp M E A : Type}.
Abbreviation proc := (proc St Rq Rp M E).

Inductive action : St -> proc A -> St -> proc A -> Prop :=
| act_lock upd k s : action s (Lock upd k) (upd s) (k s)
| act_call rq k r s : action s (Call rq k) s (k r)
| act_send m k s : action s (Send m k) s k.

Definition pool : Type := St * list (proc A).

Inductive step : pool -> pool -> Prop :=
| step_at s s' i p p' ps :
    ps !! i = Some p -> action s p s' p' -> step (s, ps) (s', <[i:=p']> ps).
End interleave.
Arguments pool : clear implicits.

(** A protocol on the shared state: an invariant, a preorder every critical
    section moves along, and a counter that bounds how far one section moves
    (so that a run of fewer than [cap] steps cannot exhaust it). *)
Record protocol (St : Type) := Protocol {
  inv : St -> Prop;
  rely : St -> St -> Prop;
  used : St -> N;
  cap : N;
  rely_preorder : PreOrder rely;
}.
Arguments inv {St} _ _.
Arguments rely {St} _ _ _.
Arguments used {St} _ _.
Arguments cap {St} _.
Arguments rely_preorder {St} _.

Section rely_guarantee.
Context {St Rq Rp M E : Type} (P : protocol St).
Abbreviation proc := (proc St Rq Rp M E).
#[local] Existing Instance rely_preorder.

(** [rg p s0 Q]: from any state that follows [s0], [p] keeps the protocol,
    and when it ends [Q] holds of the last state it observed. *)
Fixpoint rg {A} (p : proc A) (s0 : St) (Q : St -> outcome E A -> Prop) : Prop :=
  match p with
  | Ret a => Q s0 (ORet a)
  | Fail e => Q s0 (OFail e)
  | Panic => Q s0 OPanic
  | Lock upd k =>
      forall s, rely P s0 s -> inv P s -> (used P s + 1 < cap P)%N ->
        inv P (upd s) /\ rely P s (upd s) /\ (used P (upd s) <= used P s + 1)%N /\
        rg (k s) (upd s) Q
  | Call rq k => forall r, rg (k r) s0 Q
  | Send m k => rg k s0 Q
  end.

Lemma rg_mono {A} (p : proc A) s0 (Q Q' : St -> outcome E A -> Prop) :
  (forall s o, rely P s0 s -> Q s o -> Q' s o) -> rg p s0 Q -> rg p s0 Q'.
Proof.
  revert s0. induction p as [a|e| |upd k IH|rq k IH|m k IH]; intros s0 HQ; simpl;
    try (apply HQ; reflexivity).
  - intros H s Hr Hi Hu. destruct (H s Hr Hi Hu) as (H1 & H2 & H3 & H4).
    repeat split; try done. eapply IH, H4. intros s' o Hs'. apply HQ.
    etrans; [exact Hr|]. etrans; [exact H2|done].
  - eauto.
  - eauto.
Qed.

Lemma rg_bind {A B} (p : proc A) (f : A -> proc B) s0 Q :
  rg p s0 (fun s o => match o with
                      | ORet a => rg (f a) s Q
                      | OFail e => Q s (OFail e)
                      | OPanic => Q s OPanic
                      end) -> rg (bind p f) s0 Q.
Proof.
  revert s0. induction p as [a|e| |upd k IH|rq k IH|m k IH]; intros s0; simpl; auto.
  intros H s Hr Hi Hu. destruct (H s Hr Hi Hu) as (H1 & H2 & H3 & H4). eauto 6.
Qed.

Lemma rg_catch {A} (p : proc A) (h : E -> proc A) s0 Q :
  rg p s0 (fun s o => match o with
                      | OFail e => rg (h e) s Q
                      | o => Q s o
                      end) -> rg (catch p h) s0 Q.
Proof.
  revert s0. induction p as [a|e| |upd k IH|rq k IH|m k IH]; intros s0; simpl; auto.
  intros H s Hr Hi Hu. destruct (H s Hr Hi Hu) as (H1 & H2 & H3 & H4). eauto 6.
Qed.

(** The pool satisfies the protocol when the shared state does and each
    handler is correct from some earlier state. *)
Definition pool_ok {A} (c : pool St Rq Rp M E A) : Prop :=
  inv P (fst c) /\
  forall i p, snd c !! i = Some p ->
    exists s0, rely P s0 (fst c) /\ rg p s0 (fun _ _ => True).

Lemma step_ok {A} (c c' : pool St Rq Rp M E A) :
  (used P (fst c) + 1 < cap P)%N -> pool_ok c -> step c c' ->
  pool_ok c' /\ (used P (fst c') <= used P (fst c) + 1)%N.
Proof.
  intros Hu [Hi Hps] Hs. inversion Hs as [s s' i p p' ps Hp Ha]; subst; simpl in *.
  assert (Hstep : inv P s' /\ rely P s s' /\ (used P s' <= used P s + 1)%N /\
                  exists s0, rely P s0 s' /\ rg p' s0 (fun _ _ => True)).
  { destruct (Hps _ _ Hp) as (s0 & Hr0 & Hrg). destruct Ha as [upd k s|rq k r s|m k s].
    - destruct (Hrg s Hr0 Hi Hu) as (H1 & H2 & H3 & H4).
      repeat split; try done. exists (upd s). split; [reflexivity|done].
    - split_and!; [done|reflexivity|lia|]. exists s0. split; [done|apply Hrg].
    - split_and!; [done|reflexivity|lia|]. exists s0. split; [done|apply Hrg]. }
  destruct Hstep as (H1 & H2 & H3 & H4). split; [split|]; [done| |done].
  intros j q Hq. simpl in Hq. destruct (decide (i = j)) as [<-|Hne].
  - rewrite list_lookup_insert_eq in Hq by by eapply lookup_lt_Some.
    by simplify_eq.
  - rewrite list_lookup_insert_ne in Hq by done.
    destruct (Hps _ _ Hq) as (s0 & Hr0 & Hrg). exists s0. split; [|done].
    by etrans.
Qed.

Theorem steps_ok {A} n (c c' : pool St Rq Rp M E A) :
  (used P (fst c) + N.of_nat n < cap P)%N -> pool_ok c -> nsteps step n c c' ->
  pool_ok c' /\ (used P (fst c') <= used P (fst c) + N.of_nat n)%N.
Proof.
  intros Hu Hc Hn. revert Hu Hc. induction Hn as [c|n c1 c2 c3 Hs Hn IH]; intros Hu Hc.
  - split; [done|lia].
  - destruct (step_ok c1 c2) as [H2 H2u]; [lia|done..|].
    destruct IH as [H3 H3u]; [lia|done|]. split; [done|lia].
Qed.
End rely_guarantee.

(** Rules of [rg] for the combinators; [ret_post R] speaks of normal returns. *)
Section rg_rules.
Context {St Rq Rp M E : Type} (P : protocol St).
Abbreviation proc := (proc St Rq Rp M E).
#[local] Existing Instance rely_preorder.

Definition ret_post {A} (R : St -> A -> Prop) (s : St) (o : outcome E A) : Prop :=
  match o with ORet a => R s a | _ => True end.

(** A critical section keeps the protocol. *)
Definition keeps (s s' : St) : Prop :=
  inv P s' /\ rely P s s' /\ (used P s' <= used P s + 1)%N.

Lemma keeps_refl s : inv P s -> keeps s s.
Proof. intros. split_and!; [done|reflexivity|lia]. Qed.

Context {A B : Type} (R : St -> B -> Prop).

Lemma rg_fail_if b e (k : unit -> proc B) s0 :
  (b = false -> rg P (k tt) s0 (ret_post R)) ->
  rg P (bind (fail_if b e) k) s0 (ret_post R).
Proof. destruct b; simpl; auto. Qed.

Lemma rg_unwrap (o : option A) (k : A -> proc B) s0 :
  (forall a, o = Some a -> rg P (k a) s0 (ret_post R)) ->
  rg P (bind (unwrap o) k) s0 (ret_post R).
Proof. destruct o; simpl; auto. Qed.

Lemma rg_get (f : St -> A) (k : A -> proc B) s0 :
  (forall s, rely P s0 s -> inv P s -> rg P (k (f s)) s (ret_post R)) ->
  rg P (bind (get f) k) s0 (ret_post R).
Proof. intros H s Hr Hi _. split_and!; [done|reflexivity|unfold id; lia|]. by apply H. Qed.

Lemma rg_update f (k : unit -> proc B) s0 :
  (forall s, rely P s0 s -> inv P s -> (used P s + 1 < cap P)%N ->
     keeps s (f s) /\ rg P (k tt) (f s) (ret_post R)) ->
  rg P (bind (update f) k) s0 (ret_post R).
Proof. intros H s Hr Hi Hu. destruct (H s Hr Hi Hu) as [(?&?&?) ?]. done. Qed.

Lemma rg_modify (f : St -> A * St) (k : A -> proc B) s0 :
  (forall s, rely P s0 s -> inv P s -> (used P s + 1 < cap P)%N ->
     keeps s (snd (f s)) /\ rg P (k (fst (f s))) (snd (f s)) (ret_post R)) ->
  rg P (bind (modify f) k) s0 (ret_post R).
Proof. intros H s Hr Hi Hu. destruct (H s Hr Hi Hu) as [(?&?&?) ?]. done. Qed.

Lemma rg_call rq (k : Rp -> proc B) s0 :
  (forall r, rg P (k r) s0 (ret_post R)) -> rg P (bind (call rq) k) s0 (ret_post R).
Proof. simpl. auto. Qed.

Lemma rg_ret (a : A) (k : A -> proc B) s0 :
  rg P (k a) s0 (ret_post R) -> rg P (bind (Ret a) k) s0 (ret_post R).
Proof. done. Qed.

(** A sub-handler with its own postcondition. *)
Lemma rg_sub (p : proc A) (k : A -> proc B) s0 (R' : St -> A -> Prop) :
  rg P p s0 (ret_post R') ->
  (forall s a, rely P s0 s -> R' s a -> rg P (k a) s (ret_post R)) ->
  rg P (bind p k) s0 (ret_post R).
Proof.
  intros Hp Hk. apply rg_bind. eapply rg_mono; [|exact Hp].
  intros s [a|e|] Hr; simpl; auto.
Qed.
End rg_rules.
