(* ===== verification/Wire.v ===== *)
(** The 9P2000 wire format of [src/src/frontend/ninep.rs]: little-endian
    integers, message framing, qids, directory entries (stat records) and the
    frames of the multiplexer. *)
From S2P Require Import Prelude.

(** * Little-endian integers *)

(** [n.to_le_bytes()] of an integer of [k] bytes. *)
Fixpoint le_bytes (k : nat) (n : N) : bytes :=
  match k with
  | O => []
  | S k => chr n :: le_bytes k (n / 256)
  end.

(** [uN::from_le_bytes(bs)] *)
Fixpoint le_val (bs : bytes) : N :=
  match bs with
  | [] => 0
  | b :: t => ord b + 256 * le_val t
  end.

Definition u16_le : N -> bytes := le_bytes 2.
Definition u32_le : N -> bytes := le_bytes 4.
Definition u64_le : N -> bytes := le_bytes 8.

(** [&b[i..j]]; [None] is the panic of an out-of-range index. *)
Definition get_slice (i j : nat) (b : bytes) : option bytes :=
  if Nat.leb i j && Nat.leb j (length b) then Some (slice i j b) else None.

(** [uN::from_le_bytes(b[i..i+k].try_into().unwrap())] *)
Definition get_le (k i : nat) (b : bytes) : option N :=
  le_val <$> get_slice i (i + k) b.
Definition get_u16 : nat -> bytes -> option N := get_le 2.
Definition get_u32 : nat -> bytes -> option N := get_le 4.
Definition get_u64 : nat -> bytes -> option N := get_le 8.
(** [b[i]] *)
Definition get_u8 (i : nat) (b : bytes) : option N := ord <$> b !! i.

(** * Message types *)
Definition TVERSION : N := 100.
Definition RVERSION : N := 101.
Definition TATTACH : N := 104.
Definition RATTACH : N := 105.
Definition RERROR : N := 107.
Definition TFLUSH : N := 108.
Definition RFLUSH : N := 109.
Definition TWALK : N := 110.
Definition RWALK : N := 111.
Definition TOPEN : N := 112.
Definition ROPEN : N := 113.
Definition TCREATE : N := 114.
Definition RCREATE : N := 115.
Definition TREAD : N := 116.
Definition RREAD : N := 117.
Definition TWRITE : N := 118.
Definition RWRITE : N := 119.
Definition TCLUNK : N := 120.
Definition RCLUNK : N := 121.
Definition TREMOVE : N := 122.
Definition RREMOVE : N := 123.
Definition TSTAT : N := 124.
Definition RSTAT : N := 125.
Definition TWSTAT : N := 126.
Definition RWSTAT : N := 127.

(** * Qids and directory entries *)
Record Qid := mkQid { qid_ty : N; qid_version : N; qid_path : N }.

#[export] Instance Qid_eq_dec : EqDecision Qid.
Proof. solve_decision. Defined.

Definition encode_qid (q : Qid) : bytes :=
  [chr (qid_ty q)] ++ u32_le (qid_version q) ++ u64_le (qid_path q).

(** The body of a directory entry; [now] is the clock in seconds. *)
Definition stat_body (now : N) (name : bytes) (qid : Qid) (length : N) (is_dir : bool) : bytes :=
  let mode := if is_dir then 0x800001ed%N else 0x1ed%N in
  u16_le 0 ++ u32_le 0 ++ encode_qid qid ++ u32_le mode ++
  u32_le now ++ u32_le now ++ u64_le length ++
  u16_le (lenN name) ++ name ++
  u16_le 2 ++ str "0" ++ u16_le 2 ++ str "0" ++ u16_le 2 ++ str "0".

Definition encode_stat (now : N) (name : bytes) (qid : Qid) (length : N) (is_dir : bool) : bytes :=
  let body := stat_body now name qid length is_dir in
  u16_le (lenN body) ++ body.

(** * Replies *)

(** The bytes [send_reply] writes. *)
Definition send_reply (msg_type tag : N) (body : bytes) : bytes :=
  u32_le (7 + lenN body) ++ [chr msg_type] ++ u16_le tag ++ body.

(** The bytes [send_error] writes. *)
Definition send_error (tag : N) (err : bytes) : bytes :=
  let len := N.min (lenN err) 65535 in
  send_reply RERROR tag (u16_le len ++ take (N.to_nat len) err).

(** * Multiplexer frames: [stream_id:4][payload_len:4][payload...] *)
Definition encode_mux_frame (stream_id : N) (payload : bytes) : bytes :=
  u32_le stream_id ++ u32_le (lenN payload) ++ payload.

Definition decode_mux_header (header : bytes) : option (N * N) :=
  match get_u32 0 header, get_u32 4 header with
  | Some stream_id, Some len => Some (stream_id, len)
  | _, _ => None
  end.

(** * Lemmas: integers *)
Lemma length_le_bytes k n : length (le_bytes k n) = k.
Proof. revert n. induction k as [|k IH]; intros n; simpl; [done|]. by rewrite IH. Qed.

Lemma le_val_bytes k n : le_val (le_bytes k n) = wrap (8 * N.of_nat k) n.
Proof.
  revert n. induction k as [|k IH]; intros n.
  { unfold wrap. simpl. by rewrite N.mod_1_r. }
  cbn [le_bytes le_val]. rewrite IH, ord_chr. unfold u8_wrap, wrap.
  replace (8 * N.of_nat (S k))%N with (8 + 8 * N.of_nat k)%N by lia.
  rewrite N.pow_add_r. change (2 ^ 8)%N with 256%N.
  rewrite N.Div0.mod_mul_r. lia.
Qed.

Lemma le_val_small k n : (n < 2 ^ (8 * N.of_nat k))%N -> le_val (le_bytes k n) = n.
Proof. intros. rewrite le_val_bytes. by apply wrap_small. Qed.

Lemma le_val_lt bs : (le_val bs < 2 ^ (8 * lenN bs))%N.
Proof.
  unfold lenN. induction bs as [|b bs IH]; [done|].
  cbn [le_val length]. pose proof (ord_lt b).
  replace (8 * N.of_nat (S (length bs)))%N with (8 + 8 * N.of_nat (length bs))%N by lia.
  rewrite N.pow_add_r. change (2 ^ 8)%N with 256%N. lia.
Qed.

Lemma le_bytes_val bs : le_bytes (length bs) (le_val bs) = bs.
Proof.
  induction bs as [|b bs IH]; [done|]. cbn [length le_val le_bytes].
  pose proof (ord_lt b). f_equal.
  - rewrite <-(chr_ord b) at 2. unfold chr. f_equal. unfold u8_wrap, wrap.
    change (2 ^ 8)%N with 256%N. rewrite N.mul_comm, N.Div0.mod_add.
    reflexivity.
  - rewrite N.mul_comm, N.div_add, N.div_small by lia. by rewrite N.add_0_l.
Qed.

Lemma le_bytes_split j k n :
  le_bytes (j + k) n = le_bytes j n ++ le_bytes k (n / 2 ^ (8 * N.of_nat j)).
Proof.
  revert n. induction j as [|j IH]; intros n; [by rewrite N.div_1_r|].
  cbn [Nat.add le_bytes app]. rewrite IH. do 3 f_equal.
  rewrite N.Div0.div_div. f_equal. change 256%N with (2 ^ 8)%N. rewrite <-N.pow_add_r.
  f_equal. lia.
Qed.

Lemma le_bytes_join j k a b :
  (a < 2 ^ (8 * N.of_nat j))%N ->
  le_bytes j a ++ le_bytes k b = le_bytes (j + k) (a + b * 2 ^ (8 * N.of_nat j)).
Proof.
  intros Ha. rewrite le_bytes_split. f_equal.
  - assert (H : forall m, le_bytes j (a + m * 2 ^ (8 * N.of_nat j)) = le_bytes j a).
    { clear b k. intros m. revert a Ha m. induction j as [|j IH]; intros a Ha m; [done|].
      cbn [le_bytes]. replace (8 * N.of_nat (S j))%N with (8 + 8 * N.of_nat j)%N in * by lia.
      rewrite N.pow_add_r in *. change (2 ^ 8)%N with 256%N in *.
      replace (a + m * (256 * 2 ^ (8 * N.of_nat j)))%N
        with (a + (m * 2 ^ (8 * N.of_nat j)) * 256)%N by lia.
      rewrite N.div_add by done. f_equal.
      - unfold chr, u8_wrap, wrap. change (2 ^ 8)%N with 256%N. by rewrite N.Div0.mod_add.
      - apply IH. apply N.Div0.div_lt_upper_bound. lia. }
    by rewrite H.
  - f_equal. rewrite N.div_add, N.div_small by (try done; by apply N.pow_nonzero).
    by rewrite N.add_0_l.
Qed.

Lemma get_slice_Some i j b :
  i <= j -> j <= length b -> get_slice i j b = Some (slice i j b).
Proof.
  intros. unfold get_slice.
  by rewrite (proj2 (Nat.leb_le i j)), (proj2 (Nat.leb_le j (length b))).
Qed.

Lemma get_slice_None i j b : length b < j -> get_slice i j b = None.
Proof.
  intros. unfold get_slice.
  by rewrite (proj2 (Nat.leb_gt j (length b))), andb_false_r.
Qed.

Lemma get_le_is_Some k i b : i + k <= length b -> is_Some (get_le k i b).
Proof. intros. unfold get_le. rewrite get_slice_Some by lia. simpl. eauto. Qed.

Lemma get_le_lt k i b n : get_le k i b = Some n -> (n < 2 ^ (8 * N.of_nat k))%N.
Proof.
  unfold get_le, get_slice. destruct (_ && _) eqn:E; [|discriminate].
  intros [= <-]. apply andb_true_iff in E as [?%Nat.leb_le ?%Nat.leb_le].
  eapply N.lt_le_trans; [apply le_val_lt|].
  apply N.pow_le_mono_r; [done|]. unfold lenN. rewrite length_slice by done. lia.
Qed.

(** Reading back the integer written at an offset. *)
Lemma get_le_app k i pre n post :
  length pre = i -> (n < 2 ^ (8 * N.of_nat k))%N ->
  get_le k i (pre ++ le_bytes k n ++ post) = Some n.
Proof.
  intros Hi Hn. unfold get_le.
  rewrite get_slice_Some by (rewrite ?length_app, ?length_le_bytes; lia).
  rewrite slice_app_mid by (rewrite ?length_le_bytes; lia).
  simpl. by rewrite le_val_small.
Qed.

Lemma get_slice_app i j pre s post :
  length pre = i -> i + length s = j -> get_slice i j (pre ++ s ++ post) = Some s.
Proof.
  intros Hi Hj. rewrite get_slice_Some by (rewrite ?length_app; lia).
  by rewrite slice_app_mid by lia.
Qed.

#[export] Hint Rewrite length_le_bytes : pinhead.
Lemma length_u16_le n : length (u16_le n) = 2. Proof. done. Qed.
Lemma length_u32_le n : length (u32_le n) = 4. Proof. done. Qed.
Lemma length_u64_le n : length (u64_le n) = 8. Proof. done. Qed.
Lemma length_encode_qid q : length (encode_qid q) = 13. Proof. done. Qed.
#[export] Hint Rewrite length_u16_le length_u32_le length_u64_le length_encode_qid : pinhead.

Lemma length_send_reply ty tag body : length (send_reply ty tag body) = 7 + length body.
Proof. unfold send_reply. by autorewrite with pinhead. Qed.

Lemma length_stat_body now name q len d : length (stat_body now name q len d) = 50 + length name.
Proof. unfold stat_body. autorewrite with pinhead. simpl. lia. Qed.

(** Reading eight bytes that start two bytes before a 64-bit field. *)
Lemma get_u64_straddle i pre a b post :
  length pre + 2 = i -> (a < 2 ^ 32)%N -> (b < 2 ^ 48)%N ->
  get_u64 i (pre ++ le_bytes 4 a ++ le_bytes 8 b ++ post) = Some (a / 65536 + b * 65536)%N /\
  get_u16 (i + 8) (pre ++ le_bytes 4 a ++ le_bytes 8 b ++ post) = Some 0%N.
Proof.
  intros Hi Ha Hb.
  assert (H4 : le_bytes 4 a = le_bytes 2 a ++ le_bytes 2 (a / 65536)) by apply (le_bytes_split 2 2).
  assert (H8 : le_bytes 8 b = le_bytes 6 b ++ le_bytes 2 0).
  { rewrite (le_bytes_split 6 2). by rewrite N.div_small. }
  assert (Hj : le_bytes 2 (a / 65536) ++ le_bytes 6 b = le_bytes 8 (a / 65536 + b * 65536)).
  { apply le_bytes_join. by apply N.Div0.div_lt_upper_bound. }
  rewrite H4, H8, <-!app_assoc, (app_assoc (le_bytes 2 (a / 65536))), Hj. rewrite app_assoc. split.
  - apply (get_le_app 8); [rewrite length_app, length_le_bytes; lia|].
    assert (a / 65536 < 65536)%N by by apply N.Div0.div_lt_upper_bound. simpl. lia.
  - rewrite app_assoc. apply (get_le_app 2); [|done].
    rewrite !length_app, !length_le_bytes. lia.
Qed.
