(* ===== verification/Router.v ===== *)
(** The path router: [src/src/fsop.rs], [src/src/router.rs] and the part of
    [src/src/main.rs] that merges the route registrations into the table the
    router is built from.

    The trie of the [matchit] crate and the handler task behind the channel are
    parameters ([at_path], [handler]). *)
From S2P Require Import Prelude RustStr.

(** * Filesystem operations ([fsop.rs]) *)
Inductive FsOperation :=
| Lookup | GetAttr | SetAttr | ReadDir | MkDir | RmDir | OpenDir
| Open | Create | Read | Write | Release | Rename | Unlink.

#[export] Instance FsOperation_eq_dec : EqDecision FsOperation.
Proof. solve_decision. Defined.

Definition as_str (op : FsOperation) : bytes :=
  match op with
  | Lookup => str "lookup"
  | GetAttr => str "getattr"
  | SetAttr => str "setattr"
  | ReadDir => str "readdir"
  | MkDir => str "mkdir"
  | RmDir => str "rmdir"
  | OpenDir => str "opendir"
  | Open => str "open"
  | Create => str "create"
  | Read => str "read"
  | Write => str "write"
  | Release => str "release"
  | Rename => str "rename"
  | Unlink => str "unlink"
  end.

(** * Requests and responses *)

(** What a frontend sends; its reply channel is the result of [dispatch]. *)
Record Request := mkRequest {
  req_op : FsOperation;
  req_path : bytes;
  req_data : bytes;
}.

Record HandlerRequest := mkHandlerRequest {
  hreq_params : gmap bytes bytes;
  hreq_data : bytes;
  hreq_handler_name : bytes;
}.

Record HandlerResponse := mkHandlerResponse {
  resp_data : bytes;
  resp_matched_pattern : option bytes;
  resp_has_children : bool;
}.

#[export] Instance Request_eq_dec : EqDecision Request.
Proof. solve_decision. Defined.

(** What a frontend observes of its request: the router's channel is closed,
    the reply channel was dropped, or a reply arrived. *)
Inductive route_reply :=
| RouterGone
| HandlerGone
| Replied (r : result HandlerResponse bytes).

(** What the router observes of a handler request. *)
Inductive handler_reply :=
| SendFailed
| NoReply
| HReplied (r : result HandlerResponse bytes).

(** * Route table *)
Record RouteMeta := mkRouteMeta {
  rm_handlers : gmap bytes bytes;
  rm_pattern : bytes;
}.

(** A registration made by the Lua script ([handler.rs]). *)
Record RouteRegistration := mkRouteRegistration {
  rr_pattern : bytes;
  rr_handler_name : bytes;
  rr_ops : list bytes;
}.

(** The loop of [main] that merges the registrations by pattern. *)
Definition insert_ops (r : RouteRegistration) (m : RouteMeta) : RouteMeta :=
  let hs := if is_empty (rr_ops r)
            then <[str "*" := rr_handler_name r]> (rm_handlers m)
            else fold_left (fun hs op => <[op := rr_handler_name r]> hs)
                   (rr_ops r) (rm_handlers m) in
  mkRouteMeta hs (rm_pattern m).

Definition merge_route (pm : gmap bytes RouteMeta) (r : RouteRegistration) : gmap bytes RouteMeta :=
  let meta := match pm !! rr_pattern r with
              | Some meta => meta
              | None => mkRouteMeta ∅ (rr_pattern r)
              end in
  <[rr_pattern r := insert_ops r meta]> pm.

Definition merge_routes (routes : list RouteRegistration) : gmap bytes RouteMeta :=
  fold_left merge_route routes ∅.

(** The handler the router picks from a route's table. *)
Definition select_handler (meta : RouteMeta) (op : FsOperation) : option bytes :=
  match rm_handlers meta !! as_str op with
  | Some n => Some n
  | None => rm_handlers meta !! str "*"
  end.

(** * Dispatch *)
Section dispatch.
Context {Trie H : Type}.
(** [matchit]'s [Router::at]: the value and the parameters, or the error's text. *)
Variable at_path : Trie -> bytes -> result (RouteMeta * list (bytes * bytes)) bytes.
(** The handler task, with its own state. *)
Variable handler : H -> HandlerRequest -> H * handler_reply.

Definition probe_children (t : Trie) (path matched_pattern : bytes) : bool :=
  match at_path t (path ++ str "/x") with
  | Ok (m, _) =>
      negb (bool_decide (rm_pattern m = matched_pattern)) &&
      negb (contains_char "*" (rm_pattern m))
  | Err _ => false
  end.

Definition file_op (op : FsOperation) : bool :=
  match op with Open | Read | Write | Release => true | _ => false end.

Definition no_route_msg (path e : bytes) : bytes :=
  str "no route matches `" ++ path ++ str "`: " ++ e.
Definition no_handler_msg (path : bytes) (op : FsOperation) : bytes :=
  str "route `" ++ path ++ str "` exists but no handler for op `" ++ as_str op ++
  str "` and no wildcard".
Definition directory_msg (path : bytes) : bytes :=
  str "is a directory: `" ++ path ++ str "`".

(** The collected parameters: a later duplicate replaces an earlier one. *)
Definition collect_params (ps : list (bytes * bytes)) : gmap bytes bytes :=
  fold_left (fun m kv => <[fst kv := snd kv]> m) ps ∅.

(** The handler state, what the frontend observes, and [dispatch]'s result. *)
Definition dispatch (t : Trie) (h : H) (req : Request) :
    H * route_reply * result unit bytes :=
  let op := req_op req in
  let path := req_path req in
  match at_path t path with
  | Err e => (h, Replied (Err (no_route_msg path e)), Ok tt)
  | Ok (meta, ps) =>
      let matched_pattern := rm_pattern meta in
      let has_children := probe_children t path matched_pattern in
      match select_handler meta op with
      | None => (h, Replied (Err (no_handler_msg path op)), Ok tt)
      | Some handler_name =>
          if has_children && file_op op
          then (h, Replied (Err (directory_msg path)), Ok tt)
          else
            let hreq := mkHandlerRequest (collect_params ps) (req_data req) handler_name in
            let '(h', r) := handler h hreq in
            match r with
            | SendFailed => (h', HandlerGone, Err (str "handler task is gone"))
            | HReplied (Ok resp) =>
                (h', Replied (Ok (mkHandlerResponse (resp_data resp)
                                    (Some matched_pattern) has_children)), Ok tt)
            | HReplied (Err e) => (h', Replied (Err e), Ok tt)
            | NoReply =>
                (h', Replied (Err (str "handler did not respond")),
                 Err (str "handler reply channel closed"))
            end
      end
  end.

(** The part of [dispatch] before its waits: an answer of its own, or the
    request for the handler task with what the reply will be stamped with. *)
Inductive routed :=
| Direct (r : result HandlerResponse bytes)
| Forward (hreq : HandlerRequest) (pattern : bytes) (children : bool).

Definition route_request (t : Trie) (req : Request) : routed :=
  let op := req_op req in
  let path := req_path req in
  match at_path t path with
  | Err e => Direct (Err (no_route_msg path e))
  | Ok (meta, ps) =>
      let has_children := probe_children t path (rm_pattern meta) in
      match select_handler meta op with
      | None => Direct (Err (no_handler_msg path op))
      | Some handler_name =>
          if has_children && file_op op then Direct (Err (directory_msg path))
          else Forward (mkHandlerRequest (collect_params ps) (req_data req) handler_name)
                 (rm_pattern meta) has_children
      end
  end.

(** [run_router]: one request at a time, in arrival order, whatever
    [dispatch] returns. *)
Fixpoint run_router (t : Trie) (h : H) (reqs : list Request) : H * list route_reply :=
  match reqs with
  | [] => (h, [])
  | req :: rest =>
      let '(h1, reply, _) := dispatch t h req in
      let '(h2, replies) := run_router t h1 rest in
      (h2, reply :: replies)
  end.

(** The router as a backend of the frontends' handlers. *)
Definition router_backend (t : Trie) (h : H) (req : Request) : H * route_reply :=
  fst (dispatch t h req).
End dispatch.

(** * Specification of the route table

    The table keeps, for each pattern and key, the last registration that
    claimed it; a registration without operations claims the key ["*"]. *)
Definition route_keys (r : RouteRegistration) : list bytes :=
  if is_empty (rr_ops r) then [str "*"] else rr_ops r.

Definition claims (routes : list RouteRegistration) (p key : bytes) : list RouteRegistration :=
  List.filter (fun r => bool_decide (rr_pattern r = p) && bool_decide (key ∈ route_keys r)) routes.

(** The registration in force for an operation: the last one that named it,
    otherwise the last one that claimed every operation. *)
Definition in_force (routes : list RouteRegistration) (p : bytes) (op : FsOperation) :
    option RouteRegistration :=
  match last (claims routes p (as_str op)) with
  | Some r => Some r
  | None => last (claims routes p (str "*"))
  end.

(** What the frontend observes of a reply of the handler task. *)
Definition stamp (pattern : bytes) (has_children : bool) (r : handler_reply) : route_reply :=
  match r with
  | SendFailed => HandlerGone
  | NoReply => Replied (Err (str "handler did not respond"))
  | HReplied r =>
      Replied (result_map (fun resp => mkHandlerResponse (resp_data resp) (Some pattern) has_children) r)
  end.

(** [dispatch] is the choice of [route_request], the call of the handler task,
    and the stamp. *)
Lemma dispatch_route_request {Trie W} at_path (handler : W -> HandlerRequest -> W * handler_reply) (t : Trie) h req :
  fst (dispatch at_path handler t h req) =
  match route_request at_path t req with
  | Direct r => (h, Replied r)
  | Forward hreq pattern children =>
      let '(h', r) := handler h hreq in (h', stamp pattern children r)
  end.
Proof.
  unfold dispatch, route_request. destruct (at_path t (req_path req)) as [[meta ps]|e]; [|done].
  destruct (select_handler meta (req_op req)); [|done]. destruct (_ && _); [done|].
  by destruct (handler h _) as [h' [| |[]]].
Qed.

(** A trie that matches whole paths only, to evaluate the definitions with. *)
Definition exact_at (pm : gmap bytes RouteMeta) (path : bytes) :
    result (RouteMeta * list (bytes * bytes)) bytes :=
  match pm !! path with
  | Some m => Ok (m, [])
  | None => Err (str "Matching route not found")
  end.

(** * Lemmas *)
Lemma fold_insert_lookup (ops : list bytes) (v key : bytes) (hs : gmap bytes bytes) :
  fold_left (fun hs op => <[op := v]> hs) ops hs !! key =
  if bool_decide (key ∈ ops) then Some v else hs !! key.
Proof.
  revert hs. induction ops as [|op ops IH]; intros hs; [done|]. simpl. rewrite IH.
  destruct (decide (key ∈ ops)) as [Hin|Hout].
  { rewrite !bool_decide_eq_true_2; [done|by right|done]. }
  rewrite (bool_decide_eq_false_2 (key ∈ ops)) by done.
  destruct (decide (op = key)) as [->|Hne].
  - rewrite lookup_insert_eq, bool_decide_eq_true_2; [done|left].
  - rewrite lookup_insert_ne, bool_decide_eq_false_2; [done| |done].
    by intros [->|?]%elem_of_cons.
Qed.

Lemma insert_ops_lookup r m key :
  rm_handlers (insert_ops r m) !! key =
  if bool_decide (key ∈ route_keys r) then Some (rr_handler_name r) else rm_handlers m !! key.
Proof.
  unfold insert_ops, route_keys. simpl. destruct (is_empty (rr_ops r)).
  - destruct (decide (key = str "*")) as [->|Hne].
    + rewrite lookup_insert_eq, bool_decide_eq_true_2; [done|left].
    + rewrite lookup_insert_ne, bool_decide_eq_false_2; [done| |done].
      by intros ?%list_elem_of_singleton.
  - apply fold_insert_lookup.
Qed.

Definition table_lookup (pm : gmap bytes RouteMeta) (p key : bytes) : option bytes :=
  pm !! p ≫= fun m => rm_handlers m !! key.

Lemma merge_route_lookup pm r p key :
  table_lookup (merge_route pm r) p key =
  if bool_decide (rr_pattern r = p) && bool_decide (key ∈ route_keys r)
  then Some (rr_handler_name r) else table_lookup pm p key.
Proof.
  unfold table_lookup, merge_route. destruct (decide (rr_pattern r = p)) as [->|Hne].
  - rewrite lookup_insert_eq, (bool_decide_eq_true_2 (p = p)) by done.
    cbn [mbind option_bind andb]. rewrite insert_ops_lookup. case_match; [done|].
    destruct (pm !! p) as [m|]; simpl; [done|]. apply lookup_empty.
  - by rewrite lookup_insert_ne, (bool_decide_eq_false_2 (rr_pattern r = p)) by done.
Qed.

Lemma merge_routes_snoc routes r :
  merge_routes (routes ++ [r]) = merge_route (merge_routes routes) r.
Proof. apply fold_left_app. Qed.

Lemma merge_routes_lookup routes p key :
  table_lookup (merge_routes routes) p key = rr_handler_name <$> last (claims routes p key).
Proof.
  induction routes as [|r routes IH] using rev_ind; [done|].
  rewrite merge_routes_snoc, merge_route_lookup, IH. unfold claims.
  rewrite List.filter_app. simpl. case_match; [by rewrite last_snoc|by rewrite app_nil_r].
Qed.

Lemma merge_routes_pattern routes p m :
  merge_routes routes !! p = Some m -> rm_pattern m = p.
Proof.
  revert m. induction routes as [|r routes IH] using rev_ind; intros m; [done|].
  rewrite merge_routes_snoc. unfold merge_route.
  destruct (decide (rr_pattern r = p)) as [->|Hne].
  - rewrite lookup_insert_eq. intros [= <-]. simpl.
    destruct (merge_routes routes !! p) as [m'|]; [by apply IH|done].
  - rewrite lookup_insert_ne by done. apply IH.
Qed.

Lemma select_handler_in_force routes p m op :
  merge_routes routes !! p = Some m ->
  select_handler m op = rr_handler_name <$> in_force routes p op.
Proof.
  intros Hm. unfold select_handler, in_force.
  pose proof (merge_routes_lookup routes p) as Hl. unfold table_lookup in Hl.
  rewrite Hm in Hl. simpl in Hl. rewrite !Hl.
  by destruct (last (claims routes p (as_str op))).
Qed.

(** When several registrations name the same pattern and operation, the
    table the router is built from holds the handler of the last of them, for
    every pattern and key; and each entry is filed under its own pattern. *)
Theorem merge_routes_last_wins routes p key :
  table_lookup (merge_routes routes) p key = rr_handler_name <$> last (claims routes p key) /\
  (forall m, merge_routes routes !! p = Some m -> rm_pattern m = p).
Proof. split; [apply merge_routes_lookup|apply merge_routes_pattern]. Qed.

Section dispatch_properties.
Context {Trie H : Type}.
Variable at_path : Trie -> bytes -> result (RouteMeta * list (bytes * bytes)) bytes.
Variable handler : H -> HandlerRequest -> H * handler_reply.
Abbreviation dispatch := (dispatch at_path handler).

(** A request whose path matches a registered pattern, and which is not a
    file operation on a directory, runs exactly the handler of the
    registration in force for the operation (the last one that named it, else
    the last wildcard), once, with the matched parameters and the payload; the
    frontend gets that handler's reply, stamped with the pattern.  When no
    registration is in force no handler runs and the frontend gets an error. *)
Theorem dispatch_registration_in_force t h req routes meta ps :
  at_path t (req_path req) = Ok (meta, ps) ->
  merge_routes routes !! rm_pattern meta = Some meta ->
  probe_children at_path t (req_path req) (rm_pattern meta) && file_op (req_op req) = false ->
  fst (dispatch t h req) =
  match in_force routes (rm_pattern meta) (req_op req) with
  | Some r =>
      let '(h', rep) := handler h (mkHandlerRequest (collect_params ps) (req_data req)
                                     (rr_handler_name r)) in
      (h', stamp (rm_pattern meta) (probe_children at_path t (req_path req) (rm_pattern meta)) rep)
  | None => (h, Replied (Err (no_handler_msg (req_path req) (req_op req))))
  end.
Proof.
  intros Hat Hm Hdir. unfold dispatch.
  rewrite Hat, (select_handler_in_force routes _ _ _ Hm).
  destruct (in_force routes (rm_pattern meta) (req_op req)) as [r|]; simpl; [|done].
  rewrite Hdir. destruct (handler _ _) as [h' [| |[resp|e]]]; done.
Qed.

(** The router answers every request it takes while the handler task is
    alive: the reply channel is dropped without an answer only when the
    handler task is gone.  An unmatched path, a missing handler and a file
    operation on a directory are answered without running any handler. *)
Theorem dispatch_answers t h req :
  (forall h hreq, snd (handler h hreq) <> SendFailed) ->
  exists r, snd (fst (dispatch t h req)) = Replied r /\
    ((forall e, at_path t (req_path req) = Err e ->
        dispatch t h req = (h, Replied (Err (no_route_msg (req_path req) e)), Ok tt)) /\
     (forall meta ps, at_path t (req_path req) = Ok (meta, ps) ->
        is_Some (select_handler meta (req_op req)) ->
        probe_children at_path t (req_path req) (rm_pattern meta) = true ->
        file_op (req_op req) = true ->
        dispatch t h req = (h, Replied (Err (directory_msg (req_path req))), Ok tt))).
Proof.
  intros Halive. unfold dispatch.
  destruct (at_path t (req_path req)) as [[meta ps]|e]; simpl.
  2:{ eexists. split; [done|]. split; [by intros ? [= <-]|discriminate]. }
  destruct (select_handler meta (req_op req)) as [name|] eqn:Hsel; simpl.
  2:{ eexists. split; [done|]. split; [discriminate|].
      intros ?? [= <- <-]. rewrite Hsel. by intros [??]. }
  destruct (_ && _) eqn:Hdir; simpl.
  { eexists. split; [done|]. split; [discriminate|done]. }
  assert (Hguard : forall meta' ps', Ok (E := bytes) (meta, ps) = Ok (meta', ps') ->
    is_Some (select_handler meta' (req_op req)) ->
    probe_children at_path t (req_path req) (rm_pattern meta') = true ->
    file_op (req_op req) = true -> False).
  { intros ?? [= <- <-] _ H1 H2. by rewrite H1, H2 in Hdir. }
  specialize (Halive h (mkHandlerRequest (collect_params ps) (req_data req) name)).
  destruct (handler _ _) as [h' [| |[resp|e]]]; [done|..];
    (eexists; split; [done|]; split; [discriminate|];
     intros meta' ps' H1 H2 H3 H4; by destruct (Hguard meta' ps' H1 H2 H3 H4)).
Qed.

Lemma run_router_app t h reqs1 reqs2 :
  run_router at_path handler t h (reqs1 ++ reqs2) =
  (let '(h1, r1) := run_router at_path handler t h reqs1 in
   let '(h2, r2) := run_router at_path handler t h1 reqs2 in (h2, r1 ++ r2)).
Proof.
  revert h. induction reqs1 as [|req reqs1 IH]; intros h; simpl.
  { by destruct (run_router at_path handler t h reqs2). }
  destruct (dispatch t h req) as [[h1 rep] res]. rewrite IH.
  destruct (run_router at_path handler t h1 reqs1) as [h2 r2].
  by destruct (run_router at_path handler t h2 reqs2).
Qed.

(** The router task serves its queue strictly in order, one reply per
    request, and no failing request stops it: the reply to the n-th request
    is what [dispatch] gives in the handler state left by the first n. *)
Theorem run_router_in_order t h reqs i req :
  reqs !! i = Some req ->
  length (snd (run_router at_path handler t h reqs)) = length reqs /\
  snd (run_router at_path handler t h reqs) !! i =
  Some (snd (fst (dispatch t (fst (run_router at_path handler t h (take i reqs))) req))).
Proof.
  intros Hi. assert (Hlen : forall h reqs,
    length (snd (run_router at_path handler t h reqs)) = length reqs).
  { clear. intros h reqs. revert h. induction reqs as [|req reqs IH]; intros h; simpl; [done|].
    destruct (dispatch t h req) as [[h1 rep] res]. specialize (IH h1).
    destruct (run_router at_path handler t h1 reqs). simpl in *. lia. }
  split; [apply Hlen|].
  rewrite <-(take_drop_middle reqs i req Hi) at 1. rewrite run_router_app.
  specialize (Hlen h (take i reqs)).
  destruct (run_router at_path handler t h (take i reqs)) as [h1 r1]. simpl in *.
  destruct (dispatch t h1 req) as [[h2 rep] res].
  destruct (run_router at_path handler t h2 (drop (S i) reqs)) as [h3 r3]. simpl.
  apply lookup_lt_Some in Hi. rewrite length_take in Hlen.
  rewrite lookup_app_r by lia. replace (i - length r1) with 0 by lia. done.
Qed.
End dispatch_properties.

(** * The theorems at a concrete table *)
Module RouterExample.
Definition routes : list RouteRegistration :=
  [ mkRouteRegistration (str "/a") (str "any") [];
    mkRouteRegistration (str "/a") (str "reader") [str "read"];
    mkRouteRegistration (str "/a/x") (str "leaf") [] ].
Definition meta : RouteMeta := default (mkRouteMeta ∅ []) (merge_routes routes !! str "/a").
(** A handler task that answers with the handler's name and counts its calls. *)
Definition handler (n : nat) (r : HandlerRequest) : nat * handler_reply :=
  (S n, HReplied (Ok (mkHandlerResponse (hreq_handler_name r) None false))).
Definition req (op : FsOperation) : Request := mkRequest op (str "/a") [].
End RouterExample.

Lemma dispatch_registration_in_force_witness :
  fst (dispatch exact_at RouterExample.handler (merge_routes RouterExample.routes) 0
         (RouterExample.req GetAttr)) =
  (1, Replied (Ok (mkHandlerResponse (str "any") (Some (str "/a")) true))).
Proof.
  rewrite (dispatch_registration_in_force exact_at RouterExample.handler
    (merge_routes RouterExample.routes) 0 (RouterExample.req GetAttr) RouterExample.routes
    RouterExample.meta []); [vm_compute; reflexivity|vm_compute; reflexivity..].
Defined.

Lemma dispatch_answers_witness :
  exists r, snd (fst (dispatch exact_at RouterExample.handler (merge_routes RouterExample.routes) 0
                        (RouterExample.req Read))) = Replied r.
Proof.
  destruct (dispatch_answers exact_at RouterExample.handler (merge_routes RouterExample.routes) 0
    (RouterExample.req Read)) as (r & Hr & _); [discriminate|].
  exists r. exact Hr.
Defined.

Lemma run_router_in_order_witness :
  snd (run_router exact_at RouterExample.handler (merge_routes RouterExample.routes) 0
         [RouterExample.req Lookup; RouterExample.req SetAttr]) !! 1 =
  Some (Replied (Ok (mkHandlerResponse (str "any") (Some (str "/a")) true))).
Proof.
  destruct (run_router_in_order exact_at RouterExample.handler (merge_routes RouterExample.routes) 0
    [RouterExample.req Lookup; RouterExample.req SetAttr] 1 (RouterExample.req SetAttr)) as [_ H];
    [reflexivity|].
  rewrite H. vm_compute. reflexivity.
Defined.
