(* ===== verification/Ninep.v ===== *)
(** The 9P2000 session state and the message handlers of
    [src/src/frontend/ninep.rs]).

    Each [handle_*] is a [Proc.proc]: its critical sections on the shared
    [Mutex<NinepState>] and [RwLock<u32>] are [Lock]s, its router requests are
    [Call]s, the bytes it writes to the stream are [Send]s, a [?] on an error is
    [Fail] and an out-of-range index is [Panic]. *)
From S2P Require Import Prelude RustStr Proc Wire Router.
#[local] Open Scope proc_scope.

(** * Session state *)
Record FidEntry := mkFidEntry {
  fe_qid : N;
  fe_path : bytes;
  fe_open : bool;
  fe_is_dir : bool;
}.

Record PathEntry := mkPathEntry {
  pe_path : bytes;
  pe_is_dir : bool;
}.

(** [NinepState] together with the [msize] of [Shared]. *)
Record Shared := mkShared {
  fids : gmap N FidEntry;
  paths : gmap N PathEntry;
  next_qid : N;
  msize : N;
}.

Definition with_fids (f : gmap N FidEntry -> gmap N FidEntry) (s : Shared) : Shared :=
  mkShared (f (fids s)) (paths s) (next_qid s) (msize s).
Definition with_paths (f : gmap N PathEntry -> gmap N PathEntry) (s : Shared) : Shared :=
  mkShared (fids s) (f (paths s)) (next_qid s) (msize s).
Definition with_msize (m : N) (s : Shared) : Shared :=
  mkShared (fids s) (paths s) (next_qid s) m.

(** [NinepState::new()] in a [Shared] with the given [msize]. *)
Definition new_shared (msize : N) : Shared :=
  mkShared ∅ {[ 0%N := mkPathEntry (str "/") true ]} 1 msize.

Section ninep.
Context {ord : IterOrder N PathEntry}.
(** The clock, in seconds since the epoch, when the message is handled. *)
Variable now : N.

Abbreviation proc := (proc Shared Request route_reply bytes bytes).

(** ** State operations *)
Definition find_path (path : bytes) (s : Shared) : option N :=
  fst <$> List.find (fun kv => bool_decide (pe_path (snd kv) = path)) (iter_order (paths s)).

Definition alloc_qid (path : bytes) (is_dir : bool) (s : Shared) : N * Shared :=
  match find_path path s with
  | Some qid => (qid, s)
  | None =>
      let qid := next_qid s in
      (qid, mkShared (fids s) (<[qid := mkPathEntry path is_dir]> (paths s))
              (u64_wrap (next_qid s + 1)) (msize s))
  end.

Definition set_fid (fid qid : N) (path : bytes) (is_dir : bool) (s : Shared) : Shared :=
  with_fids <[fid := mkFidEntry qid path false is_dir]> s.

(** [if let Some(entry) = state.fids.get_mut(&fid) { entry.open = true }] *)
Definition set_open (fid : N) (s : Shared) : Shared :=
  with_fids (alter (fun e => mkFidEntry (fe_qid e) (fe_path e) true (fe_is_dir e)) fid) s.
Definition set_path (fid : N) (path : bytes) (s : Shared) : Shared :=
  with_fids (alter (fun e => mkFidEntry (fe_qid e) path (fe_open e) (fe_is_dir e)) fid) s.

(** [format!("{dir}/{name}")] without doubling the slash *)
Definition child_path (dir name : bytes) : bytes :=
  if ends_with "/" dir then dir ++ name else dir ++ str "/" ++ name.

(** ** Actions shared by the handlers *)
Definition reply (msg_type tag : N) (body : bytes) : proc unit :=
  send (send_reply msg_type tag body).

(** [state.fids.get(&fid).ok_or("unknown fid")?] *)
Definition lookup_fid (fid : N) : proc FidEntry :=
  let! e := get (fun s => fids s !! fid) in
  ok_or e (str "unknown fid").

(** Send a request to the router, wait for the reply, and turn each failure
    into the handler's error. *)
Definition route (op : FsOperation) (path data what : bytes) : proc HandlerResponse :=
  (let! r := call (mkRequest op path data) in
   match r with
   | RouterGone => Fail (str "router gone")
   | HandlerGone => Fail (str "handler gone")
   | Replied (Ok resp) => Ret resp
   | Replied (Err e) => Fail (what ++ str " failed: " ++ e)
   end).

Definition clamp (lo hi n : N) : N := N.min hi (N.max lo n).

(** ** Handlers *)
Definition handle_version (tag : N) (body : bytes) : proc unit :=
  (fail_if (Nat.ltb (length body) 4) (str "short version message") ;!
   let! m := unwrap (get_u32 0 body) in
   let! _version :=
     if Nat.ltb 4 (length body) then
       let! vlen := unwrap (get_u16 4 body) in
       if Nat.leb (6 + N.to_nat vlen) (length body) then
         let! v := unwrap (get_slice 6 (6 + N.to_nat vlen) body) in
         Ret (from_utf8_lossy v)
       else Ret []
     else Ret [] in
   let m := clamp 4096 65536 m in
   update (with_msize m) ;!
   reply RVERSION tag (u32_le m ++ u16_le 6 ++ str "9P2000")).

Definition handle_attach (tag : N) (body : bytes) : proc unit :=
  (fail_if (Nat.ltb (length body) 8) (str "short attach message") ;!
   let! fid := unwrap (get_u32 0 body) in
   let! _afid := unwrap (get_u32 4 body) in
   update (set_fid fid 0 (str "/") true) ;!
   reply RATTACH tag (encode_qid (mkQid 0x80 0 0))).

(** The state of the walk loop. *)
Record Walk := mkWalk {
  w_path : bytes;
  w_qid : N;
  w_qids : list Qid;
  w_offset : nat;
  w_is_dir : bool;
}.

(** [for i in 0..nwname], [n] names being left. *)
Fixpoint walk_loop (body : bytes) (n : nat) (w : Walk) : proc Walk :=
  match n with
  | O => Ret w
  | S n' =>
      let offset := w_offset w in
      (fail_if (Nat.ltb (length body) (offset + 2)) (str "short walk wname") ;!
       let! nlen := unwrap (get_u16 offset body) in
       let nlen := N.to_nat nlen in
       let offset := offset + 2 in
       fail_if (Nat.ltb (length body) (offset + nlen)) (str "short walk wname data") ;!
       let! raw := unwrap (get_slice offset (offset + nlen) body) in
       let child := from_utf8_lossy raw in
       let offset := offset + nlen in
       let full_path := child_path (w_path w) child in
       (if Nat.eqb n' 0
        then let! _ := route Lookup full_path [] (str "lookup") in Ret tt
        else Ret tt) ;!
       let is_dir := is_empty child || bool_decide (child = str ".") ||
                     bool_decide (child = str "..") in
       let! qid := modify (alloc_qid full_path is_dir) in
       walk_loop body n'
         (mkWalk full_path qid
            (w_qids w ++ [mkQid (if is_dir then 0x80 else 0)%N 0 qid]) offset is_dir))
  end.

Definition handle_walk (tag : N) (body : bytes) : proc unit :=
  (fail_if (Nat.ltb (length body) 9) (str "short walk message") ;!
   let! fid := unwrap (get_u32 0 body) in
   let! new_fid := unwrap (get_u32 4 body) in
   let! nwname := unwrap (get_u16 8 body) in
   let! parent := lookup_fid fid in
   let! w := walk_loop body (N.to_nat nwname)
               (mkWalk (fe_path parent) (fe_qid parent) [] 10 (fe_is_dir parent)) in
   update (set_fid new_fid (w_qid w) (w_path w) (w_is_dir w)) ;!
   reply RWALK tag (u16_le nwname ++ concat (map encode_qid (w_qids w)))).

Definition handle_open (tag : N) (body : bytes) : proc unit :=
  (fail_if (Nat.ltb (length body) 5) (str "short open message") ;!
   let! fid := unwrap (get_u32 0 body) in
   let! _mode := unwrap (get_u8 4 body) in
   let! entry := lookup_fid fid in
   let! _ := route (if fe_is_dir entry then OpenDir else Open) (fe_path entry) [] (str "open") in
   update (set_open fid) ;!
   let! m := get msize in
   reply ROPEN tag (encode_qid (mkQid 0 0 0) ++ u32_le m)).

Definition DMDIR : N := 0x80000000.

Definition handle_create (tag : N) (body : bytes) : proc unit :=
  (fail_if (Nat.ltb (length body) 9) (str "short create message") ;!
   let! fid := unwrap (get_u32 0 body) in
   let! name_len := unwrap (get_u16 4 body) in
   let name_len := N.to_nat name_len in
   fail_if (Nat.ltb (length body) (6 + name_len + 5)) (str "short create name") ;!
   let! raw := unwrap (get_slice 6 (6 + name_len) body) in
   let name := from_utf8_lossy raw in
   let! perm := unwrap (get_u32 (6 + name_len) body) in
   let! _mode := unwrap (get_u8 (6 + name_len + 4) body) in
   let! entry := lookup_fid fid in
   let is_dir := negb (N.eqb (N.land perm DMDIR) 0) in
   let full_path := child_path (fe_path entry) name in
   let op := if is_dir then MkDir else Create in
   let! _ := route op full_path [] (as_str op) in
   let! qid := modify (fun s =>
     let '(qid, s) := alloc_qid full_path is_dir s in
     (qid, set_open fid (set_fid fid qid full_path is_dir s))) in
   reply RCREATE tag (encode_qid (mkQid (if is_dir then 0x80 else 0)%N 0 qid))).

(** The entry [handle_read] lists for a known path, if it is a direct child. *)
Definition dir_entry (dir prefix : bytes) (kv : N * PathEntry) : bytes :=
  let pent := snd kv in
  if bool_decide (pe_path pent = dir) then []
  else match strip_prefix prefix (pe_path pent) with
       | None => []
       | Some rest =>
           if contains_char "/" rest then []
           else encode_stat now (if is_empty rest then str "." else rest)
                  (mkQid (if pe_is_dir pent then 0x80 else 0)%N 0 (fst kv)) 0 (pe_is_dir pent)
       end.

Definition list_dir (dir : bytes) (offset : N) (s : Shared) : bytes :=
  let prefix := if ends_with "/" dir then dir else dir ++ str "/" in
  let data := concat (map (dir_entry dir prefix) (iter_order (paths s))) in
  if N.eqb offset 0 then encode_stat now (str ".") (mkQid 0x80 0 0) 0 true ++ data else data.

(** [data[offset..]], empty past the end. *)
Definition tail_from (offset : N) (data : bytes) : bytes :=
  if N.ltb offset (lenN data) then drop (N.to_nat offset) data else [].

Definition handle_read (tag : N) (body : bytes) : proc unit :=
  (fail_if (Nat.ltb (length body) 16) (str "short read message") ;!
   let! fid := unwrap (get_u32 0 body) in
   let! offset := unwrap (get_u64 4 body) in
   let! _count := unwrap (get_u32 12 body) in
   let! entry := lookup_fid fid in
   if fe_is_dir entry then
     let! _ := route ReadDir (fe_path entry) [] (str "readdir") in
     let! data := get (list_dir (fe_path entry) offset) in
     let chunk := tail_from offset data in
     reply RREAD tag (u32_le (lenN chunk) ++ chunk)
   else
     let! resp := route Read (fe_path entry) [] (str "read") in
     let chunk := tail_from offset (resp_data resp) in
     reply RREAD tag (u32_le (lenN chunk) ++ chunk)).

Definition handle_write (tag : N) (body : bytes) : proc unit :=
  (fail_if (Nat.ltb (length body) 16) (str "short write message") ;!
   let! fid := unwrap (get_u32 0 body) in
   let! _offset := unwrap (get_u64 4 body) in
   let! count := unwrap (get_u32 12 body) in
   let! entry := lookup_fid fid in
   let n := N.to_nat (N.min count (lenN body - 16)) in
   let! data := unwrap (get_slice 16 (16 + n) body) in
   let! _ := route Write (fe_path entry) data (str "write") in
   reply RWRITE tag (u32_le count)).

Definition handle_clunk (tag : N) (body : bytes) : proc unit :=
  (fail_if (Nat.ltb (length body) 4) (str "short clunk message") ;!
   let! fid := unwrap (get_u32 0 body) in
   let! entry := get (fun s => fids s !! fid) in
   (match entry with
    | Some e => let! _ := call (mkRequest Release (fe_path e) []) in Ret tt
    | None => Ret tt
    end) ;!
   update (with_fids (delete fid)) ;!
   reply RCLUNK tag []).

Definition handle_remove (tag : N) (body : bytes) : proc unit :=
  (fail_if (Nat.ltb (length body) 4) (str "short remove message") ;!
   let! fid := unwrap (get_u32 0 body) in
   let! entry := lookup_fid fid in
   let! _ := route (if fe_is_dir entry then RmDir else Unlink) (fe_path entry) [] (str "remove") in
   reply RREMOVE tag []).

Definition handle_stat (tag : N) (body : bytes) : proc unit :=
  (fail_if (Nat.ltb (length body) 4) (str "short stat message") ;!
   let! fid := unwrap (get_u32 0 body) in
   let! entry := lookup_fid fid in
   let! resp := route GetAttr (fe_path entry) [] (str "getattr") in
   let qid := mkQid (if fe_is_dir entry then 0x80 else 0)%N 0 (fe_qid entry) in
   let last := rsplit_next "/" (fe_path entry) in
   let name := if is_empty last then str "/" else last in
   let stat_buf := encode_stat now name qid (lenN (resp_data resp)) (fe_is_dir entry) in
   reply RSTAT tag (u16_le (lenN stat_buf) ++ stat_buf)).

Definition handle_flush (tag : N) : proc unit := reply RFLUSH tag [].

(** The fields [handle_wstat] finds in the stat record it is sent. *)
Record Wstat := mkWstat { ws_name : option bytes; ws_attrs : bool }.

Definition parse_wstat (path stat_data : bytes) : proc Wstat :=
  (let off := 6 + 13 in
   let has_mode := Nat.leb (off + 4) (length stat_data) in
   let off := if has_mode then off + 4 else off in
   let has_time := Nat.leb (off + 8) (length stat_data) in
   let off := if has_time then off + 8 else off in
   let has_length := Nat.leb (off + 8) (length stat_data) in
   let off := if has_length then off + 8 else off in
   let! new_name :=
     if Nat.leb (off + 2) (length stat_data) then
       let! name_len := unwrap (get_u16 off stat_data) in
       let name_len := N.to_nat name_len in
       let off := off + 2 in
       if Nat.ltb 0 name_len && Nat.leb (off + name_len) (length stat_data) then
         let! raw := unwrap (get_slice off (off + name_len) stat_data) in
         let name_str := from_utf8_lossy raw in
         let current_name := rsplit_next "/" path in
         Ret (if negb (bool_decide (name_str = current_name)) && negb (is_empty name_str)
              then Some name_str else None)
       else Ret None
     else Ret None in
   Ret (mkWstat new_name (has_mode || has_time || has_length))).

(** The path a rename to [name] moves [path] to. *)
Definition renamed_path (path name : bytes) : bytes :=
  if bool_decide (path = str "/") then str "/" ++ name
  else
    let parent := match rsplit_once "/" path with Some (p, _) => p | None => str "/" end in
    if bool_decide (parent = str "/") then str "/" ++ name
    else parent ++ str "/" ++ name.

Definition handle_wstat (tag : N) (body : bytes) : proc unit :=
  (fail_if (Nat.ltb (length body) 4) (str "short wstat message") ;!
   let! fid := unwrap (get_u32 0 body) in
   let! entry := lookup_fid fid in
   let path := fe_path entry in
   let! stat_data := unwrap (get_slice 4 (length body) body) in
   fail_if (Nat.ltb (length stat_data) 2) (str "short wstat data") ;!
   let! stat_len := unwrap (get_u16 0 stat_data) in
   let n := N.to_nat (N.min stat_len (lenN stat_data - 2)) in
   let! stat_data := unwrap (get_slice 2 (2 + n) stat_data) in
   if Nat.ltb (length stat_data) 6 then reply RWSTAT tag []
   else
     let! ws := parse_wstat path stat_data in
     (match ws_name ws with
      | Some name =>
          let new_path := renamed_path path name in
          let! _ := route Rename path new_path (str "rename") in
          update (fun s => with_paths <[fe_qid entry := mkPathEntry new_path false]>
                             (set_path fid new_path s))
      | None =>
          if ws_attrs ws
          then let! _ := route SetAttr path [] (str "setattr") in Ret tt
          else Ret tt
      end) ;!
     reply RWSTAT tag []).

(** ** Dispatch *)
Definition handle_message (msg_type tag : N) (body : bytes) : proc unit :=
  if N.eqb msg_type TVERSION then handle_version tag body
  else if N.eqb msg_type TATTACH then handle_attach tag body
  else if N.eqb msg_type TWALK then handle_walk tag body
  else if N.eqb msg_type TOPEN then handle_open tag body
  else if N.eqb msg_type TREAD then handle_read tag body
  else if N.eqb msg_type TWRITE then handle_write tag body
  else if N.eqb msg_type TCLUNK then handle_clunk tag body
  else if N.eqb msg_type TCREATE then handle_create tag body
  else if N.eqb msg_type TREMOVE then handle_remove tag body
  else if N.eqb msg_type TSTAT then handle_stat tag body
  else if N.eqb msg_type TWSTAT then handle_wstat tag body
  else if N.eqb msg_type TFLUSH then handle_flush tag
  else Fail (str "unknown message type: " ++ dec msg_type).

(** One iteration of the connection loop: handle a message, answer an error. *)
Definition serve_message (m : N * N * bytes) : proc unit :=
  let '(msg_type, tag, body) := m in
  catch (handle_message msg_type tag body) (fun e => send (send_error tag e)).

(** The messages of one connection, in order. *)
Fixpoint serve_messages (ms : list (N * N * bytes)) : proc unit :=
  match ms with
  | [] => Ret tt
  | m :: rest => serve_message m ;! serve_messages rest
  end.
End ninep.
