(* ===== verification/NinepReplies.v ===== *)
(** What a 9P handler can write and when it can panic, whatever the router
    answers and whatever the other connections do to the shared state. *)
From S2P Require Import Prelude RustStr Proc Wire Router Ninep.
#[local] Open Scope proc_scope.

(** The two message bodies whose parsing indexes out of range: a Tversion
    with one byte of its version string's length, a Twalk with one byte of its
    name count. *)
Definition truncated_body (msg_type : N) (body : bytes) : Prop :=
  (msg_type = TVERSION /\ length body = 5) \/ (msg_type = TWALK /\ length body = 9).

(** A handler that returns has written exactly one reply, of the type that
    answers the request and with its tag; one that fails or panics has written
    nothing. *)
Definition answers (msg_type tag : N) (may_panic : Prop)
    (ms : list bytes) (o : outcome bytes unit) : Prop :=
  match o with
  | ORet _ => exists payload, ms = [send_reply (msg_type + 1) tag payload]
  | OFail _ => ms = []
  | OPanic => ms = [] /\ may_panic
  end.

(** * Proof rules for the handlers' actions *)
Section rules.
Context {St Rq Rp M E : Type}.
Abbreviation proc := (proc St Rq Rp M E).
Implicit Types B : Type.

Lemma wp_fail_if {B} b e (k : unit -> proc B) Q :
  (b = true -> Q [] (OFail e)) -> (b = false -> wp (k tt) Q) -> wp (bind (fail_if b e) k) Q.
Proof. destruct b; simpl; auto. Qed.

Lemma wp_unwrap {A B} (o : option A) (k : A -> proc B) Q :
  (o = None -> Q [] OPanic) -> (forall a, o = Some a -> wp (k a) Q) ->
  wp (bind (unwrap o) k) Q.
Proof. destruct o; simpl; auto. Qed.

Lemma wp_get {A B} (f : St -> A) (k : A -> proc B) Q :
  (forall a, wp (k a) Q) -> wp (bind (get f) k) Q.
Proof. simpl. auto. Qed.

Lemma wp_update {B} (f : St -> St) (k : unit -> proc B) Q :
  wp (k tt) Q -> wp (bind (update f) k) Q.
Proof. simpl. auto. Qed.

Lemma wp_modify {A B} (f : St -> A * St) (k : A -> proc B) Q :
  (forall a, wp (k a) Q) -> wp (bind (modify f) k) Q.
Proof. simpl. auto. Qed.

Lemma wp_call {B} rq (k : Rp -> proc B) Q :
  (forall r, wp (k r) Q) -> wp (bind (call rq) k) Q.
Proof. simpl. auto. Qed.

(** A part of a handler that writes nothing and cannot panic. *)
Definition silent {A} (ms : list M) (o : outcome E A) : Prop := ms = [] /\ o <> OPanic.

Lemma wp_silent {A B} (p : proc A) (k : A -> proc B) Q :
  wp p silent -> (forall e, Q [] (OFail e)) -> (forall a, wp (k a) Q) -> wp (bind p k) Q.
Proof.
  intros Hp He Hk. apply wp_bind. eapply wp_mono; [|exact Hp].
  intros ms [a|e|] [-> Hne]; simpl; [apply Hk|apply He|done].
Qed.

Lemma wp_ret {A B} (a : A) (k : A -> proc B) Q : wp (k a) Q -> wp (bind (Ret a) k) Q.
Proof. done. Qed.
End rules.

Section handlers.
Context {ord : IterOrder N PathEntry}.
Variable now : N.
Abbreviation proc := (proc Shared Request route_reply bytes bytes).

Lemma wp_lookup_fid {B} fid (k : FidEntry -> proc B) Q :
  Q [] (OFail (str "unknown fid")) -> (forall e, wp (k e) Q) -> wp (bind (lookup_fid fid) k) Q.
Proof. intros H1 H2. simpl. intros s. destruct (fids s !! fid); simpl; auto. Qed.

Lemma wp_route {B} op path data what (k : HandlerResponse -> proc B) Q :
  (forall e, Q [] (OFail e)) -> (forall r, wp (k r) Q) ->
  wp (bind (route op path data what) k) Q.
Proof. intros H1 H2. simpl. intros r. destruct r as [| |[resp|e]]; simpl; auto. Qed.

Lemma wp_reply ty tag payload Q :
  Q [send_reply ty tag payload] (ORet tt) -> wp (reply ty tag payload) Q.
Proof. done. Qed.
End handlers.

#[local] Opaque bind get update modify unwrap call fail_if route lookup_fid reply.

(** An index that the handler's own length checks keep in range. *)
Ltac in_range_tac :=
  match goal with
  | H : get_u8 ?i ?b = None |- _ =>
      unfold get_u8 in H; destruct (lookup_lt_is_Some_2 b i) as [? H']; [lia|];
      rewrite H' in H; discriminate
  | H : ?o = None |- _ =>
      let H' := fresh in
      assert (is_Some o) as [? H'] by
        (unfold get_u16, get_u32, get_u64 in *;
         first [apply get_le_is_Some; lia | rewrite get_slice_Some by lia; eauto]);
      rewrite H' in H; discriminate
  end.

Ltac to_arith :=
  repeat match goal with
  | H : Nat.ltb _ _ = false |- _ => apply Nat.ltb_ge in H
  | H : Nat.ltb _ _ = true |- _ => apply Nat.ltb_lt in H
  | H : Nat.leb _ _ = true |- _ => apply Nat.leb_le in H
  | H : Nat.leb _ _ = false |- _ => apply Nat.leb_gt in H
  | H : (_ && _) = true |- _ => apply andb_true_iff in H as [??]
  end.

Ltac wp_step :=
  first
    [ apply wp_fail_if; intros ?; to_arith
    | apply wp_unwrap; [intros ?|intros ? ?]
    | apply wp_lookup_fid; [|intros ?]
    | apply wp_route; [intros ?|intros ?]
    | apply wp_get; intros ?
    | apply wp_call; intros ?
    | apply wp_update
    | apply wp_modify; intros ?
    | apply wp_ret
    | progress cbn [wp]
    | apply wp_reply ].

(** Close the leaves: a reply of the right type, an error, an unreachable panic. *)
Ltac wp_leaf :=
  first [ by eexists | done | by split | exfalso; in_range_tac ].

Ltac wp_auto := repeat (wp_step; try wp_leaf).

Section replies.
Context {ord : IterOrder N PathEntry}.
Variable now : N.
Abbreviation proc := (proc Shared Request route_reply bytes bytes).

Lemma handle_version_answers tag body :
  wp (handle_version tag body) (answers TVERSION tag (length body = 5)).
Proof.
  unfold handle_version. wp_auto. apply wp_bind.
  destruct (Nat.ltb 4 (length body)) eqn:E; to_arith; cbn [wp wp_then]; [|wp_auto].
  wp_step.
  { split; [done|]. destruct (decide (length body = 5)); [done|exfalso; in_range_tac]. }
  case_match; to_arith; [|cbn; wp_auto].
  wp_auto.
Qed.

Lemma handle_attach_answers tag body : wp (handle_attach tag body) (answers TATTACH tag False).
Proof. unfold handle_attach. wp_auto. Qed.

Lemma walk_loop_silent body n w : wp (walk_loop body n w) silent.
Proof.
  revert w. induction n as [|n IH]; intros w; cbn [walk_loop]; [done|].
  wp_auto. apply wp_silent; [case_match; wp_auto|done|intros _].
  wp_auto.
Qed.

Lemma handle_walk_answers tag body :
  wp (handle_walk tag body) (answers TWALK tag (length body = 9)).
Proof.
  unfold handle_walk. do 3 (wp_step; try wp_leaf). wp_step.
  { split; [done|]. destruct (decide (length body = 9)); [done|exfalso; in_range_tac]. }
  wp_auto. apply wp_silent; [apply walk_loop_silent|done|intros ?]. wp_auto.
Qed.

Lemma handle_open_answers tag body : wp (handle_open tag body) (answers TOPEN tag False).
Proof. unfold handle_open. wp_auto. Qed.

Lemma handle_create_answers tag body : wp (handle_create tag body) (answers TCREATE tag False).
Proof. unfold handle_create. wp_auto. Qed.

Lemma handle_read_answers tag body : wp (handle_read now tag body) (answers TREAD tag False).
Proof. unfold handle_read. wp_auto. case_match; wp_auto. Qed.

Lemma handle_write_answers tag body : wp (handle_write tag body) (answers TWRITE tag False).
Proof.
  unfold handle_write. do 5 (wp_step; try wp_leaf). wp_step; [|wp_auto].
  exfalso. unfold lenN in *.
  match goal with H : get_slice _ _ _ = None |- _ =>
    rewrite get_slice_Some in H by lia; discriminate end.
Qed.

Lemma handle_clunk_answers tag body : wp (handle_clunk tag body) (answers TCLUNK tag False).
Proof.
  unfold handle_clunk. wp_auto.
  apply wp_silent; [case_match; wp_auto|done|intros _]. wp_auto.
Qed.

Lemma handle_remove_answers tag body : wp (handle_remove tag body) (answers TREMOVE tag False).
Proof. unfold handle_remove. wp_auto. Qed.

Lemma handle_stat_answers tag body : wp (handle_stat now tag body) (answers TSTAT tag False).
Proof. unfold handle_stat. wp_auto. Qed.

Lemma parse_wstat_silent path data : wp (parse_wstat path data) silent.
Proof.
  unfold parse_wstat.
  set (off := if Nat.leb _ _ then _ + 8 else _ : nat). clearbody off.
  apply wp_silent; [|done|done].
  destruct (Nat.leb (off + 2) (length data)) eqn:E; to_arith; [|done].
  wp_step; [wp_leaf|].
  destruct (_ && _) eqn:E2; to_arith; [|done]. wp_auto.
Qed.

Lemma handle_wstat_answers tag body : wp (handle_wstat tag body) (answers TWSTAT tag False).
Proof.
  unfold handle_wstat. do 3 (wp_step; try wp_leaf). wp_step; [wp_leaf|].
  do 2 (wp_step; try wp_leaf). wp_step.
  { exfalso. unfold lenN in *.
    match goal with H : get_slice 2 _ _ = None |- _ =>
      rewrite get_slice_Some in H by lia; discriminate end. }
  case_match; [wp_auto|].
  apply wp_silent; [apply parse_wstat_silent|done|intros ws].
  apply wp_silent; [|done|intros _; wp_auto].
  destruct (ws_name ws); [wp_auto|]. case_match; wp_auto.
Qed.

Lemma handle_flush_answers tag : wp (handle_flush tag) (answers TFLUSH tag False).
Proof. unfold handle_flush. wp_auto. Qed.
End replies.

#[local] Transparent bind get update modify unwrap call fail_if route lookup_fid reply.

Section handle_message_properties.
Context {ord : IterOrder N PathEntry}.
Variable now : N.

Lemma answers_mono ty tag (P P' : Prop) :
  (P -> P') -> forall ms o, answers ty tag P ms o -> answers ty tag P' ms o.
Proof. intros HP ms [a|e|]; simpl; [done|done|tauto]. Qed.

Ltac by_handler lem := eapply wp_mono; [|exact lem]; apply answers_mono; tauto.

Lemma handle_message_wp msg_type tag body :
  wp (handle_message now msg_type tag body) (answers msg_type tag (truncated_body msg_type body)).
Proof.
  unfold handle_message, truncated_body.
  repeat (match goal with |- context [N.eqb msg_type ?c] =>
            destruct (N.eqb_spec msg_type c) as [->|?] end; [
    first [ by_handler (handle_version_answers tag body)
          | by_handler (handle_attach_answers tag body)
          | by_handler (handle_walk_answers tag body)
          | by_handler (handle_open_answers tag body)
          | by_handler (handle_read_answers now tag body)
          | by_handler (handle_write_answers tag body)
          | by_handler (handle_clunk_answers tag body)
          | by_handler (handle_create_answers tag body)
          | by_handler (handle_remove_answers tag body)
          | by_handler (handle_stat_answers now tag body)
          | by_handler (handle_wstat_answers tag body)
          | by_handler (handle_flush_answers tag) ]|]).
  done.
Qed.

(** C12: Whatever the router answers and the other connections do, a handler
    that returns has written exactly one reply, whose type answers the request
    and whose tag is the request's; a handler that fails has written nothing
    (so the error reply is the only one); a handler that panics has written
    nothing and was given a truncated Tversion or Twalk. *)
Theorem handle_message_replies msg_type tag body ms o :
  may (handle_message now msg_type tag body) ms o ->
  answers msg_type tag (truncated_body msg_type body) ms o.
Proof. apply wp_sound, handle_message_wp. Qed.

#[export] Instance truncated_body_dec msg_type body : Decision (truncated_body msg_type body).
Proof. unfold truncated_body. apply _. Defined.

Lemma truncated_panics msg_type tag body :
  truncated_body msg_type body -> handle_message now msg_type tag body = Panic.
Proof.
  intros [[-> Hl]|[-> Hl]].
  - do 5 (destruct body as [|? body]; [done|]). by destruct body.
  - do 9 (destruct body as [|? body]; [done|]). by destruct body.
Qed.

(** C19: The handlers panic on exactly two message shapes, a Tversion of five
    body bytes and a Twalk of nine: there they always panic, and on every other
    message no slice, index or conversion of any handler can. *)
Theorem handle_message_panics msg_type tag body :
  (truncated_body msg_type body ->
     forall ms o, may (handle_message now msg_type tag body) ms o -> o = OPanic) /\
  (~ truncated_body msg_type body ->
     forall ms o, may (handle_message now msg_type tag body) ms o -> o <> OPanic).
Proof.
  split.
  - intros Ht ms o. rewrite truncated_panics by done. by inversion 1.
  - intros Hn ms o Hm ->. by apply handle_message_replies in Hm as [_ ?].
Qed.
End handle_message_properties.

Lemma handle_message_replies_witness :
  answers TFLUSH 7 (truncated_body TFLUSH []) [send_reply RFLUSH 7 []] (ORet tt).
Proof.
  apply (handle_message_replies (ord := default_order) 0 TFLUSH 7 []).
  repeat constructor.
Defined.
