(* ===== verification/NinepInv.v ===== *)
(** Invariants of the 9P session state under interleaving.

    All the connections of a listener share one [NinepState].  Each handler is
    shown to keep a protocol on it (its invariant, and the preorder every
    critical section moves along) from any state the other handlers may leave;
    [Proc.steps_ok] lifts this to any number of connections and any
    interleaving.  The handlers are verified once, against the class
    [SessionProtocol]; two protocols implement it: [session_protocol] holds of
    every run, [bijection_protocol] of the runs without Twstat. *)
From S2P Require Import Prelude RustStr Proc Wire Router Ninep NinepReplies.
#[local] Open Scope proc_scope.

Section inv.
Context {ord : IterOrder N PathEntry}.
Variable now : N.
Abbreviation proc := (proc Shared Request route_reply bytes bytes).

(** What the handlers need of a protocol.  [knows s q p] is what a handler may
    remember about the qid [q] it obtained for the path [p]. *)
Class SessionProtocol (P : protocol Shared) := {
  knows : Shared -> N -> bytes -> Prop;
  knows_stable s s' q p : rely P s s' -> knows s q p -> knows s' q p;
  knows_root s : inv P s -> knows s 0 (str "/");
  knows_fid s f e : inv P s -> fids s !! f = Some e -> knows s (fe_qid e) (fe_path e);
  used_next_qid s : used P s = next_qid s;
  alloc_keeps s path d : inv P s -> (used P s + 1 < cap P)%N ->
    keeps P s (snd (alloc_qid path d s)) /\
    knows (snd (alloc_qid path d s)) (fst (alloc_qid path d s)) path;
  set_fid_keeps s f q path d : inv P s -> knows s q path -> keeps P s (set_fid f q path d s);
  set_open_keeps s f : inv P s -> keeps P s (set_open f s);
  delete_keeps s f : inv P s -> keeps P s (with_fids (delete f) s);
  msize_keeps s m : inv P s -> (4096 <= m <= 65536)%N -> keeps P s (with_msize m s);
}.

(** Twstat also renames the entry of a qid. *)
Class RenameProtocol (P : protocol Shared) `{!SessionProtocol P} : Prop := {
  rename_keeps s f q path path' : inv P s -> knows s q path ->
    keeps P s (with_paths <[q := mkPathEntry path' false]> (set_path f path' s));
}.

Lemma clamp_bounds n : (4096 <= clamp 4096 65536 n <= 65536)%N.
Proof. unfold clamp. lia. Qed.

Section handlers.
Context (P : protocol Shared) `{!SessionProtocol P}.
#[local] Existing Instance rely_preorder.
Abbreviation any := (fun _ _ => True).

Lemma rg_lookup_fid {B} (R : Shared -> B -> Prop) fid (k : FidEntry -> proc B) s0 :
  (forall s e, rely P s0 s -> inv P s -> fids s !! fid = Some e ->
     rg P (k e) s (ret_post R)) ->
  rg P (bind (lookup_fid fid) k) s0 (ret_post R).
Proof.
  intros Hk s Hr Hi _. split_and!; [done|reflexivity|unfold id; lia|].
  simpl. destruct (fids s !! fid) as [e|] eqn:E; simpl; [|done]. by apply Hk.
Qed.

Lemma rg_route {B} (R : Shared -> B -> Prop) op path data what
    (k : HandlerResponse -> proc B) s0 :
  (forall r, rg P (k r) s0 (ret_post R)) ->
  rg P (bind (route op path data what) k) s0 (ret_post R).
Proof. intros Hk r. destruct r as [| |[resp|e]]; simpl; auto. Qed.

Lemma rg_reply ty tag payload s0 : rg P (reply ty tag payload) s0 (ret_post any).
Proof. done. Qed.

#[local] Opaque bind get update modify unwrap call fail_if route lookup_fid reply.

Ltac rg_step :=
  first
    [ apply rg_fail_if; intros ?
    | apply rg_unwrap; intros ? ?
    | apply rg_lookup_fid; intros ? ? ? ? ?
    | apply rg_route; intros ?
    | apply rg_call; intros ?
    | apply rg_get; intros ? ? ?
    | apply rg_ret
    | apply rg_reply ].
Ltac rg_auto := repeat rg_step.

Lemma handle_version_rg tag body s0 : rg P (handle_version tag body) s0 (ret_post any).
Proof.
  unfold handle_version. rg_auto. apply rg_sub with any.
  { case_match; [|done]. rg_step. case_match; [|done]. by rg_step. }
  intros s _ _ _. apply rg_update. intros s' _ Hi _.
  split; [by apply msize_keeps, clamp_bounds|rg_auto].
Qed.

Lemma handle_attach_rg tag body s0 : rg P (handle_attach tag body) s0 (ret_post any).
Proof.
  unfold handle_attach. rg_auto. apply rg_update. intros s _ Hi _.
  split; [apply set_fid_keeps; [done|by apply knows_root]|rg_auto].
Qed.

Lemma walk_loop_rg body n w s0 :
  knows s0 (w_qid w) (w_path w) ->
  rg P (walk_loop body n w) s0 (ret_post (fun s w' => knows s (w_qid w') (w_path w'))).
Proof.
  revert w s0. induction n as [|n IH]; intros w s0 Hw; cbn [walk_loop]; [done|].
  rg_auto. apply rg_sub with any; [case_match; rg_auto; done|].
  intros s _ Hr _. apply rg_modify. intros s' Hr' Hi Hu.
  destruct (alloc_keeps s' (child_path (w_path w) (from_utf8_lossy a0))
    (is_empty (from_utf8_lossy a0) || bool_decide (from_utf8_lossy a0 = str ".") ||
     bool_decide (from_utf8_lossy a0 = str ".."))) as [Hk Hn]; [done..|].
  split; [exact Hk|]. by apply IH.
Qed.

Lemma handle_walk_rg tag body s0 : rg P (handle_walk tag body) s0 (ret_post any).
Proof.
  unfold handle_walk. rg_auto.
  eapply rg_sub; [apply walk_loop_rg; simpl; by eapply knows_fid|].
  intros s' w Hr Hw. apply rg_update. intros s'' Hr' Hi _.
  split; [|rg_auto]. apply set_fid_keeps; [done|]. by eapply knows_stable.
Qed.

Lemma handle_open_rg tag body s0 : rg P (handle_open tag body) s0 (ret_post any).
Proof.
  unfold handle_open. rg_auto. apply rg_update. intros s' _ Hi _.
  split; [by apply set_open_keeps|rg_auto].
Qed.

Lemma keeps_trans s1 s2 s3 :
  keeps P s1 s2 -> keeps P s2 s3 -> next_qid s3 = next_qid s2 -> keeps P s1 s3.
Proof.
  intros (?&?&Hu) (?&?&?) Hn. rewrite !used_next_qid in Hu.
  split_and!; [done|by etrans|rewrite !used_next_qid; lia].
Qed.

Lemma handle_create_rg tag body s0 : rg P (handle_create tag body) s0 (ret_post any).
Proof.
  unfold handle_create. rg_auto. apply rg_modify. intros s' Hr' Hi' Hu.
  set (path := child_path _ _). set (d := negb _).
  destruct (alloc_keeps s' path d Hi' Hu) as [Hk Hn].
  destruct (alloc_qid path d s') as [qid s1]. simpl in *.
  split; [|rg_auto].
  pose proof (set_fid_keeps s1 a qid path d (proj1 Hk) Hn) as Hf.
  eapply keeps_trans; [eapply keeps_trans; [exact Hk|exact Hf|done]| |done].
  apply set_open_keeps. apply Hf.
Qed.

Lemma handle_read_rg tag body s0 : rg P (handle_read now tag body) s0 (ret_post any).
Proof. unfold handle_read. rg_auto. case_match; rg_auto. Qed.

Lemma handle_write_rg tag body s0 : rg P (handle_write tag body) s0 (ret_post any).
Proof. unfold handle_write. rg_auto. Qed.

Lemma handle_clunk_rg tag body s0 : rg P (handle_clunk tag body) s0 (ret_post any).
Proof.
  unfold handle_clunk. rg_auto. apply rg_sub with any; [case_match; rg_auto; done|].
  intros s' _ _ _. apply rg_update. intros s'' _ Hi _.
  split; [by apply delete_keeps|rg_auto].
Qed.

Lemma handle_remove_rg tag body s0 : rg P (handle_remove tag body) s0 (ret_post any).
Proof. unfold handle_remove. rg_auto. Qed.

Lemma handle_stat_rg tag body s0 : rg P (handle_stat now tag body) s0 (ret_post any).
Proof. unfold handle_stat. rg_auto. Qed.

Lemma handle_flush_rg tag s0 : rg P (handle_flush tag) s0 (ret_post any).
Proof. unfold handle_flush. rg_auto. Qed.

Lemma parse_wstat_rg path data s0 : rg P (parse_wstat path data) s0 (ret_post any).
Proof.
  unfold parse_wstat. set (off := if Nat.leb _ _ then _ + 8 else _ : nat). clearbody off.
  apply rg_sub with any; [|done].
  destruct (Nat.leb (off + 2) (length data)); [|done]. rg_step.
  destruct (_ && _); [|done]. by rg_step.
Qed.

Lemma handle_wstat_rg `{!RenameProtocol P} tag body s0 :
  rg P (handle_wstat tag body) s0 (ret_post any).
Proof.
  unfold handle_wstat. rg_auto. case_match; [rg_auto|].
  apply rg_sub with any; [apply parse_wstat_rg|]. intros s' ws Hr _.
  apply rg_sub with any; [|intros; rg_auto].
  destruct (ws_name ws) as [name|]; [|case_match; [rg_auto; done|done]].
  rg_auto. apply rg_update with (R := any). intros s'' Hr' Hi' _.
  split; [|done]. eapply rename_keeps; [done|].
  match goal with H : fids ?s !! _ = Some _ |- _ => apply (knows_stable s) end;
    [by etrans|by eapply knows_fid].
Qed.

(** Every message but Twstat keeps any session protocol; Twstat keeps those
    that allow renaming. *)
Lemma handle_message_rg ty tag body s0 :
  ty <> TWSTAT \/ RenameProtocol P ->
  rg P (handle_message now ty tag body) s0 (ret_post any).
Proof.
  intros Hren. unfold handle_message.
  repeat (match goal with |- context [N.eqb ty ?c] =>
            destruct (N.eqb_spec ty c) as [->|?] end; [
    first [ apply handle_version_rg | apply handle_attach_rg | apply handle_walk_rg
          | apply handle_open_rg | apply handle_read_rg | apply handle_write_rg
          | apply handle_clunk_rg | apply handle_create_rg | apply handle_remove_rg
          | apply handle_stat_rg | apply handle_flush_rg
          | destruct Hren; [done|by apply handle_wstat_rg] ]|]).
  done.
Qed.

#[local] Transparent bind.
Lemma serve_messages_rg ms s0 :
  Forall (fun m => fst (fst m) <> TWSTAT \/ RenameProtocol P) ms ->
  rg P (serve_messages now ms) s0 (ret_post any).
Proof.
  intros Hms. revert s0. induction Hms as [|[[ty tag] body] ms Hm Hms IH]; intros s0; [done|].
  cbn [serve_messages]. apply rg_sub with any; [|intros; apply IH].
  apply rg_catch. eapply rg_mono; [|by apply handle_message_rg].
  intros s [a|e|] _ _; done.
Qed.

(** The protocol holds at every point of every interleaving of any number
    of connections. *)
Lemma serve_pool_ok n s0 conns c :
  inv P s0 -> (used P s0 + N.of_nat n < cap P)%N ->
  Forall (Forall (fun m => fst (fst m) <> TWSTAT \/ RenameProtocol P)) conns ->
  nsteps step n (s0, serve_messages now <$> conns) c ->
  inv P (fst c).
Proof.
  intros Hi Hu Hms Hn.
  apply (steps_ok P n) in Hn as [[Hc _] _]; [done|done|].
  split; [done|]. intros i p Hp.
  simpl in Hp. rewrite list_lookup_fmap in Hp. destruct (conns !! i) as [ms|] eqn:E; [|done].
  simpl in Hp. injection Hp as <-. exists s0. split; [reflexivity|].
  eapply rg_mono; [done|]. apply serve_messages_rg.
  by eapply Forall_lookup_1.
Qed.
End handlers.

(** ** The protocol of every run *)

(** The session state is well formed: every qid in use is below the counter,
    the root's qid stays known, every fid refers to a known qid, and the
    negotiated message size is within the server's limits. *)
Record session_wf (s : Shared) : Prop := {
  wf_qids q e : paths s !! q = Some e -> (q < next_qid s)%N;
  wf_root : is_Some (paths s !! 0%N);
  wf_fids f e : fids s !! f = Some e -> is_Some (paths s !! fe_qid e);
  wf_msize : (4096 <= msize s <= 65536)%N;
}.

Definition session_rely (s s' : Shared) : Prop :=
  (forall q, is_Some (paths s !! q) -> is_Some (paths s' !! q)) /\
  (next_qid s <= next_qid s')%N.

Lemma session_rely_preorder : PreOrder session_rely.
Proof.
  split; [intros s; split; [done|lia]|].
  intros s1 s2 s3 [H1 ?] [H2 ?]. split; [auto|lia].
Qed.

Definition session_protocol : protocol Shared :=
  {| inv := session_wf; rely := session_rely; used := next_qid; cap := 2 ^ 64;
     rely_preorder := session_rely_preorder |}.

(** A section that leaves paths and counter alone moves along the preorder. *)
Lemma session_keeps_same s s' :
  session_wf s' -> paths s' = paths s -> next_qid s' = next_qid s ->
  keeps session_protocol s s'.
Proof.
  intros Hi Hp Hn. split_and!; simpl; [done| |lia].
  split; [by rewrite Hp|lia].
Qed.

Lemma find_path_Some path s q :
  find_path path s = Some q -> exists e, paths s !! q = Some e /\ pe_path e = path.
Proof.
  unfold find_path. intros ([q' e] & Hf & ->)%fmap_Some.
  apply find_some in Hf as [Hin Heq%bool_decide_eq_true].
  apply list_elem_of_In, iter_order_elem in Hin. eauto.
Qed.

Lemma find_path_None path s q e :
  find_path path s = None -> paths s !! q = Some e -> pe_path e <> path.
Proof.
  unfold find_path. intros Hf%fmap_None Hq Heq.
  assert (Hin : In (q, e) (iter_order (paths s))).
  { by apply list_elem_of_In, iter_order_elem. }
  apply (find_none _ _ Hf) in Hin. by apply bool_decide_eq_false in Hin.
Qed.

Lemma u64_wrap_next n : (n + 1 < 2 ^ 64)%N -> u64_wrap (n + 1) = (n + 1)%N.
Proof. apply wrap_small. Qed.

Lemma fids_alter_lookup (g : FidEntry -> FidEntry) f (m : gmap N FidEntry) f' e :
  (forall e, fe_qid (g e) = fe_qid e) ->
  alter g f m !! f' = Some e -> exists e', m !! f' = Some e' /\ fe_qid e' = fe_qid e.
Proof.
  intros Hg. destruct (decide (f = f')) as [->|Hne].
  - rewrite lookup_alter_eq. intros (e' & He' & ->)%fmap_Some. eauto.
  - rewrite lookup_alter_ne by done. eauto.
Qed.

#[export] Program Instance session_protocol_ok : SessionProtocol session_protocol := {
  knows s q _ := is_Some (paths s !! q);
}.
Next Obligation. intros s s' q p [H _]. auto. Qed.
Next Obligation. intros s Hi. apply Hi. Qed.
Next Obligation. intros s f e Hi Hf. by eapply wf_fids. Qed.
Next Obligation. done. Qed.
Next Obligation.
  intros s path d Hi Hu. unfold alloc_qid. simpl in Hu.
  destruct (find_path path s) as [q|] eqn:E; simpl.
  { apply find_path_Some in E as (e & Hq & _).
    split; [by apply keeps_refl|by rewrite Hq]. }
  split; [|by rewrite lookup_insert_eq].
  split_and!; [|split|]; simpl; rewrite ?u64_wrap_next by done; try lia.
  - destruct Hi as [H1 H2 H3 H4]. split; simpl; rewrite ?u64_wrap_next by done.
    + intros q e. destruct (decide (next_qid s = q)) as [->|Hne]; [lia|].
      rewrite lookup_insert_ne by done. intros ?%H1. lia.
    + apply lookup_insert_is_Some'. by right.
    + intros f e Hf. apply lookup_insert_is_Some'. right. by eapply H3.
    + done.
  - intros q Hq. apply lookup_insert_is_Some'. by right.
Qed.
Next Obligation.
  intros s f q path d Hi Hq. apply session_keeps_same; [|done..].
  destruct Hi as [H1 H2 H3 H4]. split; simpl; [done..| |done].
  intros f' e. destruct (decide (f = f')) as [->|Hne].
  - rewrite lookup_insert_eq. by intros [= <-].
  - rewrite lookup_insert_ne by done. apply H3.
Qed.
Next Obligation.
  intros s f Hi. apply session_keeps_same; [|done..].
  destruct Hi as [H1 H2 H3 H4]. split; simpl; [done..| |done].
  intros f' e (e' & Hf & <-)%fids_alter_lookup; [|done]. by eapply H3.
Qed.
Next Obligation.
  intros s f Hi. apply session_keeps_same; [|done..].
  destruct Hi as [H1 H2 H3 H4]. split; simpl; [done..| |done].
  intros f' e [_ Hf]%lookup_delete_Some. by eapply H3.
Qed.
Next Obligation.
  intros s m Hi Hm. apply session_keeps_same; [|done..].
  destruct Hi as [H1 H2 H3 H4]. by split.
Qed.

#[export] Instance session_rename_ok : RenameProtocol session_protocol.
Proof.
  split. intros s f q path path' Hi Hq. destruct Hi as [H1 H2 H3 H4].
  assert (Hmono : forall q', is_Some (paths s !! q') ->
            is_Some (<[q := mkPathEntry path' false]> (paths s) !! q')).
  { intros q' ?. apply lookup_insert_is_Some'. by right. }
  split_and!; [|split|]; simpl; [|done|lia..].
  split; simpl; [|by apply Hmono| |done].
  - intros q' e. destruct (decide (q = q')) as [->|Hne].
    + intros _. destruct Hq as [e' He']. by eapply H1.
    + rewrite lookup_insert_ne by done. apply H1.
  - intros f' e (e' & Hf & <-)%fids_alter_lookup; [|done]. eapply Hmono, H3, Hf.
Qed.

(** ** The protocol of the runs without Twstat *)

(** In addition: no two qids name the same path, the root's qid is 0, and the
    qid of a fid is the qid of the fid's path. *)
Record qid_bijection (s : Shared) : Prop := {
  bj_wf : session_wf s;
  bj_root : pe_path <$> paths s !! 0%N = Some (str "/");
  bj_fids f e : fids s !! f = Some e -> pe_path <$> paths s !! fe_qid e = Some (fe_path e);
  bj_inj q1 q2 e1 e2 : paths s !! q1 = Some e1 -> paths s !! q2 = Some e2 ->
    pe_path e1 = pe_path e2 -> q1 = q2;
}.

Definition bijection_rely (s s' : Shared) : Prop :=
  paths s ⊆ paths s' /\ (next_qid s <= next_qid s')%N.

Lemma bijection_rely_preorder : PreOrder bijection_rely.
Proof.
  split; [intros s; split; [done|lia]|].
  intros s1 s2 s3 [H1 ?] [H2 ?]. split; [by etrans|lia].
Qed.

Definition bijection_protocol : protocol Shared :=
  {| inv := qid_bijection; rely := bijection_rely; used := next_qid; cap := 2 ^ 64;
     rely_preorder := bijection_rely_preorder |}.

Lemma bijection_keeps_same s s' :
  qid_bijection s' -> paths s' = paths s -> next_qid s' = next_qid s ->
  keeps bijection_protocol s s'.
Proof.
  intros Hi Hp Hn. split_and!; simpl; [done| |lia].
  split; [by rewrite Hp|lia].
Qed.

Lemma bijection_fresh s : qid_bijection s -> paths s !! next_qid s = None.
Proof.
  intros [[H _ _ _] _ _ _]. destruct (paths s !! next_qid s) as [e|] eqn:E; [|done].
  apply H in E. lia.
Qed.

#[export] Program Instance bijection_protocol_ok : SessionProtocol bijection_protocol := {
  knows s q p := pe_path <$> paths s !! q = Some p;
}.
Next Obligation.
  intros s s' q p [H _] (e & He & ->)%fmap_Some.
  by rewrite (lookup_weaken _ _ _ _ He H).
Qed.
Next Obligation. intros s Hi. apply Hi. Qed.
Next Obligation. intros s f e Hi Hf. by eapply bj_fids. Qed.
Next Obligation. done. Qed.
Next Obligation.
  intros s path d Hi Hu. simpl in Hu.
  destruct (alloc_keeps (P := session_protocol) s path d (bj_wf s Hi) Hu) as [(Hw & _ & _) _].
  pose proof (bijection_fresh s Hi) as Hfresh. revert Hw. unfold alloc_qid.
  destruct (find_path path s) as [q|] eqn:E; simpl; intros Hw.
  { apply find_path_Some in E as (e & Hq & <-).
    split; [by apply keeps_refl|by rewrite Hq]. }
  assert (Hsub : paths s ⊆ <[next_qid s := mkPathEntry path d]> (paths s))
    by by apply insert_subseteq.
  split; [|by rewrite lookup_insert_eq].
  split_and!; [|split|]; simpl; [|done|rewrite u64_wrap_next by done; lia..].
  destruct Hi as [H1 H2 H3 H4]. split; simpl; [done|..].
  - apply fmap_Some in H2 as (e & He & Hp).
    rewrite (lookup_weaken _ _ _ _ He Hsub). simpl. by f_equal.
  - intros f e Hf. apply H3, fmap_Some in Hf as (e' & He' & ->).
    by rewrite (lookup_weaken _ _ _ _ He' Hsub).
  - intros q1 q2 e1 e2.
    rewrite !lookup_insert_Some.
    intros [[<- <-]|[? Hq1]] [[<- <-]|[? Hq2]]; simpl; try done; intros Hp.
    + by destruct (find_path_None _ _ _ _ E Hq2).
    + by destruct (find_path_None _ _ _ _ E Hq1).
    + by eapply H4.
Qed.
Next Obligation.
  intros s f q path d Hi Hq. apply bijection_keeps_same; [|done..].
  simpl in Hq. apply fmap_Some in Hq as (e0 & Hq & ->).
  destruct (set_fid_keeps (P := session_protocol) s f q (pe_path e0) d (bj_wf s Hi)) as [Hw _];
    [exact (ex_intro _ e0 Hq)|].
  destruct Hi as [H1 H2 H3 H4]. split; simpl; [done..| |done].
  intros f' e. rewrite lookup_insert_Some. intros [[_ <-]|[_ Hf]]; [simpl; by rewrite Hq|by eapply H3].
Qed.
Next Obligation.
  intros s f Hi. apply bijection_keeps_same; [|done..].
  destruct (set_open_keeps (P := session_protocol) s f (bj_wf s Hi)) as [Hw _].
  destruct Hi as [H1 H2 H3 H4]. split; simpl; [done..| |done].
  intros f' e. destruct (decide (f = f')) as [->|Hne].
  - rewrite lookup_alter_eq. intros (e' & He' & ->)%fmap_Some. simpl. by apply H3 in He'.
  - rewrite lookup_alter_ne by done. apply H3.
Qed.
Next Obligation.
  intros s f Hi. apply bijection_keeps_same; [|done..].
  destruct (delete_keeps (P := session_protocol) s f (bj_wf s Hi)) as [Hw _].
  destruct Hi as [H1 H2 H3 H4]. split; simpl; [done..| |done].
  intros f' e [_ Hf]%lookup_delete_Some. by eapply H3.
Qed.
Next Obligation.
  intros s m Hi Hm. apply bijection_keeps_same; [|done..].
  destruct (msize_keeps (P := session_protocol) s m (bj_wf s Hi) Hm) as [Hw _].
  destruct Hi as [H1 H2 H3 H4]. by split.
Qed.

Lemma new_shared_bijection m : (4096 <= m <= 65536)%N -> qid_bijection (new_shared m).
Proof.
  intros Hm. split; [split|..]; simpl; try done.
  - intros q e [<- _]%lookup_singleton_Some. lia.
  - intros q1 q2 e1 e2 [<- _]%lookup_singleton_Some [<- _]%lookup_singleton_Some. done.
Qed.

(** At every point of every interleaving of any number of 9P connections,
    with any messages and any router replies, the shared session state is well
    formed: qids in use are below the counter (so the next allocation is
    fresh), the root's qid is known, every fid refers to a known qid, and the
    message size stays within [4096, 65536].  The run is bounded only by the
    64-bit counter. *)
Theorem session_state_wf n m conns c :
  (4096 <= m <= 65536)%N -> (N.of_nat n < 2 ^ 64 - 1)%N ->
  nsteps step n (new_shared m, serve_messages now <$> conns) c ->
  session_wf (fst c).
Proof.
  intros Hm Hn Hsteps.
  apply (serve_pool_ok session_protocol) in Hsteps; [done|..].
  - apply (bj_wf _ (new_shared_bijection m Hm)).
  - simpl. lia.
  - apply Forall_true. intros ms. apply Forall_true. right. apply _.
Qed.

(** C4: As long as no connection sends Twstat, the qids identify the paths at
    every point of every interleaving: no two qids name one path, qid 0 is the
    root, and the qid of every fid is the qid of the path the fid stands for. *)
Theorem session_qids_identify_paths n m conns c :
  (4096 <= m <= 65536)%N -> (N.of_nat n < 2 ^ 64 - 1)%N ->
  Forall (Forall (fun msg => fst (fst msg) <> TWSTAT)) conns ->
  nsteps step n (new_shared m, serve_messages now <$> conns) c ->
  qid_bijection (fst c).
Proof.
  intros Hm Hn Hms Hsteps.
  apply (serve_pool_ok bijection_protocol) in Hsteps; [done|..].
  - by apply new_shared_bijection.
  - simpl. lia.
  - eapply Forall_impl; [exact Hms|]. intros ms Hms'.
    eapply Forall_impl; [exact Hms'|]. intros msg Hmsg. by left.
Qed.
End inv.

(** * The theorems at a concrete run: one connection attaches, another asks for
    a flush; the first critical section of the attach is taken. *)
Module InvExample.
Definition attach : N * N * bytes := (TATTACH, 1%N, u32_le 5 ++ u32_le 0).
Definition flush : N * N * bytes := (TFLUSH, 2%N, []).
Definition start := (new_shared 8192,
  serve_messages (ord := default_order) 0 <$> [[attach]; [flush]]).

Lemma start_steps : exists c, nsteps step 1 start c /\
  fids (fst c) !! 5%N = Some (mkFidEntry 0 (str "/") false true).
Proof.
  eexists. split.
  - eapply nsteps_l; [|apply nsteps_O]. eapply (step_at _ _ 0); [reflexivity|].
    vm_compute. apply act_lock.
  - vm_compute. reflexivity.
Qed.
End InvExample.

Lemma session_state_wf_witness :
  exists c, nsteps step 1 InvExample.start c /\ session_wf (fst c) /\
    fids (fst c) !! 5%N = Some (mkFidEntry 0 (str "/") false true).
Proof.
  destruct InvExample.start_steps as (c & Hc & Hf). exists c. split; [exact Hc|]. split; [|exact Hf].
  apply (session_state_wf (ord := default_order) 0 1 8192
    [[InvExample.attach]; [InvExample.flush]] c); [lia|lia|exact Hc].
Defined.

Lemma session_qids_identify_paths_witness :
  exists c, nsteps step 1 InvExample.start c /\ qid_bijection (fst c) /\
    fids (fst c) !! 5%N = Some (mkFidEntry 0 (str "/") false true).
Proof.
  destruct InvExample.start_steps as (c & Hc & Hf). exists c. split; [exact Hc|]. split; [|exact Hf].
  apply (session_qids_identify_paths (ord := default_order) 0 1 8192
    [[InvExample.attach]; [InvExample.flush]] c); [lia|lia|repeat constructor; discriminate|exact Hc].
Defined.
