(* ===== verification/NinepSpec.v ===== *)
(** What the 9P handlers of [src/src/frontend/ninep.rs] do: the effect of each
    message on the session state, the requests it makes of the router and the
    reply it builds, in terms of paths and names rather than bytes. *)
From S2P Require Import Prelude RustStr Proc Wire Router Ninep NinepReplies NinepInv.
#[local] Open Scope proc_scope.

(** * The fids a message may touch *)

(** In some environment, [p] runs a critical section from [s] to [s']. *)
Inductive may_update {St Rq Rp M E A : Type} : proc St Rq Rp M E A -> St -> St -> Prop :=
| mu_here upd k s : may_update (Lock upd k) s (upd s)
| mu_lock upd k s0 s s' : may_update (k s0) s s' -> may_update (Lock upd k) s s'
| mu_call rq k r s s' : may_update (k r) s s' -> may_update (Call rq k) s s'
| mu_send m k s s' : may_update k s s' -> may_update (Send m k) s s'.

(** Every critical section of [p] moves the state along [R]. *)
Fixpoint effects {St Rq Rp M E A : Type} (R : St -> St -> Prop) (p : proc St Rq Rp M E A) : Prop :=
  match p with
  | Ret _ | Fail _ | Panic => True
  | Lock upd k => (forall s, R s (upd s)) /\ forall s, effects R (k s)
  | Call rq k => forall r, effects R (k r)
  | Send m k => effects R k
  end.

Section effects.
Context {St Rq Rp M E : Type} (R : St -> St -> Prop).
Abbreviation proc := (proc St Rq Rp M E).

Lemma effects_sound {A} (p : proc A) s s' : effects R p -> may_update p s s' -> R s s'.
Proof. intros Hp Hu. induction Hu; simpl in Hp; try apply IHHu; apply Hp. Qed.

Lemma effects_bind {A B} (p : proc A) (k : A -> proc B) :
  effects R p -> (forall a, effects R (k a)) -> effects R (bind p k).
Proof.
  intros Hp Hk. induction p as [a|e| |upd f IH|rq f IH|m f IH]; simpl in *; auto.
  destruct Hp. split; auto.
Qed.

Lemma effects_catch {A} (p : proc A) h :
  effects R p -> (forall e, effects R (h e)) -> effects R (catch p h).
Proof.
  intros Hp Hh. induction p as [a|e| |upd f IH|rq f IH|m f IH]; simpl in *; auto.
  destruct Hp. split; auto.
Qed.

Lemma effects_unwrap {A} (o : option A) : effects R (unwrap o : proc A).
Proof. by destruct o. Qed.
Lemma effects_unwrap_bind {A B} (o : option A) (k : A -> proc B) :
  (forall a, o = Some a -> effects R (k a)) -> effects R (bind (unwrap o) k).
Proof. destruct o; simpl; auto. Qed.
Lemma effects_ok_or {A} (o : option A) e : effects R (ok_or o e : proc A).
Proof. by destruct o. Qed.
Lemma effects_fail_if b e : effects R (fail_if b e : proc unit).
Proof. by destruct b. Qed.
Lemma effects_update (f : St -> St) : (forall s, R s (f s)) -> effects R (update f : proc unit).
Proof. done. Qed.
Lemma effects_modify {A} (f : St -> A * St) :
  (forall s, R s (snd (f s))) -> effects R (modify f : proc A).
Proof. done. Qed.
Lemma effects_call rq : effects R (call rq : proc Rp).
Proof. done. Qed.
Lemma effects_send m : effects R (send m : proc unit).
Proof. done. Qed.
Lemma effects_ret {A} (a : A) : effects R (Ret a : proc A).
Proof. done. Qed.
End effects.

(** The fid a message opens, replaces, renames or drops. *)
Definition target_fid (msg_type : N) (body : bytes) : option N :=
  if N.eqb msg_type TWALK then get_u32 4 body
  else if existsb (N.eqb msg_type) [TATTACH; TOPEN; TCREATE; TCLUNK; TWSTAT]
  then get_u32 0 body
  else None.

(** The two states agree on the fids other than [o]. *)
Definition same_fids (o : option N) (s s' : Shared) : Prop :=
  forall f, o <> Some f -> fids s' !! f = fids s !! f.

Section frame.
Context {ord : IterOrder N PathEntry}.
Variable now : N.
Abbreviation proc := (proc Shared Request route_reply bytes bytes).

Lemma effects_get {A} o (f : Shared -> A) : effects (same_fids o) (get f : proc A).
Proof. by split. Qed.

Lemma same_fids_trans o s1 s2 s3 : same_fids o s1 s2 -> same_fids o s2 s3 -> same_fids o s1 s3.
Proof. intros H1 H2 f Hf. rewrite H2 by done. by apply H1. Qed.

Lemma same_fids_set o f q p d s : o = Some f -> same_fids o s (set_fid f q p d s).
Proof. intros -> g Hg. apply lookup_insert_ne. congruence. Qed.

Lemma same_fids_alloc o p d s : same_fids o s (snd (alloc_qid p d s)).
Proof. intros g Hg. unfold alloc_qid. by case_match. Qed.

Lemma same_fids_alter o f g s :
  o = Some f -> same_fids o s (with_fids (alter g f) s).
Proof. intros -> h Hh. apply lookup_alter_ne. congruence. Qed.

Lemma same_fids_delete o f s : o = Some f -> same_fids o s (with_fids (delete f) s).
Proof. intros -> h Hh. apply lookup_delete_ne. congruence. Qed.

Lemma effects_lookup_fid o fid : effects (same_fids o) (lookup_fid fid : proc FidEntry).
Proof. unfold lookup_fid. apply effects_bind; [apply effects_get|intros ?; apply effects_ok_or]. Qed.

Lemma effects_route o op path data what :
  effects (same_fids o) (route op path data what : proc HandlerResponse).
Proof. intros [| |[]]; done. Qed.

Ltac eff_step :=
  first
    [ apply effects_ret | apply effects_unwrap | apply effects_fail_if | apply effects_get
    | apply effects_call | apply effects_send | apply effects_lookup_fid | apply effects_route
    | apply effects_update; intros ? | apply effects_modify; intros ?
    | apply effects_unwrap_bind; intros ? ?
    | apply effects_bind; [|intros ?] ].
Ltac eff := unfold reply; repeat eff_step.

Lemma effects_walk_loop o body n w : effects (same_fids o) (walk_loop body n w : proc Walk).
Proof.
  revert w. induction n as [|n IH]; intros w; cbn [walk_loop]; [done|].
  eff; [case_match; eff|apply same_fids_alloc|apply IH].
Qed.

Lemma effects_parse_wstat o path data :
  effects (same_fids o) (parse_wstat path data : proc Wstat).
Proof.
  unfold parse_wstat. set (off := if Nat.leb _ _ then _ + 8 else _ : nat). clearbody off.
  apply effects_bind; [|done]. destruct (Nat.leb (off + 2) (length data)); [|done]. eff.
  destruct (_ && _); [|done]. eff.
Qed.

Lemma handle_message_effects ty tag body :
  effects (same_fids (target_fid ty body)) (handle_message now ty tag body).
Proof.
  unfold handle_message.
  repeat (match goal with |- context [N.eqb ty ?c] =>
            destruct (N.eqb_spec ty c) as [->|?] end; [
    unfold target_fid; cbn [N.eqb Pos.eqb TVERSION TATTACH TWALK TOPEN TREAD TWRITE TCLUNK
      TCREATE TREMOVE TSTAT TWSTAT TFLUSH existsb orb]|]); [..|done].
  - unfold handle_version. eff; try done. all: repeat (case_match; eff).
  - unfold handle_attach. eff. by apply same_fids_set.
  - unfold handle_walk. eff; [apply effects_walk_loop|]. by apply same_fids_set.
  - unfold handle_open. eff. by apply same_fids_alter.
  - unfold handle_read. eff. case_match; eff.
  - unfold handle_write. eff.
  - unfold handle_clunk. eff; [case_match; eff|]. by apply same_fids_delete.
  - unfold handle_create. eff.
    pose proof (same_fids_alloc (get_u32 0 body)
      (child_path (fe_path a6) (from_utf8_lossy a3)) (negb (N.eqb (N.land a4 DMDIR) 0)) s) as Hs.
    destruct (alloc_qid _ _ s) as [q s1]. simpl in *.
    eapply same_fids_trans; [exact Hs|]. eapply same_fids_trans; [by apply same_fids_set|].
    by apply same_fids_alter.
  - unfold handle_remove. eff.
  - unfold handle_stat. eff.
  - unfold handle_wstat. eff. case_match; [eff|].
    apply effects_bind; [apply effects_parse_wstat|intros ws].
    apply effects_bind; [|intros _; eff].
    case_match; [eff; by apply same_fids_alter|case_match; eff].
  - unfold handle_flush. eff.
Qed.

(** C27: A message changes the table entry of its own fid at most (the fid it
    attaches, the new fid of a walk, the fid it opens, creates on, clunks or
    renames), and a read, write, stat, remove, version or flush changes none,
    whatever the router answers and whatever runs in between: no request can
    redirect, open or close another fid of the session. *)
Theorem serve_message_frame msg_type tag body s s' :
  may_update (serve_message now (msg_type, tag, body)) s s' ->
  same_fids (target_fid msg_type body) s s'.
Proof.
  apply effects_sound, effects_catch; [apply handle_message_effects|done].
Qed.
End frame.

(** * Qid allocation *)
Lemma find_path_lookup {ord : IterOrder N PathEntry} path s q e :
  qid_bijection s -> paths s !! q = Some e -> pe_path e = path -> find_path path s = Some q.
Proof.
  intros Hb Hq Hp. destruct (find_path path s) as [q'|] eqn:E.
  - apply find_path_Some in E as (e' & Hq' & Hp').
    f_equal. eapply bj_inj; [done..|congruence].
  - by eapply find_path_None in E.
Qed.

(** Qids do not depend on the iteration order of the server's hash map, and
    allocating a path twice gives the same qid: in a state whose qids identify
    the paths, the allocation of a path is the same under any two orders, and
    repeating it in the state it returns changes nothing. *)
Theorem alloc_qid_canonical (ord1 ord2 : IterOrder N PathEntry) path d d' s :
  qid_bijection s -> (next_qid s + 1 < 2 ^ 64)%N ->
  alloc_qid (ord := ord1) path d s = alloc_qid (ord := ord2) path d s /\
  alloc_qid (ord := ord1) path d' (snd (alloc_qid (ord := ord1) path d s)) =
    alloc_qid (ord := ord1) path d s.
Proof.
  intros Hb Hu.
  assert (Hord : find_path (ord := ord1) path s = find_path (ord := ord2) path s).
  { destruct (find_path (ord := ord2) path s) as [q|] eqn:E2.
    - apply find_path_Some in E2 as (e & Hq & Hp). by eapply find_path_lookup.
    - destruct (find_path (ord := ord1) path s) as [q|] eqn:E1; [|done].
      apply find_path_Some in E1 as (e & Hq & Hp). by eapply find_path_None in E2. }
  split; [unfold alloc_qid; by rewrite Hord|].
  destruct (alloc_keeps (ord := ord1) (P := bijection_protocol) s path d Hb Hu) as [(Hb' & _) Hk].
  simpl in Hb', Hk.
  assert (Hidem : find_path (ord := ord1) path (snd (alloc_qid (ord := ord1) path d s)) =
                  Some (fst (alloc_qid (ord := ord1) path d s))).
  { apply fmap_Some in Hk as (e & Hq & Hp). by eapply find_path_lookup. }
  unfold alloc_qid at 1. rewrite Hidem. by destruct (alloc_qid path d s).
Qed.

(** * Walking *)

(** The body of a Twalk. *)
Definition walk_name (name : bytes) : bytes := u16_le (lenN name) ++ name.
Definition walk_body (fid new_fid : N) (names : list bytes) : bytes :=
  u32_le fid ++ u32_le new_fid ++ u16_le (lenN names) ++ concat (map walk_name names).

Definition name_ok (name : bytes) : Prop := (lenN name < 2 ^ 16)%N /\ valid_utf8 name = true.

(** The path [names] lead to from [path]. *)
Definition walk_path (path : bytes) (names : list bytes) : bytes := fold_left child_path names path.

Definition special_name (name : bytes) : bool :=
  is_empty name || bool_decide (name = str ".") || bool_decide (name = str "..").

Section walk.
Context {ord : IterOrder N PathEntry}.

(** One step of the walk: the qid of the next prefix. *)
Definition walk_step (name : bytes) (ws : Walk * Shared) : Walk * Shared :=
  let '(w, s) := ws in
  let path := child_path (w_path w) name in
  let d := special_name name in
  let '(q, s') := alloc_qid path d s in
  (mkWalk path q (w_qids w ++ [mkQid (if d then 0x80 else 0)%N 0 q])
     (w_offset w + 2 + length name) d, s').

Definition walk_steps (names : list bytes) (ws : Walk * Shared) : Walk * Shared :=
  fold_left (fun ws name => walk_step name ws) names ws.

(** One iteration of the loop on an encoded name. *)
Lemma walk_loop_step pre name rest n w :
  name_ok name -> length pre = w_offset w ->
  walk_loop (pre ++ walk_name name ++ rest) (S n) w =
  ((if Nat.eqb n 0
    then let! _ := route Lookup (child_path (w_path w) name) [] (str "lookup") in Ret tt
    else Ret tt) ;!
   let! qid := modify (alloc_qid (child_path (w_path w) name) (special_name name)) in
   walk_loop (pre ++ walk_name name ++ rest) n
     (mkWalk (child_path (w_path w) name) qid
        (w_qids w ++ [mkQid (if special_name name then 0x80 else 0)%N 0 qid])
        (w_offset w + 2 + length name) (special_name name))).
Proof.
  intros [Hlen Hutf] Hpre. set (body := pre ++ walk_name name ++ rest).
  assert (Hl : w_offset w + 2 + length name <= length body).
  { unfold body, walk_name. rewrite !length_app, length_u16_le. lia. }
  assert (H1 : get_u16 (w_offset w) body = Some (lenN name)).
  { unfold body, walk_name. rewrite <-app_assoc. by apply (get_le_app 2). }
  assert (H2 : get_slice (w_offset w + 2) (w_offset w + 2 + length name) body = Some name).
  { unfold body, walk_name. rewrite <-app_assoc, app_assoc. apply get_slice_app; [|done].
    rewrite length_app, length_u16_le. lia. }
  cbn [walk_loop]. rewrite (proj2 (Nat.ltb_ge _ _)) by lia. cbn [fail_if bind].
  rewrite H1. cbn [unwrap bind]. rewrite lenN_nat.
  rewrite (proj2 (Nat.ltb_ge _ _)) by lia. cbn [fail_if bind].
  rewrite H2. cbn [unwrap bind]. by rewrite from_utf8_lossy_id.
Qed.

Context {W : Type} (backend : W -> Request -> W * route_reply).

(** The walk loop on an encoded name list: the prefixes get their qids, the
    router being asked about the last one only. *)
Lemma walk_loop_run pre names name w s b :
  Forall name_ok (names ++ [name]) -> length pre = w_offset w ->
  run backend (walk_loop (pre ++ concat (map walk_name (names ++ [name])))
                 (length (names ++ [name])) w) b s =
  let '(w1, s1) := walk_steps names (w, s) in
  let '(b', r) := backend b (mkRequest Lookup (child_path (w_path w1) name) []) in
  match r with
  | Replied (Ok _) => let '(w2, s2) := walk_step name (w1, s1) in (ORet w2, b', s2, [])
  | Replied (Err e) => (OFail (str "lookup" ++ str " failed: " ++ e), b', s1, [])
  | RouterGone => (OFail (str "router gone"), b', s1, [])
  | HandlerGone => (OFail (str "handler gone"), b', s1, [])
  end.
Proof.
  revert pre w s. induction names as [|n names IH]; intros pre w s Hok Hpre.
  - cbn [app] in Hok |- *. rewrite Forall_singleton in Hok.
    cbn [length map concat]. rewrite walk_loop_step by done. cbn.
    destruct (backend b _) as [b' [| |[resp|e]]]; try done. simpl.
    by destruct (alloc_qid _ _ s).
  - rewrite <-app_comm_cons in *. inversion Hok as [|? ? Hn Hok']; subst.
    cbn [length map concat]. rewrite walk_loop_step by done.
    rewrite (proj2 (Nat.eqb_neq _ _)) by (rewrite length_app; simpl; lia).
    cbn [bind]. rewrite run_bind. cbn [modify run].
    rewrite app_assoc. rewrite IH; [|done|].
    2:{ unfold walk_name. cbn [w_offset]. rewrite !length_app, length_u16_le. lia. }
    change (walk_steps (n :: names) (w, s)) with (walk_steps names (walk_step n (w, s))).
    unfold walk_step at 2.
    destruct (alloc_qid (child_path (w_path w) n) (special_name n) s) as [q s1] eqn:E. simpl.
    destruct (walk_steps names _) as [w1 s2].
    destruct (backend b _) as [b' [| |[resp|e]]]; try done.
    unfold walk_step. by destruct (alloc_qid _ _ s2).
Qed.

(** What the walk leaves: the qids of the prefixes, and no other change. *)
Record walked (w0 : Walk) (s0 : Shared) (names : list bytes) (w : Walk) (s : Shared) : Prop := {
  wk_path : w_path w = walk_path (w_path w0) names;
  wk_bij : qid_bijection s;
  wk_fids : fids s = fids s0;
  wk_paths : paths s0 ⊆ paths s;
  wk_next : (next_qid s <= next_qid s0 + lenN names)%N;
  wk_qids : exists qs, w_qids w = w_qids w0 ++ qs /\ length qs = length names /\
    forall i q, qs !! i = Some q ->
      pe_path <$> paths s !! qid_path q = Some (walk_path (w_path w0) (take (S i) names));
  wk_qid : names <> [] -> Some (w_qid w) = qid_path <$> last (w_qids w);
  wk_dir name : last names = Some name -> w_is_dir w = special_name name;
  wk_last : names <> [] -> pe_path <$> paths s !! w_qid w = Some (w_path w);
}.

Lemma walk_steps_ok names w s :
  qid_bijection s -> (next_qid s + lenN names < 2 ^ 64)%N ->
  walked w s names (fst (walk_steps names (w, s))) (snd (walk_steps names (w, s))).
Proof.
  intros Hb. induction names as [|name names IH] using rev_ind; intros Hu.
  { split; try done; [unfold lenN; simpl; lia|]. exists []. by rewrite app_nil_r. }
  unfold lenN in *. rewrite length_app in Hu. simpl in Hu.
  unfold walk_steps in *. rewrite fold_left_app. cbn [fold_left].
  destruct (fold_left _ names (w, s)) as [w1 s1]. simpl in IH.
  destruct IH as [Hp Hb1 Hf Hs Hn (qs & Hqs & Hl & Hpaths) _ _ _]; [lia|].
  unfold lenN in Hn. cbn [walk_step].
  set (path := child_path (w_path w1) name).
  destruct (alloc_keeps (P := bijection_protocol) s1 path (special_name name) Hb1)
    as [(Hb2 & [Hs2 _] & Hn2) Hk]; [simpl; lia|].
  pose proof (same_fids_alloc None path (special_name name) s1) as Hf2.
  destruct (alloc_qid path (special_name name) s1) as [q s2]. simpl in *.
  assert (Hpath : walk_path (w_path w) (names ++ [name]) = path).
  { unfold walk_path. rewrite fold_left_app. simpl. unfold path. by rewrite Hp. }
  split; simpl; try done.
  - apply map_eq. intros f. rewrite <-Hf. by apply Hf2.
  - by etrans.
  - rewrite lenN_app. unfold lenN. simpl. lia.
  - exists (qs ++ [mkQid (if special_name name then 0x80 else 0)%N 0 q]).
    rewrite Hqs, app_assoc, !length_app, Hl. split_and!; [done|done|].
    intros i r [Hr|[Hi Hr]]%lookup_app_Some.
    + pose proof (lookup_lt_Some _ _ _ Hr). rewrite take_app_le by lia.
      destruct (proj1 (fmap_Some _ _ _) (Hpaths i r Hr)) as (e & He & ->).
      by rewrite (lookup_weaken _ _ _ _ He Hs2).
    + apply list_lookup_singleton_Some in Hr as [Hi' <-]. simpl.
      rewrite Hl in *. rewrite take_ge by (rewrite length_app; simpl; lia). by rewrite Hpath.
  - intros _. by rewrite last_snoc.
  - rewrite last_snoc. by intros ? [= ->].
Qed.

(** The parsing of the fixed part of a Twalk. *)
Lemma handle_walk_eq tag fid new_fid names :
  (fid < 2 ^ 32)%N -> (new_fid < 2 ^ 32)%N -> (lenN names < 2 ^ 16)%N ->
  handle_walk tag (walk_body fid new_fid names) =
  (let! parent := lookup_fid fid in
   let! w := walk_loop (walk_body fid new_fid names) (length names)
               (mkWalk (fe_path parent) (fe_qid parent) [] 10 (fe_is_dir parent)) in
   update (set_fid new_fid (w_qid w) (w_path w) (w_is_dir w)) ;!
   reply RWALK tag (u16_le (lenN names) ++ concat (map encode_qid (w_qids w)))).
Proof.
  intros H1 H2 H3. unfold handle_walk. set (body := walk_body fid new_fid names).
  assert (Hl : 10 <= length body).
  { unfold body, walk_body. rewrite !length_app, length_u16_le, !length_u32_le. lia. }
  assert (G1 : get_u32 0 body = Some fid) by by apply (get_le_app 4 0 []).
  assert (G2 : get_u32 4 body = Some new_fid) by by apply (get_le_app 4 4 (u32_le fid)).
  assert (G3 : get_u16 8 body = Some (lenN names))
    by by apply (get_le_app 2 8 (u32_le fid ++ u32_le new_fid)).
  rewrite (proj2 (Nat.ltb_ge _ _)) by lia. rewrite G1, G2, G3.
  cbn [fail_if bind unwrap]. by rewrite lenN_nat.
Qed.

Lemma walk_steps_path names w s :
  w_path (fst (walk_steps names (w, s))) = walk_path (w_path w) names.
Proof.
  revert w s. induction names as [|n names IH]; intros w s; [done|].
  change (walk_steps (n :: names) (w, s)) with (walk_steps names (walk_step n (w, s))).
  unfold walk_step. destruct (alloc_qid _ _ s) as [q s1]. by rewrite IH.
Qed.

(** The walk of a Twalk with at least one name. *)
Lemma handle_walk_run tag fid new_fid names name parent b s :
  fids s !! fid = Some parent ->
  (fid < 2 ^ 32)%N -> (new_fid < 2 ^ 32)%N -> (lenN (names ++ [name]) < 2 ^ 16)%N ->
  Forall name_ok (names ++ [name]) ->
  let w0 := mkWalk (fe_path parent) (fe_qid parent) [] 10 (fe_is_dir parent) in
  let '(b', r) :=
    backend b (mkRequest Lookup (walk_path (fe_path parent) (names ++ [name])) []) in
  run backend (handle_walk tag (walk_body fid new_fid (names ++ [name]))) b s =
  match r with
  | Replied (Ok _) =>
      let '(w, s2) := walk_steps (names ++ [name]) (w0, s) in
      (ORet tt, b', set_fid new_fid (w_qid w) (w_path w) (w_is_dir w) s2,
       [send_reply RWALK tag (u16_le (lenN (names ++ [name])) ++ concat (map encode_qid (w_qids w)))])
  | Replied (Err e) =>
      (OFail (str "lookup" ++ str " failed: " ++ e), b', snd (walk_steps names (w0, s)), [])
  | RouterGone => (OFail (str "router gone"), b', snd (walk_steps names (w0, s)), [])
  | HandlerGone => (OFail (str "handler gone"), b', snd (walk_steps names (w0, s)), [])
  end.
Proof.
  intros Hp Hfid Hnew Hlen Hok w0. rewrite handle_walk_eq by done.
  cbn [lookup_fid get bind run]. unfold id. rewrite Hp. cbn [ok_or bind]. rewrite run_bind.
  assert (Hbody : walk_body fid new_fid (names ++ [name]) =
    (u32_le fid ++ u32_le new_fid ++ u16_le (lenN (names ++ [name]))) ++
    concat (map walk_name (names ++ [name]))).
  { unfold walk_body. by rewrite <-!app_assoc. }
  rewrite Hbody. fold w0. rewrite walk_loop_run by done.
  assert (Hsteps : walk_steps (names ++ [name]) (w0, s) =
                   walk_step name (walk_steps names (w0, s))) by apply fold_left_app.
  rewrite Hsteps. pose proof (walk_steps_path names w0 s) as Hpath.
  destruct (walk_steps names (w0, s)) as [w1 s1]. cbn [fst] in Hpath.
  assert (Hlast : walk_path (fe_path parent) (names ++ [name]) =
                  child_path (walk_path (fe_path parent) names) name) by apply fold_left_app.
  rewrite Hpath, Hlast.
  destruct (backend b _) as [b' [| |[resp|e]]]; try done.
  unfold walk_step. by destruct (alloc_qid _ _ s1).
Qed.

(** The entry a walk makes for the new fid. *)
Definition walk_entry (w : Walk) : FidEntry := mkFidEntry (w_qid w) (w_path w) false (w_is_dir w).

(** The walk the router accepts. *)
Lemma handle_walk_ok tag fid new_fid names parent s b b' resp :
  qid_bijection s -> fids s !! fid = Some parent -> names <> [] ->
  (fid < 2 ^ 32)%N -> (new_fid < 2 ^ 32)%N -> (lenN names < 2 ^ 16)%N ->
  Forall name_ok names -> (next_qid s + lenN names < 2 ^ 64)%N ->
  backend b (mkRequest Lookup (walk_path (fe_path parent) names) []) = (b', Replied (Ok resp)) ->
  exists qs entry s',
    run backend (handle_walk tag (walk_body fid new_fid names)) b s =
      (ORet tt, b', s', [send_reply RWALK tag (u16_le (lenN names) ++ concat (map encode_qid qs))]) /\
    length qs = length names /\
    (forall i q, qs !! i = Some q ->
       pe_path <$> paths s' !! qid_path q = Some (walk_path (fe_path parent) (take (S i) names))) /\
    fids s' = <[new_fid := entry]> (fids s) /\
    fe_path entry = walk_path (fe_path parent) names /\ fe_open entry = false /\
    Some (fe_qid entry) = qid_path <$> last qs /\ paths s ⊆ paths s' /\
    qid_bijection s' /\ (forall name, last names = Some name -> fe_is_dir entry = special_name name).
Proof.
  intros Hb Hp Hne Hfid Hnew Hlen Hok Hu Hback.
  destruct (exists_last Hne) as (names' & name & ->).
  pose proof (handle_walk_run tag fid new_fid names' name parent b s Hp Hfid Hnew Hlen Hok) as Hrun.
  cbv zeta in Hrun. rewrite Hback in Hrun.
  pose proof (walk_steps_ok (names' ++ [name])
    (mkWalk (fe_path parent) (fe_qid parent) [] 10 (fe_is_dir parent)) s Hb Hu) as Hall.
  destruct (walk_steps (names' ++ [name]) _) as [w2 s2].
  destruct Hall as [H1 H2 H3 H4 H5 (qs & Hqs & Hlq & Hq) H7 H8 H9]. simpl in *. subst qs.
  exists (w_qids w2), (walk_entry w2), (set_fid new_fid (w_qid w2) (w_path w2) (w_is_dir w2) s2).
  split_and!; try done; [by simpl; f_equal|by apply H7|].
  apply (set_fid_keeps (P := bijection_protocol) s2 new_fid (w_qid w2) (w_path w2)); [done|].
  by apply H9.
Qed.

(** C20: A walk along n >= 1 names that the router accepts answers with one qid
    per name; the i-th is the qid of the path of the first i names, the new fid
    stands for the full path with the last of them, and nothing else of the
    session changes but new qids.  The router is asked once, about the full
    path. *)
Theorem walk_resolves tag fid new_fid names parent s b b' resp :
  qid_bijection s -> fids s !! fid = Some parent -> names <> [] ->
  (fid < 2 ^ 32)%N -> (new_fid < 2 ^ 32)%N -> (lenN names < 2 ^ 16)%N ->
  Forall name_ok names -> (next_qid s + lenN names < 2 ^ 64)%N ->
  backend b (mkRequest Lookup (walk_path (fe_path parent) names) []) = (b', Replied (Ok resp)) ->
  exists qs entry s',
    run backend (handle_walk tag (walk_body fid new_fid names)) b s =
      (ORet tt, b', s', [send_reply RWALK tag (u16_le (lenN names) ++ concat (map encode_qid qs))]) /\
    length qs = length names /\
    (forall i q, qs !! i = Some q ->
       pe_path <$> paths s' !! qid_path q = Some (walk_path (fe_path parent) (take (S i) names))) /\
    fids s' = <[new_fid := entry]> (fids s) /\
    fe_path entry = walk_path (fe_path parent) names /\ fe_open entry = false /\
    Some (fe_qid entry) = qid_path <$> last qs /\ paths s ⊆ paths s'.
Proof.
  intros Hb Hp Hne Hfid Hnew Hlen Hok Hu Hback.
  destruct (handle_walk_ok tag fid new_fid names parent s b b' resp Hb Hp Hne Hfid Hnew Hlen Hok Hu Hback)
    as (qs & entry & s' & H1 & H2 & H3 & H4 & H5 & H6 & H7 & H8 & _).
  exists qs, entry, s'. by split_and!.
Qed.

(** A walk the router rejects fails with an error and leaves every fid as it
    was: the new fid is not created. *)
Theorem walk_rejected tag fid new_fid names parent s b b' r :
  qid_bijection s -> fids s !! fid = Some parent -> names <> [] ->
  (fid < 2 ^ 32)%N -> (new_fid < 2 ^ 32)%N -> (lenN names < 2 ^ 16)%N ->
  Forall name_ok names -> (next_qid s + lenN names < 2 ^ 64)%N ->
  backend b (mkRequest Lookup (walk_path (fe_path parent) names) []) = (b', r) ->
  (forall resp, r <> Replied (Ok resp)) ->
  exists e s', run backend (handle_walk tag (walk_body fid new_fid names)) b s =
    (OFail e, b', s', []) /\ fids s' = fids s /\ paths s ⊆ paths s'.
Proof.
  intros Hb Hp Hne Hfid Hnew Hlen Hok Hu Hback Hr.
  destruct (exists_last Hne) as (names' & name & ->).
  pose proof (handle_walk_run tag fid new_fid names' name parent b s Hp Hfid Hnew Hlen Hok) as Hrun.
  cbv zeta in Hrun. rewrite Hback in Hrun. rewrite lenN_app in Hu. change (lenN [name]) with 1%N in Hu.
  destruct (walk_steps_ok names'
    (mkWalk (fe_path parent) (fe_qid parent) [] 10 (fe_is_dir parent)) s Hb) as [_ _ Hf Hs _ _ _ _ _]; [lia|].
  destruct r as [| |[resp|e]]; [..|by destruct (Hr resp)|]; eauto.
Qed.

(** A walk without names clones the fid: no router request, no qid in the
    reply, the new fid stands for the same path and is not open. *)
Theorem walk_clones tag fid new_fid parent s b :
  fids s !! fid = Some parent -> (fid < 2 ^ 32)%N -> (new_fid < 2 ^ 32)%N ->
  run backend (handle_walk tag (walk_body fid new_fid [])) b s =
  (ORet tt, b,
   set_fid new_fid (fe_qid parent) (fe_path parent) (fe_is_dir parent) s,
   [send_reply RWALK tag (u16_le 0)]).
Proof.
  intros Hp Hfid Hnew. rewrite handle_walk_eq by done.
  cbn [lookup_fid get bind run]. unfold id. by rewrite Hp.
Qed.
End walk.

(** * Directories *)
Section readdir.
Context {ord : IterOrder N PathEntry}.
Variable now : N.

(** [rest] is what follows the directory's own prefix in the path of [e]. *)
Definition dir_prefix (dir : bytes) : bytes := if ends_with "/" dir then dir else dir ++ str "/".
Definition direct_child (dir : bytes) (e : PathEntry) (rest : bytes) : Prop :=
  pe_path e = dir_prefix dir ++ rest /\ pe_path e <> dir /\ ~ ("/"%char ∈ rest).

Definition listed (dir : bytes) (kv : N * PathEntry) : option (bytes * N * bool) :=
  if bool_decide (pe_path (snd kv) = dir) then None
  else match strip_prefix (dir_prefix dir) (pe_path (snd kv)) with
       | None => None
       | Some rest =>
           if contains_char "/" rest then None
           else Some (if is_empty rest then str "." else rest, fst kv, pe_is_dir (snd kv))
       end.

Definition encode_listed (x : bytes * N * bool) : bytes :=
  let '(name, q, d) := x in encode_stat now name (mkQid (if d then 0x80 else 0)%N 0 q) 0 d.

Lemma dir_entry_listed dir kv :
  dir_entry now dir (dir_prefix dir) kv =
  match listed dir kv with Some x => encode_listed x | None => [] end.
Proof.
  unfold dir_entry, listed. case_match; [done|].
  destruct (strip_prefix _ _) as [rest|]; [|done]. by destruct (contains_char "/" rest).
Qed.

Lemma listed_spec dir q e name q' d :
  listed dir (q, e) = Some (name, q', d) <->
  q' = q /\ d = pe_is_dir e /\
  exists rest, direct_child dir e rest /\ name = if is_empty rest then str "." else rest.
Proof.
  unfold listed, direct_child. simpl. split.
  - destruct (bool_decide (pe_path e = dir)) eqn:E1; [done|]. apply bool_decide_eq_false in E1.
    destruct (strip_prefix _ _) as [rest|] eqn:E2; [|done]. apply strip_prefix_Some in E2.
    destruct (contains_char "/" rest) eqn:E3; [done|]. intros [= <- <- <-].
    split_and!; [done..|]. exists rest. split_and!; [done..| |done].
    rewrite <-contains_char_spec. by rewrite E3.
  - intros (-> & -> & rest & (Hp & Hne & Hns) & ->).
    rewrite bool_decide_eq_false_2 by done. rewrite Hp, strip_prefix_app.
    rewrite <-contains_char_spec in Hns. by destruct (contains_char "/" rest).
Qed.

(** C26: A directory read lists exactly the direct children of the directory
    among the known paths, each once, with its qid and kind, whatever the
    iteration order of the hash map; a read at offset 0 starts with the entry
    of the directory itself. *)
Theorem list_dir_direct_children dir offset s :
  exists entries,
    list_dir now dir offset s =
      (if N.eqb offset 0 then encode_stat now (str ".") (mkQid 0x80 0 0) 0 true else []) ++
      concat (map encode_listed entries) /\
    NoDup (map (fun x => snd (fst x)) entries) /\
    forall name q d, (name, q, d) ∈ entries <->
      exists e rest, paths s !! q = Some e /\ direct_child dir e rest /\ d = pe_is_dir e /\
        name = if is_empty rest then str "." else rest.
Proof.
  exists (omap (listed dir) (iter_order (paths s))). split_and!.
  - unfold list_dir. change (if ends_with "/" dir then dir else dir ++ str "/") with (dir_prefix dir).
    assert (H : concat (map (dir_entry now dir (dir_prefix dir)) (iter_order (paths s))) =
                concat (map encode_listed (omap (listed dir) (iter_order (paths s))))).
    { induction (iter_order (paths s)) as [|kv l IH]; [done|].
      cbn [map concat omap list_omap]. rewrite dir_entry_listed, IH.
      by destruct (listed dir kv). }
    rewrite H. by destruct (N.eqb offset 0).
  - assert (Hnd : NoDup (iter_order (paths s)).*1).
    { rewrite iter_order_perm. apply NoDup_fst_map_to_list. }
    induction (iter_order (paths s)) as [|[q e] l IH]; cbn; [constructor|].
    inversion Hnd as [|? ? Hq Hl]; subst. specialize (IH Hl).
    destruct (listed dir (q, e)) as [[[name q'] d]|] eqn:E; [|done].
    apply listed_spec in E as (-> & _). cbn. constructor; [|done].
    rewrite list_elem_of_fmap. intros ([[n' q'] d'] & Hq' & Hin). simpl in Hq'. subst q'.
    apply list_elem_of_omap in Hin as ([q' e'] & Hin & E).
    apply listed_spec in E as (-> & _). apply Hq. apply list_elem_of_fmap. by exists (q', e').
  - intros name q d. rewrite list_elem_of_omap. split.
    + intros ([q' e] & Hin & E). apply listed_spec in E as (-> & -> & rest & Hc & ->).
      apply iter_order_elem in Hin. eauto 8.
    + intros (e & rest & Hq & Hc & -> & ->). exists (q, e).
      split; [by apply iter_order_elem|]. apply listed_spec. eauto 8.
Qed.
End readdir.

(** * Message bodies *)
Definition fid_body (fid : N) : bytes := u32_le fid.
Definition read_body (fid offset count : N) : bytes := u32_le fid ++ u64_le offset ++ u32_le count.
Definition write_body (fid offset : N) (data : bytes) : bytes :=
  u32_le fid ++ u64_le offset ++ u32_le (lenN data) ++ data.
Definition create_body (fid : N) (name : bytes) (perm mode : N) : bytes :=
  u32_le fid ++ u16_le (lenN name) ++ name ++ u32_le perm ++ [chr mode].

Section bodies.
Lemma fid_body_fid fid rest : (fid < 2 ^ 32)%N -> get_u32 0 (u32_le fid ++ rest) = Some fid.
Proof. by apply (get_le_app 4 0 []). Qed.

Lemma fid_body_alone fid : (fid < 2 ^ 32)%N -> get_u32 0 (fid_body fid) = Some fid.
Proof. intros. unfold fid_body. rewrite <-(app_nil_r (u32_le fid)). by apply fid_body_fid. Qed.

Lemma read_body_fields fid offset count :
  (fid < 2 ^ 32)%N -> (offset < 2 ^ 64)%N -> (count < 2 ^ 32)%N ->
  get_u32 0 (read_body fid offset count) = Some fid /\
  get_u64 4 (read_body fid offset count) = Some offset /\
  get_u32 12 (read_body fid offset count) = Some count.
Proof.
  intros H1 H2 H3. unfold read_body. split_and!.
  - by apply fid_body_fid.
  - by apply (get_le_app 8 4 (u32_le fid)).
  - rewrite <-(app_nil_r (u32_le count)), app_assoc.
    by apply (get_le_app 4 12 (u32_le fid ++ u64_le offset)).
Qed.

Lemma write_body_fields fid offset data :
  (fid < 2 ^ 32)%N -> (offset < 2 ^ 64)%N -> (lenN data < 2 ^ 32)%N ->
  get_u32 0 (write_body fid offset data) = Some fid /\
  get_u64 4 (write_body fid offset data) = Some offset /\
  get_u32 12 (write_body fid offset data) = Some (lenN data) /\
  get_slice 16 (16 + length data) (write_body fid offset data) = Some data /\
  length (write_body fid offset data) = 16 + length data.
Proof.
  intros H1 H2 H3. unfold write_body. split_and!.
  - by apply fid_body_fid.
  - by apply (get_le_app 8 4 (u32_le fid)).
  - rewrite app_assoc. by apply (get_le_app 4 12 (u32_le fid ++ u64_le offset)).
  - pose proof (get_slice_app 16 (16 + length data)
      (u32_le fid ++ u64_le offset ++ u32_le (lenN data)) data []) as H.
    rewrite app_nil_r, <-!app_assoc in H. by apply H.
  - by autorewrite with pinhead.
Qed.

Lemma create_body_fields fid name perm mode :
  (fid < 2 ^ 32)%N -> (perm < 2 ^ 32)%N -> (mode < 256)%N -> (lenN name < 2 ^ 16)%N ->
  let body := create_body fid name perm mode in
  get_u32 0 body = Some fid /\ get_u16 4 body = Some (lenN name) /\
  get_slice 6 (6 + length name) body = Some name /\
  get_u32 (6 + length name) body = Some perm /\
  get_u8 (6 + length name + 4) body = Some mode /\
  length body = 11 + length name.
Proof.
  intros H1 H2 H3 H4 body. unfold body, create_body. split_and!.
  - by apply fid_body_fid.
  - by apply (get_le_app 2 4 (u32_le fid)).
  - rewrite app_assoc. by apply get_slice_app.
  - rewrite !app_assoc. rewrite <-(app_assoc _ (u32_le perm)).
    apply (get_le_app 4); [by autorewrite with pinhead|done].
  - unfold get_u8. rewrite !app_assoc, lookup_app_r by (autorewrite with pinhead; lia).
    autorewrite with pinhead.
    replace (6 + length name + 4 - _) with 0 by lia. simpl.
    rewrite ord_chr. unfold u8_wrap. by rewrite wrap_small.
  - autorewrite with pinhead. simpl. lia.
Qed.
End bodies.

(** * The other operations *)
Section operations.
Context {ord : IterOrder N PathEntry}.
Variable now : N.
Context {W : Type} (backend : W -> Request -> W * route_reply).

Lemma handle_read_file_run tag fid offset count entry s b :
  fids s !! fid = Some entry -> fe_is_dir entry = false ->
  (fid < 2 ^ 32)%N -> (offset < 2 ^ 64)%N -> (count < 2 ^ 32)%N ->
  run backend (handle_read now tag (read_body fid offset count)) b s =
  let '(b', r) := backend b (mkRequest Read (fe_path entry) []) in
  match r with
  | Replied (Ok resp) =>
      let chunk := tail_from offset (resp_data resp) in
      (ORet tt, b', s, [send_reply RREAD tag (u32_le (lenN chunk) ++ chunk)])
  | Replied (Err e) => (OFail (str "read failed: " ++ e), b', s, [])
  | RouterGone => (OFail (str "router gone"), b', s, [])
  | HandlerGone => (OFail (str "handler gone"), b', s, [])
  end.
Proof.
  intros Hf Hd Hfid Hoff Hcount.
  destruct (read_body_fields fid offset count) as (G1 & G2 & G3); [done..|].
  unfold handle_read. rewrite G1, G2, G3. cbn. unfold id. rewrite Hf. cbn. rewrite Hd. cbn.
  by destruct (backend b _) as [b' [| |[resp|e]]].
Qed.

Lemma tail_from_spec offset data :
  if N.leb offset (lenN data)
  then exists skipped, data = skipped ++ tail_from offset data /\ lenN skipped = offset
  else tail_from offset data = [].
Proof.
  unfold tail_from. destruct (N.leb_spec offset (lenN data)) as [Hle|Hgt].
  - exists (take (N.to_nat offset) data).
    unfold lenN in *. rewrite length_take. split; [|lia].
    destruct (N.ltb_spec offset (N.of_nat (length data))).
    + symmetry. apply take_drop.
    + rewrite app_nil_r, take_ge by lia. done.
  - by rewrite (proj2 (N.ltb_ge _ _)) by lia.
Qed.

(** A read of a file asks the router for the whole file and answers with
    everything from the offset on, whatever count was asked for and whatever
    message size was negotiated; it changes no state. *)
Theorem read_from_offset tag fid offset count entry s b b' resp :
  fids s !! fid = Some entry -> fe_is_dir entry = false ->
  (fid < 2 ^ 32)%N -> (offset < 2 ^ 64)%N -> (count < 2 ^ 32)%N ->
  backend b (mkRequest Read (fe_path entry) []) = (b', Replied (Ok resp)) ->
  exists chunk,
    run backend (handle_read now tag (read_body fid offset count)) b s =
      (ORet tt, b', s, [send_reply RREAD tag (u32_le (lenN chunk) ++ chunk)]) /\
    (if N.leb offset (lenN (resp_data resp))
     then exists skipped, resp_data resp = skipped ++ chunk /\ lenN skipped = offset
     else chunk = []).
Proof.
  intros Hf Hd Hfid Hoff Hcount Hback. exists (tail_from offset (resp_data resp)).
  rewrite (handle_read_file_run tag fid offset count entry) by done.
  rewrite Hback. split; [done|apply tail_from_spec].
Qed.

(** Opening a fid the router accepts marks it open. *)
Lemma handle_open_run tag fid mode entry s b :
  fids s !! fid = Some entry -> (fid < 2 ^ 32)%N ->
  run backend (handle_open tag (u32_le fid ++ [chr mode])) b s =
  let '(b', r) :=
    backend b (mkRequest (if fe_is_dir entry then OpenDir else Open) (fe_path entry) []) in
  match r with
  | Replied (Ok _) =>
      (ORet tt, b', set_open fid s, [send_reply ROPEN tag (encode_qid (mkQid 0 0 0) ++ u32_le (msize s))])
  | Replied (Err e) => (OFail (str "open failed: " ++ e), b', s, [])
  | RouterGone => (OFail (str "router gone"), b', s, [])
  | HandlerGone => (OFail (str "handler gone"), b', s, [])
  end.
Proof.
  intros Hf Hfid. unfold handle_open. rewrite fid_body_fid by done. cbn. unfold id.
  rewrite Hf. cbn. by destruct (backend b _) as [b' [| |[resp|e]]].
Qed.

(** A write passes the payload of the message to the router, unchanged and
    whole, whatever the offset, and acknowledges the count; when the router
    refuses, the client gets the error and nothing is acknowledged. *)
Theorem write_whole_payload tag fid offset data entry s b :
  fids s !! fid = Some entry ->
  (fid < 2 ^ 32)%N -> (offset < 2 ^ 64)%N -> (lenN data < 2 ^ 32)%N ->
  run backend (handle_write tag (write_body fid offset data)) b s =
  let '(b', r) := backend b (mkRequest Write (fe_path entry) data) in
  match r with
  | Replied (Ok _) => (ORet tt, b', s, [send_reply RWRITE tag (u32_le (lenN data))])
  | Replied (Err e) => (OFail (str "write failed: " ++ e), b', s, [])
  | RouterGone => (OFail (str "router gone"), b', s, [])
  | HandlerGone => (OFail (str "handler gone"), b', s, [])
  end.
Proof.
  intros Hf Hfid Hoff Hlen.
  destruct (write_body_fields fid offset data) as (G1 & G2 & G3 & G4 & Gl); [done..|].
  unfold handle_write. rewrite (proj2 (Nat.ltb_ge _ _)) by lia. rewrite G1, G2, G3.
  cbn [fail_if bind unwrap lookup_fid get run]. unfold id. rewrite Hf. cbn [ok_or bind].
  replace (N.to_nat (N.min (lenN data) (lenN (write_body fid offset data) - 16)))
    with (length data) by (unfold lenN; rewrite Gl; lia).
  rewrite G4. cbn.
  by destruct (backend b _) as [b' [| |[resp|e]]].
Qed.

(** A create asks the router for the child path with the operation its
    permissions name; when it is accepted the fid moves to the new path, open,
    with that path's qid, and when it is refused the session is unchanged. *)
Theorem create_moves_fid tag fid name perm mode entry s b :
  qid_bijection s -> (next_qid s + 1 < 2 ^ 64)%N ->
  fids s !! fid = Some entry -> name_ok name ->
  (fid < 2 ^ 32)%N -> (perm < 2 ^ 32)%N -> (mode < 256)%N ->
  let is_dir := negb (N.eqb (N.land perm DMDIR) 0) in
  let path := child_path (fe_path entry) name in
  let '(b', r) := backend b (mkRequest (if is_dir then MkDir else Create) path []) in
  match r with
  | Replied (Ok _) =>
      exists qid s',
        run backend (handle_create tag (create_body fid name perm mode)) b s =
          (ORet tt, b', s',
           [send_reply RCREATE tag (encode_qid (mkQid (if is_dir then 0x80 else 0)%N 0 qid))]) /\
        fids s' = <[fid := mkFidEntry qid path true is_dir]> (fids s) /\
        pe_path <$> paths s' !! qid = Some path /\ paths s ⊆ paths s'
  | _ => exists e, run backend (handle_create tag (create_body fid name perm mode)) b s =
                   (OFail e, b', s, [])
  end.
Proof.
  intros Hb Hu Hf [Hlen Hutf] Hfid Hperm Hmode is_dir path.
  destruct (create_body_fields fid name perm mode) as (G1 & G2 & G3 & G4 & G5 & Gl); [done..|].
  destruct (backend b _) as [b' r] eqn:Hback.
  assert (Hrun : run backend (handle_create tag (create_body fid name perm mode)) b s =
    run backend
      (let! _ := route (if is_dir then MkDir else Create) path []
                   (as_str (if is_dir then MkDir else Create)) in
       let! qid := modify (fun s =>
         let '(qid, s) := alloc_qid path is_dir s in
         (qid, set_open fid (set_fid fid qid path is_dir s))) in
       reply RCREATE tag (encode_qid (mkQid (if is_dir then 0x80 else 0)%N 0 qid))) b s).
  { unfold handle_create. rewrite !(proj2 (Nat.ltb_ge _ _)) by lia.
    rewrite G1, G2. cbn [fail_if bind unwrap]. rewrite lenN_nat.
    rewrite !(proj2 (Nat.ltb_ge _ _)) by lia. rewrite G3, G4, G5.
    cbn [fail_if bind unwrap lookup_fid get run]. unfold id. rewrite Hf.
    cbn [ok_or bind]. by rewrite from_utf8_lossy_id. }
  rewrite Hrun. clear Hrun. cbn. rewrite Hback.
  destruct r as [| |[resp|e]]; cbn; [by eauto..| |by eauto].
  destruct (alloc_keeps (P := bijection_protocol) s path is_dir Hb Hu)
    as [(_ & [Hsub _] & _) Hk].
  pose proof (same_fids_alloc None path is_dir s) as Hsame.
  destruct (alloc_qid path is_dir s) as [q s1]. simpl in *.
  exists q, (set_open fid (set_fid fid q path is_dir s1)). split_and!; [done| |done|done].
  simpl. rewrite alter_insert_eq. f_equal. apply map_eq. intros f. by apply Hsame.
Qed.

(** A clunk always succeeds and drops the fid: whatever the router answers
    to the release, the fid is unknown afterwards, and the other fids stay. *)
Theorem clunk_drops_fid tag fid s b :
  (fid < 2 ^ 32)%N ->
  exists b', run backend (handle_clunk tag (fid_body fid)) b s =
    (ORet tt, b', with_fids (delete fid) s, [send_reply RCLUNK tag []]) /\
    b' = match fids s !! fid with
         | Some entry => fst (backend b (mkRequest Release (fe_path entry) []))
         | None => b
         end.
Proof.
  intros Hfid. unfold handle_clunk. rewrite fid_body_alone by done. cbn. unfold id.
  destruct (fids s !! fid) as [entry|]; cbn; [|by eauto].
  destruct (backend b _) as [b' r]. eauto.
Qed.

(** A remove asks the router to delete the fid's path, as a directory or a
    file, and leaves the session untouched: the fid stays usable until it is
    clunked, and the path keeps its qid. *)
Theorem remove_keeps_fid tag fid entry s b :
  fids s !! fid = Some entry -> (fid < 2 ^ 32)%N ->
  run backend (handle_remove tag (fid_body fid)) b s =
  let '(b', r) :=
    backend b (mkRequest (if fe_is_dir entry then RmDir else Unlink) (fe_path entry) []) in
  match r with
  | Replied (Ok _) => (ORet tt, b', s, [send_reply RREMOVE tag []])
  | Replied (Err e) => (OFail (str "remove failed: " ++ e), b', s, [])
  | RouterGone => (OFail (str "router gone"), b', s, [])
  | HandlerGone => (OFail (str "handler gone"), b', s, [])
  end.
Proof.
  intros Hf Hfid. unfold handle_remove. rewrite fid_body_alone by done. cbn. unfold id.
  rewrite Hf. cbn. by destruct (backend b _) as [b' [| |[resp|e]]].
Qed.

End operations.

(** * Directory entries on the wire *)

(** A 9P string at an offset: two bytes of length and the bytes; and what
    follows it. *)
Definition p9_string (off : nat) (b : bytes) : option (bytes * nat) :=
  n ← get_u16 off b;
  x ← get_slice (off + 2) (off + 2 + N.to_nat n) b;
  Some (x, off + 2 + N.to_nat n).

Lemma p9_string_app off pre x rest :
  length pre = off -> (lenN x < 2 ^ 16)%N ->
  p9_string off (pre ++ u16_le (lenN x) ++ x ++ rest) = Some (x, off + 2 + length x).
Proof.
  intros Hoff Hx. unfold p9_string, get_u16. rewrite (get_le_app 2) by done.
  cbn [mbind option_bind]. rewrite lenN_nat, (app_assoc pre).
  rewrite get_slice_app; [done| |done]. by rewrite length_app, length_u16_le, Hoff.
Qed.

(** A stat record has a wrong layout: it declares its owner, group and
    modifier names two bytes long and gives each one byte.  A reader that takes
    each string at its declared length finds the file name, then a wrong owner
    name, then a group name that runs past the record's end, for every name,
    qid, size and time. *)
Theorem stat_strings_overrun now name qid len d :
  (lenN name < 2 ^ 16)%N ->
  let body := stat_body now name qid len d in
  p9_string 39 body = Some (name, 41 + length name) /\
  p9_string (41 + length name) body = Some (str "0" ++ [chr 2], 45 + length name) /\
  p9_string (45 + length name) body = None.
Proof.
  intros Hn body.
  set (fixed := u16_le 0 ++ u32_le 0 ++ encode_qid qid ++ u32_le (if d then 0x800001ed else 0x1ed)%N ++
                u32_le now ++ u32_le now ++ u64_le len).
  set (pre := fixed ++ u16_le (lenN name) ++ name).
  assert (Hb : body = pre ++ u16_le 2 ++ str "0" ++ u16_le 2 ++ str "0" ++ u16_le 2 ++ str "0").
  { unfold body, stat_body, pre, fixed. by rewrite <-!app_assoc. }
  assert (Hpre : length pre = 41 + length name).
  { unfold pre. by rewrite !length_app, length_u16_le. }
  rewrite Hb. split_and!.
  - unfold pre. rewrite <-!app_assoc. by apply p9_string_app.
  - replace (45 + length name) with (41 + length name + 2 + 2) by lia.
    by apply (p9_string_app (41 + length name) pre (str "0" ++ [chr 2])
      ([chr 0] ++ str "0" ++ u16_le 2 ++ str "0")).
  - unfold p9_string.
    assert (H : get_u16 (45 + length name)
      ((pre ++ u16_le 2 ++ str "0" ++ [chr 2]) ++ u16_le 12288 ++ u16_le 2 ++ str "0") = Some 12288%N).
    { apply (get_le_app 2); [|done]. rewrite !length_app, Hpre. simpl. lia. }
    rewrite <-!app_assoc in H.
    change (u16_le 2 ++ str "0" ++ u16_le 2 ++ str "0" ++ u16_le 2 ++ str "0") with
      (u16_le 2 ++ str "0" ++ [chr 2] ++ u16_le 12288 ++ u16_le 2 ++ str "0").
    rewrite H. cbn [mbind option_bind]. rewrite get_slice_None; [done|].
    rewrite length_app, Hpre. clear. cbn [length app u16_le le_bytes str]. simpl. lia.
Qed.

(** * Wstat *)

(** A Twstat body whose record is announced once, by its size, and one in the
    layout of an Rstat, which announces it twice. *)
Definition wstat_body (fid : N) (record : bytes) : bytes := u32_le fid ++ u16_le (lenN record) ++ record.
Definition wstat_as_rstat (fid : N) (stat_buf : bytes) : bytes :=
  u32_le fid ++ u16_le (lenN stat_buf) ++ stat_buf.

Section wstat.
Context {ord : IterOrder N PathEntry}.
Context {W : Type} (backend : W -> Request -> W * route_reply).
Abbreviation proc := (proc Shared Request route_reply bytes bytes).

Lemma handle_wstat_eq tag fid record entry b s :
  (fid < 2 ^ 32)%N -> (lenN record < 2 ^ 16)%N -> 6 <= length record ->
  fids s !! fid = Some entry ->
  run backend (handle_wstat tag (wstat_body fid record)) b s =
  run backend
    (let! ws := parse_wstat (fe_path entry) record in
     (match ws_name ws with
      | Some name =>
          let new_path := renamed_path (fe_path entry) name in
          let! _ := route Rename (fe_path entry) new_path (str "rename") in
          update (fun s => with_paths <[fe_qid entry := mkPathEntry new_path false]>
                             (set_path fid new_path s))
      | None =>
          if ws_attrs ws
          then let! _ := route SetAttr (fe_path entry) [] (str "setattr") in Ret tt
          else Ret tt
      end) ;!
     reply RWSTAT tag []) b s.
Proof.
  intros Hfid Hlen H6 Hf. unfold handle_wstat.
  set (body := wstat_body fid record).
  assert (Hl : length body = 6 + length record).
  { unfold body, wstat_body. by autorewrite with pinhead. }
  assert (G1 : get_u32 0 body = Some fid) by by apply fid_body_fid.
  assert (G2 : get_slice 4 (length body) body = Some (u16_le (lenN record) ++ record)).
  { pose proof (get_slice_app 4 (length body) (u32_le fid) (u16_le (lenN record) ++ record) []) as H.
    rewrite app_nil_r in H. apply H; [done|]. rewrite length_app, length_u16_le. lia. }
  assert (G3 : get_u16 0 (u16_le (lenN record) ++ record) = Some (lenN record))
    by by apply (get_le_app 2 0 []).
  assert (G4 : get_slice 2 (2 + length record) (u16_le (lenN record) ++ record) = Some record).
  { pose proof (get_slice_app 2 (2 + length record) (u16_le (lenN record)) record []) as H.
    rewrite app_nil_r in H. by apply H. }
  rewrite (proj2 (Nat.ltb_ge (length body) 4)) by lia. rewrite G1, G2.
  cbn [fail_if bind unwrap lookup_fid get run]. unfold id. rewrite Hf. cbn [ok_or bind unwrap].
  rewrite (proj2 (Nat.ltb_ge _ 2)) by (rewrite length_app, length_u16_le; lia).
  rewrite G3. cbn [fail_if bind unwrap].
  replace (N.to_nat (N.min (lenN record) (lenN (u16_le (lenN record) ++ record) - 2)))
    with (length record) by (rewrite lenN_app; unfold lenN; rewrite length_u16_le; lia).
  rewrite G4. cbn [bind unwrap].
  by rewrite (proj2 (Nat.ltb_ge _ 6)) by lia.
Qed.

(** The fixed fields are all there: the name is looked for at offset 39. *)
Lemma parse_wstat_fields path data :
  41 <= length data ->
  parse_wstat path data =
  (let! new_name :=
     let! name_len := unwrap (get_u16 39 data) in
     if Nat.ltb 0 (N.to_nat name_len) && Nat.leb (39 + 2 + N.to_nat name_len) (length data) then
       let! raw := unwrap (get_slice (39 + 2) (39 + 2 + N.to_nat name_len) data) in
       Ret (if negb (bool_decide (from_utf8_lossy raw = rsplit_next "/" path)) &&
               negb (is_empty (from_utf8_lossy raw))
            then Some (from_utf8_lossy raw) else None)
     else Ret None in
   Ret (mkWstat new_name true) : proc Wstat).
Proof.
  intros Hl. unfold parse_wstat. change (6 + 13) with 19.
  rewrite (proj2 (Nat.leb_le (19 + 4) (length data))) by lia. change (19 + 4) with 23.
  rewrite (proj2 (Nat.leb_le (23 + 8) (length data))) by lia. change (23 + 8) with 31.
  rewrite (proj2 (Nat.leb_le (31 + 8) (length data))) by lia. change (31 + 8) with 39.
  by rewrite (proj2 (Nat.leb_le (39 + 2) (length data))) by lia.
Qed.

(** The name found in a record whose layout is that of a directory entry
    without its size. *)
Lemma parse_wstat_name path now name qid len d :
  name_ok name ->
  parse_wstat path (stat_body now name qid len d) =
  (Ret (mkWstat (if negb (bool_decide (name = rsplit_next "/" path)) && negb (is_empty name)
                 then Some name else None) true) : proc Wstat).
Proof.
  intros [Hn Hutf]. set (body := stat_body now name qid len d).
  assert (Hl : length body = 50 + length name) by apply length_stat_body.
  set (fixed := u16_le 0 ++ u32_le 0 ++ encode_qid qid ++ u32_le (if d then 0x800001ed else 0x1ed)%N ++
                u32_le now ++ u32_le now ++ u64_le len).
  assert (Hb : body = fixed ++ u16_le (lenN name) ++ name ++
                      u16_le 2 ++ str "0" ++ u16_le 2 ++ str "0" ++ u16_le 2 ++ str "0").
  { unfold body, stat_body, fixed. by rewrite <-!app_assoc. }
  assert (G1 : get_u16 39 body = Some (lenN name)) by (rewrite Hb; by apply (get_le_app 2)).
  assert (G2 : get_slice (39 + 2) (39 + 2 + length name) body = Some name).
  { rewrite Hb, (app_assoc fixed). by apply get_slice_app. }
  rewrite parse_wstat_fields by lia.
  rewrite G1. cbn [bind unwrap orb]. rewrite lenN_nat.
  rewrite (proj2 (Nat.leb_le _ (length body))) by lia. rewrite andb_true_r.
  destruct (Nat.ltb_spec 0 (length name)) as [Hpos|Hz].
  - rewrite G2. cbn [bind unwrap]. by rewrite from_utf8_lossy_id.
  - destruct name; [|simpl in Hz; lia]. simpl. by rewrite andb_false_r.
Qed.

(** A Twstat that carries a new name in a record without a second size asks
    the router to rename the path; when it agrees, the fid and its qid stand
    for the new path, the qid's entry being marked as a file; when it refuses,
    the session is unchanged. *)
Theorem wstat_renames tag fid now name qid len d entry b s :
  fids s !! fid = Some entry -> name_ok name -> (50 + lenN name < 2 ^ 16)%N ->
  (fid < 2 ^ 32)%N -> name <> [] -> name <> rsplit_next "/" (fe_path entry) ->
  let new_path := renamed_path (fe_path entry) name in
  run backend (handle_wstat tag (wstat_body fid (stat_body now name qid len d))) b s =
  let '(b', r) := backend b (mkRequest Rename (fe_path entry) new_path) in
  match r with
  | Replied (Ok _) =>
      (ORet tt, b',
       with_paths <[fe_qid entry := mkPathEntry new_path false]> (set_path fid new_path s),
       [send_reply RWSTAT tag []])
  | Replied (Err e) => (OFail (str "rename failed: " ++ e), b', s, [])
  | RouterGone => (OFail (str "router gone"), b', s, [])
  | HandlerGone => (OFail (str "handler gone"), b', s, [])
  end.
Proof.
  intros Hf Hn Hlen Hfid Hne Hnew new_path.
  rewrite (handle_wstat_eq tag fid _ entry) by
    (rewrite ?length_stat_body; unfold lenN in *; rewrite ?length_stat_body; done || lia).
  rewrite parse_wstat_name by done.
  rewrite bool_decide_eq_false_2 by done. destruct name; [done|].
  cbn -[renamed_path]. by destruct (backend b _) as [b' [| |[resp|e]]].
Qed.

(** Twstat is not the inverse of Rstat: a record in the layout the server's
    own Rstat uses is read two bytes off, so for every entry shorter than 2^48
    bytes the new name in it is lost and the router is asked to set attributes
    instead of renaming, which the client sees as a success. *)
Theorem wstat_of_rstat_loses_name tag fid now name qid len d entry b s b' resp :
  fids s !! fid = Some entry -> (52 + lenN name < 2 ^ 16)%N -> (fid < 2 ^ 32)%N ->
  (len < 2 ^ 48)%N ->
  backend b (mkRequest SetAttr (fe_path entry) []) = (b', Replied (Ok resp)) ->
  run backend (handle_wstat tag (wstat_as_rstat fid (encode_stat now name qid len d))) b s =
  (ORet tt, b', s, [send_reply RWSTAT tag []]).
Proof.
  intros Hf Hlen Hfid Hsmall Hback. set (record := encode_stat now name qid len d).
  assert (Hl : length record = 52 + length name).
  { unfold record, encode_stat. rewrite length_app, length_u16_le, length_stat_body. lia. }
  change (wstat_as_rstat fid record) with (wstat_body fid record).
  assert (Hl2 : (lenN record < 2 ^ 16)%N).
  { unfold lenN in *. rewrite Hl. clear -Hlen. lia. }
  rewrite (handle_wstat_eq tag fid record entry) by (done || lia).
  set (fixed := u16_le (lenN (stat_body now name qid len d)) ++ u16_le 0 ++ u32_le 0 ++
    encode_qid qid ++ u32_le (if d then 0x800001ed else 0x1ed)%N ++ u32_le now ++ u32_le now).
  assert (G : get_u16 39 record = Some 0%N).
  { set (rest := u16_le (lenN name) ++ name ++ u16_le 2 ++ str "0" ++ u16_le 2 ++ str "0" ++
                   u16_le 2 ++ str "0").
    assert (Hr : record = (fixed ++ le_bytes 6 len) ++ u16_le 0 ++ rest).
    { unfold record, encode_stat, stat_body. rewrite <-!app_assoc. unfold fixed.
      rewrite <-!app_assoc. do 7 f_equal. change (u64_le len) with (le_bytes (6 + 2) len).
      rewrite le_bytes_split. rewrite (N.div_small len) by (by change (8 * N.of_nat 6)%N with 48%N).
      by rewrite <-app_assoc. }
    rewrite Hr. by apply (get_le_app 2). }
  rewrite parse_wstat_fields by lia.
  rewrite G. cbn [unwrap bind]. change (Nat.ltb 0 (N.to_nat 0)) with false.
  cbn. by rewrite Hback.
Qed.
End wstat.

(** * The theorems at a concrete session: fid 1 on the root, fid 2 on the file
    [/a], fid 3 on the file [/b]. *)
Module SpecExample.
#[export] Instance ord : IterOrder N PathEntry := default_order.
Definition root_entry : FidEntry := mkFidEntry 0 (str "/") false true.
Definition file_entry : FidEntry := mkFidEntry 1 (str "/a") true false.
Definition state : Shared :=
  mkShared (<[1%N := root_entry]> {[ 2%N := file_entry ]})
    (<[1%N := mkPathEntry (str "/a") false]> {[ 0%N := mkPathEntry (str "/") true ]}) 2 8192.

(** A router that accepts everything and counts, and one that refuses. *)
Definition accept (n : nat) (rq : Request) : nat * route_reply :=
  (S n, Replied (Ok (mkHandlerResponse (str "hello") None false))).
Definition refuse (n : nat) (rq : Request) : nat * route_reply :=
  (S n, Replied (Err (str "no"))).

Lemma state_bijection : qid_bijection state.
Proof.
  split; [split|..]; simpl.
  - intros q e [[<- _]|[_ [<- _]%lookup_singleton_Some]]%lookup_insert_Some; lia.
  - vm_compute. eauto.
  - intros f e [[_ <-]|[_ [_ <-]%lookup_singleton_Some]]%lookup_insert_Some; vm_compute; eauto.
  - lia.
  - by vm_compute.
  - intros f e [[_ <-]|[_ [_ <-]%lookup_singleton_Some]]%lookup_insert_Some; by vm_compute.
  - intros q1 q2 e1 e2.
    intros [[<- <-]|[_ [<- <-]%lookup_singleton_Some]]%lookup_insert_Some;
    intros [[<- <-]|[_ [<- <-]%lookup_singleton_Some]]%lookup_insert_Some; done.
Qed.

Lemma names_ok : Forall name_ok [str "a"; str "c"].
Proof. repeat constructor. Qed.

(** The messages of a session that renames [/a] to [/b], both walked to. *)
Definition rename_session : list (N * N * bytes) :=
  [ (TATTACH, 1%N, u32_le 1 ++ u32_le 0);
    (TWALK, 2%N, walk_body 1 2 [str "a"]);
    (TWALK, 3%N, walk_body 1 3 [str "b"]);
    (TWSTAT, 4%N, wstat_body 2 (stat_body 0 (str "b") (mkQid 0 0 0) 0 false)) ].
End SpecExample.
#[local] Existing Instance SpecExample.ord.

(** Renaming onto a path the session already knows breaks the identity of
    qids: after a session that walks to two files and renames one over the other
    (four messages, each answered with success), two different qids stand for
    the same path. *)
Theorem rename_duplicates_path :
  match run SpecExample.accept (serve_messages 0 SpecExample.rename_session) 0 (new_shared 8192) with
  | (o, _, s, replies) =>
      o = ORet tt /\ length replies = 4 /\
      pe_path <$> paths s !! 1%N = Some (str "/b") /\ pe_path <$> paths s !! 2%N = Some (str "/b") /\
      ~ qid_bijection s
  end.
Proof.
  destruct (run _ _ _ _) as [[[o w] s] replies] eqn:E. vm_compute in E. injection E as <- <- <- <-.
  split_and!; [reflexivity..|]. intros Hb.
  by pose proof (bj_inj _ Hb 1 2 (mkPathEntry (str "/b") false) (mkPathEntry (str "/b") false)
    eq_refl eq_refl eq_refl).
Qed.

Lemma serve_message_frame_witness :
  same_fids (Some 9%N) SpecExample.state
    (set_fid 9 0 (str "/") true SpecExample.state).
Proof.
  apply (serve_message_frame 0 TATTACH 1 (u32_le 9 ++ u32_le 0)).
  exact (mu_here (set_fid 9 0 (str "/") true) _ SpecExample.state).
Defined.

Lemma alloc_qid_canonical_witness :
  alloc_qid (str "/n") false (snd (alloc_qid (str "/n") true SpecExample.state)) =
  alloc_qid (str "/n") true SpecExample.state.
Proof.
  apply (alloc_qid_canonical SpecExample.ord SpecExample.ord (str "/n") true false SpecExample.state);
    [apply SpecExample.state_bijection|reflexivity].
Defined.

Lemma walk_resolves_witness :
  exists qs entry s',
    run SpecExample.accept (handle_walk 5 (walk_body 1 7 [str "a"; str "c"])) 0 SpecExample.state =
      (ORet tt, 1, s', [send_reply RWALK 5 (u16_le 2 ++ concat (map encode_qid qs))]) /\
    length qs = 2 /\ fids s' !! 7%N = Some entry /\ fe_path entry = str "/a/c".
Proof.
  destruct (walk_resolves SpecExample.accept 5 1 7 [str "a"; str "c"] SpecExample.root_entry
    SpecExample.state 0 1 (mkHandlerResponse (str "hello") None false))
    as (qs & entry & s' & H1 & H2 & _ & H4 & H5 & _);
    [apply SpecExample.state_bijection|reflexivity|discriminate|reflexivity|reflexivity
    |reflexivity|apply SpecExample.names_ok|reflexivity|reflexivity|].
  exists qs, entry, s'. split; [exact H1|]. split; [exact H2|]. rewrite H4.
  split; [apply lookup_insert_eq|exact H5].
Defined.

Lemma walk_rejected_witness :
  exists e s',
    run SpecExample.refuse (handle_walk 5 (walk_body 1 7 [str "a"; str "c"])) 0 SpecExample.state =
      (OFail e, 1, s', []) /\ fids s' = fids SpecExample.state.
Proof.
  destruct (walk_rejected SpecExample.refuse 5 1 7 [str "a"; str "c"] SpecExample.root_entry
    SpecExample.state 0 1 (Replied (Err (str "no"))))
    as (e & s' & H1 & H2 & _);
    [apply SpecExample.state_bijection|reflexivity|discriminate|reflexivity|reflexivity
    |reflexivity|apply SpecExample.names_ok|reflexivity|reflexivity|discriminate|].
  exists e, s'. split; [exact H1|exact H2].
Defined.

Lemma read_from_offset_witness :
  run SpecExample.accept (handle_read 0 5 (read_body 2 3 1)) 0 SpecExample.state =
  (ORet tt, 1, SpecExample.state, [send_reply RREAD 5 (u32_le 2 ++ str "lo")]).
Proof.
  destruct (read_from_offset 0 SpecExample.accept 5 2 3 1 SpecExample.file_entry
    SpecExample.state 0 1 (mkHandlerResponse (str "hello") None false))
    as (chunk & Hrun & skipped & Hs & Hl); [reflexivity..|].
  rewrite Hrun. assert (Hc : skipped = str "hel").
  { destruct skipped as [|c1 [|c2 [|c3 [|c4 skipped]]]]; try discriminate Hl;
      [injection Hs as -> -> -> _; reflexivity|unfold lenN in Hl; simpl in Hl; lia]. }
  subst skipped. injection Hs as <-. reflexivity.
Defined.

Lemma write_whole_payload_witness :
  run SpecExample.accept (handle_write 5 (write_body 2 0 (str "xyz"))) 0 SpecExample.state =
  (ORet tt, 1, SpecExample.state, [send_reply RWRITE 5 (u32_le 3)]).
Proof.
  rewrite (write_whole_payload SpecExample.accept 5 2 0 (str "xyz") SpecExample.file_entry
    SpecExample.state 0); reflexivity.
Defined.

Lemma create_moves_fid_witness :
  exists qid s', run SpecExample.accept (handle_create 5 (create_body 1 (str "d") 0x800001ed 0)) 0
    SpecExample.state =
    (ORet tt, 1, s', [send_reply RCREATE 5 (encode_qid (mkQid 0x80 0 qid))]) /\
  fids s' !! 1%N = Some (mkFidEntry qid (str "/d") true true).
Proof.
  destruct (create_moves_fid SpecExample.accept 5 1 (str "d") 0x800001ed 0 SpecExample.root_entry
    SpecExample.state 0) as (qid & s' & Hrun & Hf & _);
    [apply SpecExample.state_bijection|reflexivity|reflexivity|split; reflexivity
    |reflexivity|reflexivity|reflexivity|].
  exists qid, s'. split; [exact Hrun|]. rewrite Hf. apply lookup_insert_eq.
Defined.

Lemma clunk_drops_fid_witness :
  exists b', run SpecExample.refuse (handle_clunk 5 (fid_body 2)) 0 SpecExample.state =
    (ORet tt, b', with_fids (delete 2%N) SpecExample.state, [send_reply RCLUNK 5 []]) /\ b' = 1.
Proof.
  apply (clunk_drops_fid SpecExample.refuse 5 2 SpecExample.state 0). reflexivity.
Defined.

Lemma remove_keeps_fid_witness :
  run SpecExample.accept (handle_remove 5 (fid_body 2)) 0 SpecExample.state =
  (ORet tt, 1, SpecExample.state, [send_reply RREMOVE 5 []]).
Proof.
  rewrite (remove_keeps_fid SpecExample.accept 5 2 SpecExample.file_entry SpecExample.state 0);
    reflexivity.
Defined.

Lemma stat_strings_overrun_witness :
  p9_string 46 (stat_body 0 (str "a") (mkQid 0 0 1) 5 false) = None.
Proof. apply (stat_strings_overrun 0 (str "a") (mkQid 0 0 1) 5 false). reflexivity. Defined.

Lemma wstat_renames_witness :
  run SpecExample.accept
    (handle_wstat 5 (wstat_body 2 (stat_body 0 (str "z") (mkQid 0 0 0) 0 false))) 0 SpecExample.state =
  (ORet tt, 1,
   with_paths <[1%N := mkPathEntry (str "/z") false]> (set_path 2 (str "/z") SpecExample.state),
   [send_reply RWSTAT 5 []]).
Proof.
  rewrite (wstat_renames SpecExample.accept 5 2 0 (str "z") (mkQid 0 0 0) 0 false
    SpecExample.file_entry 0 SpecExample.state);
    [reflexivity|reflexivity|split; reflexivity|reflexivity|reflexivity|discriminate|
     vm_compute; discriminate].
Defined.

Lemma wstat_of_rstat_loses_name_witness :
  run SpecExample.accept
    (handle_wstat 5 (wstat_as_rstat 2 (encode_stat 0 (str "z") (mkQid 0 0 0) 7 false))) 0
    SpecExample.state =
  (ORet tt, 1, SpecExample.state, [send_reply RWSTAT 5 []]).
Proof.
  apply (wstat_of_rstat_loses_name SpecExample.accept 5 2 0 (str "z") (mkQid 0 0 0) 7 false
    SpecExample.file_entry 0 SpecExample.state 1 (mkHandlerResponse (str "hello") None false));
    reflexivity.
Defined.
