(* ===== verification/NinepConn.v ===== *)
(** Connections of the 9P server in [src/src/frontend/ninep.rs]: the message
    loop over a byte stream, the multiplexer that carries several streams over
    one TCP or TLS connection, and the UDP entry point.

    A stream is known through [NinepStream]: what [read_exact] promises about
    the bytes still to come.  The plain stream of a socket and the [MuxStream]
    fed by a channel of chunks implement it. *)
From S2P Require Import Prelude RustStr Proc Wire Router Ninep NinepReplies.
#[local] Open Scope proc_scope.

(** * Streams *)

(** [read_exact]: the bytes and the rest of the stream, or the end of file. *)
Class NinepStream (S : Type) := {
  read_exact : nat -> S -> option (bytes * S);
  pending : S -> bytes;
  read_exact_ok n s : n <= length (pending s) ->
    exists s', read_exact n s = Some (take n (pending s), s') /\ pending s' = drop n (pending s);
  read_exact_eof n s : length (pending s) < n -> read_exact n s = None;
}.

(** A Unix or TCP socket: the bytes the peer sends before closing it. *)
Definition socket_read_exact (n : nat) (s : bytes) : option (bytes * bytes) :=
  if Nat.leb n (length s) then Some (take n s, drop n s) else None.

#[export] Program Instance socket_stream : NinepStream bytes := {
  read_exact := socket_read_exact;
  pending s := s;
}.
Next Obligation.
  intros n s Hn. exists (drop n s). unfold socket_read_exact.
  by rewrite (proj2 (Nat.leb_le _ _) Hn).
Qed.
Next Obligation. intros n s Hn. unfold socket_read_exact. by rewrite (proj2 (Nat.leb_gt _ _) Hn). Qed.

(** ** The multiplexed stream *)

(** [rx] holds the chunks the channel delivers before it is closed. *)
Record MuxStream := mkMuxStream { mx_rx : list bytes; mx_buf : bytes; mx_pos : nat }.

Inductive read_result :=
| RdOk (data : bytes) (st : MuxStream)
| RdEof
| RdFuel.

(** The loop [while need > 0] of [read_exact], [acc] being [buf[..offset]]. *)
Fixpoint mux_read_loop (fuel need : nat) (acc : bytes) (st : MuxStream) : read_result :=
  if Nat.eqb need 0 then RdOk acc st
  else
    match fuel with
    | O => RdFuel
    | S fuel =>
        let copy rx buf pos :=
          let avail := Nat.min (length buf - pos) need in
          mux_read_loop fuel (need - avail) (acc ++ slice pos (pos + avail) buf)
            (mkMuxStream rx buf (pos + avail)) in
        if Nat.leb (length (mx_buf st)) (mx_pos st) then
          match mx_rx st with
          | data :: rx => copy rx data 0
          | [] => RdEof
          end
        else copy (mx_rx st) (mx_buf st) (mx_pos st)
    end.

(** Every iteration empties the buffer or ends the loop: one for the buffer, one
    per chunk and one for the end of the channel are enough. *)
Definition mux_fuel (st : MuxStream) : nat := 2 + length (mx_rx st).

Definition mux_read_exact (n : nat) (st : MuxStream) : read_result :=
  mux_read_loop (mux_fuel st) n [] st.

(** What [read_exact] gives its caller: the bytes, or the end-of-file error. *)
Definition mux_read_opt (n : nat) (st : MuxStream) : option (bytes * MuxStream) :=
  match mux_read_exact n st with RdOk data st' => Some (data, st') | _ => None end.

Definition mux_pending (st : MuxStream) : bytes :=
  drop (mx_pos st) (mx_buf st) ++ concat (mx_rx st).

(** * The message loop *)
Section connection.
Context {ord : IterOrder N PathEntry}.
Variable now : N.
Abbreviation proc := (proc Shared Request route_reply bytes bytes).

(** The size of the scratch buffer messages are limited to. *)
Definition max_body : N := 65536.

(** The type, the tag and the body length a header announces. *)
Definition decode_header (header : bytes) : option (N * N * N) :=
  match get_u32 0 header, get_u8 4 header, get_u16 5 header with
  | Some size, Some msg_type, Some tag => Some (msg_type, tag, size - 7)%N
  | _, _, _ => None
  end.

Fixpoint run_connection {S} `{NinepStream S} (fuel : nat) (st : S) : proc unit :=
  match fuel with
  | O => Ret tt
  | Datatypes.S fuel =>
      match read_exact 7 st with
      | None => Ret tt
      | Some (header, st) =>
          match decode_header header with
          | None => Panic
          | Some (msg_type, tag, body_len) =>
              if N.ltb max_body body_len then Ret tt
              else match read_exact (N.to_nat body_len) st with
                   | None => Ret tt
                   | Some (body, st) =>
                       serve_message now (msg_type, tag, body) ;! run_connection fuel st
                   end
          end
      end
  end.

(** The messages a byte sequence holds, up to the first incomplete or
    oversized one. *)
Fixpoint parse_messages (fuel : nat) (s : bytes) : list (N * N * bytes) :=
  match fuel with
  | O => []
  | S fuel =>
      match decode_header (take 7 s) with
      | Some (msg_type, tag, body_len) =>
          if N.ltb max_body body_len then []
          else if Nat.leb (7 + N.to_nat body_len) (length s)
          then (msg_type, tag, take (N.to_nat body_len) (drop 7 s)) ::
               parse_messages fuel (drop (N.to_nat body_len) (drop 7 s))
          else []
      | None => []
      end
  end.

(** A request on the wire has the layout of a reply. *)
Definition encode_message (m : N * N * bytes) : bytes :=
  let '(msg_type, tag, body) := m in send_reply msg_type tag body.
Definition message_ok (m : N * N * bytes) : Prop :=
  let '(msg_type, tag, body) := m in
  (msg_type < 256)%N /\ (tag < 65536)%N /\ (lenN body <= max_body)%N.

(** * UDP *)

(** Run a handler on a [VirtualStream]: what it writes is collected. *)
Fixpoint capture {A} (p : proc A) (acc : list bytes) : proc (result A bytes * list bytes) :=
  match p with
  | Ret a => Ret (Ok a, acc)
  | Fail e => Ret (Err e, acc)
  | Panic => Panic
  | Lock upd k => Lock upd (fun s => capture (k s) acc)
  | Call rq k => Call rq (fun r => capture (k r) acc)
  | Send m k => capture k (acc ++ [m])
  end.

Definition known_type (msg_type : N) : bool :=
  existsb (N.eqb msg_type)
    [TVERSION; TATTACH; TWALK; TOPEN; TREAD; TWRITE; TCLUNK; TCREATE; TREMOVE; TSTAT;
     TWSTAT; TFLUSH].

Definition handle_udp_message (data : bytes) : proc (option bytes) :=
  if Nat.ltb (length data) 7 then Ret None
  else
    let! msg_type := unwrap (get_u8 4 data) in
    let! tag := unwrap (get_u16 5 data) in
    let! body := unwrap (get_slice 7 (length data) data) in
    let! r :=
      capture (if known_type msg_type then handle_message now msg_type tag body
               else send (send_error tag (str "unknown msg type " ++ dec msg_type))) [] in
    Ret (Some (concat (snd r))).
End connection.

(** * The server side of the multiplexer *)

(** The reader loop of [run_server_mux]: the frames it forwards. *)
Fixpoint read_mux_frames (fuel : nat) (s : bytes) : list (N * bytes) :=
  match fuel with
  | O => []
  | S fuel =>
      match socket_read_exact 8 s with
      | None => []
      | Some (header, s) =>
          match decode_mux_header header with
          | None => []
          | Some (stream_id, len) =>
              match socket_read_exact (N.to_nat len) s with
              | None => []
              | Some (payload, s) => (stream_id, payload) :: read_mux_frames fuel s
              end
          end
      end
  end.

(** The dispatcher loop of [serve_tcp]: the first frame of a stream opens it,
    every frame's payload is queued on its stream's channel. *)
Definition dispatch_frame (streams : gmap N (list bytes)) (f : N * bytes) : gmap N (list bytes) :=
  match streams !! fst f with
  | Some queue => <[fst f := queue ++ [snd f]]> streams
  | None => <[fst f := [snd f]]> streams
  end.

Definition dispatch_frames (frames : list (N * bytes)) : gmap N (list bytes) :=
  fold_left dispatch_frame frames ∅.

(** The stream [run_connection] is started on for a stream id. *)
Definition mux_stream (streams : gmap N (list bytes)) (stream_id : N) : option MuxStream :=
  (fun queue => mkMuxStream queue [] 0) <$> streams !! stream_id.

(** The frames the writer task puts on the connection for a stream's replies. *)
Definition write_mux (stream_id : N) (replies : list bytes) : bytes :=
  concat (map (encode_mux_frame stream_id) replies).

(** * Lemmas: the multiplexed stream *)

(** [r] is the result of reading [need] more bytes from a stream that still
    holds [pend], after [acc]. *)
Definition reads (need : nat) (acc pend : bytes) (r : read_result) : Prop :=
  if Nat.leb need (length pend)
  then exists st', r = RdOk (acc ++ take need pend) st' /\ mux_pending st' = drop need pend
  else r = RdEof.

Lemma reads_app need acc a pend r :
  length a <= need -> reads (need - length a) (acc ++ a) pend r -> reads need acc (a ++ pend) r.
Proof.
  intros Ha. unfold reads. rewrite length_app.
  destruct (Nat.leb_spec (need - length a) (length pend)) as [Hl|Hl].
  - rewrite (proj2 (Nat.leb_le _ _)) by lia.
    by rewrite take_app_ge, drop_app_ge, app_assoc by lia.
  - by rewrite (proj2 (Nat.leb_gt _ _)) by lia.
Qed.

Lemma reads_nothing fuel acc st : reads 0 acc (mux_pending st) (mux_read_loop fuel 0 acc st).
Proof. destruct fuel; (exists st; simpl; by rewrite app_nil_r, drop_0). Qed.

(** Copying from the buffer: what is copied and what stays make up what was
    pending. *)
Lemma reads_copy need acc rx buf pos r :
  let avail := Nat.min (length buf - pos) need in
  reads (need - avail) (acc ++ slice pos (pos + avail) buf)
    (mux_pending (mkMuxStream rx buf (pos + avail))) r ->
  reads need acc (drop pos buf ++ concat rx) r.
Proof.
  intros avail. assert (Hslice : slice pos (pos + avail) buf = take avail (drop pos buf)).
  { unfold slice. f_equal. lia. }
  assert (Hl : length (take avail (drop pos buf)) = avail).
  { rewrite length_take, length_drop. lia. }
  rewrite Hslice. rewrite <-Hl at 1. intros Hr.
  rewrite <-(take_drop avail (drop pos buf)), drop_drop, <-app_assoc.
  apply reads_app; [lia|done].
Qed.

Lemma mux_read_loop_spec fuel need acc st :
  length (mx_rx st) + 1 + (if Nat.ltb (mx_pos st) (length (mx_buf st)) then 1 else 0) <= fuel ->
  reads need acc (mux_pending st) (mux_read_loop fuel need acc st).
Proof.
  revert need acc st. induction fuel as [|fuel IH]; intros need acc [rx buf pos] Hf; simpl in Hf; [lia|].
  destruct (Nat.eqb_spec need 0) as [->|Hneed]; [apply reads_nothing|].
  assert (Hcopy : forall rx buf pos, length rx + 1 <= fuel -> pos < length buf \/ length buf = pos ->
    reads need acc (drop pos buf ++ concat rx)
      (mux_read_loop fuel (need - Nat.min (length buf - pos) need)
         (acc ++ slice pos (pos + Nat.min (length buf - pos) need) buf)
         (mkMuxStream rx buf (pos + Nat.min (length buf - pos) need)))).
  { clear rx buf pos Hf. intros rx buf pos Hrx Hpos. apply reads_copy.
    destruct (Nat.eq_dec (need - Nat.min (length buf - pos) need) 0) as [->|Hnz];
      [apply reads_nothing|].
    apply IH. simpl. rewrite (proj2 (Nat.ltb_ge _ _)) by lia. lia. }
  cbn [mux_read_loop mx_rx mx_buf mx_pos]. rewrite (proj2 (Nat.eqb_neq _ _) Hneed).
  unfold mux_pending. cbn [mx_rx mx_buf mx_pos].
  destruct (Nat.leb_spec (length buf) pos) as [Hex|Hbuf].
  - rewrite (proj2 (Nat.ltb_ge _ _)) in Hf by lia. rewrite (drop_ge buf pos) by lia.
    destruct rx as [|data rx]; simpl in *.
    + unfold reads. by rewrite (proj2 (Nat.leb_gt _ _)) by (simpl; lia).
    + apply (Hcopy rx data 0); [lia|]. destruct data; simpl; [by right|left; lia].
  - rewrite (proj2 (Nat.ltb_lt _ _)) in Hf by lia. apply (Hcopy rx buf pos); [lia|by left].
Qed.

Lemma mux_read_exact_spec n st :
  if Nat.leb n (length (mux_pending st))
  then exists st', mux_read_exact n st = RdOk (take n (mux_pending st)) st' /\
                   mux_pending st' = drop n (mux_pending st)
  else mux_read_exact n st = RdEof.
Proof.
  apply (mux_read_loop_spec (mux_fuel st) n []). unfold mux_fuel. case_match; lia.
Qed.

#[export] Program Instance mux_stream_ok : NinepStream MuxStream := {
  read_exact := mux_read_opt;
  pending := mux_pending;
}.
Next Obligation.
  intros n st Hn. pose proof (mux_read_exact_spec n st) as Hs.
  rewrite (proj2 (Nat.leb_le _ _) Hn) in Hs. destruct Hs as (st' & Hr & Hp).
  exists st'. unfold mux_read_opt. by rewrite Hr.
Qed.
Next Obligation.
  intros n st Hn. pose proof (mux_read_exact_spec n st) as Hs.
  rewrite (proj2 (Nat.leb_gt _ _) Hn) in Hs. unfold mux_read_opt. by rewrite Hs.
Qed.

(** * Lemmas: the message loop *)
Section connection_lemmas.
Context {ord : IterOrder N PathEntry}.
Variable now : N.

Lemma decode_header_is_Some header :
  7 <= length header -> is_Some (decode_header header).
Proof.
  intros Hl. unfold decode_header.
  destruct (get_le_is_Some 4 0 header) as [size H1]; [lia|].
  destruct (get_le_is_Some 2 5 header) as [tag H2]; [lia|].
  destruct (lookup_lt_is_Some_2 header 4) as [b H3]; [lia|].
  unfold get_u32, get_u16, get_u8. rewrite H1, H2, H3. simpl. eauto.
Qed.

Lemma decode_header_None header : length header < 7 -> decode_header header = None.
Proof.
  intros Hl. unfold decode_header, get_u16, get_le. rewrite (get_slice_None 5) by lia.
  simpl. by destruct (get_u32 0 header), (get_u8 4 header).
Qed.

(** The loop serves the messages of the stream's bytes, whatever the stream. *)
Lemma run_connection_parse {S} `{NinepStream S} fuel (st : S) :
  run_connection now fuel st = serve_messages now (parse_messages fuel (pending st)).
Proof.
  revert st. induction fuel as [|fuel IH]; intros st; [done|].
  cbn [run_connection parse_messages].
  destruct (Nat.leb_spec 7 (length (pending st))) as [H7|H7].
  2:{ rewrite read_exact_eof by done.
      by rewrite decode_header_None by (rewrite length_take; lia). }
  destruct (read_exact_ok 7 st H7) as (st1 & -> & Hp1).
  destruct (decode_header_is_Some (take 7 (pending st))) as [[[ty tag] len] ->];
    [rewrite length_take; lia|].
  destruct (N.ltb max_body len); [done|].
  destruct (Nat.leb_spec (7 + N.to_nat len) (length (pending st))) as [Hb|Hb].
  - destruct (read_exact_ok (N.to_nat len) st1) as (st2 & -> & Hp2);
      [rewrite Hp1, length_drop; lia|].
    rewrite Hp1 in Hp2 |- *. cbn [serve_messages]. by rewrite IH, Hp2.
  - by rewrite read_exact_eof by (rewrite Hp1, length_drop; lia).
Qed.

Lemma decode_send_reply ty tag body :
  (ty < 256)%N -> (tag < 65536)%N -> (7 + lenN body < 2 ^ 32)%N ->
  decode_header (take 7 (send_reply ty tag body)) = Some (ty, tag, lenN body).
Proof.
  intros Hty Htag Hl. unfold decode_header, send_reply.
  change (take 7 _) with (u32_le (7 + lenN body) ++ [chr ty] ++ u16_le tag).
  assert (H1 : get_u32 0 (u32_le (7 + lenN body) ++ [chr ty] ++ u16_le tag) = Some (7 + lenN body)%N)
    by by apply (get_le_app 4 0 []).
  assert (H2 : get_u16 5 (u32_le (7 + lenN body) ++ [chr ty] ++ u16_le tag) = Some tag)
    by by apply (get_le_app 2 5 (u32_le (7 + lenN body) ++ [chr ty]) tag []).
  rewrite H1, H2. unfold get_u8. cbn [app u32_le le_bytes lookup list_lookup option_bind mbind fmap option_fmap option_map].
  rewrite ord_chr. unfold u8_wrap. rewrite wrap_small by done.
  do 2 f_equal. lia.
Qed.

Lemma drop_7_send_reply ty tag body rest : drop 7 (send_reply ty tag body ++ rest) = body ++ rest.
Proof. done. Qed.

Lemma parse_messages_encode fuel msgs rest :
  Forall message_ok msgs -> length rest < 7 ->
  length (concat (map encode_message msgs)) <= fuel ->
  parse_messages (S fuel) (concat (map encode_message msgs) ++ rest) = msgs.
Proof.
  intros Hms Hrest. revert fuel.
  induction Hms as [|[[ty tag] body] msgs (Hty & Htag & Hb) Hms IH]; intros fuel Hf.
  { cbn [map concat app parse_messages]. by rewrite decode_header_None by (rewrite length_take; lia). }
  cbn [map concat encode_message] in *. rewrite <-app_assoc.
  rewrite length_app, length_send_reply in Hf. unfold max_body, lenN in Hb.
  cbn [parse_messages]. rewrite take_app_le by (rewrite length_send_reply; lia).
  rewrite decode_send_reply by (unfold lenN; lia).
  rewrite (proj2 (N.ltb_ge _ _)) by (unfold max_body, lenN; lia).
  rewrite lenN_nat, length_app, length_send_reply, drop_7_send_reply.
  rewrite (proj2 (Nat.leb_le _ _)) by lia.
  rewrite take_app_length, drop_app_length. f_equal.
  destruct fuel as [|fuel]; [lia|]. apply IH. lia.
Qed.

(** C22: A 9P connection serves exactly the requests its peer sends, in order
    and once each, whatever the chunks the multiplexer delivers the bytes in
    and however the bytes are cut: the loop over the chunked stream is the
    sequence of the handlers of the messages, an incomplete message at the end
    being ignored. *)
Theorem run_connection_serves fuel chunks msgs rest :
  Forall message_ok msgs -> length rest < 7 ->
  concat chunks = concat (map encode_message msgs) ++ rest ->
  length (concat chunks) < fuel ->
  run_connection now fuel (mkMuxStream chunks [] 0) = serve_messages now msgs /\
  run_connection now fuel (concat chunks) = serve_messages now msgs.
Proof.
  intros Hms Hrest Hc Hf. rewrite !run_connection_parse. simpl.
  unfold mux_pending. simpl. rewrite Hc in *. rewrite length_app in Hf.
  destruct fuel as [|fuel]; [lia|].
  by rewrite parse_messages_encode by (done || lia).
Qed.
End connection_lemmas.

(** * One reply per message *)
Section replies.
Context {ord : IterOrder N PathEntry}.
Variable now : N.
Abbreviation proc := (proc Shared Request route_reply bytes bytes).

(** [r] answers the message: with its tag, and the answering type or an error. *)
Definition reply_to (m : N * N * bytes) (r : bytes) : Prop :=
  let '(msg_type, tag, _) := m in
  (exists payload, r = send_reply (msg_type + 1) tag payload) \/ (exists e, r = send_error tag e).

Definition truncated (m : N * N * bytes) : Prop :=
  truncated_body (fst (fst m)) (snd m).

Lemma serve_message_wp m :
  wp (serve_message now m) (fun ms o =>
    match o with
    | ORet _ => exists r, ms = [r] /\ reply_to m r
    | OFail _ => False
    | OPanic => ms = [] /\ truncated m
    end).
Proof.
  destruct m as [[ty tag] body]. unfold serve_message. apply wp_catch.
  eapply wp_mono; [|apply handle_message_wp].
  intros ms [a|e|]; simpl; [intros (payload & ->)|intros ->|done]; eauto 6.
Qed.

(** The outcome of serving [msgs]: every message answered once and in order,
    or a prefix of them, the next message being a truncated one. *)
Definition answered (msgs : list (N * N * bytes)) (ms : list bytes) (o : outcome bytes unit) : Prop :=
  match o with
  | ORet _ => Forall2 reply_to msgs ms
  | OFail _ => False
  | OPanic => exists done m rest, msgs = done ++ m :: rest /\ Forall2 reply_to done ms /\ truncated m
  end.

Lemma serve_messages_wp msgs : wp (serve_messages now msgs) (answered msgs).
Proof.
  induction msgs as [|m msgs IH]; cbn [serve_messages]; [constructor|].
  apply wp_bind. eapply wp_mono; [|apply serve_message_wp].
  intros ms [[]|e|]; cbn; [intros (r & -> & Hr)|done|intros [-> Ht]].
  - eapply wp_mono; [|exact IH]. intros ms [[]|e|]; cbn; [by constructor|done|].
    intros (pre & m' & rest & -> & Hpre & Ht). exists (m :: pre), m', rest.
    split_and!; [done|by constructor|done].
  - exists [], m, msgs. by split_and!.
Qed.

(** C11: On a connection, whatever the router answers and the other
    connections do, every message gets exactly one reply, in the order of the
    messages, with its tag and either the answering type or the error type; the
    loop never stops on a handler's error, and the only message that ends it
    early is a truncated Tversion or Twalk, after all the messages before it
    were answered. *)
Theorem serve_messages_one_reply_each msgs ms o :
  may (serve_messages now msgs) ms o -> answered msgs ms o.
Proof. apply wp_sound, serve_messages_wp. Qed.

Lemma wp_capture {A} (p : proc A) acc Q :
  wp p (fun ms o => match o with
                    | ORet a => Q [] (ORet (Ok a, acc ++ ms))
                    | OFail e => Q [] (ORet (Err e, acc ++ ms))
                    | OPanic => Q [] OPanic
                    end) -> wp (capture p acc) Q.
Proof.
  revert acc. induction p as [a|e| |upd k IH|rq k IH|m k IH]; intros acc; simpl; auto.
  - by rewrite app_nil_r.
  - by rewrite app_nil_r.
  - intros H. apply IH. eapply wp_mono; [|exact H].
    intros ms [a|e|]; by rewrite <-?app_assoc.
Qed.

(** What [handle_udp_message] makes of a well-formed message [m]. *)
Definition udp_answers (m : N * N * bytes) (ms : list bytes)
    (o : outcome bytes (option bytes)) : Prop :=
  ms = [] /\
  match o with
  | ORet (Some r) => r = [] \/ reply_to m r
  | ORet None => False
  | OFail _ => False
  | OPanic => truncated m
  end.

(** Over UDP a message is answered by at most one datagram: a well-formed
    one by the reply to it or, when its handler fails, by an EMPTY datagram
    (the error is dropped); a datagram too short for a header is ignored. *)
Theorem udp_one_datagram msg_type tag body ms o :
  message_ok (msg_type, tag, body) ->
  may (handle_udp_message now (encode_message (msg_type, tag, body))) ms o ->
  udp_answers (msg_type, tag, body) ms o.
Proof.
  intros (Hty & Htag & Hb). apply wp_sound. unfold handle_udp_message.
  set (data := encode_message _).
  assert (Hl : length data = 7 + length body) by apply length_send_reply.
  rewrite (proj2 (Nat.ltb_ge _ _)) by lia.
  assert (H1 : get_u8 4 data = Some msg_type).
  { unfold get_u8. cbn. rewrite ord_chr. unfold u8_wrap. by rewrite wrap_small. }
  assert (H2 : get_u16 5 data = Some tag).
  { by apply (get_le_app 2 5 (u32_le (7 + lenN body) ++ [chr msg_type]) tag body). }
  assert (H3 : get_slice 7 (length data) data = Some body).
  { rewrite get_slice_Some by lia. f_equal. unfold slice. rewrite Hl.
    change (drop 7 data) with body. rewrite take_ge; [done|lia]. }
  rewrite H1, H2, H3. cbn [bind unwrap].
  apply wp_bind, wp_capture. destruct (known_type msg_type).
  - eapply wp_mono; [|apply handle_message_wp].
    intros ms' [a|e|]; cbn -[send_reply concat]; [intros (payload & ->)|intros ->|intros [_ ?]; done];
      (split; [done|]); [right; left; exists payload; apply app_nil_r|by left].
  - split; [done|]. right. right. eexists. apply app_nil_r.
Qed.

(** A request that fails, here one that names an unknown fid, is answered
    with an error message on a connection but with an empty datagram over UDP. *)
Theorem udp_drops_errors {W} (backend : W -> Request -> W * route_reply) tag fid w s :
  (tag < 65536)%N -> (fid < 2 ^ 32)%N -> fids s !! fid = None ->
  run backend (serve_message now (TSTAT, tag, u32_le fid)) w s =
    (ORet tt, w, s, [send_error tag (str "unknown fid")]) /\
  run backend (handle_udp_message now (encode_message (TSTAT, tag, u32_le fid))) w s =
    (ORet (Some []), w, s, []).
Proof.
  intros Htag Hfid Hs.
  assert (H1 : get_u32 0 (u32_le fid) = Some fid).
  { rewrite <-(app_nil_r (u32_le fid)). by apply (get_le_app 4 0 []). }
  assert (Hh : handle_message now TSTAT tag (u32_le fid) = handle_stat now tag (u32_le fid)) by done.
  assert (H4 : get_u16 5 (encode_message (TSTAT, tag, u32_le fid)) = Some tag).
  { by apply (get_le_app 2 5 (u32_le (7 + 4) ++ [chr TSTAT]) tag (u32_le fid)). }
  assert (Hd : get_slice 7 11 (encode_message (TSTAT, tag, u32_le fid)) = Some (u32_le fid)) by done.
  split.
  - unfold serve_message. rewrite Hh. unfold handle_stat.
    rewrite (proj2 (Nat.ltb_ge _ _)) by (by rewrite length_u32_le). rewrite H1.
    cbn. unfold id. by rewrite Hs.
  - unfold handle_udp_message.
    change (length _) with 11. cbn [Nat.ltb Nat.leb]. rewrite H4, Hd.
    change (get_u8 4 _) with (Some TSTAT). cbn [bind unwrap].
    change (known_type TSTAT) with true. cbn iota. rewrite Hh. unfold handle_stat.
    rewrite (proj2 (Nat.ltb_ge _ _)) by (by rewrite length_u32_le). rewrite H1.
    cbn. unfold id. by rewrite Hs.
Qed.
End replies.

(** * Lemmas: the multiplexer *)
Lemma decode_mux_header_encode stream_id payload rest :
  (stream_id < 2 ^ 32)%N -> (lenN payload < 2 ^ 32)%N ->
  decode_mux_header (take 8 (encode_mux_frame stream_id payload ++ rest)) =
  Some (stream_id, lenN payload).
Proof.
  intros Hs Hp. unfold decode_mux_header, encode_mux_frame.
  change (take 8 _) with (u32_le stream_id ++ u32_le (lenN payload)).
  assert (H1 : get_u32 0 (u32_le stream_id ++ u32_le (lenN payload)) = Some stream_id)
    by by apply (get_le_app 4 0 []).
  assert (H2 : get_u32 4 (u32_le stream_id ++ u32_le (lenN payload)) = Some (lenN payload))
    by by apply (get_le_app 4 4 (u32_le stream_id) (lenN payload) []).
  by rewrite H1, H2.
Qed.

Definition frame_ok (f : N * bytes) : Prop := (fst f < 2 ^ 32)%N /\ (lenN (snd f) < 2 ^ 32)%N.
Definition encode_frame (f : N * bytes) : bytes := encode_mux_frame (fst f) (snd f).

Lemma length_encode_frame f : length (encode_frame f) = 8 + length (snd f).
Proof. unfold encode_frame, encode_mux_frame. by autorewrite with pinhead. Qed.

Lemma read_mux_frames_encode fuel frames rest :
  Forall frame_ok frames -> length rest < 8 ->
  length (concat (map encode_frame frames)) <= fuel ->
  read_mux_frames (S fuel) (concat (map encode_frame frames) ++ rest) = frames.
Proof.
  intros Hfs Hrest. revert fuel.
  induction Hfs as [|[sid payload] frames [Hs Hp] Hfs IH]; intros fuel Hf.
  { cbn [map concat app read_mux_frames]. unfold socket_read_exact at 1.
    by rewrite (proj2 (Nat.leb_gt _ _)) by done. }
  cbn [map concat] in *. rewrite <-app_assoc.
  rewrite length_app, length_encode_frame in Hf. cbn [fst snd] in *.
  cbn [read_mux_frames]. unfold socket_read_exact at 1.
  rewrite length_app, length_encode_frame.
  rewrite (proj2 (Nat.leb_le _ _)) by lia.
  unfold encode_frame at 1. cbn [fst snd]. rewrite decode_mux_header_encode by done.
  change (drop 8 (encode_frame (sid, payload) ++ ?r)) with (payload ++ r).
  unfold socket_read_exact at 1. rewrite lenN_nat, length_app.
  rewrite (proj2 (Nat.leb_le _ _)) by lia.
  rewrite take_app_length, drop_app_length. f_equal.
  destruct fuel as [|fuel]; [lia|]. apply IH. lia.
Qed.

(** The payloads of one stream, in order. *)
Definition stream_payloads (sid : N) (frames : list (N * bytes)) : list bytes :=
  map snd (List.filter (fun f => N.eqb (fst f) sid) frames).

Lemma dispatch_frames_lookup frames sid :
  dispatch_frames frames !! sid =
  match stream_payloads sid frames with [] => None | queue => Some queue end.
Proof.
  unfold dispatch_frames, stream_payloads.
  induction frames as [|f frames IH] using rev_ind; [done|].
  rewrite fold_left_app, List.filter_app, map_app. simpl.
  set (m := fold_left dispatch_frame frames ∅) in *.
  unfold dispatch_frame. destruct (N.eqb_spec (fst f) sid) as [->|Hne]; simpl.
  - rewrite IH. destruct (map snd _) as [|p queue]; by rewrite lookup_insert_eq.
  - rewrite app_nil_r, <-IH. destruct (m !! fst f); by rewrite lookup_insert_ne.
Qed.

(** The multiplexer delivers to each stream exactly the payloads framed for
    it, in order and complete, however the frames of different streams are
    interleaved on the connection; a stream id no frame names is not opened. *)
Theorem mux_delivers fuel frames rest sid :
  Forall frame_ok frames -> length rest < 8 ->
  length (concat (map encode_frame frames)) < fuel ->
  mux_stream (dispatch_frames (read_mux_frames fuel (concat (map encode_frame frames) ++ rest))) sid =
  match stream_payloads sid frames with
  | [] => None
  | queue => Some (mkMuxStream queue [] 0)
  end.
Proof.
  intros Hfs Hrest Hf. destruct fuel as [|fuel]; [lia|].
  rewrite read_mux_frames_encode by (done || lia).
  unfold mux_stream. rewrite dispatch_frames_lookup. by case_match.
Qed.

(** * The theorems at concrete inputs *)
Module ConnExample.
Definition flush : N * N * bytes := (TFLUSH, 7%N, []).
Definition version : N * N * bytes := (TVERSION, 8%N, u32_le 8192).
Definition frames : list (N * bytes) := [(1%N, str "ab"); (2%N, str "xyz"); (1%N, str "c")].
End ConnExample.

Lemma run_connection_serves_witness :
  run_connection (ord := default_order) 0 100
    (mkMuxStream [u32_le 7 ++ [chr TFLUSH]; u16_le 7 ++ u32_le 11;
                  [chr TVERSION] ++ u16_le 8 ++ u32_le 8192 ++ [chr 9]] [] 0) =
  serve_messages (ord := default_order) 0 [ConnExample.flush; ConnExample.version].
Proof.
  eapply (run_connection_serves (ord := default_order) 0 100) with (rest := [chr 9]);
    [repeat constructor; vm_compute; congruence|simpl; lia|reflexivity|simpl; lia].
Defined.

Lemma serve_messages_one_reply_each_witness :
  Forall2 reply_to [ConnExample.flush] [send_reply RFLUSH 7 []].
Proof.
  apply (serve_messages_one_reply_each (ord := default_order) 0 [ConnExample.flush] _ (ORet tt)).
  repeat constructor.
Defined.

Lemma udp_one_datagram_witness :
  udp_answers ConnExample.flush [] (ORet (Some (send_reply RFLUSH 7 []))).
Proof.
  apply (udp_one_datagram (ord := default_order) 0 TFLUSH 7 []).
  - repeat constructor; vm_compute; congruence.
  - vm_compute. apply may_ret.
Defined.

Lemma udp_drops_errors_witness :
  run (fun (w : unit) _ => (w, RouterGone))
    (handle_udp_message (ord := default_order) 0 (encode_message (TSTAT, 7%N, u32_le 3)))
    tt (new_shared 65536) = (ORet (Some []), tt, new_shared 65536, []).
Proof.
  apply (udp_drops_errors (ord := default_order) 0 (fun (w : unit) _ => (w, RouterGone)) 7 3);
    [lia|lia|reflexivity].
Defined.

Lemma mux_delivers_witness :
  mux_stream (dispatch_frames (read_mux_frames 100
    (concat (map encode_frame ConnExample.frames) ++ str "torn"))) 1 =
  Some (mkMuxStream [str "ab"; str "c"] [] 0).
Proof.
  apply (mux_delivers 100 ConnExample.frames (str "torn") 1);
    [repeat constructor; vm_compute; congruence|simpl; lia|simpl; lia].
Defined.
