(* ===== verification/Serve.v ===== *)
(** The accept loops of the 9P server ([serve_udp], [serve_tcp], [serve_tcp_tls]
    and [serve] of [src/src/frontend/ninep.rs]): how connections follow each
    other.  What one connection does is in [NinepConn].

    The UDP server is one task, a [proc] over the datagrams received.  The stream
    servers are step relations: a step is an event of the listener, of one of the
    tasks, or of a peer.  Connections are numbered. *)
From S2P Require Import Prelude RustStr Proc Wire Router Ninep NinepReplies NinepInv NinepConn.

(** * UDP *)
Section udp.
Context {ord : IterOrder N PathEntry} {Peer : Type}.
Variable now : N.
#[local] Open Scope proc_scope.
Abbreviation proc M := (proc Shared Request route_reply M bytes).

(** A handler whose messages go through [f]. *)
Fixpoint relabel {M M' A} (f : M -> M') (p : proc M A) : proc M' A :=
  match p with
  | Ret a => Ret a
  | Fail e => Fail e
  | Panic => Panic
  | Lock upd k => Lock upd (fun s => relabel f (k s))
  | Call rq k => Call rq (fun r => relabel f (k r))
  | Send m k => Send (f m) (relabel f k)
  end.

(** The loop of [serve_udp] on the datagrams it receives before the socket
    fails; each is handled before the next is read. *)
Fixpoint serve_udp (datagrams : list (Peer * bytes)) : proc (Peer * bytes) unit :=
  match datagrams with
  | [] => Ret tt
  | (peer, data) :: datagrams =>
      let! reply := relabel (pair peer) (handle_udp_message now data) in
      match reply with
      | Some reply => send (peer, reply) ;! serve_udp datagrams
      | None => serve_udp datagrams
      end
  end.

(** ** Lemmas *)
Lemma wp_relabel {M M' A} (f : M -> M') (p : proc M A) Q :
  wp p (fun ms o => Q (map f ms) o) -> wp (relabel f p) Q.
Proof.
  revert Q. induction p as [a|e| |upd k IH|rq k IH|m k IH]; intros Q; simpl; auto.
Qed.

(** The datagrams on which a handler panics. *)
Definition bad_datagram (data : bytes) : Prop :=
  7 <= length data /\ exists ty, get_u8 4 data = Some ty /\ truncated_body ty (drop 7 data).

(** What a datagram with a header is answered with: the reply of its handler, or
    an empty datagram when the handler fails, or an error for an unknown type. *)
Definition datagram_answer (data r : bytes) : Prop :=
  exists ty tag, get_u8 4 data = Some ty /\ get_u16 5 data = Some tag /\
  if known_type ty then
    (exists e, r = [] /\ may (handle_message now ty tag (drop 7 data)) [] (OFail e)) \/
    (exists payload, r = send_reply (ty + 1) tag payload /\
      may (handle_message now ty tag (drop 7 data)) [r] (ORet tt))
  else r = send_error tag (str "unknown msg type " ++ dec ty).

Lemma udp_datagram_wp data :
  wp (handle_udp_message now data) (fun ms o => ms = [] /\
    match o with
    | ORet None => length data < 7
    | ORet (Some r) => 7 <= length data /\ ~ bad_datagram data /\ datagram_answer data r
    | OFail _ => False
    | OPanic => bad_datagram data
    end).
Proof.
  unfold handle_udp_message. destruct (Nat.ltb_spec (length data) 7) as [Hs|Hl]; [done|].
  destruct (lookup_lt_is_Some_2 data 4) as [b H4]; [lia|].
  destruct (get_le_is_Some 2 5 data) as [tag H5]; [lia|].
  assert (Hty : get_u8 4 data = Some (Prelude.ord b)) by (unfold get_u8; by rewrite H4).
  assert (Hbody : get_slice 7 (length data) data = Some (drop 7 data)).
  { rewrite get_slice_Some by lia. f_equal. unfold slice. rewrite take_ge; [done|]. rewrite length_drop. lia. }
  unfold get_u16. rewrite Hty, H5, Hbody. cbn [bind unwrap]. apply wp_bind, wp_capture.
  assert (Hbad : bad_datagram data <-> truncated_body (Prelude.ord b) (drop 7 data)).
  { split; [intros (_ & ty & Hty' & Ht); congruence|]. intros Ht. split; [done|]. by exists (Prelude.ord b). }
  assert (Hans : forall P : N -> N -> Prop, P (Prelude.ord b) tag ->
    exists ty tag, get_u8 4 data = Some ty /\ get_le 2 5 data = Some tag /\ P ty tag) by eauto.
  destruct (known_type (Prelude.ord b)) eqn:Ek.
  - destruct (decide (truncated_body (Prelude.ord b) (drop 7 data))) as [Ht|Ht].
    + rewrite truncated_panics by done. split; [done|]. by apply Hbad.
    + eapply wp_mono; [|apply wp_and; [apply wp_may|apply handle_message_wp]].
      intros ms [[]|e|] [Hmay H]; cbn -[send_reply concat] in H |- *; [|subst ms|by destruct H as [_ ?]];
        (split; [done|]); (split; [done|]); (split; [by rewrite Hbad|]); apply Hans; rewrite Ek.
      * destruct H as [payload ->]. right. exists payload. split; [apply app_nil_r|]. cbn [concat app]. by rewrite app_nil_r.
      * left. by exists e.
  - split; [done|]. split; [done|]. split.
    + rewrite Hbad. intros [[Hv _]|[Hw _]]; rewrite ?Hv, ?Hw in Ek; done.
    + apply Hans. rewrite Ek. apply app_nil_r.
Qed.

(** The datagrams that have a header. *)
Definition with_header (datagrams : list (Peer * bytes)) : list (Peer * bytes) :=
  List.filter (fun d => Nat.leb 7 (length (snd d))) datagrams.

(** [m] goes to the sender of [d] and answers it. *)
Definition answers_datagram (d m : Peer * bytes) : Prop :=
  fst m = fst d /\ datagram_answer (snd d) (snd m).

(** What the server made of the datagrams: it answered those before the first
    bad one, if there is one. *)
Definition served (datagrams : list (Peer * bytes)) (ms : list (Peer * bytes)) (o : outcome bytes unit) : Prop :=
  exists pre post, datagrams = pre ++ post /\ Forall (fun d => ~ bad_datagram (snd d)) pre /\
    Forall2 answers_datagram (with_header pre) ms /\
    match o with
    | ORet _ => post = []
    | OFail _ => False
    | OPanic => exists d rest, post = d :: rest /\ bad_datagram (snd d)
    end.

Lemma served_cons d datagrams ms ms' o :
  ~ bad_datagram (snd d) -> Forall2 answers_datagram (with_header [d]) ms ->
  served datagrams ms' o -> served (d :: datagrams) (ms ++ ms') o.
Proof.
  intros Hd Hms (pre & post & -> & Hpre & Hms' & Ho). exists (d :: pre), post.
  split_and!; [done|by constructor| |done]. unfold with_header.
  change (d :: pre) with ([d] ++ pre). rewrite List.filter_app. by apply Forall2_app.
Qed.

Lemma serve_udp_wp datagrams : wp (serve_udp datagrams) (served datagrams).
Proof.
  induction datagrams as [|[peer data] ds IH]; [by exists [], []|]. cbn [serve_udp].
  apply wp_bind, wp_relabel. eapply wp_mono; [|apply udp_datagram_wp].
  intros ms o [-> Ho]. destruct o as [[reply|]|e|]; cbn [wp_then map].
  - destruct Ho as (Hl & Hb & Ha). cbn [bind send wp]. eapply wp_mono; [|exact IH].
    intros ms o Hs. apply (served_cons (peer, data) ds [(peer, reply)]); [done| |done].
    unfold with_header. cbn [List.filter snd]. rewrite (proj2 (Nat.leb_le _ _)) by done. by repeat constructor.
  - eapply wp_mono; [|exact IH]. intros ms o Hs. apply (served_cons (peer, data) ds []); [| |done].
    + intros [Hl _]. cbn in Hl. lia.
    + unfold with_header. cbn [List.filter snd]. rewrite (proj2 (Nat.leb_gt _ _)) by done. constructor.
  - done.
  - exists [], ((peer, data) :: ds). split_and!; [done|constructor|constructor|]. by exists (peer, data), ds.
Qed.

(** C28: The UDP server ignores the datagrams of less than seven bytes and sends
    exactly one datagram for each of the others, in order and to its sender,
    whatever the router does: the reply of the message's handler when it returns,
    an EMPTY datagram when it fails, an Rerror for a type it does not know.  A
    Tversion of five or a Twalk of nine body bytes ends the server, and no later
    datagram is answered. *)
Theorem udp_server_answers datagrams ms o :
  may (serve_udp datagrams) ms o -> served datagrams ms o.
Proof. apply wp_sound, serve_udp_wp. Qed.

(** ** The session of the UDP server *)
Section session.
Context (P : protocol Shared) `{!SessionProtocol P, !RenameProtocol P}.
#[local] Existing Instance rely_preorder.
Abbreviation any := (fun _ _ => True).

Lemma rg_capture {A} (p : proc bytes A) acc s0 : rg P p s0 any -> rg P (capture p acc) s0 any.
Proof.
  revert acc s0. induction p as [a|e| |upd k IH|rq k IH|m k IH]; intros acc s0; cbn; auto.
  intros H s Hr Hi Hu. destruct (H s Hr Hi Hu) as (H1 & H2 & H3 & H4). eauto 6.
Qed.

Lemma rg_relabel {M M' A} (f : M -> M') (p : proc M A) s0 : rg P p s0 any -> rg P (relabel f p) s0 any.
Proof.
  revert s0. induction p as [a|e| |upd k IH|rq k IH|m k IH]; intros s0; cbn; auto.
  intros H s Hr Hi Hu. destruct (H s Hr Hi Hu) as (H1 & H2 & H3 & H4). eauto 6.
Qed.

Lemma serve_udp_rg datagrams s0 : rg P (serve_udp datagrams) s0 any.
Proof.
  revert s0. induction datagrams as [|[peer data] ds IH]; intros s0; [done|]. cbn [serve_udp].
  apply rg_bind. eapply rg_mono; [|apply rg_relabel].
  - intros s [[reply|]|e|] _ _; [exact (IH s)|exact (IH s)|done..].
  - unfold handle_udp_message. destruct (Nat.ltb _ _); [done|].
    destruct (get_u8 4 data) as [ty|], (get_u16 5 data) as [tag|], (get_slice 7 (length data) data) as [body|];
      try done.
    cbn [bind unwrap]. apply rg_bind. eapply rg_mono; [|apply rg_capture]; [by intros s [a|e|]|].
    destruct (known_type ty); [|done].
    eapply rg_mono; [|by apply (handle_message_rg now P); right]. done.
Qed.
End session.

(** The session state of a UDP server is well formed at every point. *)
Lemma udp_session_wf n m datagrams c :
  (4096 <= m <= 65536)%N -> (N.of_nat n < 2 ^ 64 - 1)%N ->
  nsteps step n (new_shared m, [serve_udp datagrams]) c -> session_wf (fst c).
Proof.
  intros Hm Hn Hsteps.
  apply (steps_ok session_protocol n) in Hsteps as [[Hc _] _]; [done|simpl; lia|].
  split; [apply (bj_wf _ (new_shared_bijection m Hm))|].
  intros [|i] p Hp; [|done]. injection Hp as <-. exists (new_shared m). split; [apply session_rely_preorder|].
  apply (serve_udp_rg session_protocol).
Qed.
End udp.

(** * TCP *)

(** The accept loop of [serve_tcp]: it waits for a connection, then for a permit,
    then dispatches the frames of the connection. *)
Inductive tcp_phase := Accepting | Acquiring (peer : N) | Dispatching (peer : N).

(** The permits left ([None]: no limit); the tasks that run [run_server_mux],
    with whether their reader still runs; the frames the dispatcher has not taken
    from its channel; the streams of the connection; and the connections served
    so far, the current one last. *)
Record TcpServer := mkTcpServer {
  ts_phase : tcp_phase;
  ts_permits : option nat;
  ts_muxes : list (N * bool);
  ts_queue : list (N * bytes);
  ts_streams : gmap N (list bytes);
  ts_served : list N;
}.

(** [sem.acquire_owned()], when it does not wait. *)
Definition take_permit (permits : option nat) : option (option nat) :=
  match permits with
  | None => Some None
  | Some 0 => None
  | Some (S n) => Some (Some n)
  end.

Definition start_tcp (max_conns : option nat) : TcpServer := mkTcpServer Accepting max_conns [] [] ∅ [].

Inductive tcp_step : TcpServer -> TcpServer -> Prop :=
| tcp_accept permits muxes queue streams served peer :
    tcp_step (mkTcpServer Accepting permits muxes queue streams served)
      (mkTcpServer (Acquiring peer) permits muxes queue streams served)
| tcp_acquire permits permits' muxes queue streams served peer :
    take_permit permits = Some permits' ->
    tcp_step (mkTcpServer (Acquiring peer) permits muxes queue streams served)
      (mkTcpServer (Dispatching peer) permits' ((peer, true) :: muxes) [] ∅ (served ++ [peer]))
| tcp_read permits muxes queue streams served peer f :
    (peer, true) ∈ muxes ->
    tcp_step (mkTcpServer (Dispatching peer) permits muxes queue streams served)
      (mkTcpServer (Dispatching peer) permits muxes (queue ++ [f]) streams served)
| tcp_dispatch permits muxes queue streams served peer f :
    tcp_step (mkTcpServer (Dispatching peer) permits muxes (f :: queue) streams served)
      (mkTcpServer (Dispatching peer) permits muxes queue (dispatch_frame streams f) served)
| tcp_reader_ends phase permits pre post queue streams served peer :
    tcp_step (mkTcpServer phase permits (pre ++ (peer, true) :: post) queue streams served)
      (mkTcpServer phase permits (pre ++ (peer, false) :: post) queue streams served)
| tcp_release phase permits pre post queue streams served peer :
    tcp_step (mkTcpServer phase permits (pre ++ (peer, false) :: post) queue streams served)
      (mkTcpServer phase (S <$> permits) (pre ++ post) queue streams served)
| tcp_next permits muxes streams served peer :
    (peer, true) ∉ muxes ->
    tcp_step (mkTcpServer (Dispatching peer) permits muxes [] streams served)
      (mkTcpServer Accepting permits muxes [] streams served).

Definition readers (muxes : list (N * bool)) : list N := map fst (List.filter snd muxes).
#[local] Arguments readers : simpl never.

(** The invariant: the reader of the current connection is the only one, and the
    permits and the tasks make up the limit. *)
Record tcp_wf (max_conns : option nat) (s : TcpServer) : Prop := {
  tw_readers : readers (ts_muxes s) = [] \/
    exists peer, ts_phase s = Dispatching peer /\ readers (ts_muxes s) = [peer];
  tw_permits : match max_conns with
    | None => ts_permits s = None
    | Some n => exists k, ts_permits s = Some k /\ k + length (ts_muxes s) = n
    end;
  tw_served : match ts_phase s with Dispatching peer => last (ts_served s) = Some peer | _ => True end;
}.

Lemma readers_app l k : readers (l ++ k) = readers l ++ readers k.
Proof. unfold readers. by rewrite List.filter_app, map_app. Qed.

Lemma readers_cons p b l : readers ((p, b) :: l) = if b then p :: readers l else readers l.
Proof. by destruct b. Qed.

Lemma readers_elem peer muxes : (peer, true) ∈ muxes <-> peer ∈ readers muxes.
Proof.
  unfold readers. rewrite list_elem_of_In, list_elem_of_In, in_map_iff. split.
  - intros H. exists (peer, true). split; [done|]. by apply List.filter_In.
  - intros ([p b] & <- & Hin). apply List.filter_In in Hin as [Hin Hb]. cbn in *. by rewrite Hb in Hin.
Qed.

Lemma tcp_step_wf max_conns s s' : tcp_step s s' -> tcp_wf max_conns s -> tcp_wf max_conns s'.
Proof.
  intros Hstep [Hr Hp Hs]. destruct Hstep; cbn [ts_phase ts_permits ts_muxes ts_queue ts_streams ts_served] in *.
  - split; cbn; [|done|done]. destruct Hr as [Hr|(p & Hph & _)]; [by left|done].
  - assert (Hr0 : readers muxes = []) by (destruct Hr as [Hr|(p & Hph & _)]; [done|done]).
    split; cbn.
    + right. exists peer. split; [done|]. by rewrite readers_cons, Hr0.
    + destruct max_conns as [n|].
      * destruct Hp as (k & -> & Hk). destruct k as [|k]; [done|]. cbn in H. injection H as <-.
        exists k. split; [done|lia].
      * subst permits. by injection H as <-.
    + apply last_snoc.
  - by split.
  - by split.
  - split; cbn; [|by rewrite !length_app in *|done]. rewrite readers_app, readers_cons in *.
    destruct Hr as [Hr|(p & Hph & Hr)]; [by destruct (readers pre)|].
    left. destruct (readers pre) as [|x [|y l]]; cbn in *; [by injection Hr as _ ->|done|done].
  - split; cbn; [| |done].
    + rewrite !readers_app, readers_cons in *. exact Hr.
    + destruct max_conns as [n|]; [|by subst permits]. destruct Hp as (k & -> & Hk).
      exists (S k). split; [done|]. rewrite !length_app in *. simpl in *. lia.
  - split; cbn; [|done|done]. left. destruct Hr as [Hr|(p & [= <-] & Hr)]; [done|].
    destruct H. apply readers_elem. rewrite Hr. by left.
Qed.

Lemma tcp_reachable_wf max_conns s : rtc tcp_step (start_tcp max_conns) s -> tcp_wf max_conns s.
Proof.
  intros H. assert (H0 : tcp_wf max_conns (start_tcp max_conns)).
  { split; cbn; [by left| |done]. destruct max_conns as [n|]; [|done]. exists n. split; [done|lia]. }
  revert H H0. generalize (start_tcp max_conns). induction 1 as [|x y z Hxy _ IH]; [done|].
  intros Hx. by eapply IH, tcp_step_wf.
Qed.

(** C29: The TCP server serves one connection at a time: at every point of every
    schedule at most one connection is read, the one the accept loop is
    dispatching, and while the loop waits for a connection or for a permit none
    is.  So a limit of connections never has more than one to limit, and a limit
    of none serves nobody. *)
Theorem tcp_one_at_a_time max_conns s :
  rtc tcp_step (start_tcp max_conns) s ->
  (readers (ts_muxes s) = [] \/
     exists peer, ts_phase s = Dispatching peer /\ readers (ts_muxes s) = [peer] /\
       last (ts_served s) = Some peer) /\
  (forall n, max_conns = Some n -> exists k, ts_permits s = Some k /\ k + length (ts_muxes s) = n) /\
  (max_conns = Some 0 -> ts_served s = [] /\ ts_muxes s = []).
Proof.
  intros Hs. pose proof (tcp_reachable_wf _ _ Hs) as [Hr Hp Hl]. split_and!.
  - destruct Hr as [Hr|(peer & Hph & Hr)]; [by left|]. right. exists peer. rewrite Hph in Hl. done.
  - intros n ->. exact Hp.
  - intros ->. destruct Hp as (k & Hk & Hn). split; [|by destruct (ts_muxes s); [|simpl in Hn; lia]].
    assert (H : forall x y, rtc tcp_step x y -> tcp_wf (Some 0) x -> ts_served x = [] -> ts_served y = []).
    { induction 1 as [|x y z Hxy _ IH]; [done|]. intros Hx Hsx. apply IH; [by eapply tcp_step_wf|].
      destruct Hx as [_ Hp0 _].
      destruct Hxy as [| permits ? ? ? ? ? ? Ht | | | | | ]; cbn in *; try done.
      destruct Hp0 as (k0 & -> & Hk0). by assert (k0 = 0) as -> by lia. }
    apply (H _ _ Hs); [|done]. split; cbn; [by left| |done]. by exists 0.
Qed.

(** ** The streams of a connection *)
Section streams.
Context {ord : IterOrder N PathEntry}.
Variable now : N.
#[local] Open Scope proc_scope.
Abbreviation proc := (Proc.proc Shared Request route_reply bytes bytes).

(** What the task of one stream does when the peer of a connection sends the
    bytes [s]: nothing, when no frame names the stream. *)
Definition serve_mux_stream (fuel : nat) (s : bytes) (stream_id : N) : proc unit :=
  match mux_stream (dispatch_frames (read_mux_frames fuel s)) stream_id with
  | Some st => run_connection now fuel st
  | None => Ret tt
  end.

(** The loop of a connection to a Unix socket, which [serve] has a copy of its
    own of. *)
Fixpoint serve_unix_connection (fuel : nat) (s : bytes) : proc unit :=
  match fuel with
  | O => Ret tt
  | S fuel =>
      match socket_read_exact 7 s with
      | None => Ret tt
      | Some (header, s) =>
          match decode_header header with
          | None => Panic
          | Some (msg_type, tag, body_len) =>
              if N.ltb max_body body_len then Ret tt
              else if N.ltb 0 body_len then
                match socket_read_exact (N.to_nat body_len) s with
                | None => Ret tt
                | Some (body, s) => serve_message now (msg_type, tag, body) ;! serve_unix_connection fuel s
                end
              else serve_message now (msg_type, tag, []) ;! serve_unix_connection fuel s
          end
      end
  end.

(** The copy does what the shared loop does on the same bytes. *)
Lemma serve_unix_connection_eq fuel s : serve_unix_connection fuel s = run_connection now fuel s.
Proof.
  revert s. induction fuel as [|fuel IH]; intros s; [done|]. cbn [serve_unix_connection run_connection].
  cbn [read_exact socket_stream]. destruct (socket_read_exact 7 s) as [[header s1]|]; [|done].
  destruct (decode_header header) as [[[ty tag] len]|]; [|done]. destruct (N.ltb max_body len); [done|].
  destruct (N.ltb_spec 0 len) as [Hl|Hl].
  - destruct (socket_read_exact _ s1) as [[body s2]|]; [|done]. by rewrite IH.
  - assert (len = 0%N) as -> by lia. cbn. by rewrite IH.
Qed.

Lemma serve_mux_stream_eq fuel frames rest stream_id :
  Forall frame_ok frames -> length rest < 8 -> length (concat (map encode_frame frames)) < fuel ->
  serve_mux_stream fuel (concat (map encode_frame frames) ++ rest) stream_id =
  serve_messages now (parse_messages fuel (concat (stream_payloads stream_id frames))).
Proof.
  intros Hf Hr Hl. unfold serve_mux_stream. rewrite mux_delivers by done.
  destruct fuel as [|fuel]; [lia|].
  destruct (stream_payloads stream_id frames) as [|p ps]; [done|]. by rewrite run_connection_parse.
Qed.

Lemma length_stream_payloads stream_id frames :
  length (concat (stream_payloads stream_id frames)) <= length (concat (map encode_frame frames)).
Proof.
  unfold stream_payloads. induction frames as [|f frames IH]; [done|]. cbn [List.filter map concat].
  rewrite length_app, length_encode_frame. destruct (N.eqb _ _); cbn [map concat]; rewrite ?length_app; lia.
Qed.

(** C23: However the peer of a TCP or TLS connection spreads its requests over
    streams and cuts them into frames, the task of each stream answers exactly
    the requests sent on that stream, each once and in order, whatever the router
    answers and the other tasks do; a torn frame or request at the end is
    ignored, and only a truncated Tversion or Twalk ends a stream early. *)
Theorem mux_stream_answers fuel frames rest rest' stream_id msgs ms o :
  Forall frame_ok frames -> length rest < 8 ->
  length (concat (map encode_frame frames)) < fuel ->
  concat (stream_payloads stream_id frames) = concat (map encode_message msgs) ++ rest' ->
  Forall message_ok msgs -> length rest' < 7 ->
  may (serve_mux_stream fuel (concat (map encode_frame frames) ++ rest) stream_id) ms o ->
  answered msgs ms o.
Proof.
  intros Hf Hr Hl Hp Hm Hr'. pose proof (length_stream_payloads stream_id frames) as Hlen.
  rewrite serve_mux_stream_eq by done. rewrite Hp in *. rewrite length_app in Hlen.
  destruct fuel as [|fuel]; [lia|]. rewrite parse_messages_encode by (done || lia).
  apply wp_sound, serve_messages_wp.
Qed.

(** The requests on a Unix socket are answered in the same way. *)
Theorem unix_socket_answers fuel s rest msgs ms o :
  s = concat (map encode_message msgs) ++ rest -> Forall message_ok msgs -> length rest < 7 ->
  length s < fuel -> may (serve_unix_connection fuel s) ms o -> answered msgs ms o.
Proof.
  intros -> Hm Hr Hl. rewrite serve_unix_connection_eq, run_connection_parse. rewrite length_app in Hl.
  destruct fuel as [|fuel]; [lia|]. change (pending ?x) with x. rewrite parse_messages_encode by (done || lia).
  apply wp_sound, serve_messages_wp.
Qed.
End streams.

(** * TLS and Unix sockets *)

(** ** The certificate and the key *)
Section tls.
Context {Cert Key TlsConfig : Type}.
(** Opening a file, the PEM reader and the constructor of [rustls]. *)
Variable open_file : bytes -> result bytes bytes.
Variable certs : bytes -> list (result Cert bytes).
Variable private_key : bytes -> result (option Key) bytes.
Variable with_single_cert : list Cert -> Key -> result TlsConfig bytes.

Definition open_pem (what path : bytes) : result bytes bytes :=
  result_map_err (fun e => what ++ str " " ++ path ++ str ": " ++ e) (open_file path).

Definition tls_config (cert_path key_path : bytes) : result TlsConfig bytes :=
  result_bind (open_pem (str "cert") cert_path) (fun cert_file =>
  result_bind (open_pem (str "key") key_path) (fun key_file =>
  result_bind (match private_key key_file with
               | Ok (Some k) => Ok k
               | _ => Err (str "no private key found")
               end) (fun priv_key =>
  with_single_cert (omap result_ok (certs cert_file)) priv_key))).

(** The server starts when both files open, the second holds a key, and the
    certificates of the first that can be read make a configuration with it;
    certificates that cannot be read are skipped. *)
Theorem tls_config_ok cert_path key_path cfg :
  tls_config cert_path key_path = Ok cfg <->
  exists cert_file key_file k,
    open_file cert_path = Ok cert_file /\ open_file key_path = Ok key_file /\
    private_key key_file = Ok (Some k) /\
    with_single_cert (omap result_ok (certs cert_file)) k = Ok cfg.
Proof.
  unfold tls_config, open_pem. split; [|by intros (cf & kf & k & -> & -> & Hk & Hc); cbn; rewrite Hk].
  destruct (open_file cert_path) as [cf|]; [|done]. destruct (open_file key_path) as [kf|]; [|done].
  cbn. destruct (private_key kf) as [[k|]|] eqn:Hk; [|done|done]. intros Hc. by exists cf, kf, k.
Qed.
End tls.

(** ** Connections *)

(** Every accepted connection gets a task of its own: a TLS handshake (not on a
    Unix socket), then the connection. *)
Inductive task_state := Handshake | Serving | Closed.
Record TaskServer := mkTaskServer { ks_tasks : list (N * task_state) }.

Inductive task_step : TaskServer -> TaskServer -> Prop :=
| task_accept tasks peer :
    task_step (mkTaskServer tasks) (mkTaskServer (tasks ++ [(peer, Handshake)]))
| task_handshake pre post peer (ok : bool) :
    task_step (mkTaskServer (pre ++ (peer, Handshake) :: post))
      (mkTaskServer (pre ++ (peer, if ok then Serving else Closed) :: post))
| task_ends pre post peer :
    task_step (mkTaskServer (pre ++ (peer, Serving) :: post)) (mkTaskServer (pre ++ (peer, Closed) :: post)).

(** The TLS server, in contrast, accepts whatever its connections do, and
    serves any number of them at the same time. *)
Theorem tls_serves_together tasks peers :
  rtc task_step (mkTaskServer tasks) (mkTaskServer (tasks ++ map (fun p => (p, Serving)) peers)).
Proof.
  revert tasks. induction peers as [|peer peers IH]; intros tasks; [by rewrite app_nil_r|].
  eapply rtc_l; [apply (task_accept tasks peer)|]. eapply rtc_l; [apply (task_handshake tasks [] peer true)|].
  specialize (IH (tasks ++ [(peer, Serving)])). rewrite <-app_assoc in IH. exact IH.
Qed.

(** * The theorems at concrete runs *)
Module ServeExample.
(** A Tflush with tag 7, and a Twalk that is too short. *)
Definition flush : bytes := send_reply TFLUSH 7 [].
Definition short_walk : bytes := send_reply TWALK 1 (replicate 9 (chr 0)).
Definition datagrams : list (N * bytes) := [(1%N, flush); (2%N, short_walk); (3%N, flush)].
End ServeExample.

Module StreamExample.
(** A Tflush on stream 1, cut in two, with a frame of stream 2 between. *)
Definition flush : N * N * bytes := (TFLUSH, 7%N, []).
Definition frames : list (N * bytes) :=
  [(1%N, take 3 (encode_message flush)); (2%N, str "x"); (1%N, drop 3 (encode_message flush))].
End StreamExample.

Lemma mux_stream_answers_witness :
  answered [StreamExample.flush] [send_reply RFLUSH 7 []] (ORet tt).
Proof.
  apply (mux_stream_answers (ord := default_order) 0 100 StreamExample.frames (str "torn") [] 1).
  - repeat constructor.
  - simpl. lia.
  - simpl. lia.
  - reflexivity.
  - repeat constructor. vm_compute. discriminate.
  - simpl. lia.
  - vm_compute. repeat constructor.
Defined.

Lemma udp_server_answers_witness :
  served (ord := default_order) 0 ServeExample.datagrams [(1%N, send_reply RFLUSH 7 [])] OPanic.
Proof.
  apply (udp_server_answers (ord := default_order) 0). vm_compute. repeat constructor.
Defined.

Lemma tcp_one_at_a_time_witness :
  let s := mkTcpServer (Acquiring 5) (Some 0) [] [] ∅ [] in
  rtc tcp_step (start_tcp (Some 0)) s /\ ts_served s = [].
Proof.
  intros s. assert (H : rtc tcp_step (start_tcp (Some 0)) s) by (apply rtc_once, tcp_accept).
  split; [exact H|]. apply (proj2 (proj2 (tcp_one_at_a_time (Some 0) s H)) eq_refl).
Defined.
