(* ===== verification/NinepClient.v ===== *)
(** The blocking 9P client of [src/src/frontend/ninep_client.rs], which Lua
    handlers use, and its composition with the server of [Ninep].

    A client operation is a [Proc.proc]: its state is the client's and the
    bytes it has not read from the connection yet; a [Call] writes a message
    and returns what the peer sends in answer, or the error of the write. *)
From S2P Require Import Prelude RustStr Proc Wire Router Ninep NinepReplies NinepInv NinepSpec NinepConn.
#[local] Open Scope proc_scope.

(** * Addresses *)
Inductive target := Unix (path : bytes) | Tcp (host : bytes).

Definition parse_addr (addr : bytes) : target :=
  match strip_prefix (str "sock:") addr with
  | Some path => Unix path
  | None =>
      match strip_prefix (str "tcp:") addr with
      | Some host => Tcp host
      | None => Unix addr
      end
  end.

(** * The client *)
Record Client := mkClient {
  cl_input : bytes;     (** what was received and not read yet *)
  cl_msize : N;
  cl_next_fid : N;
}.

Definition nl : bytes := [chr 10].
Definition NOFID : N := 0xFFFFFFFF.

Module Client.
Abbreviation proc := (proc Client bytes (result bytes bytes) Empty_set bytes).

Definition with_input (f : bytes -> bytes) (c : Client) : Client :=
  mkClient (f (cl_input c)) (cl_msize c) (cl_next_fid c).
Definition with_msize (m : N) (c : Client) : Client :=
  mkClient (cl_input c) m (cl_next_fid c).
Definition with_next_fid (n : N) (c : Client) : Client :=
  mkClient (cl_input c) (cl_msize c) n.

(** [conn.read_exact(buf).map_err(..)]: the connection is at its end when it
    does not hold enough. *)
Definition read_exact (what : bytes) (n : nat) : proc bytes :=
  (let! r := modify (fun c =>
     if Nat.leb n (length (cl_input c))
     then (Some (take n (cl_input c)), with_input (drop n) c)
     else (None, with_input (fun _ => []) c)) in
   ok_or r (what ++ str ": failed to fill whole buffer")).

(** ** Message exchange *)
Definition send_recv (msg_type : N) (body : bytes) : proc bytes :=
  (let size := u32_wrap (7 + u32_wrap (lenN body)) in
   let! r := call (u32_le size ++ [chr msg_type] ++ u16_le 0 ++ body) in
   let! input := match r with Ok input => Ret input | Err e => Fail (str "write: " ++ e) end in
   update (with_input (fun pending => pending ++ input)) ;!
   let! header := read_exact (str "read header") 7 in
   let! rsize := unwrap (get_u32 0 header) in
   let! rtype := unwrap (get_u8 4 header) in
   let body_len := N.to_nat (rsize - 7) in
   let! resp := if Nat.ltb 0 body_len then read_exact (str "read body") body_len else Ret [] in
   if N.eqb rtype RERROR then
     let! err_len := unwrap (get_u16 0 resp) in
     let! raw := unwrap (get_slice 2 (2 + N.to_nat err_len) resp) in
     Fail (str "9p error: " ++ from_utf8_lossy raw)
   else Ret resp).

(** ** Operations of the protocol *)
Definition version : proc unit :=
  (let! m := get cl_msize in
   let! resp := send_recv TVERSION (u32_le m ++ u16_le 6 ++ str "9P2000") in
   let! m := unwrap (get_u32 0 resp) in
   update (with_msize (N.min m 65536))).

Definition attach : proc unit :=
  (let! _ := send_recv TATTACH (u32_le 1 ++ u32_le NOFID ++ u16_le 0 ++ u16_le 0) in Ret tt).

Definition components (path : bytes) : list bytes :=
  List.filter (fun s => negb (is_empty s)) (split_on "/" (trim_matches "/" path)).

Definition walk (fid new_fid : N) (path : bytes) : proc unit :=
  (let comps := components path in
   let! resp := send_recv TWALK
     (u32_le fid ++ u32_le new_fid ++ u16_le (lenN comps) ++
      concat (map (fun comp => u16_le (lenN comp) ++ comp) comps)) in
   let! nwqid := unwrap (get_u16 0 resp) in
   fail_if (negb (N.eqb nwqid (lenN comps)))
     (str "walk failed: reached " ++ dec nwqid ++ str "/" ++ dec (lenN comps) ++ str " components")).

Definition open (fid mode : N) : proc unit :=
  (let! _ := send_recv TOPEN (u32_le fid ++ [chr mode]) in Ret tt).

Definition create (fid : N) (name : bytes) (perm mode : N) : proc unit :=
  (let! _ := send_recv TCREATE
     (u32_le fid ++ u16_le (lenN name) ++ name ++ u32_le perm ++ [chr mode]) in Ret tt).

Definition clunk (fid : N) : proc unit :=
  (let! _ := send_recv TCLUNK (u32_le fid) in Ret tt).

Definition remove_fid (fid : N) : proc unit :=
  (let! _ := send_recv TREMOVE (u32_le fid) in Ret tt).

Definition alloc_fid : proc N :=
  modify (fun c => (cl_next_fid c, with_next_fid (u32_wrap (cl_next_fid c + 1)) c)).

(** [let _ = self.clunk(fid)] *)
Definition try_clunk (fid : N) : proc unit := catch (clunk fid) (fun _ => Ret tt).

(** [connect], on a connection that is open. *)
Definition connect : proc unit :=
  (version ;! attach ;! update (with_next_fid 4)).

(** ** Public operations *)

(** The loop that reads a file or directory to its end. *)
Fixpoint read_loop (fuel : nat) (fid offset : N) (acc : bytes) : proc (option bytes) :=
  match fuel with
  | O => Ret None
  | S fuel =>
      let! m := get cl_msize in
      let! resp := send_recv TREAD (u32_le fid ++ u64_le offset ++ u32_le m) in
      let! data_len := unwrap (get_u32 0 resp) in
      if N.eqb data_len 0 then Ret (Some acc)
      else
        let! data := unwrap (get_slice 4 (4 + N.to_nat data_len) resp) in
        read_loop fuel fid (u64_wrap (offset + data_len)) (acc ++ data)
  end.

(** [None] when the fuel runs out before the file ends. *)
Definition read_file (fuel : nat) (path : bytes) : proc (option bytes) :=
  (let! fid := alloc_fid in
   walk 1 fid path ;! open fid 0 ;!
   let! r := read_loop fuel fid 0 [] in
   match r with
   | None => Ret None
   | Some raw => try_clunk fid ;! Ret (Some (from_utf8_lossy raw))
   end).

(** The loop [while offset < data.len()]; [false] when the fuel runs out. *)
Fixpoint write_loop (fuel : nat) (fid offset : N) (data : bytes) : proc bool :=
  if N.ltb offset (lenN data) then
    match fuel with
    | O => Ret false
    | S fuel =>
        let! m := get cl_msize in
        let chunk_len := N.min (lenN data - offset) (u64_sub m 24) in
        let! chunk := unwrap (get_slice (N.to_nat offset) (N.to_nat (offset + chunk_len)) data) in
        let! _ := send_recv TWRITE (u32_le fid ++ u64_le offset ++ u32_le chunk_len ++ chunk) in
        write_loop fuel fid (offset + chunk_len) data
    end
  else Ret true.

Definition write_file (fuel : nat) (path data : bytes) : proc (option bytes) :=
  (let! fid := alloc_fid in
   walk 1 fid path ;! open fid 1 ;!
   let! ok := write_loop fuel fid 0 data in
   if ok then try_clunk fid ;! Ret (Some []) else Ret None).

(** The text [stat] makes of a record; [None] where an index is out of range. *)
Definition format_stat (stat_data : bytes) : option bytes :=
  qid_path ← get_u64 (6 + 5) stat_data;
  length ← get_u64 (6 + 13 + 4 + 8) stat_data;
  name_len ← get_u16 (6 + 13 + 4 + 8 + 8) stat_data;
  raw ← get_slice 41 (41 + N.to_nat name_len) stat_data;
  Some (from_utf8_lossy raw ++ nl ++ str "  qid path: " ++ dec qid_path ++ nl ++ str "  length: " ++ dec length ++ nl).

Definition stat (path : bytes) : proc bytes :=
  (let! fid := alloc_fid in
   walk 1 fid path ;!
   let! resp := send_recv TSTAT (u32_le fid) in
   let! stat_len := unwrap (get_u16 0 resp) in
   let! stat_data := unwrap (get_slice 2 (2 + N.to_nat stat_len) resp) in
   let! out := unwrap (format_stat stat_data) in
   try_clunk fid ;! Ret out).

(** The line of one directory entry. *)
Definition ls_line (long : bool) (qid_type mode : N) (name : bytes) : bytes :=
  if long
  then (if negb (N.eqb (N.land mode DMDIR) 0) then str "d" else str "-") ++ str "-------  " ++
       name ++ nl
  else name ++ (if negb (N.eqb (N.land qid_type 0x80) 0) then str "/" else []) ++ nl.

(** The loop over the directory data, [off] being the offset reached; [None]
    where an index is out of range.  Every entry advances by at least one
    byte. *)
Fixpoint format_ls (fuel : nat) (long : bool) (raw : bytes) (off : nat) (out : bytes) : option bytes :=
  match fuel with
  | O => Some out
  | S fuel =>
      if Nat.ltb off (length raw) then
        entry_size ← get_u16 off raw;
        let entry_size := N.to_nat entry_size in
        if Nat.eqb entry_size 0 || Nat.ltb (length raw) (off + entry_size) then Some out
        else
          let data_start := off + 6 in
          qid_type ← get_u8 data_start raw;
          mode ← get_u32 (data_start + 13) raw;
          name_len ← get_u16 (data_start + 33) raw;
          name ← get_slice (data_start + 35) (data_start + 35 + N.to_nat name_len) raw;
          format_ls fuel long raw (off + entry_size)
            (out ++ ls_line long qid_type mode (from_utf8_lossy name))
      else Some out
  end.

Definition ls (fuel : nat) (path : bytes) (long : bool) : proc (option bytes) :=
  (let dir_path := trim_end_matches "/" path in
   let dir_path := if is_empty dir_path then str "/" else dir_path in
   let! fid := alloc_fid in
   walk 1 fid dir_path ;! open fid 0 ;!
   let! r := read_loop fuel fid 0 [] in
   match r with
   | None => Ret None
   | Some raw =>
       try_clunk fid ;!
       let! out := unwrap (format_ls (length raw) long raw 0 []) in
       Ret (Some out)
   end).

Definition split_parent_name (path : bytes) : bytes * bytes :=
  let trimmed := trim_end_matches "/" path in
  match rsplit_once "/" trimmed with
  | Some (parent, name) => (if is_empty parent then str "/" else parent, name)
  | None => (str "/", trimmed)
  end.

Definition mkdir (path : bytes) : proc bytes :=
  (let '(parent, name) := split_parent_name path in
   let! pfid := alloc_fid in
   walk 1 pfid parent ;!
   create pfid name (N.lor DMDIR 0x1ed) 0 ;!
   try_clunk pfid ;! Ret []).

Definition create_file (path : bytes) : proc bytes :=
  (let '(parent, name) := split_parent_name path in
   let! pfid := alloc_fid in
   walk 1 pfid parent ;!
   create pfid name 0x1a4 1 ;!
   try_clunk pfid ;! Ret []).

Definition remove (path : bytes) : proc bytes :=
  (let! fid := alloc_fid in
   walk 1 fid path ;!
   remove_fid fid ;! Ret []).
End Client.

(** * Lemmas: text *)

(** The records the server sends are misread by the client: [stat] takes
    the record's fields two bytes early, so for every entry it prints an empty
    name, the qid path multiplied by 65536, and a length mixed with the
    modification time. *)
Theorem format_stat_misreads now name qid len d :
  (now < 2 ^ 32)%N -> (len < 2 ^ 48)%N -> qid_version qid = 0%N -> (qid_path qid < 2 ^ 48)%N ->
  Client.format_stat (encode_stat now name qid len d) =
  Some (nl ++ str "  qid path: " ++ dec (qid_path qid * 65536) ++ nl ++
        str "  length: " ++ dec (now / 65536 + len * 65536) ++ nl).
Proof.
  intros Hnow Hlen Hv Hq. set (record := encode_stat now name qid len d).
  set (pre1 := u16_le (lenN (stat_body now name qid len d)) ++ u16_le 0 ++ u32_le 0 ++
    [chr (qid_ty qid)]).
  set (tail := u16_le (lenN name) ++ name ++ u16_le 2 ++ str "0" ++ u16_le 2 ++ str "0" ++
    u16_le 2 ++ str "0").
  set (mode := u32_le (if d then 0x800001ed else 0x1ed)%N).
  assert (H1 : get_u64 11 record = Some (qid_path qid * 65536)%N).
  { destruct (get_u64_straddle 11 pre1 0 (qid_path qid)
      (mode ++ u32_le now ++ u32_le now ++ u64_le len ++ tail)) as [H _]; [done..|].
    rewrite N.add_0_l in H. rewrite <-H. f_equal. unfold record, encode_stat, stat_body, encode_qid, pre1.
    rewrite Hv, <-!app_assoc. done. }
  destruct (get_u64_straddle 31 (pre1 ++ u32_le 0 ++ u64_le (qid_path qid) ++ mode ++ u32_le now)
    now len tail) as [H2 H3]; [done..|].
  assert (Hr : record = (pre1 ++ u32_le 0 ++ u64_le (qid_path qid) ++ mode ++ u32_le now) ++
                        le_bytes 4 now ++ le_bytes 8 len ++ tail).
  { unfold record, encode_stat, stat_body, encode_qid, pre1. rewrite Hv, <-!app_assoc. done. }
  rewrite <-Hr in H2, H3.
  unfold Client.format_stat. change (6 + 5) with 11. change (6 + 13 + 4 + 8) with 31.
  rewrite H1, H2, H3. cbn [mbind option_bind].
  rewrite get_slice_Some; [done|simpl; lia|].
  unfold record, encode_stat. rewrite length_app, length_u16_le, length_stat_body. simpl. lia.
Qed.

(** The first entry of a directory read at offset 0 is that of the directory. *)
Lemma ls_first_entry now rest :
  let raw := encode_stat now (str ".") (mkQid 0x80 0 0) 0 true ++ rest in
  get_u16 0 raw = Some 51%N /\ get_u8 6 raw = Some 0%N /\ get_u32 19 raw = Some (0x1ed * 65536)%N /\
  get_u16 39 raw = Some 0%N /\ get_slice 41 41 raw = Some [] /\ get_u16 51 raw = Some 12288%N.
Proof. split_and!; reflexivity. Qed.

Lemma format_ls_step fuel long raw off out :
  Client.format_ls (S fuel) long raw off out =
  if Nat.ltb off (length raw) then
    entry_size ← get_u16 off raw;
    if Nat.eqb (N.to_nat entry_size) 0 || Nat.ltb (length raw) (off + N.to_nat entry_size)
    then Some out
    else
      qid_type ← get_u8 (off + 6) raw;
      mode ← get_u32 (off + 6 + 13) raw;
      name_len ← get_u16 (off + 6 + 33) raw;
      name ← get_slice (off + 6 + 35) (off + 6 + 35 + N.to_nat name_len) raw;
      Client.format_ls fuel long raw (off + N.to_nat entry_size)
        (out ++ Client.ls_line long qid_type mode (from_utf8_lossy name))
  else Some out.
Proof. reflexivity. Qed.

(** The loop on data whose first entry is that of the directory. *)
Lemma format_ls_first fuel long raw :
  get_u16 0 raw = Some 51%N -> get_u8 6 raw = Some 0%N -> get_u32 19 raw = Some (0x1ed * 65536)%N ->
  get_u16 39 raw = Some 0%N -> get_slice 41 41 raw = Some [] -> get_u16 51 raw = Some 12288%N ->
  53 <= length raw -> (lenN raw < 12339)%N ->
  Client.format_ls (S (S fuel)) long raw 0 [] = Some ((if long then str "--------  " else []) ++ nl).
Proof.
  intros H1 H2 H3 H4 H5 H6 Hmin Hmax. unfold lenN in Hmax.
  rewrite format_ls_step, (proj2 (Nat.ltb_lt _ _)) by lia.
  rewrite H1. cbn [mbind option_bind]. change (N.to_nat 51) with 51.
  rewrite (proj2 (Nat.ltb_ge (length raw) (0 + 51))) by lia. cbn [Nat.eqb orb].
  change (0 + 6 + 13) with 19. change (0 + 6 + 33) with 39. change (0 + 6 + 35) with 41.
  change (0 + 6) with 6. change (0 + 51) with 51.
  rewrite H2, H3, H4. cbn [mbind option_bind].
  change (41 + N.to_nat 0) with 41. rewrite H5. cbn [mbind option_bind].
  rewrite format_ls_step, (proj2 (Nat.ltb_lt 51 _)) by lia.
  rewrite H6. cbn [mbind option_bind].
  rewrite (proj2 (Nat.ltb_lt (length raw) (51 + N.to_nat 12288))) by lia.
  rewrite orb_true_r. by destruct long.
Qed.

(** [ls] does not list directories: on what the server answers for any
    directory whose listing is shorter than 12339 bytes, whatever its entries,
    it prints one line with an empty name and stops. *)
Theorem format_ls_misreads {ord : IterOrder N PathEntry} now dir s long :
  let raw := list_dir now dir 0 s in
  (lenN raw < 12339)%N ->
  Client.format_ls (length raw) long raw 0 [] = Some ((if long then str "--------  " else []) ++ nl).
Proof.
  intros raw Hlen. assert (Hmin : 53 <= length raw).
  { unfold raw, list_dir. cbn [N.eqb]. rewrite length_app.
    change (length (encode_stat _ _ _ _ _)) with 53. lia. }
  replace (length raw) with (S (S (length raw - 2))) at 1 by lia.
  destruct (ls_first_entry now (concat (map (dir_entry now dir
    (if ends_with "/" dir then dir else dir ++ str "/")) (iter_order (paths s)))))
    as (H1 & H2 & H3 & H4 & H5 & H6).
  by apply format_ls_first.
Qed.

(** * Lemmas: paths *)
Definition plain_name (name : bytes) : Prop := name <> [] /\ contains_char "/" name = false.

Lemma components_plain path : Forall plain_name (Client.components path).
Proof.
  apply Forall_forall. intros name Hin%list_elem_of_In%filter_In.
  destruct Hin as [Hin Hne]. split; [by destruct name|].
  by eapply split_on_no_sep, list_elem_of_In.
Qed.

Lemma plain_no_slash_end dir name : plain_name name -> ends_with "/" (dir ++ name) = false.
Proof.
  intros [Hne Hns]. destruct (ends_with "/" (dir ++ name)) eqn:E; [|done].
  apply ends_with_spec in E as [t Ht]. destruct (exists_last Hne) as (name' & b & ->).
  rewrite app_assoc in Ht. apply app_inj_tail in Ht as [_ ->].
  exfalso. assert (Hin : contains_char "/" (name' ++ ["/"%char]) = true).
  { apply contains_char_spec, elem_of_app. right. by left. }
  congruence.
Qed.

Lemma walk_path_app dir names :
  ends_with "/" dir = false -> Forall plain_name names ->
  walk_path dir names = dir ++ concat (map (fun n => str "/" ++ n) names).
Proof.
  intros Hd Hn. revert dir Hd. induction Hn as [|name names Hname Hn IH]; intros dir Hd.
  { simpl. by rewrite app_nil_r. }
  cbn [walk_path fold_left map concat]. unfold child_path at 2. rewrite Hd.
  fold (walk_path (dir ++ str "/" ++ name) names). rewrite IH.
  - by rewrite <-!app_assoc.
  - rewrite app_assoc. by apply plain_no_slash_end.
Qed.

Lemma join_concat n names :
  join (str "/") (n :: names) = n ++ concat (map (fun n => str "/" ++ n) names).
Proof.
  revert n. induction names as [|m names IH]; intros n; [simpl; by rewrite app_nil_r|].
  rewrite join_cons by done. rewrite IH. cbn [map concat]. by rewrite <-!app_assoc.
Qed.

(** Walking from the root along plain names gives the path they spell. *)
Lemma walk_path_root names :
  names <> [] -> Forall plain_name names -> walk_path (str "/") names = str "/" ++ join (str "/") names.
Proof.
  intros Hne Hn. destruct Hn as [|n names Hname Hn]; [done|].
  cbn [walk_path fold_left]. change (child_path (str "/") n) with (str "/" ++ n).
  fold (walk_path (str "/" ++ n) names). rewrite walk_path_app; [|by apply plain_no_slash_end|done].
  rewrite join_concat. by rewrite <-app_assoc.
Qed.

(** * Exchanges *)
Lemma read_exact_run {W} (io : W -> bytes -> W * result bytes bytes) what n w c pre rest :
  cl_input c = pre ++ rest -> length pre = n ->
  run io (Client.read_exact what n) w c =
  (ORet pre, w, Client.with_input (fun _ => rest) c, []).
Proof.
  intros Hc Hn. unfold Client.read_exact. cbn. rewrite Hc, length_app.
  rewrite (proj2 (Nat.leb_le _ _)) by lia. rewrite <-Hn at 1. rewrite take_app_length. cbn.
  unfold Client.with_input. rewrite Hc. subst n. by rewrite drop_app_length.
Qed.

(** The message [send_recv] writes. *)
Definition request_message (ty : N) (body : bytes) : bytes :=
  u32_le (u32_wrap (7 + u32_wrap (lenN body))) ++ [chr ty] ++ u16_le 0 ++ body.

(** A message that is answered, and not with an error: the client gets the body of
    the reply. *)
Lemma send_recv_reply {W} (io : W -> bytes -> W * result bytes bytes) ty body rty payload w w' c :
  cl_input c = [] -> (rty < 256)%N -> rty <> RERROR -> (7 + lenN payload < 2 ^ 32)%N ->
  io w (request_message ty body) = (w', Ok (send_reply rty 0 payload)) ->
  run io (Client.send_recv ty body) w c = (ORet payload, w', c, []).
Proof.
  intros Hc Hty Hne Hpl Hio. unfold Client.send_recv. cbn [call bind run].
  fold (request_message ty body). rewrite Hio.
  set (header := u32_le (7 + lenN payload) ++ [chr rty] ++ u16_le 0).
  change (send_reply rty 0 payload) with (header ++ payload).
  cbn [bind update run]. rewrite run_bind.
  set (c1 := Client.with_input _ c).
  rewrite (read_exact_run io _ 7 w' c1 header payload) by (simpl; by rewrite ?Hc).
  pose proof (decode_send_reply rty 0 payload) as Hd.
  change (take 7 (send_reply rty 0 payload)) with header in Hd.
  specialize (Hd ltac:(lia) ltac:(lia) Hpl). unfold decode_header in Hd.
  destruct (get_u32 0 header) as [size|]; [|by discriminate Hd].
  destruct (get_u8 4 header) as [rtype|]; [|by discriminate Hd].
  destruct (get_u16 5 header) as [tag|]; [|by discriminate Hd].
  injection Hd as -> _ Hs. cbn [unwrap bind].
  rewrite Hs, lenN_nat, (proj2 (N.eqb_neq rty RERROR)) by done.
  set (c2 := Client.with_input _ c1).
  destruct (Nat.ltb_spec 0 (length payload)) as [Hpos|Hz].
  - rewrite run_bind, (read_exact_run io _ (length payload) w' c2 payload [])
      by (simpl; by rewrite ?app_nil_r).
    cbn. do 3 f_equal. unfold c2, c1, Client.with_input. simpl. rewrite <-Hc. by destruct c.
  - destruct payload; [|simpl in Hz; lia]. cbn. do 3 f_equal.
    unfold c2, c1, Client.with_input. simpl. rewrite <-Hc. by destruct c.
Qed.

(** * Composition with the server *)
Section composition.
Context {ord : IterOrder N PathEntry}.
Variable now : N.
Context {W : Type} (backend : W -> Request -> W * route_reply).

(** A connection to the server: it takes the bytes the client writes and
    answers with what [run_connection] sends. *)
Definition conn (st : W * Shared) (msg : bytes) : (W * Shared) * result bytes bytes :=
  let '(b, s) := st in
  let '(_, b', s', replies) := run backend (run_connection now (S (length msg)) msg) b s in
  ((b', s'), Ok (concat replies)).

Lemma conn_message m b s :
  message_ok m ->
  conn (b, s) (encode_message m) =
  (let '(_, b', s', replies) := run backend (serve_message now m) b s in
   ((b', s'), Ok (concat replies))).
Proof.
  intros Hm. unfold conn. rewrite run_connection_parse. simpl pending.
  pose proof (parse_messages_encode (length (encode_message m)) [m] []) as Hp.
  cbn [map concat] in Hp. rewrite !app_nil_r in Hp. rewrite Hp; [|by constructor|simpl; lia|done].
  cbn [serve_messages]. rewrite run_bind.
  destruct (run backend (serve_message now m) b s) as [[[[[]|e|] b'] s'] ms]; [|done..].
  simpl. by rewrite app_nil_r.
Qed.

(** A message the server answers: the client gets the body of the reply. *)
Lemma send_recv_ok ty body payload b s b' s' c :
  cl_input c = [] -> (ty + 1 < 256)%N -> ty <> 106%N -> (lenN body <= max_body)%N ->
  (7 + lenN payload < 2 ^ 32)%N ->
  run backend (handle_message now ty 0 body) b s = (ORet tt, b', s', [send_reply (ty + 1) 0 payload]) ->
  run conn (Client.send_recv ty body) (b, s) c = (ORet payload, (b', s'), c, []).
Proof.
  intros Hc Hty Hne Hbody Hpl Hrun. apply (send_recv_reply conn ty body (ty + 1)); [done|done| |done|].
  { unfold RERROR. lia. }
  assert (Hmsg : request_message ty body = encode_message (ty, 0%N, body)).
  { unfold request_message, encode_message, send_reply. unfold max_body in Hbody. unfold u32_wrap.
    rewrite (wrap_small 32 (lenN body)) by lia. rewrite wrap_small by lia. done. }
  rewrite Hmsg, conn_message by (split_and!; [lia|lia|done]).
  unfold serve_message. rewrite run_catch, Hrun. cbn [concat]. by rewrite app_nil_r.
Qed.

(** ** The operations, one exchange each *)
Ltac exchange payload :=
  eapply (send_recv_ok _ _ payload); [done|done|done|done|simpl; lia|].

(** [connect] negotiates the message size and attaches fid 1 to the root. *)
Definition connected (s : Shared) : Shared := set_fid 1 0 (str "/") true (with_msize 65536 s).

Lemma connect_run b s :
  run conn Client.connect (b, s) (mkClient [] 65536 1) =
  (ORet tt, (b, connected s), mkClient [] 65536 4, []).
Proof.
  unfold Client.connect, Client.version. rewrite run_bind.
  cbn [get bind run]. unfold id. rewrite run_bind.
  rewrite (send_recv_ok TVERSION _ (u32_le 65536 ++ u16_le 6 ++ str "9P2000") b s
    b (with_msize 65536 s)) by done.
  cbn [bind run]. change (get_u32 0 _) with (Some 65536%N). cbn [unwrap bind update run].
  unfold Client.attach. rewrite run_bind, run_bind.
  rewrite (send_recv_ok TATTACH _ (encode_qid (mkQid 0x80 0 0)) b (with_msize 65536 s)
    b (connected s)) by done.
  done.
Qed.

(** The paths a client may walk to: some names, each valid UTF-8 and short
    enough for its length field, fitting in one message. *)
Record walkable (path : bytes) : Prop := {
  wa_names : Client.components path <> [];
  wa_ok : Forall name_ok (Client.components path);
  wa_fits : (10 + lenN (concat (map walk_name (Client.components path))) <= max_body)%N;
}.

Lemma length_walk_names names : 2 * length names <= length (concat (map walk_name names)).
Proof.
  induction names as [|n names IH]; [done|]. cbn [map concat length].
  unfold walk_name at 1. rewrite !length_app, length_u16_le. lia.
Qed.

Lemma walk_run fid path root s b b' resp c :
  walkable path -> cl_input c = [] -> qid_bijection s -> fids s !! 1%N = Some root ->
  (fid < 2 ^ 32)%N -> (next_qid s + max_body < 2 ^ 64)%N ->
  backend b (mkRequest Lookup (walk_path (fe_path root) (Client.components path)) []) =
    (b', Replied (Ok resp)) ->
  exists entry s',
    run conn (Client.walk 1 fid path) (b, s) c = (ORet tt, (b', s'), c, []) /\
    fids s' = <[fid := entry]> (fids s) /\
    fe_path entry = walk_path (fe_path root) (Client.components path) /\
    qid_bijection s' /\
    (forall name, last (Client.components path) = Some name -> fe_is_dir entry = special_name name).
Proof.
  intros [Hne Hok Hfits] Hc Hb Hroot Hfid Hu Hback.
  set (names := Client.components path) in *.
  pose proof (length_walk_names names) as Hl. unfold lenN, max_body in *.
  destruct (handle_walk_ok backend 0 1 fid names root s b b' resp)
    as (qs & entry & s' & Hrun & Hlq & _ & Hf & Hp & _ & _ & _ & Hb' & Hd);
    [done..|unfold lenN; lia|done|unfold lenN; lia|done|].
  exists entry, s'. split_and!; try done. unfold Client.walk. fold names. rewrite run_bind.
  match goal with |- context [Client.send_recv TWALK ?body] =>
    change body with (walk_body 1 fid names) end.
  rewrite (send_recv_ok TWALK (walk_body 1 fid names) (u16_le (lenN names) ++ concat (map encode_qid qs))
    b s b' s' c Hc); [..|exact Hrun]; try done.
  - assert (Hn : get_u16 0 (u16_le (lenN names) ++ concat (map encode_qid qs)) = Some (lenN names)).
    { apply (get_le_app 2 0 []); [done|]. unfold lenN. simpl. lia. }
    rewrite Hn. cbn [unwrap bind]. by rewrite N.eqb_refl.
  - unfold walk_body, max_body. rewrite !lenN_app. unfold lenN. rewrite !length_u32_le, length_u16_le. lia.
  - assert (Hq : length (concat (map encode_qid qs)) = 13 * length qs).
    { clear. induction qs as [|q qs IH]; [done|]. cbn [map concat length].
      rewrite length_app, IH, length_encode_qid. lia. }
    rewrite lenN_app. unfold lenN. rewrite Hq, length_u16_le, Hlq. lia.
Qed.

Lemma open_run fid mode entry s b b' resp c :
  cl_input c = [] -> fids s !! fid = Some entry -> (fid < 2 ^ 32)%N ->
  backend b (mkRequest (if fe_is_dir entry then OpenDir else Open) (fe_path entry) []) =
    (b', Replied (Ok resp)) ->
  run conn (Client.open fid mode) (b, s) c = (ORet tt, (b', set_open fid s), c, []).
Proof.
  intros Hc Hf Hfid Hback. unfold Client.open. rewrite run_bind.
  rewrite (send_recv_ok TOPEN _ (encode_qid (mkQid 0 0 0) ++ u32_le (msize s)) b s b' (set_open fid s) c Hc);
    [done..|].
  change (handle_message now TOPEN 0 ?body) with (handle_open 0 body).
  rewrite (handle_open_run backend 0 fid mode entry) by done. by rewrite Hback.
Qed.

Lemma try_clunk_run fid s b c :
  cl_input c = [] -> (fid < 2 ^ 32)%N ->
  run conn (Client.try_clunk fid) (b, s) c =
  (ORet tt,
   (match fids s !! fid with
    | Some entry => fst (backend b (mkRequest Release (fe_path entry) []))
    | None => b
    end, with_fids (delete fid) s), c, []).
Proof.
  intros Hc Hfid.
  destruct (clunk_drops_fid backend 0 fid s b Hfid) as (b' & Hrun & Hb'). rewrite <-Hb'.
  unfold Client.try_clunk. rewrite run_catch. unfold Client.clunk. rewrite run_bind.
  by rewrite (send_recv_ok TCLUNK (u32_le fid) [] b s b' (with_fids (delete fid) s) c Hc).
Qed.

(** Reading a file from [offset]: the rest of it, then the end. *)
Lemma read_at_run fid offset entry s b b' resp c :
  cl_input c = [] -> fids s !! fid = Some entry -> fe_is_dir entry = false ->
  (fid < 2 ^ 32)%N -> (offset < 2 ^ 64)%N -> (cl_msize c < 2 ^ 32)%N ->
  (11 + lenN (resp_data resp) < 2 ^ 32)%N ->
  backend b (mkRequest Read (fe_path entry) []) = (b', Replied (Ok resp)) ->
  let chunk := tail_from offset (resp_data resp) in
  run conn (Client.send_recv TREAD (u32_le fid ++ u64_le offset ++ u32_le (cl_msize c))) (b, s) c =
  (ORet (u32_le (lenN chunk) ++ chunk), (b', s), c, []).
Proof.
  intros Hc Hf Hd Hfid Hoff Hm Hlen Hback chunk.
  apply send_recv_ok; [done|done|done|done| |].
  - rewrite lenN_app. unfold chunk, tail_from. unfold lenN in *. rewrite length_u32_le.
    case_match; rewrite ?length_drop; simpl; lia.
  - change (handle_message now TREAD 0 ?body) with (handle_read now 0 body).
    pose proof (handle_read_file_run now backend 0 fid offset (cl_msize c) entry s b) as Hr.
    rewrite Hback in Hr. by apply Hr.
Qed.

(** ** End to end *)

Definition root_entry : FidEntry := mkFidEntry 0 (str "/") false true.

(** A file path: its last name is not one the server takes for a directory. *)
Definition file_path (path : bytes) : Prop :=
  walkable path /\
  forall name, last (Client.components path) = Some name -> special_name name = false.
Definition spelled (path : bytes) : bytes := str "/" ++ join (str "/") (Client.components path).

(** Connecting to a new server, walking to a file and opening it on fid 4. *)
Lemma session_open {A} m path mode b b1 r1 b2 r2 (k : N -> Client.proc A) :
  (4096 <= m <= 65536)%N -> file_path path ->
  backend b (mkRequest Lookup (spelled path) []) = (b1, Replied (Ok r1)) ->
  backend b1 (mkRequest Open (spelled path) []) = (b2, Replied (Ok r2)) ->
  exists entry s,
    run conn
      (Client.connect ;! let! fid := Client.alloc_fid in
       Client.walk 1 fid path ;! Client.open fid mode ;! k fid)
      (b, new_shared m) (mkClient [] 65536 1) =
    run conn (k 4%N) (b2, s) (mkClient [] 65536 5) /\
    fids s = <[4%N := entry]> {[ 1%N := root_entry ]} /\
    fe_path entry = spelled path /\ fe_is_dir entry = false.
Proof.
  intros Hm [Hwalk Hlast] Hb1 Hb2. rewrite run_bind, connect_run.
  assert (Hpath : walk_path (str "/") (Client.components path) = spelled path).
  { apply walk_path_root; [apply Hwalk|apply components_plain]. }
  set (c := mkClient [] 65536 5).
  assert (Hb : qid_bijection (connected (new_shared m))).
  { apply (set_fid_keeps (P := bijection_protocol)); [|done].
    apply (msize_keeps (P := bijection_protocol)); [|done]. by apply new_shared_bijection. }
  destruct (walk_run 4 path root_entry (connected (new_shared m)) b b1 r1 c)
    as (entry & s1 & Hrun & Hf & Hp & _ & Hd); [done..|cbn [fe_path root_entry]; by rewrite Hpath|].
  cbn [fe_path root_entry] in Hp. rewrite Hpath in Hp.
  destruct (last (Client.components path)) as [name|] eqn:Hl.
  2:{ apply last_None in Hl. by destruct (wa_names _ Hwalk). }
  specialize (Hd name eq_refl). rewrite (Hlast name eq_refl) in Hd.
  assert (Hf4 : fids s1 !! 4%N = Some entry) by (rewrite Hf; apply lookup_insert_eq).
  pose proof (open_run 4 mode entry s1 b1 b2 r2 c eq_refl Hf4 ltac:(done)) as Hopen.
  rewrite Hd, Hp in Hopen. specialize (Hopen Hb2).
  exists (mkFidEntry (fe_qid entry) (fe_path entry) true (fe_is_dir entry)), (set_open 4 s1).
  split_and!; [|simpl; by rewrite Hf, alter_insert_eq|done|done].
  unfold Client.alloc_fid. cbn [bind modify run]. unfold Client.with_next_fid.
  cbn [fst snd cl_next_fid cl_input cl_msize].
  change (mkClient [] 65536 (u32_wrap (4 + 1))) with c.
  rewrite run_bind, Hrun, run_bind, Hopen.
  by destruct (run conn (k 4%N) (b2, set_open 4 s1) c) as [[[??]?]?].
Qed.

(** The router serves the file [path] with the contents [content]. *)
Record serves_file (path content : bytes) : Prop := {
  sf_lookup b : exists b' resp, backend b (mkRequest Lookup path []) = (b', Replied (Ok resp));
  sf_open b : exists b' resp, backend b (mkRequest Open path []) = (b', Replied (Ok resp));
  sf_read b : exists b' resp, backend b (mkRequest Read path []) = (b', Replied (Ok resp)) /\
    resp_data resp = content;
}.

Lemma read_loop_run fuel fid entry content s b c :
  cl_input c = [] -> fids s !! fid = Some entry -> fe_is_dir entry = false ->
  (fid < 2 ^ 32)%N -> (cl_msize c < 2 ^ 32)%N -> (11 + lenN content < 2 ^ 32)%N ->
  serves_file (fe_path entry) content -> 2 <= fuel ->
  exists b', run conn (Client.read_loop fuel fid 0 []) (b, s) c = (ORet (Some content), (b', s), c, []).
Proof.
  intros Hc Hf Hd Hfid Hm Hlen [_ _ Hread] Hfuel. destruct fuel as [|[|fuel]]; [lia..|].
  destruct (Hread b) as (b1 & resp1 & Hb1 & Hr1).
  assert (Hexch : forall offset b b' resp, (offset < 2 ^ 64)%N -> resp_data resp = content ->
    backend b (mkRequest Read (fe_path entry) []) = (b', Replied (Ok resp)) ->
    run conn (Client.send_recv TREAD (u32_le fid ++ u64_le offset ++ u32_le (cl_msize c))) (b, s) c =
    (ORet (u32_le (lenN (tail_from offset content)) ++ tail_from offset content), (b', s), c, [])).
  { intros offset b0 b0' resp Hoff <- Hback. by eapply read_at_run. }
  assert (Hlenc : forall d, (lenN d < 2 ^ 32)%N -> get_u32 0 (u32_le (lenN d) ++ d) = Some (lenN d)).
  { intros d Hd'. by apply fid_body_fid. }
  assert (Htail : tail_from 0 content = content).
  { unfold tail_from. unfold lenN. destruct content; [done|]. by rewrite drop_0. }
  cbn [Client.read_loop]. rewrite !run_bind. cbn [get run]. unfold id. rewrite run_bind.
  rewrite (Hexch 0%N b b1 resp1) by done. rewrite Htail, Hlenc by lia. cbn [unwrap bind].
  destruct (N.eqb_spec (lenN content) 0) as [Hz|Hnz].
  { destruct content; [by exists b1|unfold lenN in Hz; simpl in Hz; lia]. }
  assert (Hdata : get_slice 4 (4 + N.to_nat (lenN content)) (u32_le (lenN content) ++ content) = Some content).
  { rewrite lenN_nat. pose proof (get_slice_app 4 (4 + length content) (u32_le (lenN content)) content []) as H.
    rewrite app_nil_r in H. by apply H. }
  rewrite Hdata. cbn [unwrap bind app].
  destruct (Hread b1) as (b2 & resp2 & Hb2 & Hr2).
  replace (u64_wrap (0 + lenN content)) with (lenN content).
  2:{ rewrite N.add_0_l. unfold u64_wrap. rewrite wrap_small; [done|]. lia. }
  rewrite !run_bind. cbn [get run]. unfold id. rewrite run_bind.
  rewrite (Hexch (lenN content) b1 b2 resp2) by (done || lia).
  assert (Hend : tail_from (lenN content) content = []).
  { unfold tail_from. by rewrite N.ltb_irrefl. }
  rewrite Hend, Hlenc by done. cbn. by exists b2.
Qed.

(** Reading a file through the client and the server gives the file: after
    [connect], [read_file path] returns the contents the router serves for the
    path's names (as text), for every path of plain names and every contents
    that fits a reply, ends after at most two reads, and leaves the fid it used
    closed. *)
Theorem client_reads_file m path content b fuel :
  (4096 <= m <= 65536)%N -> file_path path -> serves_file (spelled path) content ->
  (11 + lenN content < 2 ^ 32)%N -> 2 <= fuel ->
  exists b' s',
    run conn (Client.connect ;! Client.read_file fuel path) (b, new_shared m) (mkClient [] 65536 1) =
      (ORet (Some (from_utf8_lossy content)), (b', s'), mkClient [] 65536 5, []) /\
    fids s' = {[ 1%N := root_entry ]}.
Proof.
  intros Hm Hpath Hfile Hlen Hfuel.
  destruct (sf_lookup _ _ Hfile b) as (b1 & r1 & Hb1).
  destruct (sf_open _ _ Hfile b1) as (b2 & r2 & Hb2).
  destruct (session_open m path 0 b b1 r1 b2 r2 (fun fid =>
    let! r := Client.read_loop fuel fid 0 [] in
    match r with
    | None => Ret None
    | Some raw => Client.try_clunk fid ;! Ret (Some (from_utf8_lossy raw))
    end)) as (entry & s & Hrun & Hf & Hp & Hd); [done..|].
  assert (Hf4 : fids s !! 4%N = Some entry) by (rewrite Hf; apply lookup_insert_eq).
  rewrite <-Hp in Hfile. set (c := mkClient [] 65536 5) in *.
  destruct (read_loop_run fuel 4 entry content s b2 c) as (b3 & Hread); [done..|].
  eexists _, (with_fids (delete 4%N) s). split.
  - unfold Client.read_file. rewrite Hrun, run_bind, Hread, run_bind, try_clunk_run by done. done.
  - simpl. rewrite Hf, delete_insert_id; [done|]. by apply lookup_singleton_ne.
Qed.
End composition.

(** * Termination of the write loop *)
Section keeps.
Context {St Rq Rp M E T : Type}.
Variable f : St -> T.

(** No critical section changes [f]. *)
Fixpoint keeps {A} (p : Proc.proc St Rq Rp M E A) : Prop :=
  match p with
  | Ret _ | Fail _ | Panic => True
  | Lock upd k => forall s, f (upd s) = f s /\ keeps (k s)
  | Call rq k => forall r, keeps (k r)
  | Send m k => keeps k
  end.

Lemma keeps_bind {A B} (p : Proc.proc St Rq Rp M E A) (q : A -> Proc.proc St Rq Rp M E B) :
  keeps p -> (forall a, keeps (q a)) -> keeps (bind p q).
Proof.
  intros Hp Hq. induction p as [a|e| |upd k IH|rq k IH|m k IH]; cbn in *; auto.
  intros s. destruct (Hp s) as [Hs Hk]. auto.
Qed.

Lemma run_keeps {W A} (io : W -> Rq -> W * Rp) (p : Proc.proc St Rq Rp M E A) w s o w' s' ms :
  keeps p -> run io p w s = (o, w', s', ms) -> f s' = f s.
Proof.
  revert w s ms. induction p as [a|e| |upd k IH|rq k IH|m k IH]; cbn; intros w s ms Hk Hr;
    try (by injection Hr as <- <- <- <-).
  - destruct (Hk s) as [Hs Hks]. by rewrite (IH _ _ _ _ Hks Hr).
  - destruct (io w rq) as [w1 r]. by eapply IH.
  - destruct (run io k w s) as [[[o1 w1] s1] ms1] eqn:Er. injection Hr as <- <- <- <-. by eapply IH.
Qed.
End keeps.

Lemma unwrap_keeps {T A} (f : Client -> T) (o : option A) :
  keeps f (unwrap o : Client.proc A).
Proof. by destruct o. Qed.

Lemma send_recv_keeps ty body : keeps cl_msize (Client.send_recv ty body).
Proof.
  assert (Hre : forall what n, keeps cl_msize (Client.read_exact what n)).
  { intros what n. unfold Client.read_exact. apply keeps_bind; [|by intros [?|]].
    intros s. cbn. split; [by case_match|done]. }
  unfold Client.send_recv. apply keeps_bind; [done|]. intros r.
  apply keeps_bind; [by destruct r|]. intros input.
  apply keeps_bind; [done|]. intros _. apply keeps_bind; [apply Hre|]. intros header.
  apply keeps_bind; [apply unwrap_keeps|]. intros rsize.
  apply keeps_bind; [apply unwrap_keeps|]. intros rtype.
  apply keeps_bind; [by case_match|]. intros resp. case_match; [|done].
  apply keeps_bind; [apply unwrap_keeps|]. intros len.
  apply keeps_bind; [apply unwrap_keeps|]. done.
Qed.

(** One round of the loop, for any peer. *)
Lemma write_loop_step {W} (io : W -> bytes -> W * result bytes bytes) fuel fid offset data w c :
  (offset < lenN data)%N ->
  let n := N.min (lenN data - offset) (u64_sub (cl_msize c) 24) in
  (exists e w' c' ms, run io (Client.write_loop (S fuel) fid offset data) w c = (OFail e, w', c', ms)) \/
  (exists w' c' ms, run io (Client.write_loop (S fuel) fid offset data) w c = (OPanic, w', c', ms)) \/
  (exists w1 c1 ms1, cl_msize c1 = cl_msize c /\
    run io (Client.write_loop (S fuel) fid offset data) w c =
    (let '(o, w', c', ms) := run io (Client.write_loop fuel fid (offset + n) data) w1 c1 in
     (o, w', c', ms1 ++ ms))).
Proof.
  intros Ho n. cbn [Client.write_loop]. rewrite (proj2 (N.ltb_lt _ _) Ho). cbn [get bind run]. unfold id.
  fold n. rewrite get_slice_Some by (unfold lenN in *; lia). cbn [unwrap bind]. rewrite run_bind.
  destruct (run io (Client.send_recv _ _) w c) as [[[o w1] c1] ms1] eqn:E.
  pose proof (run_keeps cl_msize io _ _ _ _ _ _ _ (send_recv_keeps _ _) E) as Hm.
  destruct o as [resp|e|].
  - right. right. by exists w1, c1, ms1.
  - left. by exists e, w1, c1, ms1.
  - right. left. by exists w1, c1, ms1.
Qed.

(** The rounds the loop needs for [rest] bytes at the negotiated size [m]: one per
    chunk of at most [m - 24] bytes; below 24 the subtraction wraps and everything
    goes in one chunk; at 24 a chunk is empty and nothing is ever written. *)
Definition rounds (m rest : N) : option N :=
  if N.eqb rest 0 then Some 0%N
  else if N.ltb m 24 then Some 1%N
  else if N.eqb m 24 then None
  else Some ((rest + (m - 24) - 1) / (m - 24))%N.

Definition enough (m rest : N) (fuel : nat) : bool :=
  match rounds m rest with Some r => N.leb r (N.of_nat fuel) | None => false end.

Lemma ceil_step rest k : (0 < k < rest)%N -> ((rest + k - 1) / k = 1 + (rest - k + k - 1) / k)%N.
Proof.
  intros Hk. replace (rest + k - 1)%N with (rest - k + k - 1 + 1 * k)%N by lia.
  rewrite N.div_add by lia. lia.
Qed.

Lemma rounds_step m rest :
  (m < 2 ^ 32)%N -> (0 < rest < 2 ^ 63)%N ->
  rounds m rest = N.succ <$> rounds m (rest - N.min rest (u64_sub m 24)).
Proof.
  intros Hm Hr.
  assert (Hsub : u64_sub m 24 = if N.ltb m 24 then (m + 2 ^ 64 - 24)%N else (m - 24)%N).
  { unfold u64_sub, u64_wrap. rewrite (wrap_small 64 24) by lia.
    destruct (N.ltb_spec m 24); [by rewrite wrap_small by lia|].
    unfold wrap. replace (m + 2 ^ 64 - 24)%N with (m - 24 + 1 * 2 ^ 64)%N by lia.
    rewrite N.mod_add, N.mod_small by lia. done. }
  rewrite Hsub. unfold rounds. rewrite (proj2 (N.eqb_neq rest 0)) by lia.
  destruct (N.ltb_spec m 24).
  { by rewrite N.min_l, N.sub_diag by lia. }
  destruct (N.eqb_spec m 24) as [->|Hne].
  { rewrite N.min_r, N.sub_0_r by lia. by rewrite (proj2 (N.eqb_neq rest 0)) by lia. }
  set (k := (m - 24)%N). destruct (N.le_gt_cases rest k) as [Hle|Hgt].
  - rewrite N.min_l, N.sub_diag by lia. cbn [fmap option_fmap option_map N.eqb]. f_equal.
    change (N.succ 0) with 1%N. symmetry. apply (N.div_unique _ _ 1 (rest - 1)); lia.
  - rewrite N.min_r by lia. rewrite (proj2 (N.eqb_neq _ 0)) by lia. cbn [fmap option_fmap option_map]. f_equal.
    rewrite ceil_step by lia. lia.
Qed.

Lemma enough_step m rest fuel :
  (m < 2 ^ 32)%N -> (0 < rest < 2 ^ 63)%N ->
  enough m rest (S fuel) = enough m (rest - N.min rest (u64_sub m 24)) fuel.
Proof.
  intros Hm Hr. unfold enough. rewrite (rounds_step m rest) by done.
  destruct (rounds m _) as [r|]; cbn [fmap option_fmap option_map]; [|done].
  apply eq_true_iff_eq. rewrite !N.leb_le. lia.
Qed.

Lemma enough_zero m rest : (0 < rest)%N -> enough m rest 0 = false.
Proof.
  intros Hr. unfold enough, rounds. rewrite (proj2 (N.eqb_neq rest 0)) by lia.
  destruct (N.ltb_spec m 24); [done|]. destruct (N.eqb_spec m 24); [done|].
  apply N.leb_gt. apply (N.lt_le_trans _ 1); [done|]. apply N.div_le_lower_bound; lia.
Qed.

(** A peer that answers every message with an Rwrite. *)
Definition accepts {W} (io : W -> bytes -> W * result bytes bytes) : Prop :=
  forall w msg, exists w' count, io w msg = (w', Ok (send_reply RWRITE 0 (u32_le count))).

(** The loop ends with the data written if the fuel is enough, and not otherwise,
    unless the peer made it fail. *)
Lemma write_loop_outcome {W} (io : W -> bytes -> W * result bytes bytes) fuel fid offset data w c :
  (cl_msize c < 2 ^ 32)%N -> (offset <= lenN data < 2 ^ 63)%N ->
  match fst (fst (fst (run io (Client.write_loop fuel fid offset data) w c))) with
  | ORet written => written = enough (cl_msize c) (lenN data - offset) fuel
  | _ => True
  end.
Proof.
  intros Hm. revert offset w c Hm. induction fuel as [|fuel IH]; intros offset w c Hm Ho.
  - cbn [Client.write_loop]. destruct (N.ltb_spec offset (lenN data)); cbn [run fst].
    + by rewrite enough_zero by lia.
    + replace (lenN data - offset)%N with 0%N by lia. done.
  - destruct (decide (offset < lenN data)%N) as [Hlt|Hge].
    2:{ cbn [Client.write_loop]. rewrite (proj2 (N.ltb_ge _ _)) by lia. cbn [run fst].
        replace (lenN data - offset)%N with 0%N by lia. done. }
    rewrite enough_step by lia.
    destruct (write_loop_step io fuel fid offset data w c Hlt) as
      [(e & w' & c' & ms & ->)|[(w' & c' & ms & ->)|(w1 & c1 & ms1 & Hm1 & ->)]]; [done|done|].
    set (n := N.min _ _). specialize (IH (offset + n)%N w1 c1 ltac:(lia) ltac:(unfold n; lia)).
    destruct (run io (Client.write_loop fuel fid (offset + n) data) w1 c1) as [[[o w'] c'] ms].
    cbn [fst] in *. rewrite <-Hm1. by replace (lenN data - offset - n)%N with (lenN data - (offset + n))%N by lia.
Qed.

Lemma write_loop_accepted {W} (io : W -> bytes -> W * result bytes bytes) fuel fid offset data w c :
  accepts io -> cl_input c = [] -> (offset <= lenN data)%N ->
  exists written w' ms, run io (Client.write_loop fuel fid offset data) w c = (ORet written, w', c, ms).
Proof.
  intros Hio Hc. revert offset w. induction fuel as [|fuel IH]; intros offset w Ho; cbn [Client.write_loop].
  { destruct (N.ltb offset (lenN data)); by repeat eexists. }
  destruct (N.ltb_spec offset (lenN data)) as [Hlt|Hge]; [|by repeat eexists].
  cbn [get bind run]. unfold id. set (n := N.min _ _).
  rewrite get_slice_Some by (unfold n, lenN in *; lia). cbn [unwrap bind]. rewrite run_bind.
  match goal with |- context [Client.send_recv TWRITE ?b] => destruct (Hio w (request_message TWRITE b))
    as (w1 & count & Hr) end.
  rewrite (send_recv_reply io _ _ RWRITE (u32_le count) w w1 c Hc) by done.
  destruct (IH (offset + n)%N w1) as (written & w' & ms & ->); [unfold n; lia|]. by repeat eexists.
Qed.

(** C40: The loop of [write_file] takes one round per chunk.  With at least as many
    rounds as the data has chunks it has ended, whatever the peer answers, and it
    has written the data if the peer accepts every chunk; with fewer rounds it
    has not written the data, and is still running if the peer accepts every
    chunk.  A chunk has at most the negotiated size less 24 bytes: at a size of 24
    no number of rounds is enough for data that is not empty, so the loop never
    ends, and at a smaller size the subtraction wraps and one round is enough. *)
Theorem client_write_terminates {W} (io : W -> bytes -> W * result bytes bytes) fuel fid offset data w c :
  (cl_msize c < 2 ^ 32)%N -> (offset <= lenN data < 2 ^ 63)%N ->
  let o := fst (fst (fst (run io (Client.write_loop fuel fid offset data) w c))) in
  let in_time := match rounds (cl_msize c) (lenN data - offset) with
                 | Some r => (r <= N.of_nat fuel)%N
                 | None => False
                 end in
  (in_time -> o <> ORet false) /\ (~ in_time -> o <> ORet true) /\
  (accepts io -> cl_input c = [] -> (in_time <-> o = ORet true) /\ (~ in_time <-> o = ORet false)).
Proof.
  intros Hm Ho. cbn zeta. pose proof (write_loop_outcome io fuel fid offset data w c Hm Ho) as Hw.
  assert (He : Is_true (enough (cl_msize c) (lenN data - offset) fuel) <->
    match rounds (cl_msize c) (lenN data - offset) with Some r => (r <= N.of_nat fuel)%N | None => False end).
  { unfold enough. destruct (rounds _ _) as [r|]; [|done]. rewrite Is_true_true. apply N.leb_le. }
  rewrite <-He. clear He. split_and!.
  - intros Hi Hr. rewrite Hr in Hw. by rewrite <-Hw in Hi.
  - intros Hi Hr. rewrite Hr in Hw. by rewrite <-Hw in Hi.
  - intros Hio Hc.
    destruct (write_loop_accepted io fuel fid offset data w c Hio Hc) as (written & w' & ms & Hr); [lia|].
    rewrite Hr in Hw |- *. cbn [fst] in *. subst written. destruct (enough _ _ _); split; split; naive_solver.
Qed.

(** * Writing *)

(** A router that accepts every request and keeps them. *)
Definition record (log : list Request) (rq : Request) : list Request * route_reply :=
  (log ++ [rq], Replied (Ok (mkHandlerResponse [] None false))).

Section writing.
Context {ord : IterOrder N PathEntry}.
Variable now : N.
Abbreviation conn := (conn now record).

(** The payload of one Twrite at the message size the server grants. *)
Definition chunk_ok (chunk : bytes) : Prop := (0 < lenN chunk <= 65536 - 24)%N.

Lemma write_chunk_run fid offset chunk entry s log c :
  cl_input c = [] -> fids s !! fid = Some entry -> (fid < 2 ^ 32)%N -> (offset < 2 ^ 64)%N ->
  chunk_ok chunk ->
  run conn (Client.send_recv TWRITE (u32_le fid ++ u64_le offset ++ u32_le (lenN chunk) ++ chunk)) (log, s) c =
  (ORet (u32_le (lenN chunk)), (log ++ [mkRequest Write (fe_path entry) chunk], s), c, []).
Proof.
  intros Hc Hf Hfid Hoff Hch. unfold chunk_ok in Hch.
  apply send_recv_ok; [done|done|done| |done|].
  - rewrite !lenN_app. unfold lenN in *. rewrite !length_u32_le, length_u64_le. unfold max_body. lia.
  - change (handle_message now TWRITE 0 ?body) with (handle_write 0 (write_body fid offset chunk)).
    rewrite (write_whole_payload record 0 fid offset chunk entry) by (done || lia). done.
Qed.

Lemma write_loop_run fuel fid offset data entry s log c :
  cl_input c = [] -> cl_msize c = 65536%N -> fids s !! fid = Some entry ->
  (fid < 2 ^ 32)%N -> (lenN data < 2 ^ 64)%N -> (offset <= lenN data)%N ->
  N.to_nat (lenN data - offset) <= fuel ->
  exists chunks,
    run conn (Client.write_loop fuel fid offset data) (log, s) c =
      (ORet true, (log ++ map (mkRequest Write (fe_path entry)) chunks, s), c, []) /\
    concat chunks = drop (N.to_nat offset) data /\ Forall chunk_ok chunks.
Proof.
  intros Hc Hm Hf Hfid Hlen. revert offset log.
  induction fuel as [|fuel IH]; intros offset log Hoff Hfuel; cbn [Client.write_loop].
  - rewrite (proj2 (N.ltb_ge _ _)) by lia. exists []. simpl.
    rewrite app_nil_r, drop_ge by (unfold lenN in *; lia). done.
  - destruct (N.ltb_spec offset (lenN data)) as [Hlt|Hge].
    2:{ exists []. simpl. rewrite app_nil_r, drop_ge by (unfold lenN in *; lia). done. }
    cbn [get bind run]. unfold id. rewrite Hm. change (u64_sub 65536 24) with 65512%N.
    set (n := N.min (lenN data - offset) 65512).
    set (chunk := slice (N.to_nat offset) (N.to_nat (offset + n)) data).
    assert (Hcl : lenN chunk = n).
    { unfold chunk, lenN in *. rewrite length_slice by lia. lia. }
    rewrite get_slice_Some by (unfold lenN in *; lia). fold chunk. cbn [unwrap bind].
    rewrite run_bind, <-Hcl, (write_chunk_run fid offset chunk entry) by
      (done || lia || (unfold chunk_ok; lia)).
    rewrite Hcl. destruct (IH (offset + n)%N (log ++ [mkRequest Write (fe_path entry) chunk]))
      as (chunks & Hrun & Hcat & Hok); [lia|lia|].
    rewrite Hrun. exists (chunk :: chunks). split_and!.
    + cbn [map]. by rewrite <-app_assoc.
    + cbn [concat]. rewrite Hcat. unfold chunk, slice.
      replace (N.to_nat (offset + n)) with (N.to_nat offset + N.to_nat n) by lia.
      rewrite <-drop_drop. replace (N.to_nat offset + N.to_nat n - N.to_nat offset) with (N.to_nat n) by lia.
      apply take_drop.
    + constructor; [unfold chunk_ok; lia|done].
Qed.

(** C30: Writing a file through the client and the server hands the data to the
    router in order and complete, but cut into chunks of at most 65512 bytes,
    each a separate Write request for the same path that does not say where it
    goes: [write_file] ends, the requests' payloads concatenate to the data,
    and data longer than a message takes more than one request. *)
Theorem client_writes_chunks m path data fuel :
  (4096 <= m <= 65536)%N -> file_path path -> (lenN data < 2 ^ 64)%N -> length data <= fuel ->
  let p := spelled path in
  exists chunks s',
    run conn (Client.connect ;! Client.write_file fuel path data) ([], new_shared m) (mkClient [] 65536 1) =
      (ORet (Some []),
       ([mkRequest Lookup p []; mkRequest Open p []] ++ map (mkRequest Write p) chunks ++
        [mkRequest Release p []], s'), mkClient [] 65536 5, []) /\
    concat chunks = data /\ Forall chunk_ok chunks.
Proof.
  intros Hm Hpath Hlen Hfuel p.
  destruct (session_open now record m path 1 [] [mkRequest Lookup p []] (mkHandlerResponse [] None false)
    [mkRequest Lookup p []; mkRequest Open p []] (mkHandlerResponse [] None false) (fun fid =>
    let! ok := Client.write_loop fuel fid 0 data in
    if ok then Client.try_clunk fid ;! Ret (Some ([] : bytes)) else Ret None))
    as (entry & s & Hrun & Hf & Hp & _); [done..|].
  assert (Hf4 : fids s !! 4%N = Some entry) by (rewrite Hf; apply lookup_insert_eq).
  set (c := mkClient [] 65536 5) in *.
  destruct (write_loop_run fuel 4 0 data entry s [mkRequest Lookup p []; mkRequest Open p []] c)
    as (chunks & Hwrite & Hcat & Hok); [done|done|done|done|done|lia|unfold lenN; lia|].
  exists chunks, (with_fids (delete 4%N) s). split_and!; [|done|done].
  unfold Client.write_file. rewrite Hrun, run_bind, Hwrite, run_bind, try_clunk_run by done.
  rewrite Hf4, Hp. done.
Qed.
End writing.

(** [mkdir], [create_file] and [remove] reach the router: in a session that
    makes [/d], creates [/d/f] in it and removes it, the server asks for exactly
    these operations, every call succeeds, and the fid of the removed file stays
    in the server's table. *)
Theorem client_tree_operations :
  match run (conn (ord := default_order) 0 record)
    (Client.connect ;! (let! _ := Client.mkdir (str "/d") in
     let! _ := Client.create_file (str "/d/f") in Client.remove (str "/d/f")))
    ([], new_shared 8192) (mkClient [] 65536 1) with
  | (o, (log, s), c, _) =>
      o = ORet [] /\
      log = [ mkRequest MkDir (str "/d") []; mkRequest Release (str "/d") [];
              mkRequest Lookup (str "/d") []; mkRequest Create (str "/d/f") [];
              mkRequest Release (str "/d/f") [];
              mkRequest Lookup (str "/d/f") []; mkRequest Unlink (str "/d/f") [] ] /\
      fe_path <$> fids s !! 6%N = Some (str "/d/f")
  end.
Proof. vm_compute. split_and!; reflexivity. Qed.

(** The client does not speak to the TCP servers of the program: it sends plain
    messages on a [tcp:] address, but they read frames.  Until it is answered it
    has sent its Tversion only; the reader takes the first eight bytes for the
    header of a frame of 100 bytes and forwards none, so nobody answers. *)
Theorem tcp_client_stalls :
  exists message c,
    run (fun sent m => (sent ++ [m], Ok [])) Client.connect [] (mkClient [] 65536 1) =
      (OFail (str "read header: failed to fill whole buffer"), [message], c, []) /\
    decode_mux_header (take 8 message) = Some (19, 100)%N /\ length message < 8 + 100 /\
    forall fuel, read_mux_frames fuel message = [] /\ dispatch_frames (read_mux_frames fuel message) = ∅.
Proof.
  eexists _, _. split; [vm_compute; reflexivity|]. split_and!; [reflexivity|vm_compute; lia|].
  by intros [|fuel].
Qed.

(** * The theorems at concrete inputs *)
Module ClientExample.
#[export] Instance ord : IterOrder N PathEntry := default_order.
Definition path : bytes := str "/a/b".
Lemma path_ok : file_path path.
Proof.
  split; [split|].
  - discriminate.
  - repeat constructor.
  - vm_compute. discriminate.
  - intros name [= <-]. reflexivity.
Qed.
(** A router that serves every path with the same contents. *)
Definition backend (n : nat) (rq : Request) : nat * route_reply :=
  (S n, Replied (Ok (mkHandlerResponse (str "hello") None false))).
Lemma serves : serves_file backend (spelled path) (str "hello").
Proof. split; intros b; eexists _, _; repeat split. Qed.
End ClientExample.

Lemma format_stat_misreads_witness :
  Client.format_stat (encode_stat 131072 (str "f") (mkQid 0 0 3) 5 false) =
  Some (nl ++ str "  qid path: 196608" ++ nl ++ str "  length: 327682" ++ nl).
Proof. rewrite format_stat_misreads; [reflexivity|lia|lia|reflexivity|simpl; lia]. Defined.

Lemma format_ls_misreads_witness :
  let raw := list_dir (ord := default_order) 0 (str "/") 0 SpecExample.state in
  Client.format_ls (length raw) false raw 0 [] = Some nl.
Proof. apply (format_ls_misreads (ord := default_order) 0 (str "/") SpecExample.state false). reflexivity. Defined.

Lemma client_reads_file_witness :
  exists b' s',
    run (conn (ord := default_order) 0 ClientExample.backend)
      (Client.connect ;! Client.read_file 2 ClientExample.path) (0, new_shared 8192) (mkClient [] 65536 1) =
      (ORet (Some (str "hello")), (b', s'), mkClient [] 65536 5, []).
Proof.
  destruct (client_reads_file (ord := default_order) 0 ClientExample.backend 8192 ClientExample.path
    (str "hello") 0 2) as (b' & s' & H & _);
    [lia|apply ClientExample.path_ok|apply ClientExample.serves|reflexivity|lia|].
  exists b', s'. exact H.
Defined.

Lemma client_writes_chunks_witness :
  exists chunks s',
    run (conn (ord := default_order) 0 record)
      (Client.connect ;! Client.write_file 2 ClientExample.path (str "hi")) ([], new_shared 8192)
      (mkClient [] 65536 1) =
      (ORet (Some []),
       ([mkRequest Lookup (str "/a/b") []; mkRequest Open (str "/a/b") []] ++
        map (mkRequest Write (str "/a/b")) chunks ++ [mkRequest Release (str "/a/b") []], s'),
       mkClient [] 65536 5, []) /\ concat chunks = str "hi".
Proof.
  destruct (client_writes_chunks (ord := default_order) 0 8192 ClientExample.path (str "hi") 2)
    as (chunks & s' & H & Hc & _); [lia|apply ClientExample.path_ok|reflexivity|simpl; lia|].
  exists chunks, s'. split; [exact H|exact Hc].
Defined.

Lemma client_write_terminates_witness :
  let peer (w : unit) (msg : bytes) := (w, Ok (send_reply RWRITE 0 (u32_le 1)) : result bytes bytes) in
  let o m fuel := fst (fst (fst (run peer (Client.write_loop fuel 4 0 (str "hello")) tt (mkClient [] m 5)))) in
  o 26%N 3 = ORet true /\ o 26%N 2 = ORet false /\ o 24%N 5 = ORet false /\ o 23%N 1 = ORet true.
Proof.
  intros peer o.
  assert (H : forall m fuel, (m < 2 ^ 32)%N ->
    let in_time := match rounds m 5 with Some r => (r <= N.of_nat fuel)%N | None => False end in
    (in_time -> o m fuel = ORet true) /\ (~ in_time -> o m fuel = ORet false)).
  { intros m fuel Hm.
    refine (match client_write_terminates peer fuel 4 0 (str "hello") tt (mkClient [] m 5) Hm _ with
            | conj _ (conj _ H) => match H _ eq_refl with conj Ht Hf => conj (proj1 Ht) (proj1 Hf) end end).
    - split; [vm_compute; discriminate|reflexivity].
    - intros w msg. by exists w, 1%N. }
  split_and!.
  - apply (H 26%N 3); [reflexivity|vm_compute; discriminate].
  - apply (H 26%N 2); [reflexivity|vm_compute; auto].
  - apply (H 24%N 5); [reflexivity|intros []].
  - apply (H 23%N 1); [reflexivity|vm_compute; discriminate].
Defined.
