(* ===== verification/SshAuth.v ===== *)
(** Authentication of the SSH frontend ([src/src/frontend/sshfs.rs]): the
    server's configuration, the sessions it makes, password and public-key
    checks, and the loading of an [authorized_keys] file.

    The [russh] library (the SSH protocol) and [ed25519_dalek] (which of the 32
    bytes are a key) are outside the sources: an offered key is its 32 bytes
    when it is an ed25519 key, and [from_bytes] is a parameter. *)
From S2P Require Import Prelude RustStr.

Inductive Auth := Accept | Reject.

#[export] Instance Auth_eq_dec : EqDecision Auth.
Proof. solve_decision. Defined.

(** * Server and sessions *)

(** [srv_sem] is the number of permits left, when connections are limited. *)
Record SshServer := mkSshServer {
  srv_password : option bytes;
  srv_authorized_keys : list bytes;
  srv_userpasswds : list (bytes * bytes);
  srv_sem : option N;
}.

Record SshSession := mkSshSession {
  ss_authorized_keys : list bytes;
  ss_password : option bytes;
  ss_userpasswds : list (bytes * bytes);
  ss_channels : gset N;
  ss_permit : bool;
}.

(** [try_acquire_owned]: a permit, if one is left. *)
Definition try_acquire (sem : option N) : bool * option N :=
  match sem with
  | Some n => if N.ltb 0 n then (true, Some (n - 1)%N) else (false, Some n)
  | None => (false, None)
  end.

Definition new_client (srv : SshServer) : SshSession * SshServer :=
  let '(permit, sem) := try_acquire (srv_sem srv) in
  (mkSshSession (srv_authorized_keys srv) (srv_password srv) (srv_userpasswds srv) ∅ permit,
   mkSshServer (srv_password srv) (srv_authorized_keys srv) (srv_userpasswds srv) sem).

Definition auth_none (s : SshSession) (user : bytes) : Auth := Reject.

Definition auth_password (s : SshSession) (user password : bytes) : Auth :=
  let any_user :=
    existsb (fun up => bool_decide (fst up = user) && bool_decide (snd up = password)) (ss_userpasswds s) in
  let ok := match ss_password s with
            | Some expected => if bool_decide (password = expected) then true else any_user
            | None => any_user
            end in
  let ok := ok || (match ss_password s with None => true | Some _ => false end &&
                   is_empty (ss_userpasswds s)) in
  if ok then Accept else Reject.

(** [public_key] is [None] when the key is not an ed25519 key. *)
Definition key_is_trusted (s : SshSession) (public_key : option bytes) : bool :=
  match public_key with
  | None => false
  | Some pub_bytes => existsb (fun vk => bool_decide (vk = pub_bytes)) (ss_authorized_keys s)
  end.

Definition auth_publickey (s : SshSession) (user : bytes) (public_key : option bytes) : Auth :=
  if key_is_trusted s public_key || is_empty (ss_authorized_keys s) then Accept else Reject.

(** The check made when a key is offered is the same. *)
Definition auth_publickey_offered (s : SshSession) (user : bytes) (public_key : option bytes) : Auth :=
  if key_is_trusted s public_key || is_empty (ss_authorized_keys s) then Accept else Reject.

(** ** Channels: whether an SFTP loop is started. *)
Definition with_channels (f : gset N -> gset N) (s : SshSession) : SshSession :=
  mkSshSession (ss_authorized_keys s) (ss_password s) (ss_userpasswds s) (f (ss_channels s)) (ss_permit s).

Definition channel_open_session (s : SshSession) (channel : N) : SshSession :=
  with_channels (union {[ channel ]}) s.

(** What a handler asks of the session, in order. *)
Inductive ssh_action := ChannelSuccess (channel : N) | StartSftp (channel : N) | CloseChannel (channel : N).

(** [sent]: whether [session.channel_success] succeeds; its error ends the
    handler. *)
Definition subsystem_request (s : SshSession) (channel : N) (name : bytes) (sent : bool) :
    SshSession * result (list ssh_action) unit :=
  if bool_decide (name = str "sftp") then
    if sent then
      if bool_decide (channel ∈ ss_channels s)
      then (with_channels (fun cs => cs ∖ {[ channel ]}) s, Ok [ChannelSuccess channel; StartSftp channel])
      else (s, Ok [ChannelSuccess channel])
    else (s, Err tt)
  else (s, Ok []).

Definition channel_eof (s : SshSession) (channel : N) : SshSession := s.

Definition channel_close (s : SshSession) (channel : N) : SshSession * list ssh_action :=
  (with_channels (fun cs => cs ∖ {[ channel ]}) s, [CloseChannel channel]).

(** * Base64 *)
Definition b64_chars : bytes :=
  str "ABCDEFGHIJKLMNOPQRSTUVWXYZabcdefghijklmnopqrstuvwxyz0123456789+/".

Fixpoint position (c : byte) (l : bytes) : option N :=
  match l with
  | [] => None
  | x :: l => if Ascii.eqb x c then Some 0%N else N.succ <$> position c l
  end.

(** The loop: [buf] and [bits] as in the code, [acc] the bytes pushed so far. *)
Fixpoint b64_loop (input : bytes) (buf bits : N) (acc : bytes) : result bytes bytes :=
  match input with
  | [] => Ok acc
  | c :: input =>
      if Ascii.eqb c "=" then Ok acc
      else match position c b64_chars with
           | None => Err (str "invalid base64")
           | Some val =>
               let buf := N.lor (u32_wrap (N.shiftl buf 6)) val in
               let bits := (bits + 6)%N in
               if N.leb 8 bits then
                 let bits := (bits - 8)%N in
                 b64_loop input (N.land buf (N.shiftl 1 bits - 1)) bits
                   (acc ++ [chr (N.shiftr buf bits)])
               else b64_loop input buf bits acc
           end
  end.

Definition simple_base64_decode (input : bytes) : result bytes bytes := b64_loop input 0 0 [].

(** * The [authorized_keys] file *)
Section keys.
(** [VerifyingKey::from_bytes]: whether 32 bytes are a key. *)
Variable from_bytes : bytes -> bool.

(** The key a line holds. *)
Definition key_of_line (line : bytes) : option bytes :=
  let line := trim line in
  if is_empty line || starts_with (str "#") line then None
  else
    match split_whitespace line with
    | kind :: data :: _ =>
        if bool_decide (kind = str "ssh-ed25519") then
          match simple_base64_decode data with
          | Ok key_bytes =>
              if Nat.eqb (length key_bytes) 32 && from_bytes key_bytes then Some key_bytes else None
          | Err _ => None
          end
        else None
    | _ => None
    end.

(** [load_authorized_keys] on the text of the file. *)
Definition load_authorized_keys (content : bytes) : list bytes := omap key_of_line (lines content).

(** The server [serve] makes of a configuration; [read_file] is the text of the
    key file, [None] when it cannot be read. *)
Record SshfsConfig := mkSshfsConfig {
  cfg_password : option bytes;
  cfg_authorized_keys_path : option bytes;
  cfg_userpasswds : list (bytes * bytes);
  cfg_max_conns : option N;
}.

Definition make_server (read_file : bytes -> option bytes) (config : SshfsConfig) : SshServer :=
  let authorized_keys :=
    match cfg_authorized_keys_path config with
    | Some path => match read_file path with Some content => load_authorized_keys content | None => [] end
    | None => []
    end in
  mkSshServer (cfg_password config) authorized_keys (cfg_userpasswds config) (cfg_max_conns config).
End keys.

(** * Reference encoder *)
Definition b64_char (v : N) : byte := nth (N.to_nat v) b64_chars "="%char.

Fixpoint base64_encode (bs : bytes) : bytes :=
  match bs with
  | [] => []
  | [a] => [b64_char (ord a / 4); b64_char ((ord a mod 4) * 16)]
  | [a; b] => [b64_char (ord a / 4); b64_char ((ord a mod 4) * 16 + ord b / 16);
               b64_char ((ord b mod 16) * 4)]
  | a :: b :: c :: bs =>
      [b64_char (ord a / 4); b64_char ((ord a mod 4) * 16 + ord b / 16);
       b64_char ((ord b mod 16) * 4 + ord c / 64); b64_char (ord c mod 64)] ++ base64_encode bs
  end.

(** The key of an OpenSSH public key line: the algorithm's name and the key,
    each with its length. *)
Definition u32_be (n : N) : bytes := [chr (n / 16777216); chr (n / 65536); chr (n / 256); chr n].
Definition openssh_blob (key : bytes) : bytes :=
  u32_be 11 ++ str "ssh-ed25519" ++ u32_be 32 ++ key.

(** * Lemmas *)
Lemma position_b64_char v : (v < 64)%N -> position (b64_char v) b64_chars = Some v.
Proof.
  intros Hv.
  assert (H : forallb (fun n => bool_decide (position (b64_char (N.of_nat n)) b64_chars = Some (N.of_nat n)))
                (seq 0 64) = true) by (vm_compute; reflexivity).
  rewrite forallb_forall in H. specialize (H (N.to_nat v)).
  rewrite N2Nat.id in H. eapply bool_decide_eq_true_1, H, in_seq. lia.
Qed.

Lemma b64_char_not_pad v : (v < 64)%N -> Ascii.eqb (b64_char v) "=" = false.
Proof.
  intros Hv. destruct (Ascii.eqb_spec (b64_char v) "=") as [Heq|]; [|done].
  apply position_b64_char in Hv. rewrite Heq in Hv. done.
Qed.

(** One character of the loop, in arithmetic. *)
Lemma b64_loop_char v input buf bits acc :
  (v < 64)%N -> (buf < 2 ^ bits)%N -> (bits < 8)%N ->
  b64_loop (b64_char v :: input) buf bits acc =
  if N.leb 8 (bits + 6)
  then b64_loop input ((buf * 64 + v) mod 2 ^ (bits + 6 - 8)) (bits + 6 - 8)
         (acc ++ [chr ((buf * 64 + v) / 2 ^ (bits + 6 - 8))])
  else b64_loop input (buf * 64 + v) (bits + 6) acc.
Proof.
  intros Hv Hbuf Hbits. cbn [b64_loop]. rewrite b64_char_not_pad, position_b64_char by done.
  assert (Hb : (buf < 256)%N).
  { eapply N.lt_le_trans; [exact Hbuf|]. change 256%N with (2 ^ 8)%N. apply N.pow_le_mono_r; lia. }
  assert (Hlor : N.lor (u32_wrap (N.shiftl buf 6)) v = (buf * 64 + v)%N).
  { unfold u32_wrap. rewrite N.shiftl_mul_pow2. change (2 ^ 6)%N with 64%N.
    rewrite wrap_small by (change (2 ^ 32)%N with 4294967296%N; lia).
    rewrite <-N.lxor_lor, <-N.add_nocarry_lxor; [done|..];
      (change 64%N with (2 ^ 6)%N; rewrite <-N.shiftl_mul_pow2; apply N.bits_inj; intros i;
       rewrite N.land_spec, N.bits_0; destruct (N.ltb_spec i 6) as [Hi|Hi];
       [rewrite N.shiftl_spec_low by done; done|
        rewrite <-(N.mod_small v (2 ^ 6)), N.mod_pow2_bits_high by done; apply andb_false_r]). }
  rewrite Hlor, N.shiftl_1_l, N.sub_1_r, <-N.ones_equiv, N.land_ones, N.shiftr_div_pow2. done.
Qed.

Lemma chr_of_ord n b : n = ord b -> chr n = b.
Proof. intros ->. apply chr_ord. Qed.

Ltac ord_bounds :=
  repeat match goal with b : ascii |- _ =>
    lazymatch goal with H : (ord b < 256)%N |- _ => fail | _ => pose proof (ord_lt b) end end.
Ltac divmod := ord_bounds; zify; Z.to_euclidean_division_equations; lia.

(** Three bytes: the loop is back in its initial state. *)
Lemma b64_loop_group a b c input acc :
  b64_loop ([b64_char (ord a / 4); b64_char ((ord a mod 4) * 16 + ord b / 16);
             b64_char ((ord b mod 16) * 4 + ord c / 64); b64_char (ord c mod 64)] ++ input) 0 0 acc =
  b64_loop input 0 0 (acc ++ [a; b; c]).
Proof.
  cbn [app].
  rewrite b64_loop_char by (try lia; divmod). change (N.leb 8 (0 + 6)) with false.
  cbn iota. change (0 + 6)%N with 6%N.
  rewrite b64_loop_char by (change (2 ^ 6)%N with 64%N; try lia; divmod).
  change (N.leb 8 (6 + 6)) with true. cbn iota. change (2 ^ (6 + 6 - 8))%N with 16%N.
  change (6 + 6 - 8)%N with 4%N.
  rewrite b64_loop_char by (change (2 ^ 4)%N with 16%N; try lia; divmod).
  change (N.leb 8 (4 + 6)) with true. cbn iota. change (2 ^ (4 + 6 - 8))%N with 4%N.
  change (4 + 6 - 8)%N with 2%N.
  rewrite b64_loop_char by (change (2 ^ 2)%N with 4%N; try lia; divmod).
  change (N.leb 8 (2 + 6)) with true. cbn iota. change (2 ^ (2 + 6 - 8))%N with 1%N.
  change (2 + 6 - 8)%N with 0%N. rewrite N.mod_1_r.
  rewrite <-!app_assoc. cbn [app]. rewrite (chr_of_ord _ a) by divmod. rewrite (chr_of_ord _ b) by divmod.
  by rewrite (chr_of_ord _ c) by divmod.
Qed.

Lemma b64_loop_two a b acc :
  b64_loop [b64_char (ord a / 4); b64_char ((ord a mod 4) * 16 + ord b / 16);
            b64_char ((ord b mod 16) * 4)] 0 0 acc = Ok (acc ++ [a; b]).
Proof.
  rewrite b64_loop_char by (try lia; divmod). change (N.leb 8 (0 + 6)) with false.
  cbn iota. change (0 + 6)%N with 6%N.
  rewrite b64_loop_char by (change (2 ^ 6)%N with 64%N; try lia; divmod).
  change (N.leb 8 (6 + 6)) with true. cbn iota. change (2 ^ (6 + 6 - 8))%N with 16%N.
  change (6 + 6 - 8)%N with 4%N.
  rewrite b64_loop_char by (change (2 ^ 4)%N with 16%N; try lia; divmod).
  change (N.leb 8 (4 + 6)) with true. cbn iota. change (2 ^ (4 + 6 - 8))%N with 4%N.
  cbn [b64_loop]. rewrite <-!app_assoc. cbn [app].
  rewrite (chr_of_ord _ a) by divmod. by rewrite (chr_of_ord _ b) by divmod.
Qed.

Lemma b64_loop_one a acc :
  b64_loop [b64_char (ord a / 4); b64_char ((ord a mod 4) * 16)] 0 0 acc = Ok (acc ++ [a]).
Proof.
  rewrite b64_loop_char by (try lia; divmod). change (N.leb 8 (0 + 6)) with false.
  cbn iota. change (0 + 6)%N with 6%N.
  rewrite b64_loop_char by (change (2 ^ 6)%N with 64%N; try lia; divmod).
  change (N.leb 8 (6 + 6)) with true. cbn iota. change (2 ^ (6 + 6 - 8))%N with 16%N.
  cbn [b64_loop]. by rewrite (chr_of_ord _ a) by divmod.
Qed.

Lemma b64_loop_encode n bs acc :
  length bs <= n -> b64_loop (base64_encode bs) 0 0 acc = Ok (acc ++ bs).
Proof.
  revert bs acc. induction n as [|n IH]; intros bs acc Hn.
  { destruct bs; [|simpl in Hn; lia]. simpl. by rewrite app_nil_r. }
  destruct bs as [|a [|b [|c bs]]].
  - simpl. by rewrite app_nil_r.
  - apply b64_loop_one.
  - apply b64_loop_two.
  - cbn [base64_encode]. rewrite b64_loop_group, IH by (simpl in Hn; lia).
    by rewrite <-app_assoc.
Qed.

(** [simple_base64_decode] decodes what a base64 encoder produces, without
    padding, for every sequence of bytes. *)
Theorem base64_decode_encode bs : simple_base64_decode (base64_encode bs) = Ok bs.
Proof. by apply (b64_loop_encode (length bs)). Qed.

(** * Authentication *)

(** A password is accepted exactly when it is the global one, or the user's
    own, or when no password at all is configured. *)
Theorem auth_password_spec s user password :
  auth_password s user password = Accept <->
  ss_password s = Some password \/ (user, password) ∈ ss_userpasswds s \/
  (ss_password s = None /\ ss_userpasswds s = []).
Proof.
  assert (Hany : existsb (fun up => bool_decide (fst up = user) && bool_decide (snd up = password))
                   (ss_userpasswds s) = true <-> (user, password) ∈ ss_userpasswds s).
  { rewrite existsb_exists, list_elem_of_In. split.
    - intros ([u p] & Hin & [Hu Hp]%andb_true_iff). apply bool_decide_eq_true_1 in Hu, Hp.
      simpl in *. by subst.
    - intros Hin. exists (user, password). split; [done|]. simpl. by rewrite !bool_decide_eq_true_2. }
  assert (Hempty : is_empty (ss_userpasswds s) = true <-> ss_userpasswds s = [])
    by by destruct (ss_userpasswds s).
  unfold auth_password. destruct (existsb _ _); destruct (is_empty _);
    destruct (ss_password s) as [p|]; try case_bool_decide; simpl; naive_solver.
Qed.

(** A public key is accepted exactly when it is one of the loaded keys or
    when no key is loaded; so a server whose configuration names no key file, or
    one that cannot be read, accepts every public key of every user, whatever
    passwords it is configured with. *)
Theorem auth_publickey_spec s user public_key :
  (auth_publickey s user public_key = Accept <->
   ss_authorized_keys s = [] \/ exists k, public_key = Some k /\ k ∈ ss_authorized_keys s) /\
  (forall from_bytes read_file config,
     (forall path, cfg_authorized_keys_path config = Some path -> read_file path = None) ->
     forall user' key',
       auth_publickey (fst (new_client (make_server from_bytes read_file config))) user' key' = Accept).
Proof.
  split.
  - unfold auth_publickey, key_is_trusted. destruct (ss_authorized_keys s) as [|k0 ks] eqn:E.
    { simpl. rewrite orb_true_r. naive_solver. }
    cbn [is_empty]. rewrite orb_false_r. destruct public_key as [k|]; [|naive_solver].
    destruct (existsb _ (k0 :: ks)) eqn:Hex.
    + apply existsb_exists in Hex as (k' & Hin & ->%bool_decide_eq_true_1).
      apply list_elem_of_In in Hin. split; [intros _|done]. right. by exists k.
    + split; [done|]. intros [?|(k' & [= <-] & Hin)]; [done|].
      apply list_elem_of_In in Hin. rewrite <-not_true_iff_false in Hex. destruct Hex.
      apply existsb_exists. exists k. split; [done|]. by apply bool_decide_eq_true_2.
  - intros from_bytes read_file config Hcfg user' key'. unfold make_server, new_client.
    destruct (cfg_authorized_keys_path config) as [path|] eqn:E; [rewrite (Hcfg path) by done|];
      destruct (try_acquire _); unfold auth_publickey; simpl; by rewrite orb_true_r.
Qed.

(** C36: Keys in the format of OpenSSH are never loaded: a line holds the
    algorithm's name and the key in one base64 word, 51 bytes, and the loader
    keeps words of 32 bytes only.  A key file in that format loads no key, so
    the server accepts every public key of every user. *)
Theorem openssh_keys_not_loaded from_bytes content :
  (forall line, line ∈ lines content -> exists key comment, length key = 32 /\
     split_whitespace (trim line) = str "ssh-ed25519" :: base64_encode (openssh_blob key) :: comment) ->
  load_authorized_keys from_bytes content = [] /\
  forall read_file config path user key,
    cfg_authorized_keys_path config = Some path -> read_file path = Some content ->
    auth_publickey (fst (new_client (make_server from_bytes read_file config))) user key = Accept.
Proof.
  intros Hlines. assert (Hload : load_authorized_keys from_bytes content = []).
  { unfold load_authorized_keys. induction (lines content) as [|line ls IH]; [done|].
    cbn [omap list_omap]. rewrite IH by (intros l Hl; apply Hlines; by right).
    destruct (Hlines line) as (key & comment & Hk & Hw); [left|].
    unfold key_of_line. rewrite Hw. destruct (_ || _); [done|].
    rewrite bool_decide_eq_true_2 by done.
    unfold simple_base64_decode. rewrite (b64_loop_encode (length (openssh_blob key))) by done.
    cbn [app]. rewrite (proj2 (Nat.eqb_neq _ _)); [done|].
    unfold openssh_blob. rewrite !length_app, Hk. simpl. lia. }
  split; [done|]. intros read_file config path user key Hp Hr.
  unfold make_server, new_client. rewrite Hp, Hr, Hload. destruct (try_acquire _).
  unfold auth_publickey. simpl. by rewrite orb_true_r.
Qed.

(** The connection limit is not enforced: when no permit is left a session
    is made all the same, with the same credentials, holding no permit. *)
Theorem new_client_without_permit srv :
  srv_sem srv = Some 0%N ->
  fst (new_client srv) =
    mkSshSession (srv_authorized_keys srv) (srv_password srv) (srv_userpasswds srv) ∅ false /\
  snd (new_client srv) = srv.
Proof. intros H. destruct srv as [p ks us sem]. simpl in H. subst sem. done. Qed.

(** * The theorems at concrete inputs *)
Module AuthExample.
Definition key : bytes := repeat (chr 7) 32.
(** An [authorized_keys] file with the line of one key. *)
Definition content : bytes :=
  str "ssh-ed25519 " ++ base64_encode (openssh_blob key) ++ str " alice@host" ++ [chr 10].
Definition server : SshServer := mkSshServer (Some (str "pw")) [] [] (Some 0%N).
End AuthExample.

Lemma openssh_keys_not_loaded_witness :
  starts_with (str "ssh-ed25519 AAAAC3NzaC1lZDI1NTE5AAAAI") AuthExample.content = true /\
  load_authorized_keys (fun _ => true) AuthExample.content = [].
Proof.
  split; [vm_compute; reflexivity|].
  apply (openssh_keys_not_loaded (fun _ => true) AuthExample.content).
  assert (Hl : lines AuthExample.content = [removelast AuthExample.content]) by (vm_compute; reflexivity).
  rewrite Hl. intros line ->%list_elem_of_singleton.
  exists AuthExample.key, [str "alice@host"]. split; vm_compute; reflexivity.
Defined.

Lemma new_client_without_permit_witness :
  ss_permit (fst (new_client AuthExample.server)) = false /\
  snd (new_client AuthExample.server) = AuthExample.server.
Proof.
  destruct (new_client_without_permit AuthExample.server) as [H1 H2]; [reflexivity|].
  rewrite H1. split; [reflexivity|exact H2].
Defined.
