(* ===== verification/SshServe.v ===== *)
(** The SSH server running ([src/src/frontend/sshfs.rs]): its connections, the
    calls of their handlers, the SFTP loops they start, and the permits of the
    connection limit.

    The [russh] library accepts the connections and calls the handlers of
    [SshSession]; which calls it makes is a parameter, of which the code needs that
    nobody gets a channel before a credential of his was accepted.  A connection ends
    when the library drops its session. *)
From S2P Require Import Prelude RustStr SshAuth.

(** * Calls of the handlers *)

(** A key is [None] when it is not an ed25519 key; [sent] as in
    [SshAuth.subsystem_request]. *)
Inductive ssh_call :=
  | AuthNone (user : bytes)
  | AuthPassword (user password : bytes)
  | AuthKeyOffered (user : bytes) (key : option bytes)
  | AuthKey (user : bytes) (key : option bytes)
  | OpenChannel (channel : N)
  | Subsystem (channel : N) (name : bytes) (sent : bool)
  | ChannelEof (channel : N)
  | ChannelClose (channel : N).

Inductive ssh_answer := Authed (a : Auth) | Acted (acts : list ssh_action) | HandlerFailed.

Definition handle (s : SshSession) (c : ssh_call) : SshSession * ssh_answer :=
  match c with
  | AuthNone user => (s, Authed (auth_none s user))
  | AuthPassword user password => (s, Authed (auth_password s user password))
  | AuthKeyOffered user key => (s, Authed (auth_publickey_offered s user key))
  | AuthKey user key => (s, Authed (auth_publickey s user key))
  | OpenChannel ch => (channel_open_session s ch, Acted [])
  | Subsystem ch name sent =>
      let '(s, r) := subsystem_request s ch name sent in
      (s, match r with Ok acts => Acted acts | Err _ => HandlerFailed end)
  | ChannelEof ch => (channel_eof s ch, Acted [])
  | ChannelClose ch => let '(s, acts) := channel_close s ch in (s, Acted acts)
  end.

(** The calls that end an authentication, and those for a channel. *)
Definition ends_auth (c : ssh_call) : bool :=
  match c with AuthNone _ | AuthPassword _ _ | AuthKey _ _ => true | _ => false end.
Definition for_channel (c : ssh_call) : bool :=
  match c with OpenChannel _ | Subsystem _ _ _ | ChannelEof _ | ChannelClose _ => true | _ => false end.

(** * The server *)

(** The calls made on a connection so far, with their answers; [cn_session] is
    [None] once the session is dropped. *)
Record Connection := mkConnection {
  cn_session : option SshSession;
  cn_past : list (ssh_call * ssh_answer);
}.

(** The SFTP loops started on a connection, by channel, and the channels opened. *)
Definition started (e : ssh_call * ssh_answer) : list N :=
  match snd e with
  | Acted acts => omap (fun a => match a with StartSftp ch => Some ch | _ => None end) acts
  | _ => []
  end.
Definition opens (e : ssh_call * ssh_answer) : list N :=
  match fst e with OpenChannel ch => [ch] | _ => [] end.
Definition sftp_loops (c : Connection) : list N := concat (map started (cn_past c)).
Definition opened (c : Connection) : list N := concat (map opens (cn_past c)).

(** The server and its connections, in the order they were made. *)
Record Sshd := mkSshd { sd_server : SshServer; sd_conns : list Connection }.

(** The permit of a session goes back to the semaphore with it. *)
Definition release (permit : bool) (srv : SshServer) : SshServer :=
  mkSshServer (srv_password srv) (srv_authorized_keys srv) (srv_userpasswds srv)
    ((if permit then N.succ else id) <$> srv_sem srv).

Section server.
Variable from_bytes : bytes -> bool.
Variable read_file : bytes -> option bytes.

(** Whether [russh] calls a handler, after the calls made before on the
    connection. *)
Variable calls : list (ssh_call * ssh_answer) -> ssh_call -> Prop.

(** It opens no channel, and passes nothing on to one, before an authentication was
    accepted; the check of an offered key is not one. *)
Definition russh_authenticates : Prop :=
  forall past c, calls past c -> for_channel c = true ->
  exists c', ends_auth c' = true /\ (c', Authed Accept) ∈ past.

Inductive sshd_step : Sshd -> Sshd -> Prop :=
| sshd_connect srv conns :
    sshd_step (mkSshd srv conns)
      (mkSshd (snd (new_client srv)) (conns ++ [mkConnection (Some (fst (new_client srv))) []]))
| sshd_call srv conns i s past c :
    conns !! i = Some (mkConnection (Some s) past) -> calls past c ->
    sshd_step (mkSshd srv conns)
      (mkSshd srv (<[i := mkConnection (Some (fst (handle s c))) (past ++ [(c, snd (handle s c))])]> conns))
| sshd_drop srv conns i s past :
    conns !! i = Some (mkConnection (Some s) past) ->
    sshd_step (mkSshd srv conns)
      (mkSshd (release (ss_permit s) srv) (<[i := mkConnection None past]> conns)).

Definition sshd_start (config : SshfsConfig) : Sshd := mkSshd (make_server from_bytes read_file config) [].

(** ** Specification *)
Definition loaded_keys (config : SshfsConfig) : list bytes :=
  match cfg_authorized_keys_path config ≫= read_file with
  | Some content => load_authorized_keys from_bytes content
  | None => []
  end.

(** The credentials a configuration lets in. *)
Definition admitted (config : SshfsConfig) (c : ssh_call) : Prop :=
  match c with
  | AuthPassword user password =>
      cfg_password config = Some password \/ (user, password) ∈ cfg_userpasswds config \/
      cfg_password config = None /\ cfg_userpasswds config = []
  | AuthKey user key => loaded_keys config = [] \/ exists k, key = Some k /\ k ∈ loaded_keys config
  | _ => False
  end.

(** The connections that hold a permit. *)
Definition holds (c : Connection) : bool :=
  match cn_session c with Some s => ss_permit s | None => false end.
Definition permits_held (conns : list Connection) : nat := length (List.filter holds conns).

(** * Invariant *)
Definition same_credentials (srv : SshServer) (s : SshSession) : Prop :=
  ss_authorized_keys s = srv_authorized_keys srv /\ ss_password s = srv_password srv /\
  ss_userpasswds s = srv_userpasswds srv.

(** Of a connection: its session has the credentials of the server, what was
    accepted is admitted, channels are opened after that, and every SFTP loop, as
    every channel that waits for a subsystem, has an opening of its own. *)
Record conn_wf (config : SshfsConfig) (srv : SshServer) (c : Connection) : Prop := {
  cw_session s : cn_session c = Some s -> same_credentials srv s;
  cw_accepted call : ends_auth call = true -> (call, Authed Accept) ∈ cn_past c -> admitted config call;
  cw_channels e : e ∈ cn_past c -> for_channel (fst e) = true ->
    exists call, ends_auth call = true /\ (call, Authed Accept) ∈ cn_past c;
  cw_loops ch :
    count_occ N.eq_dec (sftp_loops c) ch +
    match cn_session c with Some s => if decide (ch ∈ ss_channels s) then 1 else 0 | None => 0 end <=
    count_occ N.eq_dec (opened c) ch;
}.

Record sshd_wf (config : SshfsConfig) (s : Sshd) : Prop := {
  sw_keys : srv_authorized_keys (sd_server s) = loaded_keys config;
  sw_password : srv_password (sd_server s) = cfg_password config;
  sw_users : srv_userpasswds (sd_server s) = cfg_userpasswds config;
  sw_permits : match cfg_max_conns config with
    | Some n => exists k, srv_sem (sd_server s) = Some k /\ (k + N.of_nat (permits_held (sd_conns s)) = n)%N
    | None => srv_sem (sd_server s) = None /\ permits_held (sd_conns s) = 0
    end;
  sw_conns : Forall (conn_wf config (sd_server s)) (sd_conns s);
}.

Lemma permits_held_insert conns i c c' :
  conns !! i = Some c ->
  permits_held (<[i := c']> conns) + Nat.b2n (holds c) = permits_held conns + Nat.b2n (holds c').
Proof.
  unfold permits_held. induction conns as [|d conns IH] in i |- *; [done|].
  destruct i as [|i]; intros Hi; [injection Hi as ->|apply (IH i) in Hi]; cbn [insert list_insert List.filter].
  - destruct (holds c), (holds c'); cbn; lia.
  - destruct (holds d); [exact (f_equal S Hi)|exact Hi].
Qed.

Lemma permits_held_same conns i c c' :
  conns !! i = Some c -> holds c' = holds c -> permits_held (<[i := c']> conns) = permits_held conns.
Proof. intros Hi Hh. pose proof (permits_held_insert conns i c c' Hi) as H. rewrite Hh in H. lia. Qed.

Lemma handle_credentials srv s c : same_credentials srv s -> same_credentials srv (fst (handle s c)).
Proof.
  destruct c as [| | | |ch|ch name sent|ch|ch]; try done. cbn. unfold subsystem_request.
  repeat case_decide || case_bool_decide || destruct sent; done.
Qed.

Lemma handle_permit s c : ss_permit (fst (handle s c)) = ss_permit s.
Proof.
  destruct c as [| | | |ch|ch name sent|ch|ch]; try done. cbn. unfold subsystem_request.
  repeat case_bool_decide || destruct sent; done.
Qed.

Lemma handle_accepted config srv s call :
  srv_authorized_keys srv = loaded_keys config -> srv_password srv = cfg_password config ->
  srv_userpasswds srv = cfg_userpasswds config -> same_credentials srv s ->
  ends_auth call = true -> snd (handle s call) = Authed Accept -> admitted config call.
Proof.
  intros Hk Hp Hu (Hsk & Hsp & Hsu) He. destruct call as [| | |user key| | | |]; try done; cbn; intros [= Ha].
  - apply auth_password_spec in Ha. by rewrite <-Hp, <-Hu, <-Hsp, <-Hsu.
  - apply (proj1 (auth_publickey_spec s user key)) in Ha. by rewrite <-Hk, <-Hsk.
Qed.

Lemma handle_loops s call ch :
  count_occ N.eq_dec (started (call, snd (handle s call))) ch +
    (if decide (ch ∈ ss_channels (fst (handle s call))) then 1 else 0) <=
  count_occ N.eq_dec (opens (call, snd (handle s call))) ch + (if decide (ch ∈ ss_channels s) then 1 else 0).
Proof.
  destruct call as [| | | |c|c name sent|c|c]; cbn; unfold subsystem_request, channel_eof; cbn; try lia.
  - destruct (N.eq_dec c ch); repeat case_decide; try lia; set_solver.
  - repeat case_bool_decide || destruct sent; cbn; try lia.
    destruct (N.eq_dec c ch); repeat case_decide; try lia; set_solver.
  - repeat case_decide; try lia; set_solver.
Qed.

Lemma conn_wf_call config srv s past c :
  russh_authenticates ->
  srv_authorized_keys srv = loaded_keys config -> srv_password srv = cfg_password config ->
  srv_userpasswds srv = cfg_userpasswds config -> calls past c ->
  conn_wf config srv (mkConnection (Some s) past) ->
  conn_wf config srv (mkConnection (Some (fst (handle s c))) (past ++ [(c, snd (handle s c))])).
Proof.
  intros Hrussh Hk Hp Hu Hc [Hs Ha Hch Hl]. cbn in *. split; cbn.
  - intros s' [= <-]. by apply handle_credentials, Hs.
  - intros call He [Hin| [= -> Hin]%list_elem_of_singleton]%elem_of_app; [by apply Ha|].
    eapply handle_accepted; [done..| |done|done]. by apply Hs.
  - intros e [Hin| ->%list_elem_of_singleton]%elem_of_app Hf.
    + destruct (Hch e Hin Hf) as (call & ? & ?). exists call. split; [done|]. apply elem_of_app. by left.
    + destruct (Hrussh past c Hc Hf) as (call & ? & ?). exists call. split; [done|]. apply elem_of_app. by left.
  - intros ch. specialize (Hl ch). pose proof (handle_loops s c ch) as H. unfold sftp_loops, opened in *.
    cbn [cn_past] in *. rewrite !map_app, !concat_app, !count_occ_app. cbn [map concat]. rewrite !app_nil_r. lia.
Qed.

(** Only the credentials of the server matter to a connection. *)
Lemma conn_wf_server config srv srv' c :
  srv_authorized_keys srv' = srv_authorized_keys srv -> srv_password srv' = srv_password srv ->
  srv_userpasswds srv' = srv_userpasswds srv -> conn_wf config srv c -> conn_wf config srv' c.
Proof.
  intros Hk Hp Hu [H1 H2 H3 H4]. split; try done. intros s Hs. unfold same_credentials.
  rewrite Hk, Hp, Hu. by apply H1.
Qed.

Lemma new_client_server srv :
  srv_authorized_keys (snd (new_client srv)) = srv_authorized_keys srv /\
  srv_password (snd (new_client srv)) = srv_password srv /\
  srv_userpasswds (snd (new_client srv)) = srv_userpasswds srv.
Proof. unfold new_client. by destruct (try_acquire _). Qed.

Lemma new_client_session srv : same_credentials srv (fst (new_client srv)) /\ ss_channels (fst (new_client srv)) = ∅.
Proof. unfold new_client. by destruct (try_acquire _). Qed.

Lemma sshd_step_wf config s s' : russh_authenticates -> sshd_step s s' -> sshd_wf config s -> sshd_wf config s'.
Proof.
  intros Hrussh Hs [Hk Hp Hu Hn Hc]. destruct Hs as [srv conns|srv conns i s past c Hi Hd|srv conns i s past Hi];
    cbn [sd_server sd_conns] in *.
  - destruct (new_client_server srv) as (Ek & Ep & Eu). split; cbn [sd_server sd_conns]; [congruence..| |].
    + unfold new_client, try_acquire, permits_held in *. rewrite List.filter_app, length_app.
      destruct (cfg_max_conns config) as [n|].
      * destruct Hn as (k & Hsem & Hn). rewrite Hsem. destruct (N.ltb_spec 0 k); cbn; eexists; (split; [done|lia]).
      * destruct Hn as [Hsem Hn]. rewrite Hsem. cbn. split; [done|lia].
    + apply Forall_app. split.
      { eapply Forall_impl; [exact Hc|]. intros c. by apply conn_wf_server. }
      apply Forall_singleton. destruct (new_client_session srv) as [Hs Hch]. split; cbn.
      * intros s [= <-]. unfold same_credentials in *. by rewrite Ek, Ep, Eu.
      * by intros call _ ?%elem_of_nil.
      * by intros e ?%elem_of_nil.
      * intros ch. rewrite Hch, decide_False; [done|set_solver].
  - split; cbn [sd_server sd_conns]; try done.
    + rewrite (permits_held_same _ _ _ _ Hi); [done|]. unfold holds. cbn. by rewrite handle_permit.
    + apply Forall_insert; [done|]. eapply conn_wf_call; try done. by eapply Forall_lookup_1.
  - split; cbn [sd_server sd_conns]; try done.
    + pose proof (permits_held_insert conns i _ (mkConnection None past) Hi) as H.
      unfold holds, cn_session, permits_held in H. unfold release, permits_held in *. cbn [srv_sem]. destruct (cfg_max_conns config) as [n|].
      * destruct Hn as (k & Hsem & Hn). rewrite Hsem. destruct (ss_permit s); cbn in *;
          eexists; (split; [done|unfold id; lia]).
      * destruct Hn as [Hsem Hn]. rewrite Hsem. split; [done|]. cbn in H. lia.
    + apply Forall_insert; [by eapply Forall_impl; [exact Hc|]; intros c; apply conn_wf_server|].
      pose proof (Forall_lookup_1 _ _ _ _ Hc Hi) as [H1 H2 H3 H4].
      split; try done. intros ch. specialize (H4 ch). cbn in *. lia.
Qed.

Lemma sshd_start_wf config : sshd_wf config (sshd_start config).
Proof.
  unfold sshd_start, make_server. split; cbn [sd_server sd_conns srv_authorized_keys srv_sem]; try done.
  - unfold loaded_keys. by destruct (cfg_authorized_keys_path config) as [path|].
  - destruct (cfg_max_conns config) as [n|]; [exists n; split; [done|cbn; lia]|done].
Qed.

(** C25: At every point of every run of the SSH server, an SFTP loop runs only on
    a connection on which an authentication was accepted, and only a password or a
    key the configuration admits is; each loop has a channel of its own, and
    each session with a permit holds one of the permits of the limit. *)
Theorem sftp_needs_credentials config s :
  russh_authenticates -> rtc sshd_step (sshd_start config) s ->
  (forall c, c ∈ sd_conns s ->
     (sftp_loops c <> [] -> exists call, (call, Authed Accept) ∈ cn_past c /\ admitted config call) /\
     forall ch, count_occ N.eq_dec (sftp_loops c) ch <= count_occ N.eq_dec (opened c) ch) /\
  (forall n, cfg_max_conns config = Some n -> exists k,
     srv_sem (sd_server s) = Some k /\ (k + N.of_nat (permits_held (sd_conns s)) = n)%N).
Proof.
  intros Hrussh Hs. assert (Hwf : sshd_wf config s).
  { pose proof (sshd_start_wf config) as H. induction Hs as [|x y z Hxy _ IH]; [done|].
    by apply IH, (sshd_step_wf config x y). }
  destruct Hwf as [_ _ _ Hn Hc]. split; [|intros n E; by rewrite E in Hn].
  intros c Hin. rewrite Forall_forall in Hc. destruct (Hc c Hin) as [_ Ha Hch Hl].
  split; [|intros ch; specialize (Hl ch); lia]. intros Hne.
  destruct (sftp_loops c) as [|ch l] eqn:E; [done|]. specialize (Hl ch).
  rewrite count_occ_cons_eq in Hl by done.
  assert (Ho : count_occ N.eq_dec (opened c) ch > 0) by lia. apply count_occ_In, in_concat in Ho.
  destruct Ho as (os & Hos & Hch').
  apply in_map_iff in Hos as (e & <- & He). destruct (Hch e) as (call & Hend & Hacc).
  - by apply list_elem_of_In.
  - by destruct e as [[]].
  - exists call. split; [done|]. by apply Ha.
Qed.
End server.

(** * The theorem at a concrete server *)
Module SshdExample.
(** One connection at most, and the user alice. *)
Definition config : SshfsConfig :=
  mkSshfsConfig None (Some (str "keys")) [(str "alice", str "pw")] (Some 1%N).
Definition key : bytes := repeat (chr 7) 32.
Definition read_file (path : bytes) : option bytes :=
  Some (str "ssh-ed25519 " ++ base64_encode key ++ [chr 10]).
Definition all_keys (bs : bytes) : bool := true.

(** A library that asks for an accepted authentication before a channel. *)
Definition accepted (e : ssh_call * ssh_answer) : bool :=
  ends_auth (fst e) && match snd e with Authed Accept => true | _ => false end.
Definition calls (past : list (ssh_call * ssh_answer)) (c : ssh_call) : Prop :=
  negb (for_channel c) || existsb accepted past = true.

Lemma calls_ok : russh_authenticates calls.
Proof.
  intros past c Hc Hf. unfold calls in Hc. rewrite Hf in Hc. apply existsb_exists in Hc as ([c' a] & Hin & Ha).
  apply list_elem_of_In in Hin. apply andb_true_iff in Ha as [He Ha]. exists c'. split; [exact He|].
  by destruct a as [[]| |].
Qed.

(** Two connections: on the first a wrong password, the key, and an SFTP loop; the
    second gets no permit. *)
Definition first_calls : list ssh_call :=
  [AuthPassword (str "alice") (str "no"); AuthKey (str "alice") (Some key); OpenChannel 2;
   Subsystem 2 (str "sftp") true].

Fixpoint run_calls (s : SshSession) (past : list (ssh_call * ssh_answer)) (cs : list ssh_call) : Connection :=
  match cs with
  | [] => mkConnection (Some s) past
  | c :: cs => run_calls (fst (handle s c)) (past ++ [(c, snd (handle s c))]) cs
  end.

Definition server0 : SshServer := make_server all_keys read_file config.
Definition server1 : SshServer := snd (new_client server0).
Definition final : Sshd :=
  mkSshd (snd (new_client server1))
    [run_calls (fst (new_client server0)) [] first_calls; mkConnection (Some (fst (new_client server1))) []].

Lemma call_steps srv c2 s past cs :
  Forall (fun c => negb (for_channel c) = true \/ existsb accepted past = true) cs ->
  rtc (sshd_step calls) (mkSshd srv [mkConnection (Some s) past; c2]) (mkSshd srv [run_calls s past cs; c2]).
Proof.
  induction cs as [|c cs IH] in s, past |- *; intros Hcs; [constructor|]. inversion_clear Hcs as [|? ? Hc Hcs'].
  eapply rtc_l.
  - apply (sshd_call calls srv _ 0 s past c); [reflexivity|]. unfold calls. by apply orb_true_iff.
  - apply IH. eapply Forall_impl; [exact Hcs'|]. intros c' [?|H]; [by left|right].
    rewrite existsb_app. by rewrite H.
Qed.

Lemma reached : rtc (sshd_step calls) (sshd_start all_keys read_file config) final.
Proof.
  eapply rtc_l; [apply sshd_connect|]. eapply rtc_l; [apply sshd_connect|].
  change first_calls with (firstn 2 first_calls ++ skipn 2 first_calls).
  etrans; [apply (call_steps _ _ _ _ (firstn 2 first_calls)); repeat constructor|].
  eapply (call_steps _ _ _ _ (skipn 2 first_calls)). repeat constructor; right; vm_compute; reflexivity.
Qed.
End SshdExample.

Lemma sftp_needs_credentials_witness :
  map sftp_loops (sd_conns SshdExample.final) = [[2%N]; []] /\ permits_held (sd_conns SshdExample.final) = 1 /\
  forall c, c ∈ sd_conns SshdExample.final -> sftp_loops c <> [] ->
    exists call, (call, Authed Accept) ∈ cn_past c /\
      admitted SshdExample.all_keys SshdExample.read_file SshdExample.config call.
Proof.
  split; [vm_compute; reflexivity|]. split; [vm_compute; reflexivity|]. intros c Hin.
  exact (proj1 (proj1 (sftp_needs_credentials SshdExample.all_keys SshdExample.read_file SshdExample.calls
    SshdExample.config SshdExample.final SshdExample.calls_ok SshdExample.reached) c Hin)).
Defined.
