(* ===== verification/Sftp.v ===== *)
(** The SFTP subsystem of the SSH frontend ([src/src/frontend/sshfs.rs]): the
    handle table, the operations of [SftpSession] and the packet loop.

    The packet types and their encoding belong to the [russh_sftp] library:
    packets are the constructors the loop matches on, responses are sent as
    packets; [decode], [encodes] (whether a response can be encoded) and the
    attributes its default gives are parameters.  An operation is a
    [Proc.proc] whose state is the session's handle table. *)
From S2P Require Import Prelude RustStr Proc Router.
#[local] Open Scope proc_scope.

(** * Handles *)
Record HandleEntry := mkHandleEntry { he_path : bytes; he_is_dir : bool }.

Record HandleState := mkHandleState { next_id : N; handles : gmap bytes HandleEntry }.

Definition new_handles : HandleState := mkHandleState 1 ∅.

Definition alloc (path : bytes) (is_dir : bool) (h : HandleState) : bytes * HandleState :=
  let id := hex16 (next_id h) in
  (id, mkHandleState (u64_wrap (next_id h + 1)) (<[id := mkHandleEntry path is_dir]> (handles h))).

Definition free (handle : bytes) (h : HandleState) : HandleState :=
  mkHandleState (next_id h) (delete handle (handles h)).

(** * Packets of the protocol *)
Inductive StatusCode := SOk | SEof | SNoSuchFile | SFailure | SOpUnsupported.

#[export] Instance StatusCode_eq_dec : EqDecision StatusCode.
Proof. solve_decision. Defined.

(** The attributes the session sets; the others keep their defaults. *)
Record FileAttributes := mkFileAttributes { fa_size : option N; fa_permissions : option N }.

Inductive Packet :=
| PInit (version : N)
| PVersion (version : N)
| POpen (id : N) (filename : bytes) (pflags : N)
| PClose (id : N) (handle : bytes)
| PRead (id : N) (handle : bytes) (offset len : N)
| PWrite (id : N) (handle : bytes) (offset : N) (data : bytes)
| POpenDir (id : N) (path : bytes)
| PReadDir (id : N) (handle : bytes)
| PRemove (id : N) (filename : bytes)
| PMkDir (id : N) (path : bytes)
| PRmDir (id : N) (path : bytes)
| PRealPath (id : N) (path : bytes)
| PStat (id : N) (path : bytes)
| PLstat (id : N) (path : bytes)
| PFstat (id : N) (handle : bytes)
| PRename (id : N) (oldpath newpath : bytes)
| PSetStat (id : N) (path : bytes)
| PFSetStat (id : N) (handle : bytes)
| PReadLink (id : N) (path : bytes)
| PSymlink (id : N) (linkpath targetpath : bytes)
| PHandle (id : N) (handle : bytes)
| PData (id : N) (data : bytes)
| PName (id : N) (files : list bytes)
| PAttrs (id : N) (attrs : FileAttributes)
| PStatus (id : N) (code : StatusCode) (message language : bytes)
| PExtended (id : N) (request data : bytes)
| PExtendedReply (id : N) (data : bytes).

(** What the session observes of a router request. *)
Inductive sftp_reply := TimedOut | Answered (r : route_reply).

Definition CREATE : N := 8.

Section session.
(** [FileAttributes::default()] *)
Variable default_attrs : FileAttributes.

Abbreviation proc := (proc HandleState Request sftp_reply Packet StatusCode).

(** ** Routing *)
Definition absolute (path : bytes) : bytes :=
  if starts_with (str "/") path then path else str "/" ++ path.

Definition route (op : FsOperation) (path data : bytes) : proc (result bytes bytes) :=
  (let! r := call (mkRequest op (absolute path) data) in
   Ret match r with
       | TimedOut => Err (str "handler timeout (60s)")
       | Answered RouterGone => Err (str "router gone")
       | Answered HandlerGone => Err (str "handler gone")
       | Answered (Replied (Err e)) => Err e
       | Answered (Replied (Ok resp)) => Ok (resp_data resp)
       end).

(** [r.map_err(|_| code)?] *)
Definition or_code (r : result bytes bytes) (code : StatusCode) : proc bytes :=
  match r with Ok data => Ret data | Err _ => Fail code end.

(** [self.handles.get(&handle).cloned().ok_or(Failure)?] *)
Definition lookup_handle (handle : bytes) : proc HandleEntry :=
  (let! e := get (fun h => handles h !! handle) in ok_or e SFailure).

Definition make_status (id : N) (code : StatusCode) : Packet := PStatus id code [] [].

(** ** Operations *)
Definition init (version : N) : Packet := PVersion 3.

Definition op_open (id : N) (filename : bytes) (pflags : N) : proc Packet :=
  (let op := if negb (N.eqb (N.land pflags CREATE) 0) then Create else Open in
   let! r := route op filename [] in
   let! _ := or_code r SFailure in
   let! handle := modify (alloc filename false) in
   Ret (PHandle id handle)).

Definition op_close (id : N) (handle : bytes) : proc Packet :=
  (let! entry := get (fun h => handles h !! handle) in
   (match entry with
    | Some e => let! _ := route Release (he_path e) [] in Ret tt
    | None => Ret tt
    end) ;!
   update (free handle) ;!
   Ret (make_status id SOk)).

Definition op_read (id : N) (handle : bytes) (offset len : N) : proc Packet :=
  (let! entry := lookup_handle handle in
   let! r := route Read (he_path entry) [] in
   let! resp := or_code r SFailure in
   if N.leb (lenN resp) offset then Fail SEof
   else
     let end_ := N.min (usize_saturating_add offset len) (lenN resp) in
     Ret (PData id (slice (N.to_nat offset) (N.to_nat end_) resp))).

Definition op_write (id : N) (handle : bytes) (offset : N) (data : bytes) : proc Packet :=
  (let! entry := lookup_handle handle in
   let! r := route Write (he_path entry) data in
   let! _ := or_code r SFailure in
   Ret (make_status id SOk)).

Definition op_opendir (id : N) (path : bytes) : proc Packet :=
  (let! r := route OpenDir path [] in
   let! _ := or_code r SFailure in
   let! handle := modify (alloc path true) in
   Ret (PHandle id handle)).

Definition op_readdir (id : N) (handle : bytes) : proc Packet :=
  (let! entry := lookup_handle handle in
   fail_if (negb (he_is_dir entry)) SFailure ;!
   let! r := route ReadDir (he_path entry) [] in
   let! resp := or_code r SFailure in
   let names := split_whitespace (from_utf8_lossy resp) in
   Ret (PName id ([str "."; str ".."] ++ names))).

(** The operations that pass a path on and answer with a status. *)
Definition op_path (op : FsOperation) (id : N) (path : bytes) : proc Packet :=
  (let! r := route op path [] in
   let! _ := or_code r SFailure in
   Ret (make_status id SOk)).

Definition op_remove : N -> bytes -> proc Packet := op_path Unlink.
Definition op_mkdir : N -> bytes -> proc Packet := op_path MkDir.
Definition op_rmdir : N -> bytes -> proc Packet := op_path RmDir.

Definition realpath (path : bytes) : bytes :=
  let parts := List.filter (fun s => negb (is_empty s)) (split_on "/" (absolute path)) in
  str "/" ++ join (str "/") parts.

Definition op_realpath (id : N) (path : bytes) : proc Packet := Ret (PName id [realpath path]).

(** The number after the first [size=] of a text, if there is one. *)
Fixpoint take_digits (s : bytes) : bytes :=
  match s with
  | c :: s => if is_ascii_digit c then c :: take_digits s else []
  | [] => []
  end.

Definition stat_attrs (resp : bytes) : FileAttributes :=
  let resp_text := from_utf8_lossy resp in
  let is_dir := contains (str "directory") resp_text || contains (str "mode=directory") resp_text ||
                contains (str "dir") resp_text in
  let size := match find (str "size=") resp_text with
              | Some pos => default 0%N (parse_u64 (take_digits (drop (pos + 5) resp_text)))
              | None => lenN resp
              end in
  mkFileAttributes (if N.ltb 0 size then Some size else fa_size default_attrs)
    (Some (if is_dir then 0x41ed else 0x81a4)%N).

Definition stat_impl (id : N) (path : bytes) : proc Packet :=
  (let! r := route GetAttr path [] in
   let! resp := or_code r SNoSuchFile in
   Ret (PAttrs id (stat_attrs resp))).

Definition op_fstat (id : N) (handle : bytes) : proc Packet :=
  (let! entry := lookup_handle handle in stat_impl id (he_path entry)).

Definition op_rename (id : N) (oldpath newpath : bytes) : proc Packet :=
  (let! r := route Rename oldpath newpath in
   Ret match r with
       | Ok _ => make_status id SOk
       | Err e => PStatus id SFailure e (str "en")
       end).

Definition op_setstat (id : N) (path : bytes) : proc Packet := op_path SetAttr id path.

Definition op_fsetstat (id : N) (handle : bytes) : proc Packet :=
  (let! entry := get (fun h => handles h !! handle) in
   op_path SetAttr id (match entry with Some e => he_path e | None => [] end)).

(** ** The loop *)

(** An error code becomes a status with the request's id. *)
Definition answer (id : N) (p : proc Packet) : proc Packet :=
  catch p (fun code => Ret (make_status id code)).

(** The response to a request packet; [None] for the packets it skips. *)
Definition respond (packet : Packet) : option (proc Packet) :=
  match packet with
  | POpen id filename pflags => Some (answer id (op_open id filename pflags))
  | PClose id handle => Some (answer id (op_close id handle))
  | PRead id handle offset len => Some (answer id (op_read id handle offset len))
  | PWrite id handle offset data => Some (answer id (op_write id handle offset data))
  | POpenDir id path => Some (answer id (op_opendir id path))
  | PReadDir id handle => Some (answer id (op_readdir id handle))
  | PRemove id filename => Some (answer id (op_remove id filename))
  | PMkDir id path => Some (answer id (op_mkdir id path))
  | PRmDir id path => Some (answer id (op_rmdir id path))
  | PRealPath id path => Some (answer id (op_realpath id path))
  | PStat id path => Some (answer id (stat_impl id path))
  | PLstat id path => Some (answer id (stat_impl id path))
  | PFstat id handle => Some (answer id (op_fstat id handle))
  | PRename id oldpath newpath => Some (answer id (op_rename id oldpath newpath))
  | PSetStat id path => Some (answer id (op_setstat id path))
  | PFSetStat id handle => Some (answer id (op_fsetstat id handle))
  | PReadLink id _ => Some (Ret (make_status id SOpUnsupported))
  | PSymlink id _ _ => Some (Ret (make_status id SOpUnsupported))
  | _ => None
  end.

(** [Packet::try_from] on the payload of a packet. *)
Variable decode : bytes -> option Packet.
Variable encodes : Packet -> bool.

(** [read_sftp_packet]: a payload and the rest of the stream. *)
Definition read_sftp_packet (s : bytes) : option (bytes * bytes) :=
  match s with
  | b0 :: b1 :: b2 :: b3 :: s =>
      let length := N.to_nat (((ord b0 * 256 + ord b1) * 256 + ord b2) * 256 + ord b3) in
      if Nat.leb length (List.length s) then Some (take length s, drop length s) else None
  | _ => None
  end.

(** [if let Ok(bytes) = Bytes::try_from(response)]: a response that does not encode
    is dropped. *)
Definition send_encoded (response : Packet) : proc unit :=
  if encodes response then send response else Ret tt.

(** The main loop on what the client sends before it closes the channel; each
    packet takes at least the four bytes of its length. *)
Fixpoint dispatch_loop (fuel : nat) (s : bytes) : proc unit :=
  match fuel with
  | O => Ret tt
  | S fuel =>
      match read_sftp_packet s with
      | None => Ret tt
      | Some (raw, s) =>
          match decode raw with
          | None => dispatch_loop fuel s
          | Some packet =>
              match respond packet with
              | None => dispatch_loop fuel s
              | Some p =>
                  let! response := p in
                  send_encoded response ;! dispatch_loop fuel s
              end
          end
      end
  end.

Definition sftp_loop (s : bytes) : proc unit :=
  match read_sftp_packet s with
  | None => Ret tt
  | Some (raw, s) =>
      (match decode raw with
       | Some (PInit version) => send_encoded (init version)
       | _ => Ret tt
       end) ;!
      dispatch_loop (S (length s)) s
  end.
End session.

(** * What a request is answered with *)

(** The id of the packets that are requests, and of responses. *)
Definition request_id (packet : Packet) : option N :=
  match packet with
  | POpen id _ _ | PClose id _ | PRead id _ _ _ | PWrite id _ _ _ | POpenDir id _
  | PReadDir id _ | PRemove id _ | PMkDir id _ | PRmDir id _ | PRealPath id _ | PStat id _
  | PLstat id _ | PFstat id _ | PRename id _ _ | PSetStat id _ | PFSetStat id _
  | PReadLink id _ | PSymlink id _ _ | PExtended id _ _ => Some id
  | _ => None
  end.

(** An extended request is a request like the others, but the loop skips it. *)
Definition is_extended (packet : Packet) : bool :=
  match packet with PExtended _ _ _ => true | _ => false end.
Definition served (packet : Packet) : bool :=
  bool_decide (is_Some (request_id packet)) && negb (is_extended packet).

Definition response_id (packet : Packet) : option N :=
  match packet with
  | PHandle id _ | PData id _ | PName id _ | PAttrs id _ | PStatus id _ _ _ => Some id
  | _ => None
  end.

(** The types of the responses to a request: a status, or what it asks for. *)
Definition fits (request response : Packet) : bool :=
  match response with
  | PStatus _ code _ _ =>
      match request with
      | PReadLink _ _ | PSymlink _ _ _ => bool_decide (code = SOpUnsupported)
      | PClose _ _ => bool_decide (code = SOk)
      | PRealPath _ _ => false
      | POpen _ _ _ | POpenDir _ _ | PReadDir _ _ | PStat _ _ | PLstat _ _ | PFstat _ _ =>
          bool_decide (code <> SOk)
      | PRead _ _ _ _ => bool_decide (code = SEof \/ code = SFailure)
      | _ => true
      end
  | PHandle _ _ => match request with POpen _ _ _ | POpenDir _ _ => true | _ => false end
  | PData _ _ => match request with PRead _ _ _ _ => true | _ => false end
  | PName _ _ => match request with PReadDir _ _ | PRealPath _ _ => true | _ => false end
  | PAttrs _ _ => match request with PStat _ _ | PLstat _ _ | PFstat _ _ => true | _ => false end
  | _ => false
  end.

Definition answers (request response : Packet) : Prop :=
  response_id response = request_id request /\ fits request response = true.

(** The handle a response grants. *)
Definition granted (packet : Packet) : option bytes :=
  match packet with PHandle _ handle => Some handle | _ => None end.

(** The effect of answering one request on the handle table. *)
Definition answered_from (id : N) (h : HandleState) (packet : Packet) (h' : HandleState) : Prop :=
  response_id packet = Some id /\
  match granted packet with
  | Some handle =>
      exists e, handle = hex16 (next_id h) /\ next_id h' = u64_wrap (next_id h + 1) /\
                handles h' = <[handle := e]> (handles h)
  | None => next_id h' = next_id h /\ handles h' ⊆ handles h
  end.

Section run.
Variable default_attrs : FileAttributes.
Context {W : Type} (backend : W -> Request -> W * sftp_reply).
Abbreviation proc := (proc HandleState Request sftp_reply Packet StatusCode).

(** [p] answers, writes nothing itself, and has the effect above or fails
    leaving the table as it was. *)
Definition op_ok (id : N) (p : proc Packet) : Prop :=
  forall w h, exists o w' h', run backend p w h = (o, w', h', []) /\
    match o with
    | ORet packet => answered_from id h packet h'
    | OFail _ => h' = h
    | OPanic => False
    end.

Lemma op_ok_ret id packet :
  response_id packet = Some id -> granted packet = None -> op_ok id (Ret packet).
Proof. intros H1 H2 w h. eexists _, _, _. split; [done|]. split; [done|]. by rewrite H2. Qed.

Lemma op_ok_alloc id path d : op_ok id (let! handle := modify (alloc path d) in Ret (PHandle id handle)).
Proof. intros w h. eexists _, _, _. split; [done|]. split; [done|]. cbn. eauto. Qed.

Lemma op_ok_route id op path data code k :
  (forall r, op_ok id (k r)) ->
  op_ok id (let! r := route op path data in let! x := or_code r code in k x).
Proof.
  intros Hk w h. cbn. destruct (backend w _) as [w1 [|[| |[resp|e]]]]; cbn;
    try (eexists _, _, _; split; [done|done]). apply Hk.
Qed.

Lemma op_ok_lookup id handle k :
  (forall e, op_ok id (k e)) -> op_ok id (let! e := lookup_handle handle in k e).
Proof.
  intros Hk w h. cbn. unfold Datatypes.id. destruct (handles h !! handle) as [e|]; cbn; [apply Hk|].
  eexists _, _, _; split; [done|done].
Qed.

Lemma op_ok_path op id path : op_ok id (op_path op id path).
Proof. apply op_ok_route. intros _. by apply op_ok_ret. Qed.

Lemma stat_impl_ok id path : op_ok id (stat_impl default_attrs id path).
Proof. apply op_ok_route. intros r. by apply op_ok_ret. Qed.

Lemma op_close_ok id handle : op_ok id (op_close id handle).
Proof.
  intros w h. unfold op_close. cbn. unfold Datatypes.id.
  destruct (handles h !! handle) as [e|]; cbn; [destruct (backend w _) as [w1 r]; cbn|];
    (eexists _, _, _; split; [done|]; split; [done|]; split; [done|apply delete_subseteq]).
Qed.

Lemma op_read_ok id handle offset len : op_ok id (op_read id handle offset len).
Proof.
  apply op_ok_lookup. intros e. apply op_ok_route. intros r. case_match; [|by apply op_ok_ret].
  intros w h. eexists _, _, _. by split.
Qed.

Lemma op_readdir_ok id handle : op_ok id (op_readdir id handle).
Proof.
  apply op_ok_lookup. intros e. destruct (he_is_dir e); cbn [negb fail_if bind].
  - apply op_ok_route. intros r. by apply op_ok_ret.
  - intros w h. eexists _, _, _. by split.
Qed.

Lemma op_rename_ok id oldpath newpath : op_ok id (op_rename id oldpath newpath).
Proof.
  intros w h. cbn. destruct (backend w _) as [w1 [|[| |[resp|e]]]]; cbn;
    (eexists _, _, _; split; [done|]; by split).
Qed.

Lemma op_fsetstat_ok id handle : op_ok id (op_fsetstat id handle).
Proof. intros w h. cbn. apply op_ok_path. Qed.

(** An operation whose errors are turned into statuses always answers. *)
Lemma answer_run id p w h :
  op_ok id p ->
  exists packet w' h', run backend (answer id p) w h = (ORet packet, w', h', []) /\
    answered_from id h packet h'.
Proof.
  intros Hp. destruct (Hp w h) as (o & w' & h' & Hrun & Ho).
  unfold answer. rewrite run_catch, Hrun. destruct o as [packet|code|]; [by eauto| |done].
  cbn. subst h'. eexists _, _, _. split; [done|]. by split.
Qed.

(** A response is of a type that fits its request. *)
Lemma respond_fits packet p :
  respond default_attrs packet = Some p ->
  wp p (fun _ o => match o with ORet response => fits packet response = true | _ => True end).
Proof.
  intros Hp. destruct packet; try discriminate Hp; injection Hp as <-; cbn; unfold Datatypes.id, ok_or, fail_if;
    repeat first [done | progress intros | progress cbn | destruct (handles _ !! _) | destruct (he_is_dir _)
                 | match goal with r : sftp_reply |- _ => destruct r as [|[| |[]]] end | case_match].
Qed.

Lemma respond_run packet p w h :
  respond default_attrs packet = Some p ->
  exists id response w' h', request_id packet = Some id /\
    run backend p w h = (ORet response, w', h', []) /\ answered_from id h response h' /\
    fits packet response = true.
Proof.
  intros Hp.
  cut (exists id response w' h', request_id packet = Some id /\
    run backend p w h = (ORet response, w', h', []) /\ answered_from id h response h').
  { intros (id & response & w' & h' & Hid & Hrun & Ha). exists id, response, w', h'. split_and!; [done..|].
    exact (wp_sound _ _ _ _ (respond_fits packet p Hp) (run_may _ _ _ _ _ _ _ _ Hrun)). }
  assert (H : exists id q, request_id packet = Some id /\ op_ok id q /\
            (p = answer id q \/ p = q /\ exists r, q = Ret r)).
  { destruct packet; try discriminate Hp; injection Hp as <-; eexists _, _; (split; [done|]); (split; [|
      first [left; reflexivity | right; split; [reflexivity|eauto]]]);
      first [ by apply op_ok_ret | apply op_ok_path | apply op_close_ok | apply op_read_ok
            | apply op_readdir_ok | apply op_rename_ok | apply op_fsetstat_ok | apply stat_impl_ok
            | apply op_ok_route; intros _; first [by apply op_ok_ret | apply op_ok_alloc]
            | apply op_ok_lookup; intros e; first [apply stat_impl_ok
                | apply op_ok_route; intros _; by apply op_ok_ret] ]. }
  destruct H as (id & q & Hid & Hq & [->|[-> [r ->]]]).
  - destruct (answer_run id q w h Hq) as (response & w' & h' & Hrun & Ha). by exists id, response, w', h'.
  - destruct (Hq w h) as (o & w' & h' & Hrun & Ha). injection Hrun as <- <- <-.
    by exists id, r, w, h.
Qed.

(** ** The loop *)
Variable decode : bytes -> option Packet.
Variable encodes : Packet -> bool.

(** The packets of a stream that decode. *)
Fixpoint packets (fuel : nat) (s : bytes) : list Packet :=
  match fuel with
  | O => []
  | S fuel =>
      match read_sftp_packet s with
      | None => []
      | Some (raw, s) =>
          match decode raw with Some packet => [packet] | None => [] end ++ packets fuel s
      end
  end.

(** The handles granted from [h] on: distinct, numbered from its counter. *)
Record grants (h h' : HandleState) (gs : list bytes) : Prop := {
  gr_next : (next_id h <= next_id h')%N;
  gr_ids : Forall (fun g => exists n, (next_id h <= n < next_id h')%N /\ g = hex16 n) gs;
  gr_nodup : NoDup gs;
  gr_live g : is_Some (handles h' !! g) -> is_Some (handles h !! g) \/ g ∈ gs;
}.

Lemma grants_nil h : grants h h [].
Proof. split; [lia|constructor|constructor|by left]. Qed.

Lemma grants_step id h packet h1 h2 gs :
  (next_id h + 1 < 2 ^ 64)%N -> (next_id h2 <= 2 ^ 64)%N ->
  answered_from id h packet h1 -> grants h1 h2 gs ->
  grants h h2 (option_list (granted packet) ++ gs).
Proof.
  intros Hu Hu2 [_ Ha] [Hn Hids Hnd Hlive]. destruct (granted packet) as [handle|]; cbn [option_list app].
  - destruct Ha as (e & -> & Hnext & Hh). unfold u64_wrap in Hnext. rewrite wrap_small in Hnext by done.
    split.
    + lia.
    + constructor; [exists (next_id h); split; [lia|done]|].
      eapply Forall_impl; [exact Hids|]. intros g (n & Hb & ->). exists n. split; [lia|done].
    + constructor; [|done]. intros Hin. rewrite Forall_forall in Hids.
      destruct (Hids _ Hin) as (n & Hb & Heq). apply hex16_inj in Heq; lia.
    + intros g [Hg|Hg]%Hlive; [|right; by right]. rewrite Hh in Hg.
      apply lookup_insert_is_Some' in Hg as [<-|Hg]; [right; left|by left].
  - destruct Ha as [Hnext Hh]. rewrite Hnext in *. split; [done|done|done|].
    intros g [Hg|Hg]%Hlive; [|by right]. left. destruct Hg as [e He]. exists e.
    by eapply lookup_weaken.
Qed.

Lemma send_encoded_run response {A} (k : proc A) w h :
  run backend (send_encoded encodes response ;! k) w h =
  (let '(o, w', h', ms) := run backend k w h in (o, w', h', List.filter encodes [response] ++ ms)).
Proof.
  unfold send_encoded. cbn [List.filter]. destruct (encodes response); cbn [send bind run];
    by destruct (run backend k w h) as [[[??]?]?].
Qed.

(** What the loop makes of the packets of a stream: [responses], of which it sends
    those that encode. *)
Lemma dispatch_loop_run fuel s w h :
  (next_id h + N.of_nat fuel < 2 ^ 64)%N ->
  exists w' h' responses,
    run backend (dispatch_loop default_attrs decode encodes fuel s) w h =
      (ORet tt, w', h', List.filter encodes responses) /\
    Forall2 answers (List.filter served (packets fuel s)) responses /\
    grants h h' (omap granted responses) /\ (next_id h' <= next_id h + N.of_nat fuel)%N.
Proof.
  revert s w h. induction fuel as [|fuel IH]; intros s w h Hu.
  { exists w, h, []. split_and!; [done|constructor|apply grants_nil|lia]. }
  cbn [dispatch_loop packets].
  destruct (read_sftp_packet s) as [[raw rest]|];
    [|exists w, h, []; split_and!; [done|constructor|apply grants_nil|lia]].
  assert (Hskip : exists w' h' responses,
    run backend (dispatch_loop default_attrs decode encodes fuel rest) w h =
      (ORet tt, w', h', List.filter encodes responses) /\
    Forall2 answers (List.filter served (packets fuel rest)) responses /\
    grants h h' (omap granted responses) /\ (next_id h' <= next_id h + N.of_nat (S fuel))%N).
  { destruct (IH rest w h) as (w' & h' & ms & H1 & H2 & H4 & H5); [lia|].
    exists w', h', ms. split_and!; [done..|lia]. }
  destruct (decode raw) as [packet|]; cbn [app]; [|exact Hskip].
  destruct (respond default_attrs packet) as [p|] eqn:Hp.
  - destruct (respond_run packet p w h Hp) as (id & response & w1 & h1 & Hid & Hrun & Ha & Hfits).
    assert (Hn1 : (next_id h1 <= next_id h + 1)%N).
    { destruct Ha as [_ Ha]. destruct (granted response).
      - destruct Ha as (e & _ & -> & _). unfold u64_wrap. rewrite wrap_small; lia.
      - destruct Ha as [-> _]. lia. }
    assert (Hserved : served packet = true) by by destruct packet.
    destruct (IH rest w1 h1) as (w' & h' & ms & H1 & H2 & H4 & H5); [lia|].
    exists w', h', (response :: ms). rewrite run_bind, Hrun, send_encoded_run, H1.
    cbn [omap list_omap]. rewrite <-List.filter_app.
    change (List.filter served (packet :: ?l)) with (if served packet then packet :: List.filter served l
      else List.filter served l). rewrite Hserved.
    split_and!; [done|constructor; [split; [by rewrite Hid, (proj1 Ha)|done]|done]| |lia].
    pose proof (grants_step id h response h1 h' (omap granted ms)) as Hg.
    unfold omap in Hg. cbn in Hg |- *. destruct (granted response); apply Hg; (lia || done).
  - assert (Hserved : served packet = false) by by destruct packet.
    cbn [List.filter]. rewrite Hserved. exact Hskip.
Qed.

(** What the loop answers before the requests. *)
Definition greeting (raw : bytes) : list Packet :=
  match decode raw with Some (PInit _) => [PVersion 3] | _ => [] end.

(** C10: The SFTP loop answers every request packet of the core protocol exactly
    once, in order, with its id and a response of its type, whatever the router
    answers, and never stops on an operation's error; it sends the responses that
    the library can encode.  It never answers an extended request, which is a
    request with an id like the others, nor what does not decode.  The handles it
    grants are all different, over the whole session, and a handle is live only if
    it was granted. *)
Theorem sftp_loop_answers s w :
  (lenN s < 2 ^ 63)%N ->
  exists w' h' responses,
    run backend (sftp_loop default_attrs decode encodes s) w new_handles =
      (ORet tt, w', h',
       match read_sftp_packet s with
       | Some (raw, _) => List.filter encodes (greeting raw ++ responses)
       | None => []
       end) /\
    Forall2 answers
      (match read_sftp_packet s with
       | Some (_, rest) => List.filter served (packets (S (length rest)) rest)
       | None => []
       end) responses /\
    NoDup (omap granted responses) /\
    forall g, is_Some (handles h' !! g) -> g ∈ omap granted responses.
Proof.
  intros Hs. unfold sftp_loop. destruct (read_sftp_packet s) as [[raw rest]|] eqn:Hr.
  2:{ exists w, new_handles, []. split_and!; [done|constructor|constructor|]. by intros g [? ?]. }
  assert (Hrest : length rest <= length s).
  { destruct s as [|b0 [|b1 [|b2 [|b3 s]]]]; try done. cbn [read_sftp_packet] in Hr.
    case_match; [|done]. injection Hr as _ <-. rewrite length_drop. simpl. lia. }
  destruct (dispatch_loop_run (S (length rest)) rest w new_handles)
    as (w' & h' & responses & Hrun & Hid & Hg & _); [unfold lenN in Hs; simpl; lia|].
  exists w', h', responses. split_and!; [|done|apply Hg|].
  - unfold greeting. rewrite List.filter_app.
    destruct (decode raw) as [[]|]; first [rewrite send_encoded_run|cbn [bind]]; by rewrite Hrun.
  - intros g [Hg'|Hg']%(gr_live _ _ _ Hg); [by destruct Hg'|done].
Qed.
End run.

(** * Paths *)
Lemma absolute_starts path : exists rest, absolute path = str "/" ++ rest.
Proof.
  unfold absolute. destruct (starts_with (str "/") path) eqn:E; [|by eexists].
  by apply starts_with_spec in E.
Qed.

Lemma split_on_join c parts :
  parts <> [] -> Forall (fun p => contains_char c p = false) parts ->
  split_on c (join [c] parts) = parts.
Proof.
  intros Hne Hns. induction Hns as [|p parts Hp Hns IH]; [done|].
  destruct parts as [|q parts].
  - simpl. by apply split_on_no_char.
  - rewrite join_cons by done. cbn [app]. rewrite split_on_app_sep by done. by rewrite IH.
Qed.

(** [realpath] gives a normal form: an absolute path without empty
    components, the components of the path being kept, and a second call changes
    nothing; [.] and [..] are components like any other, so the path [.] of a
    client that asks for its working directory becomes [/.]. *)
Theorem realpath_normal path :
  let parts := List.filter (fun p => negb (is_empty p)) (split_on "/" path) in
  realpath path = str "/" ++ join (str "/") parts /\
  realpath (realpath path) = realpath path /\
  Forall (fun p => p <> [] /\ contains_char "/" p = false) parts /\
  realpath (str ".") = str "/.".
Proof.
  intros parts.
  assert (Hparts : Forall (fun p => p <> [] /\ contains_char "/" p = false) parts).
  { apply Forall_forall. intros p Hin%list_elem_of_In%filter_In. destruct Hin as [Hin Hp].
    split; [by destruct p|]. by eapply split_on_no_sep, list_elem_of_In. }
  assert (Hslash : forall rest,
    List.filter (fun p => negb (is_empty p)) (split_on "/" (str "/" ++ rest)) =
    List.filter (fun p => negb (is_empty p)) (split_on "/" rest)) by done.
  assert (Hnorm : realpath path = str "/" ++ join (str "/") parts).
  { unfold realpath, absolute, parts. by destruct (starts_with (str "/") path). }
  split_and!; [done| |done|done].
  rewrite Hnorm. unfold realpath.
  change (absolute (str "/" ++ ?r)) with (str "/" ++ r). rewrite Hslash.
  do 2 f_equal. destruct (decide (parts = [])) as [->|Hne]; [done|].
  rewrite split_on_join; [|done|by eapply Forall_impl; [exact Hparts|intros p [_ ?]]].
  clear -Hparts. induction Hparts as [|p ps [Hp _] Hps IH]; [done|]. cbn [List.filter].
  destruct p; [done|]. simpl. by rewrite IH.
Qed.

(** * Reading *)
Section reading.
Context {W : Type} (backend : W -> Request -> W * sftp_reply).

(** A directory handle has no end: every READDIR, however often it is repeated,
    leaves the handles as they are and lists the directory again, or fails; the
    end-of-file status, which tells an SFTP client that it has read all the names,
    is never sent. *)
Theorem readdir_never_ends id handle w h :
  exists w' response, run backend (answer id (op_readdir id handle)) w h = (ORet response, w', h, []) /\
    (response = make_status id SFailure \/
     exists e resp, handles h !! handle = Some e /\ he_is_dir e = true /\
       response = PName id ([str "."; str ".."] ++ split_whitespace (from_utf8_lossy resp))).
Proof.
  unfold answer. rewrite run_catch. unfold op_readdir, lookup_handle. cbn. unfold Datatypes.id.
  destruct (handles h !! handle) as [e|]; [|by eexists _, _; split; [|by left]]. cbn.
  destruct (he_is_dir e) eqn:Hd; cbn; [|by eexists _, _; split; [|by left]].
  destruct (backend w _) as [w1 [|[| |[resp|msg]]]]; cbn;
    eexists _, _; (split; [done|]); first [by left|right; by exists e, (resp_data resp)].
Qed.

(** A read of a handle gives the bytes of the file between the offset and
    the offset plus the length, at least one when the length is positive, and the
    end-of-file status from the end of the file on, for every 64-bit offset and
    32-bit length. *)
Theorem read_window id handle offset len entry w w' resp h :
  handles h !! handle = Some entry -> (len < 2 ^ 32)%N -> (lenN (resp_data resp) < 2 ^ 63)%N ->
  backend w (mkRequest Read (absolute (he_path entry)) []) = (w', Answered (Replied (Ok resp))) ->
  run backend (answer id (op_read id handle offset len)) w h =
    (ORet (if N.leb (lenN (resp_data resp)) offset then make_status id SEof
           else PData id (take (N.to_nat len) (drop (N.to_nat offset) (resp_data resp)))), w', h, []) /\
  ((offset < lenN (resp_data resp))%N -> (0 < len)%N ->
   take (N.to_nat len) (drop (N.to_nat offset) (resp_data resp)) <> []).
Proof.
  intros Hh Hlen Hsize Hback. split.
  - unfold answer. rewrite run_catch. unfold op_read, lookup_handle. cbn. unfold Datatypes.id.
    rewrite Hh. cbn. rewrite Hback. cbn.
    destruct (N.leb_spec (lenN (resp_data resp)) offset) as [Hle|Hgt]; [done|]. cbn.
    do 6 f_equal. unfold slice, usize_saturating_add.
    set (data := resp_data resp) in *. unfold lenN in *.
    destruct (N.le_gt_cases (N.min (offset + len) (2 ^ 64 - 1)) (N.of_nat (length data))) as [Hin|Hout].
    + f_equal. lia.
    + rewrite !take_ge; [done|rewrite length_drop; lia..].
  - intros Hoff Hpos Hnil. apply (f_equal length) in Hnil.
    rewrite length_take, length_drop in Hnil. unfold lenN in *. simpl in Hnil. lia.
Qed.
End reading.

(** * Attributes *)
Lemma strip_prefix_head c p b s : b <> c -> strip_prefix (c :: p) (b :: s) = None.
Proof. intros Hne. simpl. destruct (Ascii.eqb_spec c b); congruence. Qed.

Lemma find_after_prefix c needle pre rest :
  contains_char c pre = false -> find (c :: needle) (pre ++ (c :: needle) ++ rest) = Some (length pre).
Proof.
  induction pre as [|b pre IH]; intros Hpre.
  - cbn [app find]. unfold starts_with.
    change (c :: needle ++ rest) with ((c :: needle) ++ rest). by rewrite strip_prefix_app.
  - simpl in Hpre. apply orb_false_iff in Hpre as [Hb Hpre].
    change ((b :: pre) ++ ?r) with (b :: pre ++ r). cbn [find]. unfold starts_with.
    rewrite strip_prefix_head by (apply Ascii.eqb_neq in Hb; congruence).
    rewrite IH by done. done.
Qed.

Lemma take_digits_app s rest :
  forallb is_ascii_digit s = true -> (forall c t, rest = c :: t -> is_ascii_digit c = false) ->
  take_digits (s ++ rest) = s.
Proof.
  intros Hs Hrest. induction s as [|c s IH].
  - destruct rest as [|c t]; [done|]. simpl. by rewrite (Hrest c t).
  - simpl in Hs. apply andb_true_iff in Hs as [Hc Hs]. simpl. by rewrite Hc, IH.
Qed.

Lemma dec_is_digits n : forallb is_ascii_digit (dec n) = true.
Proof.
  unfold dec. generalize (S (N.to_nat (N.size n))). intros fuel. revert n.
  induction fuel as [|fuel IH]; intros n; [done|]. cbn [dec_digits].
  rewrite forallb_app. cbn [forallb]. rewrite is_ascii_digit_dec by (apply N.mod_lt; done).
  rewrite andb_true_r. by destruct (N.ltb n 10).
Qed.

(** The size of a file is the number its getattr text gives after [size=],
    for every size that fits 64 bits (0 leaves the default), and it is a
    directory exactly when the text has the letters [dir] in it. *)
Theorem stat_attrs_size default_attrs pre n rest :
  let text := pre ++ str "size=" ++ dec n ++ rest in
  valid_utf8 text = true -> contains_char "s" pre = false -> (n < 2 ^ 64)%N ->
  (forall c t, rest = c :: t -> is_ascii_digit c = false) ->
  stat_attrs default_attrs text =
  mkFileAttributes (if N.ltb 0 n then Some n else fa_size default_attrs)
    (Some (if contains (str "dir") text then 0x41ed else 0x81a4)%N).
Proof.
  intros text Hutf Hpre Hn Hrest. unfold stat_attrs. rewrite from_utf8_lossy_id by done.
  assert (Hfind : find (str "size=") text = Some (length pre))
    by by apply (find_after_prefix "s" (str "ize=") pre (dec n ++ rest)).
  rewrite Hfind.
  assert (Hdrop : drop (length pre + 5) text = dec n ++ rest).
  { unfold text. rewrite <-drop_drop, drop_app_length. done. }
  rewrite Hdrop, take_digits_app by (done || apply dec_is_digits).
  rewrite parse_u64_dec by done. cbn [default].
  do 2 f_equal. destruct (contains (str "dir") text) eqn:Hdir; [by rewrite !orb_true_r|].
  destruct (contains (str "directory") text) eqn:H1.
  { by rewrite (contains_infix [] (str "dir") (str "ectory")) in Hdir. }
  destruct (contains (str "mode=directory") text) eqn:H2; [|done].
  by rewrite (contains_infix (str "mode=") (str "dir") (str "ectory")) in Hdir.
Qed.

(** Setting attributes through a handle the session does not know is not
    refused: the request goes to the router for the root path. *)
Theorem fsetstat_unknown_handle {W} (backend : W -> Request -> W * sftp_reply) id handle w h w' resp :
  handles h !! handle = None ->
  backend w (mkRequest SetAttr (str "/") []) = (w', Answered (Replied (Ok resp))) ->
  run backend (answer id (op_fsetstat id handle)) w h = (ORet (make_status id SOk), w', h, []).
Proof.
  intros Hh Hback. unfold answer. rewrite run_catch.
  cbn [op_fsetstat get bind run]. unfold Datatypes.id. rewrite Hh.
  cbn [op_path route call bind run]. change (absolute []) with (str "/"). by rewrite Hback.
Qed.

(** * The theorems at concrete inputs *)
Module SftpExample.
(** A decoder for three kinds of packets, and a router that accepts everything. *)
Definition decode (raw : bytes) : option Packet :=
  match raw with
  | c :: path => if Ascii.eqb c "o" then Some (POpen 7 path 0)
                 else if Ascii.eqb c "x" then Some (PExtended 9 path [])
                 else if Ascii.eqb c "d" then Some (POpenDir 8 path) else None
  | [] => None
  end.
Definition encodes (packet : Packet) : bool := true.
Definition attrs : FileAttributes := mkFileAttributes None None.
Definition backend (n : nat) (rq : Request) : nat * sftp_reply :=
  (S n, Answered (Replied (Ok (mkHandlerResponse (str "hello") None false)))).
Definition stream : bytes :=
  [chr 0; chr 0; chr 0; chr 1] ++ str "i" ++ [chr 0; chr 0; chr 0; chr 2] ++ str "oa" ++
  [chr 0; chr 0; chr 0; chr 1] ++ str "?" ++ [chr 0; chr 0; chr 0; chr 2] ++ str "xe" ++
  [chr 0; chr 0; chr 0; chr 2] ++ str "db".
Definition table : HandleState := mkHandleState 2 {[ hex16 1 := mkHandleEntry (str "/a") false ]}.
End SftpExample.

Lemma sftp_loop_answers_witness :
  exists w' h' ms,
    run SftpExample.backend (sftp_loop SftpExample.attrs SftpExample.decode SftpExample.encodes SftpExample.stream)
      0 new_handles = (ORet tt, w', h', ms) /\
    exists responses, ms = List.filter SftpExample.encodes responses /\
      Forall2 answers [POpen 7 (str "a") 0; POpenDir 8 (str "b")] responses.
Proof.
  destruct (sftp_loop_answers SftpExample.attrs SftpExample.backend SftpExample.decode SftpExample.encodes
    SftpExample.stream 0) as (w' & h' & responses & Hrun & Hms & _); [reflexivity|].
  exists w', h', (List.filter SftpExample.encodes responses). split; [exact Hrun|]. by exists responses.
Defined.

Lemma read_window_witness :
  run SftpExample.backend (answer 3 (op_read 3 (hex16 1) 1 3)) 0 SftpExample.table =
  (ORet (PData 3 (str "ell")), 1, SftpExample.table, []).
Proof.
  apply (read_window SftpExample.backend 3 (hex16 1) 1 3 (mkHandleEntry (str "/a") false) 0 1
    (mkHandlerResponse (str "hello") None false) SftpExample.table);
    [vm_compute; reflexivity|reflexivity|reflexivity|reflexivity].
Defined.

Lemma stat_attrs_size_witness :
  stat_attrs SftpExample.attrs (str "mode=file size=" ++ dec 12 ++ str " x") =
  mkFileAttributes (Some 12%N) (Some 0x81a4%N).
Proof.
  apply (stat_attrs_size SftpExample.attrs (str "mode=file ") 12 (str " x"));
    [vm_compute; reflexivity|reflexivity|reflexivity|].
  intros c t [= <- <-]. reflexivity.
Defined.

Lemma fsetstat_unknown_handle_witness :
  run SftpExample.backend (answer 3 (op_fsetstat 3 (str "nope"))) 0 SftpExample.table =
  (ORet (make_status 3 SOk), 1, SftpExample.table, []).
Proof.
  apply (fsetstat_unknown_handle SftpExample.backend 3 (str "nope") 0 SftpExample.table 1
    (mkHandlerResponse (str "hello") None false)); [vm_compute; reflexivity|reflexivity].
Defined.
