(* ===== verification/Fuse.v ===== *)
(** The FUSE frontend ([src/src/frontend/fuse.rs]): the inode table, the size
    cache and every operation of the [Filesystem] trait, as [Proc.proc]s on the
    shared state of [FuseFilesystem].

    The kernel's side is the [fuser] library: an operation ends by sending one
    reply, and [full] says when the buffer of a directory reply takes no more. *)
From S2P Require Import Prelude RustStr Proc Router.
#[local] Open Scope proc_scope.

(** * Data *)
Record FileAttr := mkFileAttr {
  at_ino : N;
  at_size : N;
  at_blocks : N;
  at_is_dir : bool;
  at_perm : N;
  at_nlink : N;
}.

#[export] Instance FileAttr_eq_dec : EqDecision FileAttr.
Proof. solve_decision. Defined.

Inductive Errno := ENOENT | EIO.

(** The inode, the sequence number, whether it is a directory, and the name. *)
Definition dirent : Type := N * N * bool * bytes.

Inductive reply :=
| REntry (attr : FileAttr)
| RAttr (attr : FileAttr)
| RData (data : bytes)
| RDirectory (entries : list dirent)
| RWritten (size : N)
| ROpened
| RCreated (attr : FileAttr)
| RStatfs
| ROk
| RError (e : Errno).

(** [FuseFilesystem]: the inode counter, the path of each inode and the size
    cache. *)
Record Fuse := mkFuse {
  ino_next : N;
  ino_paths : gmap N bytes;
  size_cache : gmap bytes N;
}.

Definition new_fuse : Fuse := mkFuse 2 {[ 1%N := str "/" ]} ∅.

Definition root_attr : FileAttr := mkFileAttr 1 0 0 true 0x1ed 2.

Definition file_attr (ino size : N) (is_dir : bool) : FileAttr :=
  mkFileAttr ino size ((size + 511) / 512) is_dir (if is_dir then 0x1ed else 0x1a4)%N
    (if is_dir then 2 else 1)%N.

(** ** The tables *)
Definition next_ino (f : Fuse) : N * Fuse :=
  (ino_next f, mkFuse (u64_wrap (ino_next f + 1)) (ino_paths f) (size_cache f)).
Definition record_path (ino : N) (path : bytes) (f : Fuse) : Fuse :=
  mkFuse (ino_next f) (<[ino := path]> (ino_paths f)) (size_cache f).
Definition path_for (ino : N) (f : Fuse) : option bytes := ino_paths f !! ino.
Definition forget_path (ino : N) (f : Fuse) : Fuse :=
  mkFuse (ino_next f) (delete ino (ino_paths f)) (size_cache f).
Definition cache_size (path : bytes) (size : N) (f : Fuse) : Fuse :=
  mkFuse (ino_next f) (ino_paths f) (<[path := size]> (size_cache f)).

(** ** Attribute texts *)

(** [part.strip_prefix("mode=")] and so on, over the parts of the text. *)
Fixpoint attr_parts (parts : list bytes) (is_dir : bool) (size : N) : bool * N :=
  match parts with
  | [] => (is_dir, size)
  | part :: parts =>
      match strip_prefix (str "mode=") part with
      | Some val =>
          attr_parts parts
            (bool_decide (trim val = str "dir") || bool_decide (trim val = str "directory")) size
      | None =>
          match strip_prefix (str "size=") part with
          | Some val => attr_parts parts is_dir (default 0%N (parse_u64 val))
          | None => attr_parts parts is_dir size
          end
      end
  end.

Definition parse_attr (data : bytes) : bool * N :=
  attr_parts (split_whitespace (from_utf8_lossy data)) false 0.

Fixpoint size_part (parts : list bytes) : option N :=
  match parts with
  | [] => None
  | part :: parts =>
      match strip_prefix (str "size=") part with
      | Some val => parse_u64 val
      | None => size_part parts
      end
  end.

Definition parse_attr_size (data : bytes) : option N :=
  size_part (split_whitespace (from_utf8_lossy data)).

(** ** Paths of names *)
Definition child_of (parent_path name : bytes) : bytes :=
  trim_end_matches "/" parent_path ++ str "/" ++ name.

(** The name a line of a listing gives: what precedes a colon. *)
Definition line_name (line : bytes) : bytes :=
  let line := trim line in
  if is_empty line || bool_decide (line = str ".") || bool_decide (line = str "..") then []
  else match split_once ":" line with Some (key, _) => trim key | None => line end.

Section operations.
Context {ord : IterOrder N bytes}.

Abbreviation proc := (proc Fuse Request route_reply reply Empty_set).

Definition send_req (op : FsOperation) (path data : bytes) : proc (result bytes bytes) :=
  (let! r := call (mkRequest op path data) in
   Ret match r with
       | RouterGone => Err (str "router channel closed")
       | HandlerGone => Err (str "handler did not reply")
       | Replied (Err e) => Err e
       | Replied (Ok resp) => Ok (resp_data resp)
       end).

(** [self.next_ino()] and [self.record_path(..)] are two critical sections. *)
Definition new_inode (path : bytes) : proc N :=
  (let! ino := modify next_ino in update (record_path ino path) ;! Ret ino).

(** Run [k] on the path of an inode, or answer that there is none. *)
Definition with_path (ino : N) (k : bytes -> proc unit) : proc unit :=
  (let! p := get (path_for ino) in
   match p with Some path => k path | None => send (RError ENOENT) end).

(** [self.path_for(parent).unwrap_or_else(|| "/".into())] *)
Definition parent_path (parent : N) : proc bytes :=
  (let! p := get (path_for parent) in Ret (default (str "/") p)).

Definition no_route (msg : bytes) : bool := starts_with (str "no route matches") msg.

(** ** Operations *)
Definition fuse_lookup (parent : N) (name : bytes) : proc unit :=
  (let name := from_utf8_lossy name in
   if bool_decide (name = str ".") || bool_decide (name = str "..") then
     send (REntry (if N.eqb parent 1 then root_attr else file_attr parent 0 true))
   else
     let! dir := parent_path parent in
     let path := if ends_with "/" dir then dir ++ name else dir ++ str "/" ++ name in
     let! r := send_req Lookup path [] in
     match r with
     | Ok data =>
         let! ino := new_inode path in
         let! a := send_req GetAttr path [] in
         let '(is_dir, size) :=
           match a with
           | Ok attr_data =>
               let '(d, s) := parse_attr attr_data in
               if N.eqb s 0 && negb (is_empty attr_data) &&
                  match parse_attr_size attr_data with None => true | Some _ => false end
               then (false, lenN attr_data) else (d, s)
           | Err _ => (false, lenN data)
           end in
         send (REntry (file_attr ino size is_dir))
     | Err msg =>
         if no_route msg then
           let! ino := new_inode path in
           send (REntry (file_attr ino 4096 true))
         else send (RError ENOENT)
     end).

Definition fuse_getattr (ino : N) : proc unit :=
  (if N.eqb ino 1 then send (RAttr root_attr)
   else
     with_path ino (fun path =>
       let! r := send_req GetAttr path [] in
       match r with
       | Ok data =>
           let '(is_dir, size) := parse_attr data in
           if N.eqb size 0 && negb (is_empty data) &&
              match parse_attr_size data with None => true | Some _ => false end
           then send (RAttr (file_attr ino (lenN data) false))
           else if N.eqb size 0 && is_empty data && negb is_dir then
             let! cached := get (fun f => size_cache f !! path) in
             let! found :=
               match cached with
               | Some s => Ret (Some s)
               | None =>
                   let! d := send_req Read path [] in
                   Ret match d with Ok d => Some (lenN d) | Err _ => None end
               end in
             send (RAttr (file_attr ino (default 0%N found) false))
           else send (RAttr (file_attr ino size is_dir))
       | Err msg =>
           let! l := send_req Lookup path [] in
           match l with
           | Ok data => send (RAttr (file_attr ino (lenN data) false))
           | Err lookup_msg =>
               if no_route msg && no_route lookup_msg
               then send (RAttr (file_attr ino 4096 true))
               else send (RError ENOENT)
           end
       end)).

(** The entries of a listing, each with a new inode. *)
Fixpoint list_entries (path : bytes) (ls : list bytes) (acc : list (N * bool * bytes)) :
    proc (list (N * bool * bytes)) :=
  match ls with
  | [] => Ret acc
  | line :: ls =>
      let name := line_name line in
      if is_empty name then list_entries path ls acc
      else
        let clean := trim_end_matches "/" name in
        let! ino := new_inode (child_of path clean) in
        list_entries path ls (acc ++ [(ino, ends_with "/" name, clean)])
  end.

(** The first inode recorded for the path of the parent directory. *)
Definition parent_ino (path : bytes) (f : Fuse) : N :=
  let parent := match rsplit_once "/" path with Some (p, _) => p | None => str "/" end in
  match List.find (fun kv => bool_decide (snd kv = parent)) (iter_order (ino_paths f)) with
  | Some (ino, _) => ino
  | None => 1
  end.

(** The entries from [offset] on that fit the reply. *)
Fixpoint fill (full : list dirent -> dirent -> bool) (seq offset : N)
    (entries : list (N * bool * bytes)) (out : list dirent) : list dirent :=
  match entries with
  | [] => out
  | (ino, is_dir, name) :: entries =>
      let seq := (seq + 1)%N in
      if N.leb seq offset then fill full seq offset entries out
      else if full out (ino, seq, is_dir, name) then out
      else fill full seq offset entries (out ++ [(ino, seq, is_dir, name)])
  end.

Variable full : list dirent -> dirent -> bool.

Definition readdir_entries (ino : N) (path : bytes) : proc (list (N * bool * bytes)) :=
  (let! up := if N.eqb ino 1 then Ret 1%N else get (parent_ino path) in
   let v := [(1%N, true, str "."); (up, true, str "..")] in
   let! listing := send_req ReadDir path [] in
   match listing with
   | Ok data => list_entries path (lines (from_utf8_lossy data)) v
   | Err _ => Ret v
   end).

Definition fuse_readdir (ino offset : N) : proc unit :=
  (let k path :=
     let! entries := readdir_entries ino path in
     send (RDirectory (fill full 0 offset entries [])) in
   if N.eqb ino 1 then k (str "/") else with_path ino k).

Definition fuse_open (ino : N) : proc unit := send ROpened.

Definition fuse_read (ino offset size : N) : proc unit :=
  with_path ino (fun path =>
    let! r := send_req Read path [] in
    match r with
    | Ok data =>
        update (cache_size path (lenN data)) ;!
        let end_ := N.min (u64_wrap (offset + size)) (lenN data) in
        if N.ltb offset (lenN data) then
          let! chunk := unwrap (if N.leb offset end_
                                then Some (slice (N.to_nat offset) (N.to_nat end_) data) else None) in
          send (RData chunk)
        else send (RData [])
    | Err _ => send (RError EIO)
    end).

Definition fuse_write (ino offset : N) (data : bytes) : proc unit :=
  with_path ino (fun path =>
    let! r := send_req Write path data in
    match r with
    | Ok _ => update (cache_size path (lenN data)) ;! send (RWritten (u32_wrap (lenN data)))
    | Err _ => send (RError EIO)
    end).

Definition fuse_release (ino : N) : proc unit :=
  with_path ino (fun path => let! _ := send_req Release path [] in send ROk).

Definition fuse_opendir (ino : N) : proc unit :=
  with_path ino (fun path =>
    let! r := send_req OpenDir path [] in
    send (match r with Ok _ => ROpened | Err _ => RError EIO end)).

Definition fuse_releasedir (ino : N) : proc unit :=
  with_path ino (fun path => let! _ := send_req Release path [] in send ROk).

(** The one operation the kernel expects no reply to. *)
Definition fuse_forget (ino : N) : proc unit :=
  if N.eqb ino 1 then Ret tt else update (forget_path ino).

Definition fuse_statfs (ino : N) : proc unit := send RStatfs.
Definition fuse_access (ino : N) : proc unit := send ROk.
Definition fuse_flush (ino : N) : proc unit := send ROk.
Definition fuse_fsync (ino : N) : proc unit := send ROk.
Definition fuse_fsyncdir (ino : N) : proc unit := send ROk.

Definition fuse_create (parent : N) (name : bytes) : proc unit :=
  (let! dir := parent_path parent in
   let path := child_of dir (from_utf8_lossy name) in
   let! ino := new_inode path in
   send (RCreated (file_attr ino 0 false))).

Definition fuse_mkdir (parent : N) (name : bytes) : proc unit :=
  (let! dir := parent_path parent in
   let path := child_of dir (from_utf8_lossy name) in
   let! r := send_req MkDir path [] in
   match r with
   | Ok _ =>
       let! a := send_req GetAttr path [] in
       let '(is_dir, size) := match a with Ok data => parse_attr data | Err _ => (true, 4096%N) end in
       let! ino := new_inode path in
       send (REntry (file_attr ino size is_dir))
   | Err _ => send (RError EIO)
   end).

(** [unlink] and [rmdir] *)
Definition fuse_delete (op : FsOperation) (parent : N) (name : bytes) : proc unit :=
  (let! dir := parent_path parent in
   let! r := send_req op (child_of dir (from_utf8_lossy name)) [] in
   send (match r with Ok _ => ROk | Err _ => RError EIO end)).

Definition fuse_unlink : N -> bytes -> proc unit := fuse_delete Unlink.
Definition fuse_rmdir : N -> bytes -> proc unit := fuse_delete RmDir.

(** The first inode recorded for a path. *)
Definition ino_of (path : bytes) (f : Fuse) : option N :=
  fst <$> List.find (fun kv => bool_decide (snd kv = path)) (iter_order (ino_paths f)).

Definition fuse_rename (parent : N) (name : bytes) (newparent : N) (newname : bytes) : proc unit :=
  (let! dir := parent_path parent in
   let old_path := child_of dir (from_utf8_lossy name) in
   let! newdir := parent_path newparent in
   let new_path := child_of newdir (from_utf8_lossy newname) in
   let! r := send_req Rename old_path new_path in
   match r with
   | Ok _ =>
       let! ino := get (ino_of old_path) in
       (match ino with Some ino => update (record_path ino new_path) | None => Ret tt end) ;!
       send ROk
   | Err _ => send (RError EIO)
   end).

(** A time in seconds from the epoch, or the present. *)
Inductive TimeOrNow := SpecificTime (secs : Z) | Now.

(** The attributes a setattr changes. *)
Record SetAttrs := mkSetAttrs {
  sa_mode : option N; sa_uid : option N; sa_gid : option N; sa_size : option N;
  sa_atime : option TimeOrNow; sa_mtime : option TimeOrNow;
}.

Definition set_part (key : bytes) (v : option N) : list bytes :=
  match v with Some n => [key ++ str "=" ++ dec n] | None => [] end.

(** Only a specific time is sent; one before the epoch counts as the epoch. *)
Definition time_secs (t : option TimeOrNow) : option N :=
  match t with Some (SpecificTime secs) => Some (Z.to_N secs) | _ => None end.

Definition setattr_payload (sa : SetAttrs) : bytes :=
  join (str ";")
    (set_part (str "mode") (sa_mode sa) ++ set_part (str "uid") (sa_uid sa) ++
     set_part (str "gid") (sa_gid sa) ++ set_part (str "size") (sa_size sa) ++
     set_part (str "atime") (time_secs (sa_atime sa)) ++
     set_part (str "mtime") (time_secs (sa_mtime sa))).

Definition fuse_setattr (ino : N) (sa : SetAttrs) : proc unit :=
  with_path ino (fun path =>
    let! r := send_req SetAttr path (setattr_payload sa) in
    match r with
    | Ok data =>
        let '(is_dir, cur_size) := parse_attr data in
        send (RAttr (file_attr ino (default cur_size (sa_size sa)) is_dir))
    | Err _ =>
        let! a := send_req GetAttr path [] in
        match a with
        | Ok data =>
            let '(is_dir, cur_size) := parse_attr data in
            send (RAttr (file_attr ino cur_size is_dir))
        | Err _ => send (RError ENOENT)
        end
    end).

(** ** The operations as messages from the kernel *)
Inductive operation :=
| OpLookup (parent : N) (name : bytes)
| OpGetattr (ino : N)
| OpReaddir (ino offset : N)
| OpOpen (ino : N)
| OpRead (ino offset size : N)
| OpWrite (ino offset : N) (data : bytes)
| OpRelease (ino : N)
| OpOpendir (ino : N)
| OpReleasedir (ino : N)
| OpForget (ino : N)
| OpStatfs (ino : N)
| OpAccess (ino : N)
| OpFlush (ino : N)
| OpFsync (ino : N)
| OpFsyncdir (ino : N)
| OpCreate (parent : N) (name : bytes)
| OpMkdir (parent : N) (name : bytes)
| OpUnlink (parent : N) (name : bytes)
| OpRmdir (parent : N) (name : bytes)
| OpRename (parent : N) (name : bytes) (newparent : N) (newname : bytes)
| OpSetattr (ino : N) (sa : SetAttrs).

Definition perform (op : operation) : proc unit :=
  match op with
  | OpLookup parent name => fuse_lookup parent name
  | OpGetattr ino => fuse_getattr ino
  | OpReaddir ino offset => fuse_readdir ino offset
  | OpOpen ino => fuse_open ino
  | OpRead ino offset size => fuse_read ino offset size
  | OpWrite ino offset data => fuse_write ino offset data
  | OpRelease ino => fuse_release ino
  | OpOpendir ino => fuse_opendir ino
  | OpReleasedir ino => fuse_releasedir ino
  | OpForget ino => fuse_forget ino
  | OpStatfs ino => fuse_statfs ino
  | OpAccess ino => fuse_access ino
  | OpFlush ino => fuse_flush ino
  | OpFsync ino => fuse_fsync ino
  | OpFsyncdir ino => fuse_fsyncdir ino
  | OpCreate parent name => fuse_create parent name
  | OpMkdir parent name => fuse_mkdir parent name
  | OpUnlink parent name => fuse_unlink parent name
  | OpRmdir parent name => fuse_rmdir parent name
  | OpRename parent name newparent newname => fuse_rename parent name newparent newname
  | OpSetattr ino sa => fuse_setattr ino sa
  end.
End operations.

(** * Replies *)

(** The kernel's offsets are signed, so the end of a read does not overflow. *)
Definition valid_op (op : operation) : Prop :=
  match op with OpRead _ offset size => (offset + size < 2 ^ 64)%N | _ => True end.

Definition expects_reply (op : operation) : nat :=
  match op with OpForget _ => 0 | _ => 1 end.

(** What an operation ends with: it returns, having sent that many replies. *)
Definition replied (n : nat) (ms : list reply) (o : outcome Empty_set unit) : Prop :=
  o = ORet tt /\ length ms = n.

Section replies.
Context {ord : IterOrder N bytes}.
Variable full : list dirent -> dirent -> bool.
Abbreviation proc := (proc Fuse Request route_reply reply Empty_set).

(** A part of an operation that sends nothing and returns. *)
Definition quiet {A} (ms : list reply) (o : outcome Empty_set A) : Prop :=
  ms = [] /\ exists a, o = ORet a.

Lemma wp_quiet {A B} (p : proc A) (k : A -> proc B) Q :
  wp p quiet -> (forall a, wp (k a) Q) -> wp (bind p k) Q.
Proof.
  intros Hp Hk. apply wp_bind. eapply wp_mono; [|exact Hp].
  intros ms o [-> [a ->]]. simpl. apply Hk.
Qed.

Lemma quiet_send_req op path data : wp (send_req op path data : proc _) quiet.
Proof. intros r. split; [done|by eexists]. Qed.
Lemma quiet_new_inode path : wp (new_inode path : proc _) quiet.
Proof. intros s s'. split; [done|by eexists]. Qed.
Lemma quiet_parent_path parent : wp (parent_path parent : proc _) quiet.
Proof. intros s. split; [done|by eexists]. Qed.
Lemma quiet_get {A} (f : Fuse -> A) : wp (get f : proc A) quiet.
Proof. intros s. split; [done|by eexists]. Qed.
Lemma quiet_update f : wp (update f : proc unit) quiet.
Proof. intros s. split; [done|by eexists]. Qed.
Lemma quiet_ret {A} (a : A) : wp (Ret a : proc A) quiet.
Proof. split; [done|by eexists]. Qed.
Lemma quiet_list_entries path ls acc : wp (list_entries path ls acc : proc _) quiet.
Proof.
  revert acc. induction ls as [|line ls IH]; intros acc; cbn [list_entries]; [apply quiet_ret|].
  destruct (is_empty (line_name line)); [apply IH|].
  apply wp_quiet; [apply quiet_new_inode|intros; apply IH].
Qed.
Lemma quiet_readdir_entries ino path : wp (readdir_entries ino path : proc _) quiet.
Proof.
  unfold readdir_entries. apply wp_quiet; [case_match; [apply quiet_ret|apply quiet_get]|intros up].
  apply wp_quiet; [apply quiet_send_req|intros [data|e]]; [apply quiet_list_entries|apply quiet_ret].
Qed.

Lemma replied_send m : wp (send m : proc unit) (replied 1).
Proof. by split. Qed.

Lemma replied_with_path ino k :
  (forall path, wp (k path) (replied 1)) -> wp (with_path ino k) (replied 1).
Proof.
  intros Hk. unfold with_path. apply wp_quiet; [apply quiet_get|intros [path|]]; [apply Hk|].
  apply replied_send.
Qed.

Create HintDb quiet.
#[local] Hint Resolve quiet_send_req quiet_new_inode quiet_parent_path quiet_get quiet_update quiet_ret
  quiet_readdir_entries : quiet.

Ltac wp_case := match goal with |- wp (match ?x with _ => _ end) _ => destruct x end.

(** Run through an operation: quiet parts, case distinctions, the reply. *)
Ltac reply_auto :=
  repeat first
    [ apply replied_send
    | apply replied_with_path; intros ?
    | apply wp_quiet; [solve [auto with quiet]|intros ?]
    | match goal with |- wp (if ?b then _ else _) _ => destruct b eqn:? end
    | wp_case
    | match goal with |- wp (let '(_, _) := ?x in _) _ => destruct x end ].

Lemma perform_wp op : valid_op op -> wp (perform full op) (replied (expects_reply op)).
Proof.
  intros Hop. destruct op; cbn [perform expects_reply].
  - unfold fuse_lookup. reply_auto.
  - unfold fuse_getattr. reply_auto.
    all: apply wp_quiet; [|intros found; reply_auto].
    all: wp_case; [apply quiet_ret|apply wp_quiet; [apply quiet_send_req|intros; apply quiet_ret]].
  - unfold fuse_readdir. reply_auto.
  - apply replied_send.
  - unfold fuse_read. reply_auto. simpl in Hop.
    set (end_ := N.min _ _). assert (Hend : N.leb offset end_ = true).
    { unfold end_, u64_wrap. rewrite wrap_small by done. apply N.leb_le.
      match goal with H : N.ltb _ _ = true |- _ => apply N.ltb_lt in H end. lia. }
    rewrite Hend. by split.
  - unfold fuse_write. reply_auto.
  - unfold fuse_release. reply_auto.
  - unfold fuse_opendir. reply_auto.
  - unfold fuse_releasedir. reply_auto.
  - unfold fuse_forget. destruct (N.eqb ino 1); [by split|]. intros s. by split.
  - apply replied_send.
  - apply replied_send.
  - apply replied_send.
  - apply replied_send.
  - apply replied_send.
  - unfold fuse_create. reply_auto.
  - unfold fuse_mkdir. reply_auto.
  - unfold fuse_unlink, fuse_delete. reply_auto.
  - unfold fuse_rmdir, fuse_delete. reply_auto.
  - unfold fuse_rename. reply_auto.
    all: apply wp_quiet; [wp_case; [apply quiet_update|apply quiet_ret]|intros ?; reply_auto].
  - unfold fuse_setattr. reply_auto.
Qed.

(** C13: Every FUSE operation sends the kernel exactly one reply (forget none)
    and returns, whatever the router answers, whatever runs in between and
    whatever the directory buffer holds: no operation is left without a reply,
    answered twice or stopped by a panic. *)
Theorem fuse_one_reply op ms o :
  valid_op op -> may (perform full op) ms o -> replied (expects_reply op) ms o.
Proof. intros Hop. apply wp_sound. by apply perform_wp. Qed.
End replies.

(** * The inode table under interleaving *)

(** Inode 1 is the root and every recorded inode was handed out. *)
Record fuse_wf (f : Fuse) : Prop := {
  fw_root : ino_paths f !! 1%N = Some (str "/");
  fw_inos ino path : ino_paths f !! ino = Some path -> (1 <= ino < ino_next f)%N;
  fw_next : (2 <= ino_next f)%N;
}.

Definition fuse_rely (f f' : Fuse) : Prop := (ino_next f <= ino_next f')%N.

Lemma fuse_rely_preorder : PreOrder fuse_rely.
Proof. split; unfold fuse_rely; [intros f|intros f1 f2 f3]; lia. Qed.

Definition fuse_protocol : protocol Fuse :=
  {| inv := fuse_wf; rely := fuse_rely; used := ino_next; cap := 2 ^ 64;
     rely_preorder := fuse_rely_preorder |}.

(** The kernel names what it renames. *)
Definition named_op (op : operation) : Prop :=
  match op with OpRename _ name _ _ => from_utf8_lossy name <> [] | _ => True end.

Section inv.
Context {ord : IterOrder N bytes}.
Variable full : list dirent -> dirent -> bool.
Abbreviation proc := (proc Fuse Request route_reply reply Empty_set).
Abbreviation any := (fun _ _ => True).
Abbreviation P := fuse_protocol.

(** An inode an operation was given and may record a path for. *)
Definition owned (f : Fuse) (ino : N) : Prop := (2 <= ino < ino_next f)%N.

Lemma keeps_moved f f' :
  fuse_wf f' -> (ino_next f <= ino_next f' <= ino_next f + 1)%N -> keeps P f f'.
Proof. intros Hw [H1 H2]. split; [exact Hw|split; [exact H1|exact H2]]. Qed.

Lemma keeps_record f ino path : fuse_wf f -> owned f ino -> keeps P f (record_path ino path f).
Proof.
  intros [H1 H2 H3] Ho. unfold owned in Ho. apply keeps_moved; [|simpl; lia].
  split; simpl; [|intros i p|done].
  - rewrite lookup_insert_ne by lia. done.
  - rewrite lookup_insert_Some. intros [[<- _]|[_ Hi]]; [lia|by eapply H2].
Qed.

Lemma keeps_next_ino f :
  fuse_wf f -> (ino_next f + 1 < 2 ^ 64)%N ->
  keeps P f (snd (next_ino f)) /\ owned (snd (next_ino f)) (fst (next_ino f)).
Proof.
  intros [H1 H2 H3] Hu.
  assert (Hn : ino_next (snd (next_ino f)) = (ino_next f + 1)%N) by by apply wrap_small.
  split; [apply keeps_moved; [|lia]|unfold owned; rewrite Hn; cbn [fst next_ino]; lia].
  split; rewrite ?Hn; [done| |lia]. intros i p Hi%H2. lia.
Qed.

Lemma keeps_cache f path size : fuse_wf f -> keeps P f (cache_size path size f).
Proof. intros [H1 H2 H3]. apply keeps_moved; [by split|simpl; lia]. Qed.

Lemma keeps_forget f ino : fuse_wf f -> ino <> 1%N -> keeps P f (forget_path ino f).
Proof.
  intros [H1 H2 H3] Hne. apply keeps_moved; [|simpl; lia].
  split; simpl; [by rewrite lookup_delete_ne| |done].
  intros i p [_ Hi]%lookup_delete_Some. by eapply H2.
Qed.

(** The inode a rename moves is not the root: no name leads to [/]. *)
Lemma ino_of_owned f dir name ino :
  fuse_wf f -> name <> [] -> ino_of (child_of dir name) f = Some ino -> owned f ino.
Proof.
  intros [H1 H2 H3] Hne Hi. unfold ino_of in Hi.
  apply fmap_Some in Hi as ([i p] & Hf & ->). apply find_some in Hf as [Hin Hp%bool_decide_eq_true_1].
  apply list_elem_of_In, iter_order_elem in Hin. simpl in *.
  destruct (H2 _ _ Hin) as [Hi1 Hi2]. split; [|done].
  destruct (decide (i = 1%N)) as [->|]; [|lia].
  rewrite H1 in Hin. injection Hin as <-. unfold child_of in Hp.
  apply (f_equal length) in Hp. rewrite !length_app in Hp. destruct name; [done|simpl in Hp; lia].
Qed.

Lemma rg_send m s0 : rg P (send m : proc unit) s0 (ret_post any).
Proof. done. Qed.

Lemma rg_send_req op path data s0 : rg P (send_req op path data : proc _) s0 (ret_post any).
Proof. intros r. done. Qed.

Lemma rg_new_inode path s0 :
  rg P (new_inode path : proc _) s0 (ret_post (fun s ino => owned s ino)).
Proof.
  apply rg_modify. intros s Hr Hi Hu. destruct (keeps_next_ino s Hi Hu) as [Hk Ho].
  split; [exact Hk|]. apply rg_update. intros s' Hr' Hi' _.
  assert (Ho' : owned s' (fst (next_ino s))).
  { change (ino_next (snd (next_ino s)) <= ino_next s')%N in Hr'. unfold owned in *. lia. }
  split; [by apply keeps_record|exact Ho'].
Qed.

Lemma rg_parent_path parent s0 : rg P (parent_path parent : proc _) s0 (ret_post any).
Proof. apply rg_get. intros. done. Qed.

Lemma rg_list_entries path ls acc s0 : rg P (list_entries path ls acc : proc _) s0 (ret_post any).
Proof.
  revert acc s0. induction ls as [|line ls IH]; intros acc s0; cbn [list_entries]; [done|].
  destruct (is_empty (line_name line)); [apply IH|].
  eapply rg_sub; [apply rg_new_inode|intros; apply IH].
Qed.

Lemma rg_readdir_entries ino path s0 : rg P (readdir_entries ino path : proc _) s0 (ret_post any).
Proof.
  unfold readdir_entries. apply rg_sub with any.
  { destruct (N.eqb ino 1); [done|]. intros s Hr Hi _. destruct (keeps_refl P s Hi) as (H1 & H2 & H3).
    by split_and!. }
  intros s up _ _. eapply rg_sub; [apply rg_send_req|intros s' [data|e] _ _]; [|done].
  apply rg_list_entries.
Qed.

Lemma rg_with_path ino k s0 :
  (forall path s, rg P (k path : proc unit) s (ret_post any)) ->
  rg P (with_path ino k) s0 (ret_post any).
Proof.
  intros Hk. apply rg_get. intros s _ _. destruct (path_for ino s); [apply Hk|done].
Qed.

Ltac rg_case :=
  match goal with
  | |- rg _ (if ?b then _ else _) _ _ => destruct b
  | |- rg _ (match ?x with _ => _ end) _ _ => destruct x
  | |- rg _ (let '(_, _) := ?x in _) _ _ => destruct x
  end.

Ltac rg_auto :=
  repeat first
    [ apply rg_send
    | apply rg_with_path; intros ? ?
    | apply rg_get; intros ? ? ?
    | apply rg_update; intros ? ? ? ?; split; [by apply keeps_cache|]
    | eapply rg_sub; [first [apply rg_send_req | apply rg_new_inode | apply rg_parent_path
                            | apply rg_readdir_entries]|intros ? ? ? ?]
    | rg_case ].

Lemma perform_rg op s0 : valid_op op -> named_op op -> rg P (perform full op) s0 (ret_post any).
Proof.
  intros Hv Hn. destruct op; cbn [perform].
  - unfold fuse_lookup. rg_auto.
  - unfold fuse_getattr. rg_auto.
    all: apply rg_sub with any; [rg_case; [done|apply rg_sub with any; [apply rg_send_req|done]]|].
    all: intros; rg_auto.
  - unfold fuse_readdir. rg_auto.
  - apply rg_send.
  - unfold fuse_read. rg_auto. apply rg_unwrap. intros. apply rg_send.
  - unfold fuse_write. rg_auto.
  - unfold fuse_release. rg_auto.
  - unfold fuse_opendir. rg_auto.
  - unfold fuse_releasedir. rg_auto.
  - unfold fuse_forget. destruct (N.eqb_spec ino 1) as [|Hne]; [done|].
    intros s Hr Hi Hu. destruct (keeps_forget s ino Hi Hne) as (H1 & H2 & H3). by split_and!.
  - apply rg_send.
  - apply rg_send.
  - apply rg_send.
  - apply rg_send.
  - apply rg_send.
  - unfold fuse_create. rg_auto.
  - unfold fuse_mkdir. rg_auto.
  - unfold fuse_unlink, fuse_delete. rg_auto.
  - unfold fuse_rmdir, fuse_delete. rg_auto.
  - unfold fuse_rename. eapply rg_sub; [apply rg_parent_path|intros s1 dir _ _].
    eapply rg_sub; [apply rg_parent_path|intros s2 newdir _ _].
    eapply rg_sub; [apply rg_send_req|intros s3 [data|e] _ _]; [|apply rg_send].
    apply rg_get. intros s4 _ Hi4.
    apply rg_sub with any; [|intros; apply rg_send].
    destruct (ino_of _ s4) as [i|] eqn:Hino; [|done].
    apply ino_of_owned in Hino; [|done|done].
    intros s5 Hr5 Hi5 _. destruct (keeps_record s5 i (child_of newdir (from_utf8_lossy newname)))
      as (H1 & H2 & H3); [done| |by split_and!].
    change (ino_next s4 <= ino_next s5)%N in Hr5. unfold owned in *. lia.
  - unfold fuse_setattr. rg_auto.
Qed.

(** The operations of one thread of the session, in order. *)
Fixpoint perform_all (ops : list operation) : proc unit :=
  match ops with
  | [] => Ret tt
  | op :: ops => perform full op ;! perform_all ops
  end.

Lemma perform_all_rg ops s0 :
  Forall valid_op ops -> Forall named_op ops -> rg P (perform_all ops) s0 (ret_post any).
Proof.
  intros Hv. revert s0. induction Hv as [|op ops Hop Hv IH]; intros s0 Hn; [done|].
  inversion Hn; subst. cbn [perform_all]. apply rg_sub with any; [by apply perform_rg|].
  intros s _ _ _. by apply IH.
Qed.

(** At every point of every interleaving of any number of threads of FUSE
    operations, with any router replies, inode 1 stands for the root and every
    inode with a path was handed out by the counter, so no operation can make a
    fresh inode collide with a live one or take the root away. *)
Theorem fuse_table_wf n threads c :
  (N.of_nat n < 2 ^ 64 - 3)%N -> Forall (Forall valid_op) threads -> Forall (Forall named_op) threads ->
  nsteps step n (new_fuse, perform_all <$> threads) c ->
  fuse_wf (fst c).
Proof.
  intros Hn Hv Hnm Hsteps.
  apply (steps_ok P n) in Hsteps as [[Hc _] _]; [exact Hc|simpl; lia|].
  split.
  - split; simpl; [done| |lia]. intros i p [<- _]%lookup_singleton_Some. lia.
  - intros i p Hp. simpl in Hp. rewrite list_lookup_fmap in Hp.
    destruct (threads !! i) as [ops|] eqn:E; [|done]. injection Hp as <-.
    exists new_fuse. split; [unfold fuse_protocol; simpl; unfold fuse_rely; lia|].
    eapply rg_mono; [done|]. apply perform_all_rg; by eapply Forall_lookup_1.
Qed.
End inv.

(** * What the operations do *)
Section effects.
Context {ord : IterOrder N bytes}.
Variable full : list dirent -> dirent -> bool.
Context {W : Type} (backend : W -> Request -> W * route_reply).

(** A FUSE read answers with the bytes of the file between the offset and
    the offset plus the size, nothing past the end, and remembers the file's
    size. *)
Theorem fuse_read_window ino offset size path f b b' resp :
  ino_paths f !! ino = Some path -> (offset + size < 2 ^ 64)%N ->
  backend b (mkRequest Read path []) = (b', Replied (Ok resp)) ->
  run backend (perform full (OpRead ino offset size)) b f =
  (ORet tt, b', cache_size path (lenN (resp_data resp)) f,
   [RData (take (N.to_nat size) (drop (N.to_nat offset) (resp_data resp)))]).
Proof.
  intros Hp Hoff Hback. cbn [perform]. unfold fuse_read, with_path. cbn [get bind run].
  unfold Datatypes.id, path_for. rewrite Hp. unfold send_req. cbn [call bind run]. rewrite Hback.
  set (data := resp_data resp). cbn [bind update run].
  unfold u64_wrap. rewrite wrap_small by done.
  destruct (N.ltb_spec offset (lenN data)) as [Hlt|Hge].
  - rewrite (proj2 (N.leb_le _ _)) by lia. cbn [unwrap bind send run].
    do 3 f_equal. unfold slice. unfold lenN in *.
    destruct (N.le_gt_cases (offset + size) (N.of_nat (length data))).
    + f_equal. lia.
    + rewrite !take_ge; [done|rewrite length_drop; lia..].
  - cbn [send run]. rewrite drop_ge by (unfold lenN in *; lia). by rewrite take_nil.
Qed.

(** C24: A lookup the router accepts hands out a fresh inode for the child's path
    and records it, leaving every other inode as it was; the size it reports is
    the one the getattr text gives. *)
Theorem fuse_lookup_fresh parent name dir d n f b b1 r1 b2 r2 :
  fuse_wf f -> (ino_next f + 1 < 2 ^ 64)%N -> valid_utf8 name = true ->
  name <> str "." -> name <> str ".." -> ino_paths f !! parent = Some dir ->
  let path := if ends_with "/" dir then dir ++ name else dir ++ str "/" ++ name in
  backend b (mkRequest Lookup path []) = (b1, Replied (Ok r1)) ->
  backend b1 (mkRequest GetAttr path []) = (b2, Replied (Ok r2)) ->
  parse_attr (resp_data r2) = (d, n) -> (0 < n)%N ->
  exists f',
    run backend (perform full (OpLookup parent name)) b f =
      (ORet tt, b2, f', [REntry (file_attr (ino_next f) n d)]) /\
    ino_paths f !! ino_next f = None /\
    ino_paths f' = <[ino_next f := path]> (ino_paths f) /\ ino_next f' = (ino_next f + 1)%N.
Proof.
  intros Hw Hu Hutf H1 H2 Hp path Hb1 Hb2 Hattr Hn.
  exists (record_path (ino_next f) path (snd (next_ino f))). split_and!.
  - cbn [perform]. unfold fuse_lookup. rewrite from_utf8_lossy_id by done.
    rewrite !bool_decide_eq_false_2 by done. cbn [orb]. unfold parent_path.
    cbn [get bind run]. unfold Datatypes.id, path_for. rewrite Hp. cbn [default].
    fold path. unfold send_req. cbn [call bind run]. rewrite Hb1. unfold new_inode.
    cbn [modify update bind run call]. rewrite Hb2, Hattr.
    rewrite (proj2 (N.eqb_neq n 0)) by lia. done.
  - destruct (ino_paths f !! ino_next f) as [p|] eqn:E; [|done]. apply Hw in E. lia.
  - done.
  - by apply wrap_small.
Qed.

(** Creating a file asks nobody: the mount hands out an inode for the path and
    answers, and the script's handler of [create] is not called. *)
Theorem fuse_create_asks_nobody parent name f w :
  exists path ino, run backend (perform full (OpCreate parent name)) w f =
    (ORet tt, w, record_path ino path (snd (next_ino f)), [RCreated (file_attr ino 0 false)]).
Proof. eexists _, _. reflexivity. Qed.
End effects.

(** A router that accepts everything and answers as a getattr handler would. *)
Module FuseExample.
Definition backend (n : nat) (rq : Request) : nat * route_reply :=
  (S n, Replied (Ok (mkHandlerResponse (str "mode=file size=5") None false))).
Definition full (out : list dirent) (e : dirent) : bool := false.
Definition renames : list operation :=
  [OpLookup 1 (str "a"); OpLookup 1 (str "a"); OpRename 1 (str "a") 1 (str "b")].
Definition start := (new_fuse, perform_all (ord := default_order) full <$> [[OpCreate 1 (str "f")]]).

Lemma fuse_start_steps : exists c, nsteps step 3 start c /\ ino_paths (fst c) !! 2%N = Some (str "/f").
Proof.
  eexists. split.
  - do 3 (eapply nsteps_l; [eapply (step_at _ _ 0); [reflexivity|]; vm_compute; apply act_lock|]).
    apply nsteps_O.
  - vm_compute. reflexivity.
Qed.
End FuseExample.

(** A rename moves one inode only: when a name was looked up twice, which
    gives it two inodes, one of them keeps the old path after the rename and its
    reads go to a path that is gone. *)
Theorem rename_leaves_stale_inode :
  match run FuseExample.backend
          (perform_all (ord := default_order) FuseExample.full FuseExample.renames) 0 new_fuse with
  | (o, _, f, replies) =>
      o = ORet tt /\ length replies = 3 /\
      exists i j, i <> j /\ ino_paths f !! i = Some (str "/b") /\ ino_paths f !! j = Some (str "/a")
  end.
Proof.
  destruct (run _ _ _ _) as [[[o w] f] replies] eqn:E. vm_compute in E. injection E as <- <- <- <-.
  split_and!; [reflexivity..|].
  first [exists 2%N, 3%N; split_and!; [done|vm_compute; reflexivity..]
        |exists 3%N, 2%N; split_and!; [done|vm_compute; reflexivity..]].
Qed.

(** The decimal digits of a number are visible characters. *)
Lemma dec_graphic n : dec n <> [] /\ forallb graphic (dec n) = true.
Proof.
  split.
  { destruct (dec_digit_head (N.to_nat (N.size n)) n) as (b & t & E & _).
    change (dec_digits _ n) with (dec n) in E. by rewrite E. }
  unfold dec. generalize (S (N.to_nat (N.size n))) as fuel. intros fuel. revert n.
  assert (Hd : forall k, (k < 10)%N -> graphic (chr (48 + k)) = true).
  { intros k Hk. unfold graphic, in_range. rewrite ord_chr. unfold u8_wrap.
    rewrite wrap_small by (change (2 ^ 8)%N with 256%N; lia).
    apply andb_true_iff. split; apply N.leb_le; lia. }
  induction fuel as [|fuel IH]; intros n; cbn [dec_digits]; [done|].
  rewrite forallb_app. apply andb_true_iff. split.
  - by destruct (n <? 10)%N.
  - cbn [forallb]. rewrite Hd; [done|]. by apply N.mod_lt.
Qed.

(** The attribute text a getattr handler writes is read back: [mode=dir
    size=N] and [mode=file size=N] give the kind and the size, for every size of
    64 bits, and the text a setattr sends for a size change, [size=N], gives the
    size to a handler that reads it the same way. *)
Theorem parse_attr_text (d : bool) n :
  (n < 2 ^ 64)%N ->
  let text := str "mode=" ++ (if d then str "dir" else str "file") ++ str " size=" ++ dec n in
  let change := setattr_payload (mkSetAttrs None None None (Some n) None None) in
  parse_attr text = (d, n) /\ parse_attr_size text = Some n /\
  change = str "size=" ++ dec n /\ parse_attr_size change = Some n.
Proof.
  intros Hn text change. destruct (dec_graphic n) as [Hne Hg].
  assert (Hc : change = str "size=" ++ dec n) by reflexivity.
  set (mode := str "mode=" ++ (if d then str "dir" else str "file")).
  assert (Ht : text = join (str " ") [mode; str "size=" ++ dec n]).
  { unfold text, mode. cbn [join]. rewrite <-!app_assoc. reflexivity. }
  assert (Hm : mode <> [] /\ forallb graphic mode = true)
    by (unfold mode; destruct d; split; [discriminate|vm_compute; reflexivity|discriminate|vm_compute; reflexivity]).
  assert (Hs : str "size=" ++ dec n <> [] /\ forallb graphic (str "size=" ++ dec n) = true).
  { split; [discriminate|]. rewrite forallb_app, Hg. by vm_compute. }
  assert (Wt : split_whitespace (from_utf8_lossy text) = [mode; str "size=" ++ dec n])
    by (rewrite Ht; apply split_lossy_words; repeat (constructor; [done|]); constructor).
  assert (Wc : split_whitespace (from_utf8_lossy change) = [str "size=" ++ dec n])
    by (apply (split_lossy_words _ []); repeat (constructor; [done|]); constructor).
  unfold parse_attr, parse_attr_size. rewrite Wt, Wc.
  assert (Hsz : strip_prefix (str "size=") (str "size=" ++ dec n) = Some (dec n)) by apply strip_prefix_app.
  assert (Hsm : strip_prefix (str "mode=") (str "size=" ++ dec n) = None) by reflexivity.
  split_and!; [| |exact Hc|].
  - unfold mode. cbn [attr_parts]. rewrite strip_prefix_app, Hsm, Hsz, parse_u64_dec by done.
    by destruct d.
  - cbn [size_part]. assert (strip_prefix (str "size=") mode = None) as -> by (by destruct d).
    by rewrite Hsz, parse_u64_dec.
  - cbn [size_part]. by rewrite Hsz, parse_u64_dec.
Qed.

(** * The theorems at concrete inputs *)
Lemma fuse_one_reply_witness :
  replied 1 [RWritten 0] (ORet tt : outcome Empty_set unit) /\
  replied 1 [RError ENOENT] (ORet tt : outcome Empty_set unit).
Proof.
  split; [by split|].
  apply (fuse_one_reply (ord := default_order) FuseExample.full (OpWrite 9 0 [])); [exact I|].
  vm_compute. apply (may_lock _ _ new_fuse). vm_compute. repeat constructor.
Defined.

Lemma fuse_table_wf_witness :
  exists c, nsteps step 3 FuseExample.start c /\ fuse_wf (fst c) /\ ino_paths (fst c) !! 2%N = Some (str "/f").
Proof.
  destruct FuseExample.fuse_start_steps as (c & Hc & Hf). exists c. split; [exact Hc|]. split; [|exact Hf].
  apply (fuse_table_wf (ord := default_order) FuseExample.full 3 [[OpCreate 1 (str "f")]] c);
    [reflexivity|repeat constructor|repeat constructor|exact Hc].
Defined.

Lemma fuse_read_window_witness :
  run FuseExample.backend (perform (ord := default_order) FuseExample.full (OpRead 1 5 4)) 0 new_fuse =
  (ORet tt, 1, cache_size (str "/") 16 new_fuse, [RData (str "file")]).
Proof.
  apply (fuse_read_window (ord := default_order) FuseExample.full FuseExample.backend 1 5 4 (str "/")
    new_fuse 0 1 (mkHandlerResponse (str "mode=file size=5") None false)); reflexivity.
Defined.

Lemma fuse_lookup_fresh_witness :
  exists f',
    run FuseExample.backend (perform (ord := default_order) FuseExample.full (OpLookup 1 (str "a"))) 0 new_fuse =
      (ORet tt, 2, f', [REntry (file_attr 2 5 false)]) /\
    ino_paths f' = <[2%N := str "/a"]> (ino_paths new_fuse).
Proof.
  destruct (fuse_lookup_fresh (ord := default_order) FuseExample.full FuseExample.backend 1 (str "a") (str "/")
    false 5 new_fuse 0 1 (mkHandlerResponse (str "mode=file size=5") None false) 2
    (mkHandlerResponse (str "mode=file size=5") None false)) as (f' & H1 & _ & H2 & _);
    [split; simpl; [reflexivity| |lia]|reflexivity|reflexivity|discriminate|discriminate|reflexivity
    |reflexivity|reflexivity|vm_compute; reflexivity|lia|].
  - intros i p [<- _]%lookup_singleton_Some. lia.
  - exists f'. split; [exact H1|exact H2].
Defined.

Lemma parse_attr_text_witness :
  (4096 < 2 ^ 64)%N /\ parse_attr (str "mode=dir size=4096") = (true, 4096%N).
Proof.
  split; [reflexivity|]. exact (proj1 (parse_attr_text true 4096 eq_refl)).
Defined.
