(* ===== verification/Handler.v ===== *)
(** The Lua handler runtime ([src/src/handler.rs]): what the host functions of
    [route.*], [fuse.*], [ninep.*], [sshfs.*] and [worker.*] record while the
    user's script runs, in [compile] and again in each worker's
    [from_bytecodes], and how a request calls the function registered for it.

    Lua itself (the [mlua] crate) is a parameter.  A [script] is one run of the
    user's script: the tree of the host calls it makes, each continuation a
    function of the call's answer; arguments are the values [mlua] converts them
    to, a Lua function is an element of [F], and [apply] calls one in a Lua state
    of type [L].  [compile] runs the script, and every worker runs it again; the
    runs of one text differ when it looks at what changes between them (the
    environment, files, databases, the time), or calls a function of the
    configuration with arguments that [compile] refuses and a worker's stub
    accepts.  [workers_hold_registered_functions] is about two runs that need not
    be the same; the theorems that have one run for both say what holds when they
    are. *)
From S2P Require Import Prelude RustStr Router.

(** * Data *)
Record Config := mkConfig {
  fuse_mounts : list bytes;
  ninep_listeners : list bytes;
  sshfs_listeners : list bytes;
  sshfs_password : option bytes;
  sshfs_authorized_keys_path : option bytes;
  sshfs_userpasswds : list (bytes * bytes);
  tls_cert_path : option bytes;
  tls_key_path : option bytes;
  ninep_max_conns : option N;
  sshfs_max_conns : option N;
}.

Definition default_config : Config := mkConfig [] [] [] None None [] None None None None.

Record WorkerConfig := mkWorkerConfig { min_workers : N; max_workers : N; ttl_secs : N }.

Definition default_worker_config : WorkerConfig := mkWorkerConfig 1 4 60.

(** The second argument of [route.register]; of a table, the values in the
    order of iteration, [None] for those that are not strings. *)
Inductive ops_val :=
| OpsNil
| OpsBool (b : bool)
| OpsString (s : bytes)
| OpsTable (vals : list (option bytes))
| OpsOther.

(** How a host call fails: on a string that is not UTF-8, or with a message. *)
Inductive api_error := BadUtf8 | RuntimeError (msg : bytes).

(** The host calls of a script. *)
Inductive api_call (F : Type) :=
| RouteRegister (pattern : bytes) (ops : ops_val) (func : F)
| RouteBundle (name pattern : bytes) (func : F)
| RouteBundleDefault (name : bytes) (func : F)
| RouteDefault (func : F)
| FuseMount (path : bytes) | FuseUnmount (path : bytes) | FuseUnmountAll
| NinepListen (addr : bytes) | NinepKill (addr : bytes) | NinepKillAll
| NinepTlsCert (path : bytes) | NinepTlsKey (path : bytes) | NinepConn (n : N)
| SshfsListen (addr : bytes) | SshfsKill (addr : bytes) | SshfsKillAll
| SshfsPassword (pw : bytes) | SshfsAuthorizedKeys (path : bytes)
| SshfsUserpasswd (user pw : bytes) | SshfsConn (n : N)
| WorkerMin (n : N) | WorkerMax (n : N) | WorkerTtl (s : N).
Arguments RouteRegister {F} _ _ _.
Arguments RouteBundle {F} _ _ _.
Arguments RouteBundleDefault {F} _ _.
Arguments RouteDefault {F} _.
Arguments FuseMount {F} _.
Arguments FuseUnmount {F} _.
Arguments FuseUnmountAll {F}.
Arguments NinepListen {F} _.
Arguments NinepKill {F} _.
Arguments NinepKillAll {F}.
Arguments NinepTlsCert {F} _.
Arguments NinepTlsKey {F} _.
Arguments NinepConn {F} _.
Arguments SshfsListen {F} _.
Arguments SshfsKill {F} _.
Arguments SshfsKillAll {F}.
Arguments SshfsPassword {F} _.
Arguments SshfsAuthorizedKeys {F} _.
Arguments SshfsUserpasswd {F} _ _.
Arguments SshfsConn {F} _.
Arguments WorkerMin {F} _.
Arguments WorkerMax {F} _.
Arguments WorkerTtl {F} _.

(** A run of a script: the calls it makes, until it ends or raises an error. *)
Inductive script (F : Type) :=
| Finish
| Raise (msg : bytes)
| Do (c : api_call F) (k : result unit api_error -> script F).
Arguments Finish {F}.
Arguments Raise {F} _.
Arguments Do {F} _ _.

(** * Route registration *)

(** [format!("__route_{}", routes.len())] *)
Definition route_name (n : nat) : bytes := str "__route_" ++ dec (N.of_nat n).

(** The values of a table that are strings; one that is not UTF-8 is an error. *)
Fixpoint table_ops (vals : list (option bytes)) : result (list bytes) api_error :=
  match vals with
  | [] => Ok []
  | None :: vals => table_ops vals
  | Some s :: vals =>
      if valid_utf8 s then result_map (cons s) (table_ops vals) else Err BadUtf8
  end.

Definition parse_ops (ops : ops_val) : result (list bytes) api_error :=
  match ops with
  | OpsNil | OpsBool true => Ok []
  | OpsString s => if valid_utf8 s then Ok [s] else Err BadUtf8
  | OpsTable vals => table_ops vals
  | OpsBool false | OpsOther =>
      Err (RuntimeError (str "ops must be a string, table, nil, or true"))
  end.

(** The convenience wrappers and the operations each registers. *)
Definition bundles : list (bytes * list bytes) := [
  (str "read", [str "lookup"; str "getattr"; str "open"; str "read"; str "release"; str "flush"]);
  (str "write", [str "lookup"; str "getattr"; str "open"; str "read"; str "write"; str "release";
                 str "flush"; str "fsync"; str "create"]);
  (str "readdir", [str "lookup"; str "getattr"; str "opendir"; str "readdir"; str "releasedir"]);
  (str "create", [str "lookup"; str "getattr"; str "create"; str "open"; str "read"; str "write";
                  str "release"; str "flush"]);
  (str "unlink", [str "unlink"; str "lookup"; str "getattr"]);
  (str "lookup", [str "lookup"]);
  (str "getattr", [str "getattr"]);
  (str "open", [str "open"]);
  (str "release", [str "release"]);
  (str "mkdir", [str "mkdir"; str "lookup"; str "getattr"; str "opendir"; str "readdir";
                 str "releasedir"]);
  (str "all", [])
].

Definition bundle_ops (name : bytes) : option (list bytes) :=
  snd <$> List.find (fun b => bool_decide (fst b = name)) bundles.

Definition catch_all : bytes := str "/{*path}".

(** [route.foo] is [nil] when there is no such wrapper, and calling it fails. *)
Definition no_bundle : api_error := RuntimeError (str "attempt to call a nil value").

(** ** The tables a run of the script fills *)
Section runtime.
Context {F : Type}.

Record Routes := mkRoutes {
  routes : list RouteRegistration;
  funcs : gmap bytes F;
  default_handler : option F;
}.

Definition no_routes : Routes := mkRoutes [] ∅ None.

Definition register (pattern : bytes) (ops : list bytes) (func : F) (s : Routes) : Routes :=
  let name := route_name (length (routes s)) in
  mkRoutes (routes s ++ [mkRouteRegistration pattern name ops]) (<[name := func]> (funcs s))
    (default_handler s).

(** The convenience wrappers, the same function in [compile] and in the workers. *)
Definition bundle_call (name pattern : bytes) (func : F) (s : Routes) : Routes * result unit api_error :=
  match bundle_ops name with
  | Some ops => (register pattern ops func s, Ok tt)
  | None => (s, Err no_bundle)
  end.

(** The [route] table of [compile]. *)
Definition route_call (c : api_call F) (s : Routes) : Routes * result unit api_error :=
  match c with
  | RouteRegister pattern ops func =>
      match parse_ops ops with
      | Ok ops => (register pattern ops func s, Ok tt)
      | Err e => (s, Err e)
      end
  | RouteBundle name pattern func => bundle_call name pattern func s
  | RouteBundleDefault name func => bundle_call name catch_all func s
  | RouteDefault func => (mkRoutes (routes s) (funcs s) (Some func), Ok tt)
  | _ => (s, Ok tt)
  end.

(** The tables of a worker: a [route] table of its own, and stubs for the tables of
    the configuration, which accept any arguments and do nothing. *)
Definition stub : result unit api_error := Ok tt.

Definition worker_host (c : api_call F) (s : Routes) : Routes * result unit api_error :=
  match c with
  | RouteRegister pattern ops_val func =>
      let name := route_name (length (routes s)) in
      match parse_ops ops_val with
      | Err e => (s, Err e)
      | Ok ops =>
          (mkRoutes (routes s ++ [mkRouteRegistration pattern name ops]) (<[name := func]> (funcs s))
             (default_handler s), Ok tt)
      end
  | RouteDefault func => (mkRoutes (routes s) (funcs s) (Some func), Ok tt)
  | RouteBundle name pattern func => bundle_call name pattern func s
  | RouteBundleDefault name func => bundle_call name catch_all func s
  | _ => (s, stub)
  end.

(** The configuration tables of [compile]; in the workers they do nothing. *)
Definition retain_ne (x : bytes) (l : list bytes) : list bytes :=
  List.filter (fun y => negb (bool_decide (y = x))) l.

Definition set_fuse_mounts (l : list bytes) (c : Config) : Config :=
  mkConfig l (ninep_listeners c) (sshfs_listeners c) (sshfs_password c)
    (sshfs_authorized_keys_path c) (sshfs_userpasswds c) (tls_cert_path c) (tls_key_path c)
    (ninep_max_conns c) (sshfs_max_conns c).
Definition set_ninep_listeners (l : list bytes) (c : Config) : Config :=
  mkConfig (fuse_mounts c) l (sshfs_listeners c) (sshfs_password c)
    (sshfs_authorized_keys_path c) (sshfs_userpasswds c) (tls_cert_path c) (tls_key_path c)
    (ninep_max_conns c) (sshfs_max_conns c).
Definition set_sshfs_listeners (l : list bytes) (c : Config) : Config :=
  mkConfig (fuse_mounts c) (ninep_listeners c) l (sshfs_password c)
    (sshfs_authorized_keys_path c) (sshfs_userpasswds c) (tls_cert_path c) (tls_key_path c)
    (ninep_max_conns c) (sshfs_max_conns c).

Definition fuse_call (call : api_call F) (c : Config) : Config :=
  match call with
  | FuseMount p => set_fuse_mounts (fuse_mounts c ++ [p]) c
  | FuseUnmount p => set_fuse_mounts (retain_ne p (fuse_mounts c)) c
  | FuseUnmountAll => set_fuse_mounts [] c
  | _ => c
  end.

Definition ninep_call (call : api_call F) (c : Config) : Config :=
  match call with
  | NinepListen a => set_ninep_listeners (ninep_listeners c ++ [a]) c
  | NinepKill a => set_ninep_listeners (retain_ne a (ninep_listeners c)) c
  | NinepKillAll => set_ninep_listeners [] c
  | NinepTlsCert p =>
      mkConfig (fuse_mounts c) (ninep_listeners c) (sshfs_listeners c) (sshfs_password c)
        (sshfs_authorized_keys_path c) (sshfs_userpasswds c) (Some p) (tls_key_path c)
        (ninep_max_conns c) (sshfs_max_conns c)
  | NinepTlsKey p =>
      mkConfig (fuse_mounts c) (ninep_listeners c) (sshfs_listeners c) (sshfs_password c)
        (sshfs_authorized_keys_path c) (sshfs_userpasswds c) (tls_cert_path c) (Some p)
        (ninep_max_conns c) (sshfs_max_conns c)
  | NinepConn n =>
      mkConfig (fuse_mounts c) (ninep_listeners c) (sshfs_listeners c) (sshfs_password c)
        (sshfs_authorized_keys_path c) (sshfs_userpasswds c) (tls_cert_path c) (tls_key_path c)
        (Some n) (sshfs_max_conns c)
  | _ => c
  end.

Definition sshfs_call (call : api_call F) (c : Config) : Config :=
  match call with
  | SshfsListen a => set_sshfs_listeners (sshfs_listeners c ++ [a]) c
  | SshfsKill a => set_sshfs_listeners (retain_ne a (sshfs_listeners c)) c
  | SshfsKillAll => set_sshfs_listeners [] c
  | SshfsPassword pw =>
      mkConfig (fuse_mounts c) (ninep_listeners c) (sshfs_listeners c) (Some pw)
        (sshfs_authorized_keys_path c) (sshfs_userpasswds c) (tls_cert_path c) (tls_key_path c)
        (ninep_max_conns c) (sshfs_max_conns c)
  | SshfsAuthorizedKeys p =>
      mkConfig (fuse_mounts c) (ninep_listeners c) (sshfs_listeners c) (sshfs_password c)
        (Some p) (sshfs_userpasswds c) (tls_cert_path c) (tls_key_path c)
        (ninep_max_conns c) (sshfs_max_conns c)
  | SshfsUserpasswd u pw =>
      mkConfig (fuse_mounts c) (ninep_listeners c) (sshfs_listeners c) (sshfs_password c)
        (sshfs_authorized_keys_path c) (sshfs_userpasswds c ++ [(u, pw)]) (tls_cert_path c)
        (tls_key_path c) (ninep_max_conns c) (sshfs_max_conns c)
  | SshfsConn n =>
      mkConfig (fuse_mounts c) (ninep_listeners c) (sshfs_listeners c) (sshfs_password c)
        (sshfs_authorized_keys_path c) (sshfs_userpasswds c) (tls_cert_path c) (tls_key_path c)
        (ninep_max_conns c) (Some n)
  | _ => c
  end.

Definition config_call (call : api_call F) (c : Config) : Config :=
  fuse_call call (ninep_call call (sshfs_call call c)).

Definition worker_call (call : api_call F) (w : WorkerConfig) : WorkerConfig :=
  match call with
  | WorkerMin n => mkWorkerConfig n (max_workers w) (ttl_secs w)
  | WorkerMax n => mkWorkerConfig (min_workers w) n (ttl_secs w)
  | WorkerTtl s => mkWorkerConfig (min_workers w) (max_workers w) s
  | _ => w
  end.

(** ** Running a script *)
Fixpoint exec {S : Type} (host : api_call F -> S -> S * result unit api_error)
    (p : script F) (s : S) : S * result unit bytes :=
  match p with
  | Finish => (s, Ok tt)
  | Raise msg => (s, Err msg)
  | Do c k => let '(s, r) := host c s in exec host (k r) s
  end.

Definition compile_host (c : api_call F) (s : Routes * Config * WorkerConfig) :
    (Routes * Config * WorkerConfig) * result unit api_error :=
  let '(rs, cfg, w) := s in
  let '(rs, r) := route_call c rs in
  (rs, config_call c cfg, worker_call c w, r).

Definition script_error (msg : bytes) : bytes := str "Lua script error: " ++ msg.

(** [HandlerRuntime::compile]; the shared bytecodes are the script itself, here its
    run, which a worker repeats when nothing it looks at has changed. *)
Definition compile (p : script F) :
    result (Config * list RouteRegistration * script F * WorkerConfig) bytes :=
  match exec compile_host p (no_routes, default_config, default_worker_config) with
  | (rs, cfg, w, Ok tt) => Ok (cfg, routes rs, p, w)
  | (_, Err msg) => Err (script_error msg)
  end.

Record HandlerRuntime := mkHandlerRuntime { rt_funcs : gmap bytes F; rt_default : option F }.

(** [HandlerRuntime::from_bytecodes], on the run the worker makes *)
Definition from_bytecodes (p : script F) : result HandlerRuntime bytes :=
  match exec worker_host p no_routes with
  | (rs, Ok tt) => Ok (mkHandlerRuntime (funcs rs) (default_handler rs))
  | (_, Err msg) => Err (script_error msg)
  end.

(** ** Calling a handler *)
Context {L : Type}.
(** A Lua call with the parameters and the payload, [None] for [nil]; the
    result is the string it returns, or the error it raises. *)
Variable apply : F -> L -> gmap bytes bytes -> option bytes -> L * result bytes bytes.

Definition call_lua (rt : HandlerRuntime) (l : L) (req : HandlerRequest) :
    L * result HandlerResponse bytes :=
  let func := match rt_funcs rt !! hreq_handler_name req with
              | Some f => Some f
              | None => rt_default rt
              end in
  match func with
  | None => (l, Err (str "no handler for `" ++ hreq_handler_name req ++
                     str "` and no default handler"))
  | Some f =>
      let data_val := if is_empty (hreq_data req) then None else Some (hreq_data req) in
      match apply f l (hreq_params req) data_val with
      | (l, Ok s) => (l, Ok (mkHandlerResponse s None false))
      | (l, Err e) => (l, Err (str "Lua handler error: " ++ e))
      end
  end.
End runtime.
Arguments config_call {F} _ _.
Arguments worker_call {F} _ _.
Arguments Routes F : clear implicits.
Arguments HandlerRuntime F : clear implicits.

(** * What a script registers *)

(** An accepted registration: the pattern, the operations and the function. *)
Section registrations.
Context {F : Type}.

Definition accepted (c : api_call F) : option (bytes * list bytes * F) :=
  match c with
  | RouteRegister pattern ops func =>
      match parse_ops ops with Ok ops => Some (pattern, ops, func) | Err _ => None end
  | RouteBundle name pattern func => (fun ops => (pattern, ops, func)) <$> bundle_ops name
  | RouteBundleDefault name func => (fun ops => (catch_all, ops, func)) <$> bundle_ops name
  | _ => None
  end.

(** The answer of a host call does not depend on what was recorded before. *)
Definition reply_of (c : api_call F) : result unit api_error := snd (route_call c no_routes).

(** The calls a script makes, and how it ends. *)
Fixpoint calls (p : script F) : list (api_call F) :=
  match p with Do c k => c :: calls (k (reply_of c)) | _ => [] end.
Fixpoint ending (p : script F) : result unit bytes :=
  match p with Finish => Ok tt | Raise msg => Err msg | Do c k => ending (k (reply_of c)) end.

Definition registrations (p : script F) : list (bytes * list bytes * F) := omap accepted (calls p).

(** The record [compile] keeps of the [i]-th registration. *)
Definition named (i : nat) (r : bytes * list bytes * F) : RouteRegistration :=
  mkRouteRegistration (fst (fst r)) (route_name i) (snd (fst r)).

(** The function of the last registration that claimed a pattern and a key, and
    the one in force for an operation. *)
Definition last_claim (rs : list (bytes * list bytes * F)) (p key : bytes) : option F :=
  snd <$> last (List.filter (fun r => bool_decide (rr_pattern (named 0 r) = p) &&
                                      bool_decide (key ∈ route_keys (named 0 r))) rs).
Definition func_in_force (rs : list (bytes * list bytes * F)) (p : bytes) (op : FsOperation) : option F :=
  match last_claim rs p (as_str op) with
  | Some f => Some f
  | None => last_claim rs p (str "*")
  end.

(** ** Lemmas *)
Lemma route_name_inj i j : route_name i = route_name j -> i = j.
Proof. unfold route_name. intros ?%app_inv_head%dec_inj. lia. Qed.

Lemma worker_host_call c (s : Routes F) : worker_host c s = route_call c s.
Proof. by destruct c; cbn; try case_match. Qed.

Lemma route_call_reply c (s : Routes F) : snd (route_call c s) = reply_of c.
Proof. unfold reply_of. destruct c; cbn; unfold bundle_call; try done; by case_match. Qed.

Lemma exec_calls {S} (host : api_call F -> S -> S * result unit api_error) p s :
  (forall c s, snd (host c s) = reply_of c) ->
  exec host p s = (fold_left (fun s c => fst (host c s)) (calls p) s, ending p).
Proof.
  intros Hr. revert s. induction p as [| |c k IH]; intros s; [done..|]. cbn [exec calls ending fold_left].
  specialize (Hr c s). destruct (host c s) as [s' r]. simpl in *. subst r. apply IH.
Qed.

(** The routes and the functions after some calls. *)
Lemma route_calls cs :
  let s := fold_left (fun s c => fst (route_call c s)) cs (no_routes (F := F)) in
  let rs := omap accepted cs in
  routes s = imap named rs /\ (forall i, funcs s !! route_name i = snd <$> rs !! i).
Proof.
  induction cs as [|c cs IH] using rev_ind; [by split|]. cbn zeta in *.
  rewrite fold_left_app, omap_app. cbn [fold_left]. revert IH.
  generalize (fold_left (fun s c => fst (route_call c s)) cs (no_routes (F := F))) as s.
  generalize (omap accepted cs) as rs. clear cs. intros rs s [Hr Hf].
  assert (Hlen : length (routes s) = length rs) by by rewrite Hr, length_imap.
  assert (Hreg : forall pattern ops func,
    let s' := register pattern ops func s in
    routes s' = imap named (rs ++ [(pattern, ops, func)]) /\
    (forall i, funcs s' !! route_name i = snd <$> (rs ++ [(pattern, ops, func)]) !! i)).
  { intros pattern ops func. split.
    - rewrite imap_app, <-Hr. cbn. unfold named at 1. cbn. by rewrite Nat.add_0_r, Hlen.
    - intros i. unfold register. cbn [funcs]. rewrite Hlen. destruct (decide (i = length rs)) as [->|Hne].
      + by rewrite lookup_insert_eq, list_lookup_middle.
      + rewrite lookup_insert_ne by by intros ?%route_name_inj. rewrite Hf.
        destruct (decide (i < length rs)); [by rewrite lookup_app_l|].
        rewrite !lookup_ge_None_2; [done|rewrite length_app; simpl; lia|lia]. }
  assert (Hsame : routes s = imap named (rs ++ []) /\
    forall i, funcs s !! route_name i = snd <$> (rs ++ []) !! i) by by rewrite app_nil_r.
  destruct c; cbn [route_call accepted omap list_omap fst option_fmap option_map fmap];
    unfold bundle_call; try (exact Hsame); try (case_match; [apply Hreg|exact Hsame]).
Qed.

Definition routes_after (cs : list (api_call F)) : Routes F :=
  fold_left (fun s c => fst (route_call c s)) cs no_routes.
Definition config_after (cs : list (api_call F)) : Config :=
  fold_left (fun s c => config_call c s) cs default_config.
Definition worker_config_after (cs : list (api_call F)) : WorkerConfig :=
  fold_left (fun s c => worker_call c s) cs default_worker_config.

Lemma compile_host_calls (cs : list (api_call F)) rs cfg w :
  fold_left (fun s c => fst (compile_host c s)) cs (rs, cfg, w) =
  (fold_left (fun s c => fst (route_call c s)) cs rs,
   fold_left (fun s c => config_call c s) cs cfg, fold_left (fun s c => worker_call c s) cs w).
Proof.
  revert rs cfg w. induction cs as [|c cs IH]; intros rs cfg w; [done|]. cbn [fold_left].
  unfold compile_host at 2. destruct (route_call c rs) as [rs' r]. cbn [fst]. apply IH.
Qed.

Lemma compile_run p :
  compile p =
  match ending p with
  | Ok _ => Ok (config_after (calls p), imap named (registrations p), p, worker_config_after (calls p))
  | Err msg => Err (script_error msg)
  end.
Proof.
  unfold compile. rewrite exec_calls.
  2:{ intros c [[rs cfg] w]. unfold compile_host. rewrite <-(route_call_reply c rs).
      by destruct (route_call c rs). }
  rewrite compile_host_calls. destruct (route_calls (calls p)) as [Hr _]. cbn zeta in Hr.
  rewrite Hr. by destruct (ending p) as [[]|].
Qed.

Lemma from_bytecodes_run p :
  from_bytecodes p =
  match ending p with
  | Ok _ => Ok (mkHandlerRuntime (funcs (routes_after (calls p))) (default_handler (routes_after (calls p))))
  | Err msg => Err (script_error msg)
  end.
Proof.
  unfold from_bytecodes. rewrite exec_calls by (intros c s; rewrite worker_host_call; apply route_call_reply).
  assert (E : forall cs (s : Routes F), fold_left (fun s c => fst (worker_host c s)) cs s =
    fold_left (fun s c => fst (route_call c s)) cs s).
  { induction cs as [|c cs IH]; intros s; [done|]. cbn [fold_left]. by rewrite worker_host_call, IH. }
  rewrite E. by destruct (ending p) as [[]|].
Qed.

(** The handler of the registration in force is filed under the function in
    force. *)
Lemma last_claim_func (rs : list (bytes * list bytes * F)) (fs : gmap bytes F) p key :
  (forall i, fs !! route_name i = snd <$> rs !! i) ->
  last_claim rs p key = last (claims (imap named rs) p key) ≫= fun r => fs !! rr_handler_name r.
Proof.
  intros Hfs.
  assert (Hgen : forall pre post, rs = pre ++ post ->
    last_claim pre p key = last (claims (imap named pre) p key) ≫= fun r => fs !! rr_handler_name r).
  { intros pre. induction pre as [|r pre IH] using rev_ind; intros post Hrs; [done|].
    unfold last_claim, claims. rewrite imap_app, !List.filter_app. cbn [imap List.filter].
    rewrite Nat.add_0_r.
    change (rr_pattern (named (length pre) r)) with (rr_pattern (named 0 r)).
    change (route_keys (named (length pre) r)) with (route_keys (named 0 r)).
    destruct (_ && _).
    - rewrite !last_snoc. cbn [fmap option_fmap option_map mbind option_bind named rr_handler_name].
      rewrite Hfs, Hrs, <-app_assoc. cbn [app]. by rewrite list_lookup_middle.
    - rewrite !app_nil_r. apply (IH (r :: post)). by rewrite Hrs, <-app_assoc. }
  apply (Hgen rs []). by rewrite app_nil_r.
Qed.

(** The registration in force is one of the registrations. *)
Lemma in_force_registered rs p op r : in_force rs p op = Some r -> r ∈ rs.
Proof.
  assert (H : forall key, last (claims rs p key) = Some r -> r ∈ rs).
  { intros key [l' E]%last_Some. assert (Hin : r ∈ claims rs p key) by (rewrite E; set_solver).
    apply list_elem_of_In, List.filter_In in Hin as [Hin _]. by apply list_elem_of_In. }
  unfold in_force. destruct (last (claims rs p (as_str op))) as [r'|] eqn:E; [|apply H].
  intros [= <-]. by apply (H (as_str op)).
Qed.

Lemma in_force_func (rs : list (bytes * list bytes * F)) (fs : gmap bytes F) p op :
  (forall i, fs !! route_name i = snd <$> rs !! i) ->
  func_in_force rs p op = in_force (imap named rs) p op ≫= fun r => fs !! rr_handler_name r.
Proof.
  intros Hfs. unfold func_in_force, in_force. rewrite !(last_claim_func rs fs) by done.
  destruct (last (claims (imap named rs) p (as_str op))) as [r|] eqn:E; [|done].
  cbn [mbind option_bind].
  assert (Hin : r ∈ imap named rs) by (apply (in_force_registered _ p op); unfold in_force; by rewrite E).
  apply elem_of_lookup_imap in Hin as (i & r0 & -> & Hi).
  cbn [named rr_handler_name]. by rewrite Hfs, Hi.
Qed.
End registrations.

(** ** The lists of the configuration *)
Section lists.
Context {F : Type}.

(** The last call that concerns [x] added it. *)
Definition added (add del : bytes -> api_call F) (clear : api_call F) (cs : list (api_call F))
    (x : bytes) : Prop :=
  exists pre post, cs = pre ++ add x :: post /\ del x ∉ post /\ clear ∉ post.

Lemma added_snoc add del clear cs c x :
  added add del clear (cs ++ [c]) x <->
  c = add x \/ (added add del clear cs x /\ c <> del x /\ c <> clear).
Proof.
  split.
  - intros (pre & post & E & Hd & Hc). destruct post as [|c' post _] using rev_ind.
    + apply app_inj_tail in E as [_ ->]. by left.
    + rewrite app_comm_cons, app_assoc in E. apply app_inj_tail in E as [-> ->].
      right. split; [exists pre, post; set_solver|set_solver].
  - intros [->|((pre & post & -> & Hd & Hc) & H1 & H2)].
    + exists cs, []. set_solver.
    + exists pre, (post ++ [c]). rewrite <-app_assoc. set_solver.
Qed.

Lemma retain_ne_spec x y l : x ∈ retain_ne y l <-> x ∈ l /\ x <> y.
Proof.
  unfold retain_ne. rewrite !list_elem_of_In, List.filter_In, negb_true_iff, bool_decide_eq_false.
  naive_solver.
Qed.

(** What a call does to one of the lists. *)
Definition list_effect (get : Config -> list bytes) (add del : bytes -> api_call F)
    (clear c : api_call F) : Prop :=
  (exists x, c = add x /\ forall cfg, get (config_call c cfg) = get cfg ++ [x]) \/
  (exists x, c = del x /\ forall cfg, get (config_call c cfg) = retain_ne x (get cfg)) \/
  (c = clear /\ forall cfg, get (config_call c cfg) = []) \/
  ((forall x, c <> add x /\ c <> del x) /\ c <> clear /\ forall cfg, get (config_call c cfg) = get cfg).

Lemma config_list_spec get add del clear :
  get default_config = [] -> (forall c, list_effect get add del clear c) ->
  (forall x y, add x <> del y) -> (forall x, add x <> clear) -> (forall x, del x <> clear) ->
  (forall x y, add x = add y -> x = y) -> (forall x y, del x = del y -> x = y) ->
  forall cs x, x ∈ get (config_after cs) <-> added add del clear cs x.
Proof.
  intros Hd Hc Had Hac Hdc Hinj Hinj' cs x. unfold config_after.
  induction cs as [|c cs IH] using rev_ind.
  { cbn [fold_left]. rewrite Hd. split; [by intros ?%not_elem_of_nil|].
    intros (pre & post & E & _). by destruct pre. }
  rewrite fold_left_app, added_snoc. cbn [fold_left].
  destruct (Hc c) as [(y & -> & ->)|[(y & -> & ->)|[(-> & ->)|(Hne & Hne' & ->)]]].
  - rewrite elem_of_app, list_elem_of_singleton, IH. split.
    + intros [H| ->]; [right|by left]. split_and!; [done|apply Had|apply Hac].
    + intros [E%Hinj|[H _]]; [by right|by left].
  - rewrite retain_ne_spec, IH. split.
    + intros [H Hxy]. right. split_and!; [done| |apply Hdc]. by intros E%Hinj'.
    + intros [E|(H & H1 & _)]; [by destruct (Had x y)|]. split; [done|]. by intros ->.
  - split; [by intros ?%not_elem_of_nil|]. intros [E|(_ & _ & ?)]; [by destruct (Hac x)|done].
  - rewrite IH. destruct (Hne x). naive_solver.
Qed.
End lists.

(** The listeners and mount points [compile] returns are those the script
    added and did not take back later: an address is in the list exactly when it
    was given to [listen] (or [mount]) and no later [kill] of it (or [unmount])
    and no later [killall] (or [unmountall]) follows. *)
Theorem compile_config_lists {F} (p : script F) cfg rs q w :
  compile p = Ok (cfg, rs, q, w) ->
  forall x,
  (x ∈ fuse_mounts cfg <-> added FuseMount FuseUnmount FuseUnmountAll (calls p) x) /\
  (x ∈ ninep_listeners cfg <-> added NinepListen NinepKill NinepKillAll (calls p) x) /\
  (x ∈ sshfs_listeners cfg <-> added SshfsListen SshfsKill SshfsKillAll (calls p) x).
Proof.
  rewrite compile_run. destruct (ending p) as [[]|]; [|done]. intros [= <- _ _ _] x.
  split_and!; (apply config_list_spec; try done; try congruence);
    (intros c; destruct c; unfold list_effect; cbn; try (right; right; right; by naive_solver);
     naive_solver).
Qed.

(** * Requests *)
Section requests.
Context {F L Trie : Type}.
Variable apply : F -> L -> gmap bytes bytes -> option bytes -> L * result bytes bytes.

(** What a call of a function gives. *)
Definition func_reply (f : F) (l : L) (params : gmap bytes bytes) (data : bytes) :
    L * result HandlerResponse bytes :=
  let '(l, r) := apply f l params (if is_empty data then None else Some data) in
  (l, match r with
      | Ok s => Ok (mkHandlerResponse s None false)
      | Err e => Err (str "Lua handler error: " ++ e)
      end).

(** A worker as the handler task of the router: it answers every request. *)
Definition lua_worker (rt : HandlerRuntime F) (l : L) (req : HandlerRequest) : L * handler_reply :=
  let '(l, r) := call_lua apply rt l req in (l, HReplied r).

(** What a worker's run files under the name of a registration: the function at
    the same place in its own registrations. *)
Lemma worker_func_at (p p' : script F) cfg rs q w rt i r :
  compile p = Ok (cfg, rs, q, w) -> from_bytecodes p' = Ok rt -> rs !! i = Some r ->
  rr_handler_name r = route_name i /\ rt_funcs rt !! rr_handler_name r = snd <$> registrations p' !! i.
Proof.
  rewrite compile_run, from_bytecodes_run. destruct (ending p) as [[]|]; [|done].
  intros [= <- <- <- <-]. destruct (ending p') as [[]|]; [|done]. intros [= <-].
  rewrite list_lookup_imap. destruct (registrations p !! i) as [x|]; [|done]. intros [= <-].
  split; [done|]. cbn [rt_funcs named rr_handler_name]. unfold routes_after.
  destruct (route_calls (calls p')) as [_ Hf]. apply Hf.
Qed.

(** C14: Whatever the run [p] of the script in [compile] and the run [p'] of a worker
    do: the records of [compile] are the accepted registrations of its run, in
    order, under different names; the worker starts exactly when its run ends
    without an error; and it holds under the name of the [i]-th registration of
    [compile] the function of the [i]-th registration of its own run, if it has so
    many.  So the workers hold the functions that were registered exactly when
    their runs begin with the registrations of the same functions: what a worker
    registers more, less or in another order shifts the functions under the
    names the router uses. *)
Theorem workers_hold_registered_functions (p p' : script F) cfg rs q w :
  compile p = Ok (cfg, rs, q, w) ->
  Forall2 (fun r x => rr_pattern r = fst (fst x) /\ rr_ops r = snd (fst x)) rs (registrations p) /\
  NoDup (rr_handler_name <$> rs) /\
  match ending p' with
  | Err msg => from_bytecodes p' = Err (script_error msg)
  | Ok _ => exists rt, from_bytecodes p' = Ok rt /\
      (forall i r, rs !! i = Some r -> rt_funcs rt !! rr_handler_name r = snd <$> registrations p' !! i) /\
      ((forall i r x, rs !! i = Some r -> registrations p !! i = Some x ->
          rt_funcs rt !! rr_handler_name r = Some (snd x)) <->
       map snd (registrations p) `prefix_of` map snd (registrations p'))
  end.
Proof.
  intros Hc. assert (Hrs : rs = imap named (registrations p)).
  { rewrite compile_run in Hc. destruct (ending p); [by injection Hc as <- <- <- <-|done]. }
  split_and!.
  - rewrite Hrs. apply Forall2_same_length_lookup. split; [apply length_imap|].
    intros i r x Hr Hx. rewrite list_lookup_imap, Hx in Hr. by injection Hr as <-.
  - rewrite Hrs. apply NoDup_fmap_2_strong; [|apply NoDup_alt].
    + intros r1 r2 (i & x & -> & Hi)%elem_of_lookup_imap (j & y & -> & Hj)%elem_of_lookup_imap.
      cbn. intros ->%route_name_inj. congruence.
    + intros i j r Hi Hj. rewrite list_lookup_imap in Hi, Hj.
      destruct (registrations p !! i); [|done]. destruct (registrations p !! j); [|done].
      apply Some_inj, (f_equal rr_handler_name) in Hi, Hj. unfold named in Hi, Hj.
      cbn [rr_handler_name] in Hi, Hj. apply route_name_inj. congruence.
  - pose proof (from_bytecodes_run p') as Hrt. destruct (ending p') as [[]|msg]; [|done].
    eexists. split; [done|]. pose proof (fun i r => worker_func_at p p' cfg rs q w _ i r Hc Hrt) as Hat.
    split; [intros i r Hi; by apply Hat|]. rewrite prefix_by_lookup. split.
    + intros H i f Hi. rewrite list_lookup_fmap in Hi |- *. apply fmap_Some in Hi as (x & Hx & ->).
      assert (Hr : rs !! i = Some (named i x)) by by rewrite Hrs, list_lookup_imap, Hx.
      destruct (Hat i _ Hr) as [_ E]. rewrite <-E. by apply H with (i := i).
    + intros H i r x Hr Hx. destruct (Hat i r Hr) as [_ E]. rewrite E. specialize (H i (snd x)).
      rewrite !list_lookup_fmap in H. apply H. by rewrite Hx.
Qed.

(** The router hands a request on under a name for which the workers hold the
    function in force for the matched pattern and the operation; what their call
    gives is what that function returns or raises. *)
Lemma request_routed (p : script F) cfg rs q w rt
    (at_path : Trie -> bytes -> result (RouteMeta * list (bytes * bytes)) bytes) t req meta ps :
  compile p = Ok (cfg, rs, q, w) -> from_bytecodes q = Ok rt ->
  at_path t (req_path req) = Ok (meta, ps) ->
  merge_routes rs !! rm_pattern meta = Some meta ->
  let children := probe_children at_path t (req_path req) (rm_pattern meta) in
  match func_in_force (registrations p) (rm_pattern meta) (req_op req) with
  | None => route_request at_path t req = Direct (Err (no_handler_msg (req_path req) (req_op req)))
  | Some f =>
      if children && file_op (req_op req)
      then route_request at_path t req = Direct (Err (directory_msg (req_path req)))
      else exists hreq, route_request at_path t req = Forward hreq (rm_pattern meta) children /\
        forall l, call_lua apply rt l hreq = func_reply f l (collect_params ps) (req_data req)
  end.
Proof.
  rewrite compile_run. destruct (ending p) as [[]|] eqn:E; [|done]. intros [= <- <- <- <-].
  rewrite from_bytecodes_run, E. intros [= <-] Hat Hm children. unfold route_request.
  rewrite Hat, (select_handler_in_force _ _ _ _ Hm).
  destruct (route_calls (calls p)) as [_ Hf]. cbn zeta in Hf.
  rewrite (in_force_func (registrations p) (funcs (routes_after (calls p)))) by exact Hf.
  destruct (in_force _ _ _) as [r|] eqn:Er; [|done]. cbn [mbind option_bind fmap option_fmap option_map].
  apply in_force_registered in Er as (i & x & -> & Hi)%elem_of_lookup_imap. fold children.
  unfold routes_after. cbn [named rr_handler_name]. rewrite Hf. unfold registrations in Hi. rewrite Hi.
  cbn [fmap option_fmap option_map]. destruct (children && file_op (req_op req)); [done|].
  eexists. split; [done|]. intros l. unfold call_lua. cbn [hreq_handler_name hreq_data hreq_params rt_funcs].
  rewrite Hf, Hi. cbn [fmap option_fmap option_map]. unfold func_reply.
  by destruct (apply _ _ _ _) as [l' [s|e]].
Qed.

(** A worker whose run was another calls, for a request the router hands on for the
    [i]-th registration of [compile], the function of the [i]-th registration of
    its own run, whatever pattern that was for; with fewer registrations, its
    default handler, which no request reaches otherwise. *)
Theorem request_calls_by_position (p p' : script F) cfg rs q w rt
    (at_path : Trie -> bytes -> result (RouteMeta * list (bytes * bytes)) bytes) t req meta ps i r :
  compile p = Ok (cfg, rs, q, w) -> from_bytecodes p' = Ok rt ->
  at_path t (req_path req) = Ok (meta, ps) -> merge_routes rs !! rm_pattern meta = Some meta ->
  rs !! i = Some r -> in_force rs (rm_pattern meta) (req_op req) = Some r ->
  probe_children at_path t (req_path req) (rm_pattern meta) && file_op (req_op req) = false ->
  exists hreq,
    route_request at_path t req =
      Forward hreq (rm_pattern meta) (probe_children at_path t (req_path req) (rm_pattern meta)) /\
    forall l, call_lua apply rt l hreq =
      match snd <$> registrations p' !! i, rt_default rt with
      | Some f, _ | None, Some f => func_reply f l (collect_params ps) (req_data req)
      | None, None => (l, Err (str "no handler for `" ++ route_name i ++ str "` and no default handler"))
      end.
Proof.
  intros Hc Hrt Hat Hm Hi Hr Hdir. unfold route_request. rewrite Hat, (select_handler_in_force _ _ _ _ Hm), Hr.
  cbn [fmap option_fmap option_map]. rewrite Hdir. eexists. split; [done|]. intros l.
  destruct (worker_func_at p p' cfg rs q w rt i r Hc Hrt Hi) as [Hname Hf]. unfold call_lua.
  cbn [hreq_handler_name hreq_data hreq_params]. rewrite Hf, Hname.
  destruct (snd <$> registrations p' !! i) as [f|]; [|destruct (rt_default rt) as [f|]; [|done]];
    unfold func_reply; by destruct (apply _ _ _ _) as [l' [s|e]].
Qed.

(** End to end: a request for a path that matches a registered pattern, when
    it is not a file operation on a directory, calls exactly the Lua function of
    the last registration of that pattern that named the operation, else of the
    last one for all operations, with the matched parameters and with the
    payload ([nil] when it is empty); what the function returns or raises is the
    frontend's reply.  With no such registration no function is called. *)
Theorem request_calls_registered_function (p : script F) cfg rs q w rt
    (at_path : Trie -> bytes -> result (RouteMeta * list (bytes * bytes)) bytes) t l req meta ps :
  compile p = Ok (cfg, rs, q, w) -> from_bytecodes q = Ok rt ->
  at_path t (req_path req) = Ok (meta, ps) ->
  merge_routes rs !! rm_pattern meta = Some meta ->
  probe_children at_path t (req_path req) (rm_pattern meta) && file_op (req_op req) = false ->
  fst (dispatch at_path (lua_worker rt) t l req) =
  match func_in_force (registrations p) (rm_pattern meta) (req_op req) with
  | Some f =>
      let data := if is_empty (req_data req) then None else Some (req_data req) in
      let '(l', r) := apply f l (collect_params ps) data in
      (l', Replied (match r with
                    | Ok s => Ok (mkHandlerResponse s (Some (rm_pattern meta))
                                (probe_children at_path t (req_path req) (rm_pattern meta)))
                    | Err e => Err (str "Lua handler error: " ++ e)
                    end))
  | None => (l, Replied (Err (no_handler_msg (req_path req) (req_op req))))
  end.
Proof.
  intros Hc Hrt Hat Hm Hdir. pose proof (request_routed _ _ _ _ _ _ _ _ _ _ _ Hc Hrt Hat Hm) as H.
  rewrite dispatch_route_request. cbn zeta in H. destruct (func_in_force _ _ _) as [f|]; [|by rewrite H].
  rewrite Hdir in H. destruct H as (hreq & -> & Hcall). unfold lua_worker. rewrite Hcall. unfold func_reply.
  cbn zeta. by destruct (apply _ _ _ _) as [l' [s|e]].
Qed.

(** The function given to [route.default] is never called: whatever default
    handler a worker holds, every request is answered as without it, since the
    router only names handlers that are registered. *)
Theorem default_handler_unreachable (p : script F) cfg rs q w rt
    (at_path : Trie -> bytes -> result (RouteMeta * list (bytes * bytes)) bytes) t l req d :
  compile p = Ok (cfg, rs, q, w) -> from_bytecodes q = Ok rt ->
  (forall path meta ps, at_path t path = Ok (meta, ps) -> merge_routes rs !! rm_pattern meta = Some meta) ->
  dispatch at_path (lua_worker rt) t l req =
  dispatch at_path (lua_worker (mkHandlerRuntime (rt_funcs rt) d)) t l req.
Proof.
  rewrite compile_run. destruct (ending p) as [[]|] eqn:E; [|done]. intros [= <- <- <- <-].
  rewrite from_bytecodes_run, E. intros [= <-] Htable. unfold dispatch.
  destruct (at_path t (req_path req)) as [[meta ps]|] eqn:Hat; [|done].
  rewrite (select_handler_in_force _ _ _ _ (Htable _ _ _ Hat)).
  destruct (in_force _ _ _) as [r|] eqn:Er; [|done]. cbn [fmap option_fmap option_map].
  destruct (_ && _); [done|]. unfold lua_worker, call_lua. cbn [hreq_handler_name rt_funcs].
  apply in_force_registered in Er as (i & x & -> & Hi)%elem_of_lookup_imap.
  destruct (route_calls (calls p)) as [_ Hf]. cbn zeta in Hf. unfold routes_after.
  cbn [named rr_handler_name]. rewrite Hf. unfold registrations in Hi. by rewrite Hi.
Qed.
End requests.

(** * The theorems at a concrete script *)
Module HandlerExample.
(** Functions are numbers; calling one counts the calls and answers with the
    payload. *)
Definition apply (f : nat) (l : nat) (params : gmap bytes bytes) (data : option bytes) :
    nat * result bytes bytes := (l + f, Ok (str "f" ++ default (str "?") data)).
(** Two registrations of one pattern, a catch-all and some listeners. *)
Definition main : script nat :=
  Do (RouteBundle (str "read") (str "/a") 1) (fun _ =>
  Do (RouteRegister (str "/a") (OpsTable [Some (str "read"); None]) 2) (fun _ =>
  Do (RouteRegister (str "/b") OpsOther 3) (fun r =>
  match r with
  | Ok _ => Raise (str "accepted")
  | Err _ =>
      Do (RouteDefault 4) (fun _ =>
      Do (NinepListen (str "sock:/tmp/a")) (fun _ =>
      Do (NinepListen (str "tcp:0:9")) (fun _ =>
      Do (NinepKill (str "sock:/tmp/a")) (fun _ => Finish))))
  end))).
(** Another run of the script, in a worker: it registers the second one only. *)
Definition again : script nat := Do (RouteRegister (str "/a") (OpsTable [Some (str "read"); None]) 2) (fun _ => Finish).
Definition cfg : Config := set_ninep_listeners [str "tcp:0:9"] default_config.
Definition rs : list RouteRegistration :=
  [mkRouteRegistration (str "/a") (str "__route_0") (default [] (bundle_ops (str "read")));
   mkRouteRegistration (str "/a") (str "__route_1") [str "read"]].
Definition rt : HandlerRuntime nat :=
  mkHandlerRuntime {[ str "__route_0" := 1; str "__route_1" := 2 ]} (Some 4).
Definition meta : RouteMeta := default (mkRouteMeta ∅ []) (merge_routes rs !! str "/a").

Lemma compiles : compile main = Ok (cfg, rs, main, default_worker_config).
Proof. vm_compute. reflexivity. Qed.

Lemma loads : from_bytecodes main = Ok rt.
Proof. vm_compute. reflexivity. Qed.

Lemma exact_table path m ps :
  exact_at (merge_routes rs) path = Ok (m, ps) -> merge_routes rs !! rm_pattern m = Some m.
Proof.
  unfold exact_at. destruct (merge_routes rs !! path) as [m'|] eqn:E; [|done].
  intros [= <- <-]. by rewrite (merge_routes_pattern _ _ _ E).
Qed.
End HandlerExample.

Lemma compile_config_lists_witness :
  compile HandlerExample.main = Ok (HandlerExample.cfg, HandlerExample.rs, HandlerExample.main, default_worker_config) /\
  added NinepListen NinepKill NinepKillAll (calls HandlerExample.main) (str "tcp:0:9").
Proof.
  split; [apply HandlerExample.compiles|].
  apply (compile_config_lists HandlerExample.main _ _ _ _ HandlerExample.compiles). left.
Defined.

Lemma workers_hold_registered_functions_witness :
  (exists rt, from_bytecodes HandlerExample.main = Ok rt /\ rt_funcs rt !! str "__route_1" = Some 2) /\
  exists rt, from_bytecodes HandlerExample.again = Ok rt /\ rt_funcs rt !! str "__route_0" = Some 2 /\
    ~ (map snd (registrations HandlerExample.main) `prefix_of` map snd (registrations HandlerExample.again)).
Proof.
  split.
  - destruct (workers_hold_registered_functions _ HandlerExample.main _ _ _ _ HandlerExample.compiles)
      as (_ & _ & rt & Hrt & Hf & _).
    exists rt. split; [exact Hrt|]. exact (Hf 1 _ eq_refl).
  - destruct (workers_hold_registered_functions _ HandlerExample.again _ _ _ _ HandlerExample.compiles)
      as (_ & _ & rt & Hrt & Hf & Hiff).
    exists rt. split; [exact Hrt|]. split; [exact (Hf 0 _ eq_refl)|]. intros Hpre.
    pose proof (proj2 Hiff Hpre 0 _ _ eq_refl eq_refl) as E. rewrite (Hf 0 _ eq_refl) in E. discriminate E.
Defined.

Lemma request_calls_by_position_witness :
  let main := Do (RouteRegister (str "/a") OpsNil 1) (fun _ => Do (RouteRegister (str "/b") OpsNil 2) (fun _ => Finish)) in
  let again := Do (RouteRegister (str "/b") OpsNil 2) (fun _ => Finish) in
  exists rt hreq, from_bytecodes again = Ok rt /\ hreq_handler_name hreq = str "__route_0" /\
    call_lua HandlerExample.apply rt 0 hreq = (2, Ok (mkHandlerResponse (str "f?") None false)).
Proof.
  intros main again. pose (rs := imap named (registrations main)).
  pose (rt := mkHandlerRuntime {[ str "__route_0" := 2 ]} None : HandlerRuntime nat).
  assert (Hc : compile main = Ok (default_config, rs, main, default_worker_config)) by (vm_compute; reflexivity).
  assert (Hrt : from_bytecodes again = Ok rt) by (vm_compute; reflexivity).
  destruct (request_calls_by_position HandlerExample.apply main again default_config rs main default_worker_config rt
    exact_at (merge_routes rs) (mkRequest Read (str "/a") []) (default (mkRouteMeta ∅ []) (merge_routes rs !! str "/a"))
    [] 0 (mkRouteRegistration (str "/a") (str "__route_0") [])) as (hreq & Hr & Hcall);
    [exact Hc|exact Hrt|vm_compute; reflexivity..|].
  exists rt, hreq. split; [exact Hrt|]. split; [vm_compute in Hr; injection Hr as <-; reflexivity|].
  rewrite Hcall. reflexivity.
Defined.

Lemma request_calls_registered_function_witness :
  fst (dispatch exact_at (lua_worker HandlerExample.apply HandlerExample.rt) (merge_routes HandlerExample.rs) 0
         (mkRequest Read (str "/a") (str "x"))) =
  (2, Replied (Ok (mkHandlerResponse (str "fx") (Some (str "/a")) false))).
Proof.
  rewrite (request_calls_registered_function HandlerExample.apply HandlerExample.main
    HandlerExample.cfg HandlerExample.rs HandlerExample.main default_worker_config HandlerExample.rt
    exact_at _ 0 _ HandlerExample.meta []);
    [vm_compute; reflexivity|apply HandlerExample.compiles|apply HandlerExample.loads|
     vm_compute; reflexivity..].
Defined.

Lemma default_handler_unreachable_witness :
  compile HandlerExample.main = Ok (HandlerExample.cfg, HandlerExample.rs, HandlerExample.main, default_worker_config) /\
  dispatch exact_at (lua_worker HandlerExample.apply HandlerExample.rt) (merge_routes HandlerExample.rs) 0
    (mkRequest GetAttr (str "/zzz") []) =
  dispatch exact_at (lua_worker HandlerExample.apply (mkHandlerRuntime (rt_funcs HandlerExample.rt) None))
    (merge_routes HandlerExample.rs) 0 (mkRequest GetAttr (str "/zzz") []).
Proof.
  split; [apply HandlerExample.compiles|].
  apply (default_handler_unreachable _ HandlerExample.main _ HandlerExample.rs HandlerExample.main _ _ exact_at
    _ _ _ _ HandlerExample.compiles HandlerExample.loads HandlerExample.exact_table).
Defined.
