(* ===== verification/Worker.v ===== *)
(** The worker pool ([src/src/worker.rs]): the dispatcher that hands each
    request to one of the workers, and the workers, each with its own Lua state,
    as a step relation on the whole pool.

    A request is a [job]; its reply channel ends with an answer, or is dropped.
    The scheduler decides which step comes next: a request arrives, the
    dispatcher takes one or runs its cleanup, a worker starts, serves the head of
    its queue, or exits (its idle timer fires, its channel closes, or a call
    panics).  Building a runtime ([new_lua]) and calling a handler ([call]) are
    [Handler.from_bytecodes] and [Handler.call_lua]; a call need not return
    ([returns]), and then its worker hangs. *)
From S2P Require Import Prelude RustStr Router Handler.

(** [Vec::swap_remove] for an index in range. *)
Definition swap_remove {A} (i : nat) (l : list A) : list A :=
  match last l with Some x => removelast (<[i := x]> l) | None => [] end.

Section pool.
Context {L : Type}.
Variable config : WorkerConfig.
(** The Lua state of a fresh worker, [None] when it cannot be built. *)
Variable new_lua : option L.
Variable call : L -> HandlerRequest -> L * result HandlerResponse bytes.
(** Whether a call comes back at all; if not, [call] means nothing. *)
Variable returns : L -> HandlerRequest -> bool.

(** * State *)
Record job := mkJob { job_id : N; job_req : HandlerRequest }.

Inductive job_outcome := JAnswered (r : result HandlerResponse bytes) | JDropped.

(** A worker's task: not started yet, in its loop, in a call that does not
    return, or ended (its receiver is dropped; [finished] is what its
    [JoinHandle] says). *)
Inductive phase := Starting | Running (l : L) | Hung (l : L) | Ended (finished : bool).

Record Worker := mkWorker { w_queue : list job; w_phase : phase }.

Definition fresh : Worker := mkWorker [] Starting.

Definition ended (w : Worker) : bool := match w_phase w with Ended _ => true | _ => false end.
Definition is_finished (w : Worker) : bool := match w_phase w with Ended b => b | _ => false end.

(** [p_arrived] and [p_log] record the requests that arrived and the outcomes. *)
Record Pool := mkPool {
  p_open : bool;
  p_running : bool;
  p_incoming : list job;
  p_workers : list Worker;
  p_next : nat;
  p_arrived : list job;
  p_log : list (job * job_outcome);
}.

Definition min_n : nat := N.to_nat (min_workers config).
Definition max_n : nat := N.to_nat (max_workers config).

(** * The dispatcher *)
Definition spawn_worker (ws : list Worker) : list Worker := ws ++ [fresh].

(** The first loop of [dispatcher_loop]. *)
Fixpoint spawn_n (n : nat) (ws : list Worker) : list Worker :=
  match n with O => ws | S n => spawn_n n (spawn_worker ws) end.

Definition inflate (backlog : nat) (ws : list Worker) : list Worker :=
  if Nat.ltb 5 backlog && Nat.ltb (length ws) max_n then spawn_worker ws else ws.

Definition no_workers : result HandlerResponse bytes := Err (str "no workers available").

(** One request: the workers, [next], and the outcome if it has one already. *)
Definition dispatch_job (backlog : nat) (j : job) (ws : list Worker) (next : nat) :
    list Worker * nat * option job_outcome :=
  let ws := inflate backlog ws in
  if is_empty ws then (ws, next, Some (JAnswered no_workers))
  else
    let next := next mod length ws in
    match ws !! next with
    | Some w =>
        if ended w then (swap_remove next ws, next, Some JDropped)
        else (<[next := mkWorker (w_queue w ++ [j]) (w_phase w)]> ws, next + 1, None)
    | None => (ws, next, None)
    end.

(** The [while] loop of the cleanup; each turn adds a worker. *)
Fixpoint replenish (fuel : nat) (ws : list Worker) : list Worker :=
  match fuel with
  | O => ws
  | S fuel =>
      if Nat.ltb (length ws) min_n && Nat.ltb (length ws) max_n
      then replenish fuel (spawn_worker ws) else ws
  end.

Definition cleanup (ws : list Worker) : list Worker :=
  replenish min_n (List.filter (fun w => negb (is_finished w)) ws).

(** * A worker *)

(** Whether a step of a worker is taken, with the outcomes of its jobs. *)
Inductive worker_step : Worker -> Worker -> list (job * job_outcome) -> Prop :=
| worker_build q l :
    new_lua = Some l -> worker_step (mkWorker q Starting) (mkWorker q (Running l)) []
| worker_build_fails q :
    new_lua = None ->
    worker_step (mkWorker q Starting) (mkWorker [] (Ended false)) (map (fun j => (j, JDropped)) q)
| worker_serve j q l :
    returns l (job_req j) = true ->
    worker_step (mkWorker (j :: q) (Running l)) (mkWorker q (Running (fst (call l (job_req j)))))
      [(j, JAnswered (snd (call l (job_req j))))]
| worker_hangs j q l :
    returns l (job_req j) = false ->
    worker_step (mkWorker (j :: q) (Running l)) (mkWorker (j :: q) (Hung l)) []
| worker_exit q l :
    worker_step (mkWorker q (Running l)) (mkWorker [] (Ended false)) (map (fun j => (j, JDropped)) q)
| worker_join q :
    worker_step (mkWorker q (Ended false)) (mkWorker q (Ended true)) [].

(** * The pool *)
Definition start : Pool := mkPool true true [] (spawn_n min_n []) 0 [] [].

(** The router's channel holds 64 requests. *)
Inductive pool_step : Pool -> Pool -> Prop :=
| step_arrive running inc ws next arr log j :
    length inc < 64 ->
    pool_step (mkPool true running inc ws next arr log)
      (mkPool true running (inc ++ [j]) ws next (arr ++ [j]) log)
| step_close running inc ws next arr log :
    pool_step (mkPool true running inc ws next arr log) (mkPool false running inc ws next arr log)
| step_dispatch op j inc ws next arr log ws' next' o :
    dispatch_job (length inc) j ws next = (ws', next', o) ->
    pool_step (mkPool op true (j :: inc) ws next arr log)
      (mkPool op true inc ws' next' arr (log ++ match o with Some o => [(j, o)] | None => [] end))
| step_cleanup op inc ws next arr log :
    pool_step (mkPool op true inc ws next arr log) (mkPool op true inc (cleanup ws) next arr log)
| step_stop ws next arr log :
    pool_step (mkPool false true [] ws next arr log) (mkPool false false [] ws next arr log)
| step_worker op running inc ws next arr log i w w' outs :
    ws !! i = Some w -> worker_step w w' outs ->
    pool_step (mkPool op running inc ws next arr log)
      (mkPool op running inc (<[i := w']> ws) next arr (log ++ outs)).

(** What the router observes of its request. *)
Definition observed (o : job_outcome) : handler_reply :=
  match o with JAnswered r => HReplied r | JDropped => NoReply end.

(** * Specification *)

(** The requests whose outcome is still open. *)
Definition pending (p : Pool) : list job := p_incoming p ++ concat (map w_queue (p_workers p)).

(** The Lua state of a worker that served these requests, and its answer to the
    next one. *)
Definition lua_after (hist : list HandlerRequest) : option L :=
  (fun l => fold_left (fun l r => fst (call l r)) hist l) <$> new_lua.
Definition answer_after (hist : list HandlerRequest) (req : HandlerRequest) :
    option (result HandlerResponse bytes) :=
  (fun l => snd (call l req)) <$> lua_after hist.

(** The requests that were finished, in order. *)
Definition finished (log : list (job * job_outcome)) : list HandlerRequest := map (fun jo => job_req (fst jo)) log.

(** A worker whose task ended has an empty queue, the Lua state of one in its
    loop is what requests finished before made of it, in order, and one that
    hangs has the request it hangs on at the head of its queue. *)
Definition worker_ok (log : list (job * job_outcome)) (w : Worker) : Prop :=
  (ended w = true -> w_queue w = []) /\
  (forall l, w_phase w = Running l -> exists hist, hist `sublist_of` finished log /\ lua_after hist = Some l) /\
  (forall l, w_phase w = Hung l -> exists j q, w_queue w = j :: q /\ returns l (job_req j) = false).

(** An answer is the refusal of an empty pool, or what a Lua state that served
    requests finished before, in order, answers. *)
Definition outcome_ok (before : list (job * job_outcome)) (jo : job * job_outcome) : Prop :=
  match snd jo with
  | JAnswered r =>
      r = no_workers \/
      exists hist, hist `sublist_of` finished before /\ answer_after hist (job_req (fst jo)) = Some r
  | JDropped => True
  end.

Definition log_ok (log : list (job * job_outcome)) : Prop :=
  forall k jo, log !! k = Some jo -> outcome_ok (take k log) jo.

(** How a step finishes a request: the dispatcher refuses it for want of workers, a
    worker serves it, or it is lost with a worker that ended.  The dispatcher loses
    the request it took to a worker that had ended, which it removes; a worker that
    ends loses its queue. *)
Definition finishes (p p' : Pool) (jo : job * job_outcome) : Prop :=
  match snd jo with
  | JAnswered r =>
      p_workers p = [] /\ head (p_incoming p) = Some (fst jo) /\ r = no_workers \/
      exists i q l, p_workers p !! i = Some (mkWorker (fst jo :: q) (Running l)) /\
        returns l (job_req (fst jo)) = true /\ r = snd (call l (job_req (fst jo)))
  | JDropped =>
      head (p_incoming p) = Some (fst jo) /\
        length (List.filter ended (p_workers p)) = S (length (List.filter ended (p_workers p'))) \/
      exists i w w', p_workers p !! i = Some w /\ ended w = false /\ fst jo ∈ w_queue w /\
        p_workers p' = <[i := w']> (p_workers p) /\ ended w' = true
  end.

Record pool_wf (p : Pool) : Prop := {
  wf_conserve : p_arrived p ≡ₚ pending p ++ map fst (p_log p);
  wf_size : length (p_workers p) <= min_n `max` max_n;
  wf_workers : Forall (worker_ok (p_log p)) (p_workers p);
  wf_outcomes : log_ok (p_log p);
}.
End pool.

(** * Lemmas *)
Section pool_lemmas.
Context {L : Type}.
Variable config : WorkerConfig.
Variable new_lua : option L.
Variable call : L -> HandlerRequest -> L * result HandlerResponse bytes.
Variable returns : L -> HandlerRequest -> bool.
Abbreviation Worker := (Worker (L := L)).
Abbreviation Pool := (Pool (L := L)).
Abbreviation max_n := (max_n config).
Abbreviation min_n := (min_n config).
Implicit Types (ws : list Worker) (w : Worker).

Definition queued ws : list job := concat (map w_queue ws).

Lemma queued_app ws1 ws2 : queued (ws1 ++ ws2) = queued ws1 ++ queued ws2.
Proof. unfold queued. by rewrite map_app, concat_app. Qed.

Lemma queued_perm ws1 ws2 : ws1 ≡ₚ ws2 -> queued ws1 ≡ₚ queued ws2.
Proof.
  unfold queued. induction 1; simpl; [done|by f_equiv| |by etrans].
  by rewrite !app_assoc, (Permutation_app_comm (w_queue y)).
Qed.

Lemma queued_fresh n : queued (repeat fresh n) = [].
Proof. by induction n. Qed.

(** Replacing a worker replaces its queue. *)
Lemma queued_insert ws i w w' :
  ws !! i = Some w -> queued (<[i := w']> ws) ++ w_queue w ≡ₚ queued ws ++ w_queue w'.
Proof.
  intros Hi. rewrite <-(take_drop_middle ws i w Hi) at 2.
  rewrite insert_take_drop by by eapply lookup_lt_Some. rewrite !queued_app.
  change (queued (?x :: ?l)) with (w_queue x ++ queued l). solve_Permutation.
Qed.

Lemma swap_remove_perm ws i w : ws !! i = Some w -> ws ≡ₚ w :: swap_remove i ws.
Proof.
  intros Hi. unfold swap_remove. destruct ws as [|x l _] using rev_ind; [done|].
  rewrite last_snoc. destruct (decide (i = length l)) as [->|Hne].
  - rewrite list_lookup_middle in Hi by done. injection Hi as <-.
    rewrite insert_app_r_alt, Nat.sub_diag by lia. cbn [list_insert insert].
    rewrite removelast_last. by rewrite Permutation_app_comm.
  - pose proof (lookup_lt_Some _ _ _ Hi) as Hlt. rewrite length_app in Hlt. cbn in Hlt.
    rewrite insert_app_l, removelast_last by lia.
    rewrite lookup_app_l in Hi by lia. rewrite <-(take_drop_middle l i w Hi) at 1.
    rewrite insert_take_drop by lia. solve_Permutation.
Qed.

Lemma spawn_n_repeat n ws : spawn_n n ws = ws ++ repeat fresh n.
Proof.
  revert ws. induction n as [|n IH]; intros ws; simpl; [by rewrite app_nil_r|].
  rewrite IH. unfold spawn_worker. by rewrite <-app_assoc.
Qed.

Lemma inflate_repeat backlog ws :
  exists n, inflate config backlog ws = ws ++ repeat fresh n /\ (n = 0 \/ length ws + n <= max_n).
Proof.
  unfold inflate. destruct (Nat.ltb 5 backlog && _) eqn:E.
  - exists 1. split; [done|]. apply andb_true_iff in E as [_ E%Nat.ltb_lt]. lia.
  - exists 0. rewrite app_nil_r. split; [done|by left].
Qed.

Lemma replenish_repeat fuel ws :
  exists n, replenish config fuel ws = ws ++ repeat fresh n /\ (n = 0 \/ length ws + n <= min_n `min` max_n).
Proof.
  revert ws. induction fuel as [|fuel IH]; intros ws; simpl.
  { exists 0. rewrite app_nil_r. split; [done|by left]. }
  destruct (_ && _) eqn:E.
  - apply andb_true_iff in E as [E1%Nat.ltb_lt E2%Nat.ltb_lt].
    destruct (IH (spawn_worker ws)) as (n & -> & Hn). exists (S n).
    unfold spawn_worker in *. rewrite <-app_assoc. split; [done|].
    rewrite length_app in Hn. cbn [length] in Hn. lia.
  - exists 0. rewrite app_nil_r. split; [done|by left].
Qed.

(** Properties of workers that fresh workers have. *)
Lemma Forall_fresh (P : Worker -> Prop) ws n : P fresh -> Forall P ws -> Forall P (ws ++ repeat fresh n).
Proof.
  intros Hf Hws. apply Forall_app. split; [done|]. by induction n; constructor.
Qed.

Abbreviation worker_ok := (worker_ok new_lua call returns).
Abbreviation outcome_ok := (outcome_ok new_lua call).

Variable log : list (job * job_outcome).

Lemma fresh_ok : worker_ok log fresh.
Proof. by split. Qed.

Lemma dispatch_job_ok backlog j ws next ws' next' o :
  dispatch_job config backlog j ws next = (ws', next', o) ->
  Forall (worker_ok log) ws -> length ws <= min_n `max` max_n ->
  let outs := match o with Some o => [(j, o)] | None => [] end in
  Forall (worker_ok log) ws' /\ length ws' <= min_n `max` max_n /\
  j :: queued ws ≡ₚ queued ws' ++ map fst outs /\ Forall (outcome_ok log) outs.
Proof.
  unfold dispatch_job. intros E Hok Hlen. destruct (inflate_repeat backlog ws) as (n & Ei & Hn).
  rewrite Ei in E. clear Ei. set (ws1 := ws ++ repeat fresh n) in *.
  assert (Hq : queued ws1 = queued ws)
    by (unfold ws1; by rewrite queued_app, queued_fresh, app_nil_r).
  assert (Hok1 : Forall (worker_ok log) ws1) by (apply Forall_fresh; [apply fresh_ok|done]).
  assert (Hlen1 : length ws1 <= min_n `max` max_n)
    by (unfold ws1; rewrite length_app, repeat_length; lia).
  rewrite <-Hq. clearbody ws1. clear Hok Hlen Hn Hq ws.
  destruct (is_empty ws1) eqn:Hemp.
  { injection E as <- <- <-. split_and!; [done|done|solve_Permutation|].
    constructor; [by left|constructor]. }
  assert (Hmod : next mod length ws1 < length ws1) by (apply Nat.mod_upper_bound; by destruct ws1).
  set (i := next mod length ws1) in *.
  destruct (ws1 !! i) as [w|] eqn:Hi; [|by apply lookup_ge_None in Hi; lia].
  destruct (ended w) eqn:Hend; injection E as <- <- <-.
  - pose proof (swap_remove_perm ws1 i w Hi) as Hp.
    pose proof Hok1 as Hok2. rewrite Hp in Hok2. apply Forall_cons in Hok2 as [[Hw _] Hok2].
    split_and!; [done| | |by repeat constructor].
    + apply Permutation_length in Hp. simpl in Hp. lia.
    + rewrite (queued_perm _ _ Hp). change (queued (w :: ?l)) with (w_queue w ++ queued l).
      rewrite Hw by done. simpl. solve_Permutation.
  - split_and!; [|by rewrite length_insert| |constructor].
    + apply Forall_insert; [done|]. destruct (Forall_lookup_1 _ _ _ _ Hok1 Hi) as (_ & Hl & Hh).
      split_and!; [unfold ended in *; cbn; by rewrite Hend|done|].
      intros l El. destruct (Hh l El) as (j' & q & Eq & Hr). exists j', (q ++ [j]). cbn. by rewrite Eq.
    + pose proof (queued_insert ws1 i w (mkWorker (w_queue w ++ [j]) (w_phase w)) Hi) as Hq.
      cbn [w_queue] in Hq. simpl. apply (Permutation_app_inv_r (w_queue w)).
      rewrite app_nil_r, Hq. solve_Permutation.
Qed.

Lemma cleanup_ok ws :
  Forall (worker_ok log) ws -> length ws <= min_n `max` max_n ->
  Forall (worker_ok log) (cleanup config ws) /\ length (cleanup config ws) <= min_n `max` max_n /\
  queued (cleanup config ws) ≡ₚ queued ws.
Proof.
  intros Hok Hlen. unfold cleanup.
  destruct (replenish_repeat min_n (List.filter (fun w => negb (is_finished w)) ws)) as (n & -> & Hn).
  assert (H : Forall (worker_ok log) (List.filter (fun w => negb (is_finished w)) ws) /\
    length (List.filter (fun w => negb (is_finished w)) ws) <= length ws /\
    queued (List.filter (fun w => negb (is_finished w)) ws) ≡ₚ queued ws).
  { clear Hlen Hn. induction Hok as [|w ws Hw Hok (IH1 & IH2 & IH3)]; [by split_and!|]. cbn [List.filter].
    change (queued (w :: ?l)) with (w_queue w ++ queued l).
    destruct (is_finished w) eqn:E; cbn [negb length].
    - split_and!; [done|lia|]. destruct Hw as [Hw _]. rewrite Hw; [done|].
      unfold is_finished, ended in *. by destruct (w_phase w).
    - change (queued (w :: ?l)) with (w_queue w ++ queued l).
      split_and!; [by constructor|lia|by rewrite IH3]. }
  destruct H as (H1 & H2 & H3). split_and!.
  - apply Forall_fresh; [apply fresh_ok|done].
  - rewrite length_app, repeat_length. lia.
  - by rewrite queued_app, queued_fresh, app_nil_r.
Qed.

Lemma finished_app log1 log2 : finished (log1 ++ log2) = finished log1 ++ finished log2.
Proof. apply map_app. Qed.

Lemma worker_ok_mono outs w : worker_ok log w -> worker_ok (log ++ outs) w.
Proof.
  intros (He & Hr & Hhung). split_and!; [done| |done]. intros l Hl.
  destruct (Hr l Hl) as (hist & Hh & H). exists hist.
  split; [|done]. rewrite finished_app. by apply sublist_inserts_r.
Qed.

Lemma outcome_ok_mono outs jo : outcome_ok log jo -> outcome_ok (log ++ outs) jo.
Proof.
  unfold Worker.outcome_ok. destruct (snd jo) as [r|]; [|done].
  intros [?|(hist & Hh & H)]; [by left|]. right. exists hist. split; [|done].
  rewrite finished_app. by apply sublist_inserts_r.
Qed.

Lemma worker_step_ok w w' outs :
  worker_step new_lua call returns w w' outs -> worker_ok log w ->
  worker_ok (log ++ outs) w' /\ w_queue w ≡ₚ w_queue w' ++ map fst outs /\ Forall (outcome_ok log) outs.
Proof.
  assert (Hdrop : forall q : list job, map fst (map (fun j => (j, JDropped)) q) = q)
    by (intros q; rewrite map_map; apply map_id).
  assert (Hout : forall q : list job, Forall (outcome_ok log) (map (fun j => (j, JDropped)) q))
    by (intros q; induction q; by constructor).
  destruct 1 as [q l Hl|q Hl|j q l Hret|j q l Hret|q l|q]; intros (Hend & Hrun & Hhung); cbn [w_queue w_phase] in *.
  - split_and!; [|by rewrite app_nil_r|constructor]. split_and!; [done| |done].
    intros l' [= <-]. exists []. split; [apply sublist_nil_l|]. unfold lua_after. by rewrite Hl.
  - split_and!; [by split|by rewrite Hdrop|apply Hout].
  - destruct (Hrun l eq_refl) as (hist & Hsub & Hh). split_and!.
    + split_and!; [done| |done]. intros l' [= <-]. exists (hist ++ [job_req j]).
      split; [rewrite finished_app; by apply sublist_app|].
      unfold lua_after in *.
      destruct new_lua as [l0|]; [|done]. cbn in *. injection Hh as <-. by rewrite fold_left_app.
    + cbn. solve_Permutation.
    + constructor; [|constructor]. right. exists hist. split; [done|]. unfold answer_after. by rewrite Hh.
  - split_and!; [|by rewrite app_nil_r|constructor]. split_and!; [done..|]. intros l' [= <-]. by exists j, q.
  - split_and!; [by split|by rewrite Hdrop|apply Hout].
  - split_and!; [|by rewrite app_nil_r|constructor]. split_and!; [|done..]. intros _. by apply Hend.
Qed.
End pool_lemmas.

(** * Theorems *)
Section pool_theorems.
Context {L : Type}.
Variable config : WorkerConfig.
Variable new_lua : option L.
Variable call : L -> HandlerRequest -> L * result HandlerResponse bytes.
Variable returns : L -> HandlerRequest -> bool.
Abbreviation step := (pool_step config new_lua call returns).
Abbreviation start := (start (L := L) config).
Abbreviation pool_wf := (pool_wf config new_lua call returns).

Lemma log_ok_app log outs :
  log_ok new_lua call log -> Forall (outcome_ok new_lua call log) outs -> log_ok new_lua call (log ++ outs).
Proof.
  intros Hlog Hout k jo Hk. destruct (decide (k < length log)) as [Hlt|Hge].
  - rewrite lookup_app_l in Hk by done. rewrite take_app_le by lia. by apply Hlog.
  - rewrite lookup_app_r in Hk by lia. rewrite take_app_ge by lia. apply outcome_ok_mono.
    by eapply Forall_lookup_1.
Qed.

Lemma start_wf : pool_wf start.
Proof.
  unfold start. split; cbn [p_arrived p_workers p_log p_incoming].
  - unfold pending. cbn [p_incoming p_workers p_log app map]. rewrite spawn_n_repeat. cbn [app].
    fold (queued (L := L) (repeat fresh (min_n config))). by rewrite queued_fresh.
  - rewrite spawn_n_repeat. rewrite length_app, repeat_length. simpl. lia.
  - rewrite spawn_n_repeat. apply Forall_fresh; [apply fresh_ok|constructor].
  - by intros k jo ?.
Qed.

Lemma step_wf p p' : step p p' -> pool_wf p -> pool_wf p'.
Proof.
  intros Hs [Hc Hn Hw Ho]. unfold pending in Hc.
  destruct Hs as [running inc ws next arr log j _|running inc ws next arr log
    |op j inc ws next arr log ws' next' o E|op inc ws next arr log|ws next arr log
    |op running inc ws next arr log i w w' outs Hi Hstep];
    cbn [p_arrived p_workers p_log p_incoming] in *; fold (queued ws) in Hc.
  - split; cbn [p_arrived p_workers p_log p_incoming]; [|done..].
    unfold pending. cbn. fold (queued ws). rewrite Hc. solve_Permutation.
  - by split.
  - destruct (dispatch_job_ok config new_lua call returns log _ _ _ _ _ _ _ E Hw Hn) as (H1 & H2 & H3 & H4).
    split; cbn [p_arrived p_workers p_log p_incoming]; [|done| |by apply log_ok_app].
    2:{ eapply Forall_impl; [exact H1|]. intros w. apply worker_ok_mono. }
    unfold pending. cbn [p_incoming p_workers p_log]. fold (queued ws'). rewrite map_app, Hc.
    transitivity (inc ++ (j :: queued ws) ++ map fst log); [solve_Permutation|].
    rewrite H3. solve_Permutation.
  - destruct (cleanup_ok config new_lua call returns log ws Hw Hn) as (H1 & H2 & H3).
    split; cbn [p_arrived p_workers p_log p_incoming]; [|done..].
    unfold pending. cbn. fold (queued (cleanup config ws)). by rewrite H3.
  - by split.
  - destruct (worker_step_ok new_lua call returns log w w' outs Hstep (Forall_lookup_1 _ _ _ _ Hw Hi))
      as (H1 & H2 & H3).
    split; cbn [p_arrived p_workers p_log p_incoming].
    + unfold pending. cbn. fold (queued (<[i:=w']> ws)). rewrite map_app, Hc.
      pose proof (queued_insert ws i w w' Hi) as Hins. rewrite H2 in Hins.
      assert (Hins' : queued (<[i:=w']> ws) ++ map fst outs ≡ₚ queued ws).
      { apply (Permutation_app_inv_r (w_queue w')). rewrite <-Hins. solve_Permutation. }
      rewrite <-Hins'. solve_Permutation.
    + by rewrite length_insert.
    + apply Forall_insert; [|done]. eapply Forall_impl; [exact Hw|]. intros x. apply worker_ok_mono.
    + by apply log_ok_app.
Qed.

Lemma reachable_wf p : rtc step start p -> pool_wf p.
Proof.
  intros H. assert (Hi : pool_wf start) by apply start_wf. revert H Hi. generalize start.
  induction 1; [done|]. intros Hi. by eapply IHrtc, step_wf.
Qed.

Lemma swap_remove_ended ws i (w : Worker (L := L)) :
  ws !! i = Some w -> ended w = true ->
  length (List.filter ended ws) = S (length (List.filter ended (swap_remove i ws))).
Proof using Type.
  intros Hi He. assert (Hperm : forall ws1 ws2 : list (Worker (L := L)), ws1 ≡ₚ ws2 ->
    length (List.filter ended ws1) = length (List.filter ended ws2)).
  { induction 1; cbn; try lia; repeat destruct (ended _); cbn; lia. }
  rewrite (Hperm _ _ (swap_remove_perm ws i w Hi)). cbn. by rewrite He.
Qed.

Lemma dispatch_finishes backlog j (ws : list (Worker (L := L))) next ws' next' o :
  dispatch_job config backlog j ws next = (ws', next', Some o) ->
  match o with
  | JAnswered r => ws = [] /\ r = no_workers
  | JDropped => length (List.filter ended ws) = S (length (List.filter ended ws'))
  end.
Proof using Type.
  unfold dispatch_job. destruct (inflate_repeat config backlog ws) as (n & -> & _).
  set (ws1 := ws ++ repeat fresh n).
  assert (Hf : length (List.filter ended ws1) = length (List.filter ended ws)).
  { unfold ws1. rewrite List.filter_app, length_app. clear. induction n; cbn in *; lia. }
  destruct (is_empty ws1) eqn:E; [intros [= <- _ <-]; by destruct ws|].
  destruct (ws1 !! (next mod length ws1)) as [w|] eqn:Hi; [|done].
  destruct (ended w) eqn:He; [|done]. intros [= <- _ <-]. rewrite <-Hf. by eapply swap_remove_ended.
Qed.

Lemma step_finishes p p' :
  step p p' -> exists outs, p_log p' = p_log p ++ outs /\ Forall (finishes call returns p p') outs.
Proof using Type.
  destruct 1 as [running inc ws next arr log j _|running inc ws next arr log
    |op j inc ws next arr log ws' next' o E|op inc ws next arr log|ws next arr log
    |op running inc ws next arr log i w w' outs Hi Hstep]; cbn [p_log];
    try (by exists []; rewrite app_nil_r).
  - eexists. split; [done|]. destruct o as [o|]; [|constructor]. apply Forall_singleton. unfold finishes. cbn.
    apply dispatch_finishes in E. destruct o as [r|]; [left; by destruct E as [-> ->]|by left].
  - exists outs. split; [done|]. unfold finishes. cbn [p_workers p_incoming].
    assert (Hdrop : forall q ph b, ws !! i = Some (mkWorker q ph) -> ended (mkWorker q ph) = false ->
      w' = mkWorker [] (Ended b) ->
      Forall (fun jo : job * job_outcome => snd jo = JDropped /\ exists i0 w0 w1, ws !! i0 = Some w0 /\ ended w0 = false /\
        fst jo ∈ w_queue w0 /\ <[i := w']> ws = <[i0 := w1]> ws /\ ended w1 = true)
        (map (fun j => (j, JDropped)) q)).
    { intros q ph b Hw Hne ->. apply Forall_forall. intros jo (j & -> & Hj)%list_elem_of_fmap.
      split; [done|]. by eexists i, _, _. }
    destruct Hstep as [q l Hl|q Hl|j q l Hret|j q l Hret|q l|q]; try constructor.
    1, 4: (eapply Forall_impl; [by eapply Hdrop|]; intros jo [-> H]; by right).
    + right. cbn. by eexists i, q, l.
    + constructor.
Qed.

(** C5: At every point of every schedule, every request that arrived is in exactly
    one place: waiting in the dispatcher's channel or in one worker's queue, or
    finished with one outcome; only workers that have not ended have a queue.  The
    pool never has more workers than the larger of [worker.min] and [worker.max],
    and every answer is the refusal of an empty pool or what one Lua state answers
    after requests that were finished before, in the order in which they were.  A
    step answers a request only when the pool is empty, or by a worker at the head
    of whose queue it was; it loses one only with a worker that ended: the
    dispatcher at most one for each, the one it took for that worker and does not
    pass on, and the worker those it had. *)
Theorem pool_conserves_requests p :
  rtc step start p ->
  p_arrived p ≡ₚ p_incoming p ++ concat (map w_queue (p_workers p)) ++ map fst (p_log p) /\
  (forall w, w ∈ p_workers p -> ended w = true -> w_queue w = []) /\
  length (p_workers p) <= N.to_nat (N.max (min_workers config) (max_workers config)) /\
  (forall k j r, p_log p !! k = Some (j, JAnswered r) ->
    r = no_workers \/
    exists hist, hist `sublist_of` map (fun jo => job_req (fst jo)) (take k (p_log p)) /\
      answer_after new_lua call hist (job_req j) = Some r) /\
  forall p', step p p' ->
    exists outs, p_log p' = p_log p ++ outs /\ Forall (finishes call returns p p') outs.
Proof.
  intros [Hc Hn Hw Ho]%reachable_wf. split_and!.
  - unfold pending in Hc. by rewrite app_assoc.
  - intros w Hin He. rewrite Forall_forall in Hw. by apply (Hw w Hin).
  - unfold min_n, max_n in Hn. lia.
  - intros k j r Hin. exact (Ho _ _ Hin).
  - apply step_finishes.
Qed.

(** ** While every worker lives *)

(** A step after which no worker has ended. *)
Definition alive (p : Pool (L := L)) : Prop := Forall (fun w => ended w = false) (p_workers p).
Definition alive_step (p p' : Pool (L := L)) : Prop := step p p' /\ alive p'.

Lemma alive_none p : alive p -> List.filter ended (p_workers p) = [].
Proof using Type.
  unfold alive. induction 1 as [|w ws Hw _ IH]; [done|]. cbn. by rewrite Hw.
Qed.

Lemma alive_not_empty p p' : step p p' -> alive p -> p_workers p <> [] -> p_workers p' <> [].
Proof using Type.
  intros Hs Ha Hne. assert (H : length (p_workers p') >= length (p_workers p)).
  { destruct Hs as [running inc ws next arr log j _|running inc ws next arr log
      |op j inc ws next arr log ws' next' o E|op inc ws next arr log|ws next arr log
      |op running inc ws next arr log i w w' outs Hi Hstep]; cbn [p_workers] in *; try lia.
    - unfold dispatch_job in E. destruct (inflate_repeat config (length inc) ws) as (n & Ei & _). rewrite Ei in E.
      assert (Hal : Forall (fun w => ended w = false) (ws ++ repeat fresh n)) by by apply Forall_fresh.
      set (ws1 := ws ++ repeat fresh n) in *. assert (Hl : length ws1 >= length ws)
        by (unfold ws1; rewrite length_app; lia).
      destruct (is_empty ws1); [by injection E as <- _ _|].
      destruct (ws1 !! (next mod length ws1)) as [w|] eqn:Hi; [|by injection E as <- _ _].
      rewrite (Forall_lookup_1 _ _ _ _ Hal Hi) in E. injection E as <- _ _. by rewrite length_insert.
    - unfold cleanup. destruct (replenish_repeat config (min_n config) (List.filter (fun w => negb (is_finished w)) ws))
        as (n & -> & _). rewrite length_app. assert (Hf : List.filter (fun w => negb (is_finished w)) ws = ws); [|rewrite Hf; lia].
      unfold alive in Ha. cbn in Ha. clear - Ha. induction Ha as [|w0 ws0 Hw _ IH]; [done|]. cbn. rewrite IH.
      unfold is_finished, ended in *. by destruct (w_phase w0).
    - rewrite length_insert. lia. }
  destruct (p_workers p'); [|done]. destruct (p_workers p); [done|simpl in H; lia].
Qed.

Definition log_lives (log : list (job * job_outcome)) : Prop :=
  forall k j o, log !! k = Some (j, o) ->
  exists hist r, o = JAnswered r /\ hist `sublist_of` map (fun jo => job_req (fst jo)) (take k log) /\
    answer_after new_lua call hist (job_req j) = Some r.

Lemma alive_step_lives p p' :
  step p p' -> alive p -> alive p' -> p_workers p <> [] -> pool_wf p -> log_lives (p_log p) -> log_lives (p_log p').
Proof using Type.
  intros Hs Ha Ha' Hne [_ _ Hw _] Hlog k j o Hk. destruct (step_finishes _ _ Hs) as (outs & Hl & Hout).
  rewrite Hl in Hk |- *. destruct (decide (k < length (p_log p))) as [Hlt|Hge].
  { rewrite lookup_app_l in Hk by done. rewrite take_app_le by lia. by apply Hlog. }
  rewrite lookup_app_r in Hk by lia. pose proof (Forall_lookup_1 _ _ _ _ Hout Hk) as Hf. unfold finishes in Hf.
  cbn in Hf. destruct o as [r|].
  - destruct Hf as [[He _]|(i & q & l & Hi & _ & ->)]; [done|].
    destruct (Forall_lookup_1 _ _ _ _ Hw Hi) as (_ & Hrun & _). destruct (Hrun l eq_refl) as (hist & Hsub & Hlua).
    exists hist, (snd (call l (job_req j))). split; [done|]. split; [|unfold answer_after; by rewrite Hlua].
    rewrite take_app_ge, map_app by lia. by apply sublist_inserts_r.
  - exfalso. rewrite (alive_none p Ha) in Hf. destruct Hf as [[_ Hf]|(i & w & w' & Hi & _ & _ & Hp' & He)]; [done|].
    unfold alive in Ha'. rewrite Hp' in Ha'. apply lookup_lt_Some in Hi.
    apply (Forall_lookup_1 _ _ i w') in Ha'; [congruence|]. by apply list_lookup_insert_eq.
Qed.

(** As long as no worker ends, no request is lost or refused: each that is
    finished has the answer of a Lua state that served requests finished before. *)
Theorem living_pool_answers p :
  rtc alive_step start p -> min_workers config <> 0%N ->
  log_lives (p_log p).
Proof.
  intros Hs Hmin.
  assert (H0 : alive start /\ p_workers start <> [] /\ pool_wf start /\ log_lives (p_log start)).
  { split_and!; [..|apply start_wf|by intros k j o ?]; unfold alive; cbn; rewrite spawn_n_repeat.
    - apply Forall_fresh; [done|constructor].
    - unfold min_n. destruct (N.to_nat (min_workers config)) eqn:E; [lia|done]. }
  revert Hs H0. generalize start. induction 1 as [p|p p' p'' [Hs Ha'] _ IH]; [by intros (_ & _ & _ & H)|].
  intros (Ha & Hne & Hwf & Hlog). apply IH. split_and!; [done|by eapply alive_not_empty|by eapply step_wf|].
  by eapply alive_step_lives.
Qed.

(** ** One request at a time *)

(** The router waits for the reply to a request before it sends the next. *)
Definition seq_step (p p' : Pool (L := L)) : Prop :=
  step p p' /\ (p_arrived p' = p_arrived p \/ pending p = []).

Lemma pool_wf_length p : pool_wf p -> length (p_arrived p) = length (pending p) + length (p_log p).
Proof. intros [Hc _ _ _]. by rewrite Hc, length_app, length_map. Qed.

Lemma seq_step_small p p' :
  seq_step p p' -> pool_wf p -> length (pending p) <= 1 -> length (p_workers p) <= min_n config ->
  length (pending p') <= 1 /\ length (p_workers p') <= min_n config.
Proof.
  intros [Hs Hseq] Hwf Hp Hn. pose proof (step_wf _ _ Hs Hwf) as Hwf'.
  pose proof (pool_wf_length _ Hwf) as H1. pose proof (pool_wf_length _ Hwf') as H2.
  destruct Hs as [running inc ws next arr log j _|running inc ws next arr log
    |op j inc ws next arr log ws' next' o E|op inc ws next arr log|ws next arr log
    |op running inc ws next arr log i w w' outs Hi Hstep];
    cbn [p_arrived p_workers p_log p_incoming] in *; rewrite ?length_app in *; cbn [length] in *.
  - split; [|done]. destruct Hseq as [Hseq|Hseq]; [|rewrite Hseq in H1; simpl in H1; lia].
    apply (f_equal length) in Hseq. rewrite length_app in Hseq. simpl in Hseq. lia.
  - done.
  - split; [lia|]. assert (inc = []) as ->.
    { unfold pending in Hp. cbn in Hp. rewrite length_app in Hp. destruct inc; [done|simpl in Hp; lia]. }
    unfold dispatch_job, inflate in E. cbn [length Nat.ltb Nat.leb andb] in E.
    destruct (is_empty ws); [by injection E as <- _ _|].
    destruct (ws !! (next mod length ws)) as [w|] eqn:Hi; [|by injection E as <- _ _].
    destruct (ended w); injection E as <- _ _.
    + apply swap_remove_perm in Hi. apply Permutation_length in Hi. simpl in Hi. lia.
    + by rewrite length_insert.
  - split; [lia|]. unfold cleanup.
    destruct (replenish_repeat config (min_n config) (List.filter (fun w => negb (is_finished w)) ws))
      as (n & -> & Hk). rewrite length_app, repeat_length.
    pose proof (List.filter_length_le (fun w => negb (is_finished w)) ws). lia.
  - done.
  - split; [lia|]. by rewrite length_insert.
Qed.

(** One request at a time, the pool finishes them in the order of their arrival. *)
Definition in_order (p : Pool (L := L)) : Prop := p_arrived p = map fst (p_log p) ++ pending p.

Lemma step_log p p' : step p p' -> exists outs, p_log p' = p_log p ++ outs.
Proof. destruct 1; cbn; try (by exists []; rewrite app_nil_r); by eexists. Qed.

(** A step without an arrival finishes some of the pending requests. *)
Lemma step_pending p p' :
  step p p' -> pool_wf p -> p_arrived p' = p_arrived p ->
  exists outs, p_log p' = p_log p ++ outs /\ pending p ≡ₚ map fst outs ++ pending p'.
Proof.
  intros Hs Hwf Ha. pose proof (step_wf _ _ Hs Hwf) as [Hc' _ _ _]. destruct Hwf as [Hc _ _ _].
  destruct (step_log _ _ Hs) as [outs Hl]. exists outs. split; [done|].
  rewrite Ha, Hc, Hl, map_app in Hc'. apply (Permutation_app_inv_r (map fst (p_log p))). rewrite Hc'.
  solve_Permutation.
Qed.

Lemma step_arrived p p' :
  step p p' -> p_arrived p' = p_arrived p \/
  exists j, p_arrived p' = p_arrived p ++ [j] /\ p_log p' = p_log p /\ (pending p = [] -> pending p' = [j]) /\
    p_open p' = true.
Proof.
  destruct 1; cbn; try by left. right. exists j. split_and!; [done..| |done]. unfold pending. cbn.
  by intros [-> ->]%app_eq_nil.
Qed.

Lemma seq_step_order p p' :
  seq_step p p' -> pool_wf p -> length (pending p) <= 1 -> in_order p -> in_order p'.
Proof.
  intros [Hs Hseq] Hwf Hlen Hord. unfold in_order in *.
  destruct (step_arrived _ _ Hs) as [Ha|(j & Ha & Hl & Hp & _)].
  - destruct (step_pending _ _ Hs Hwf Ha) as (outs & Hl & Hp). rewrite Ha, Hord, Hl, map_app, <-app_assoc. f_equal.
    destruct (pending p) as [|j [|]]; [by apply Permutation_nil in Hp as ->| |simpl in Hlen; lia].
    by apply Permutation_length_1_inv in Hp.
  - destruct Hseq as [E|Hnil]; [rewrite Ha in E; apply (f_equal length) in E; rewrite length_app in E; simpl in E; lia|].
    by rewrite Ha, Hord, Hl, Hnil, Hp, app_nil_r.
Qed.

Lemma seq_reachable p :
  rtc seq_step start p ->
  pool_wf p /\ length (p_workers p) <= min_n config /\ length (pending p) <= 1 /\ in_order p.
Proof.
  assert (Hi : pool_wf start /\ length (p_workers start) <= min_n config /\ length (pending start) <= 1 /\
    in_order start).
  { pose proof (pool_wf_length _ start_wf) as Hl. cbn [p_arrived p_log start length] in Hl.
    assert (Hp : pending start = []) by (apply nil_length_inv; lia).
    unfold in_order. rewrite Hp. split_and!; [apply start_wf| |simpl; lia|done].
    cbn. rewrite spawn_n_repeat. simpl. by rewrite repeat_length. }
  intros H. revert H Hi. generalize start. induction 1 as [p|p p' p'' Hs _ IH]; [done|].
  intros (Hwf & Hn & Hp & Ho). apply IH. destruct (seq_step_small _ _ Hs Hwf Hp Hn) as [? ?].
  split_and!; [by apply (step_wf p), Hwf; apply Hs|done..|by eapply seq_step_order].
Qed.

(** The router sends a request only when the one before is finished, so the
    dispatcher never sees a backlog and the pool never grows over [worker.min]
    workers: [worker.max] has no effect. *)
Theorem pool_never_inflates p :
  rtc seq_step start p ->
  length (p_workers p) <= N.to_nat (min_workers config) /\ length (pending p) <= 1.
Proof.
  intros H. apply seq_reachable in H as (_ & ? & ? & _). by split.
Qed.

(** ** Round robin *)

(** The dispatcher takes these requests one after the other. *)
Fixpoint dispatch_all (js : list job) (ws : list (Worker (L := L))) (next : nat) :
    list (Worker (L := L)) * nat :=
  match js with
  | [] => (ws, next)
  | j :: js =>
      let '(ws, next, _) := dispatch_job config (length js) j ws next in dispatch_all js ws next
  end.

(** The jobs of the [i]-th of [n] workers: every [n]-th one. *)
Definition assigned (n next i : nat) (js : list job) : list job :=
  map snd (List.filter (fun kj => Nat.eqb ((next + fst kj) mod n) i) (imap pair js)).

Lemma assigned_cons n next i j js :
  n <> 0 ->
  assigned n next i (j :: js) =
  (if Nat.eqb (next mod n) i then [j] else []) ++ assigned n (next mod n + 1) i js.
Proof.
  intros Hn. unfold assigned. cbn [imap List.filter fst]. rewrite Nat.add_0_r.
  assert (H : map snd (List.filter (fun kj => Nat.eqb ((next + fst kj) mod n) i) (imap (pair ∘ S) js)) =
              map snd (List.filter (fun kj => Nat.eqb ((next mod n + 1 + fst kj) mod n) i) (imap pair js))).
  { assert (Hgen : forall (m : nat), map snd (List.filter (fun kj => Nat.eqb ((next + fst kj) mod n) i)
                       (imap (fun k => pair (S (m + k))) js)) =
                     map snd (List.filter (fun kj => Nat.eqb ((next mod n + 1 + fst kj) mod n) i)
                       (imap (fun k => pair (m + k)) js))).
    { induction js as [|j' js IH]; intros m; [done|]. cbn [imap List.filter fst].
      assert (E : (next + S (m + 0)) mod n = (next mod n + 1 + (m + 0)) mod n).
      { rewrite <-Nat.add_assoc, Nat.Div0.add_mod_idemp_l. f_equal; lia. }
      rewrite E. specialize (IH (S m)).
      rewrite (imap_ext ((fun k => pair (S (m + k))) ∘ S) (fun k => pair (S (S m + k))) js)
        by (intros; simpl; f_equal; lia).
      rewrite (imap_ext ((fun k => pair (m + k)) ∘ S) (fun k => pair (S m + k)) js)
        by (intros; simpl; f_equal; lia).
      by destruct (Nat.eqb _ i); cbn [map]; rewrite IH. }
    exact (Hgen 0). }
  destruct (Nat.eqb (next mod n) i); cbn [map app]; by rewrite H.
Qed.

(** Requests taken in a row, when every worker's task is alive and the pool
    does not grow, go round: of [n] workers, each gets every [n]-th request, in
    order, at the end of its queue, starting with the worker [next] points at. *)
Theorem dispatch_round_robin js ws next ws' next' :
  dispatch_all js ws next = (ws', next') ->
  Forall (fun w => ended w = false) ws -> ws <> [] ->
  (max_n config <= length ws \/ length js <= 6) ->
  length ws' = length ws /\
  forall i w, ws !! i = Some w ->
    ws' !! i = Some (mkWorker (w_queue w ++ assigned (length ws) next i js) (w_phase w)).
Proof.
  revert ws next. induction js as [|j js IH]; intros ws next E Hal Hne Hsmall.
  { injection E as <- <-. split; [done|]. intros i w Hi. rewrite Hi. unfold assigned. simpl.
    rewrite app_nil_r. by destruct w. }
  cbn [dispatch_all] in E. unfold dispatch_job in E.
  assert (Hinf : inflate config (length js) ws = ws).
  { unfold inflate. destruct (Nat.ltb_spec 5 (length js)), (Nat.ltb_spec (length ws) (max_n config));
      simpl in *; (done || lia). }
  rewrite Hinf in E. destruct (is_empty ws) eqn:He; [by destruct ws|].
  assert (Hn : length ws <> 0) by by destruct ws.
  set (k := next mod length ws) in *.
  assert (Hk : k < length ws) by by apply Nat.mod_upper_bound.
  destruct (lookup_lt_is_Some_2 ws k Hk) as [wk Hwk]. rewrite Hwk in E.
  rewrite (Forall_lookup_1 _ _ _ _ Hal Hwk) in E.
  apply IH in E as [Hlen Hq]; [|apply Forall_insert; [done|]; exact (Forall_lookup_1 _ _ _ _ Hal Hwk)
    |by destruct ws, k|rewrite length_insert; simpl in *; lia].
  rewrite length_insert in *. split; [done|]. intros i w Hi. rewrite assigned_cons by done. fold k.
  destruct (Nat.eqb_spec k i) as [->|Hki].
  - assert (w = wk) as -> by congruence.
    rewrite (Hq i (mkWorker (w_queue wk ++ [j]) (w_phase wk))).
    + cbn [w_queue w_phase]. by rewrite <-app_assoc.
    + by apply list_lookup_insert_eq.
  - rewrite (Hq i w); [done|]. by rewrite list_lookup_insert_ne.
Qed.

(** ** Progress *)

(** The steps a request still needs: to be taken, its worker to start, its turn. *)
Definition weight (w : Worker (L := L)) : nat :=
  length (w_queue w) * match w_phase w with Starting => 2 | _ => 1 end.
Definition weights (ws : list (Worker (L := L))) : nat := foldr (fun w n => weight w + n) 0 ws.

Lemma weights_app ws1 ws2 : weights (ws1 ++ ws2) = weights ws1 + weights ws2.
Proof using Type. unfold weights. induction ws1 as [|w ws1 IH]; cbn; lia. Qed.
Definition work (p : Pool (L := L)) : nat := 3 * length (p_incoming p) + weights (p_workers p).

Lemma weights_perm ws1 ws2 : ws1 ≡ₚ ws2 -> weights ws1 = weights ws2.
Proof using Type. unfold weights. induction 1; cbn; lia. Qed.

Lemma weights_fresh ws n : weights (ws ++ repeat fresh n) = weights ws.
Proof using Type.
  rewrite weights_app. unfold weights. induction n as [|n IH]; cbn in *; lia.
Qed.

Lemma weights_insert ws i w w' : ws !! i = Some w -> weights (<[i := w']> ws) + weight w = weights ws + weight w'.
Proof using Type.
  intros Hi. rewrite <-(take_drop_middle ws i w Hi) at 2.
  rewrite insert_take_drop by by eapply lookup_lt_Some. rewrite !weights_app. cbn. lia.
Qed.

Lemma weights_filter f ws : weights (List.filter f ws) <= weights ws.
Proof using Type. unfold weights. induction ws as [|w ws IH]; [done|]. cbn. destruct (f w); cbn; lia. Qed.

Lemma weights_pending p : work p = 0 -> pending p = [].
Proof using Type.
  unfold work, pending. destruct (p_incoming p); [|cbn; lia]. intros H. cbn in *.
  induction (p_workers p) as [|w ws IH]; [done|]. unfold weights in *. cbn in *.
  destruct w as [[|j q] ph]; [apply IH; cbn in *; lia|]. unfold weight in H. cbn in H. destruct ph; lia.
Qed.

(** Taking a request makes it lighter. *)
Lemma dispatch_job_weights backlog j ws next ws' next' o :
  dispatch_job config backlog j ws next = (ws', next', o) -> weights ws' <= weights ws + 2.
Proof using Type.
  unfold dispatch_job. destruct (inflate_repeat config backlog ws) as (n & -> & _).
  rewrite <-(weights_fresh ws n). set (ws1 := ws ++ repeat fresh n).
  destruct (is_empty ws1); [intros [= <- _ _]; lia|].
  destruct (ws1 !! (next mod length ws1)) as [w|] eqn:Hi; [|intros [= <- _ _]; lia].
  destruct (ended w); intros [= <- _ _].
  - apply swap_remove_perm, weights_perm in Hi. rewrite Hi. unfold weights. cbn. lia.
  - pose proof (weights_insert ws1 _ w (mkWorker (w_queue w ++ [j]) (w_phase w)) Hi) as H.
    unfold weight in H. cbn in H. rewrite length_app in H. cbn in H. destruct (w_phase w); lia.
Qed.

(** Nothing but an arrival adds to the work. *)
Lemma pool_step_work p p' : step p p' -> p_arrived p' = p_arrived p -> work p' <= work p.
Proof using Type.
  intros Hs. destruct Hs as [running inc ws next arr log j _|running inc ws next arr log
    |op j inc ws next arr log ws' next' o E|op inc ws next arr log|ws next arr log
    |op running inc ws next arr log i w w' outs Hi Hstep]; unfold work; cbn [p_incoming p_workers p_arrived length];
    intros Ha; try done.
  - apply (f_equal length) in Ha. rewrite length_app in Ha. cbn in Ha. lia.
  - apply dispatch_job_weights in E. lia.
  - unfold cleanup. destruct (replenish_repeat config (min_n config) (List.filter (fun w => negb (is_finished w)) ws))
      as (n & -> & _). rewrite weights_fresh. pose proof (weights_filter (fun w => negb (is_finished w)) ws). lia.
  - pose proof (weights_insert ws i w w' Hi). assert (weight w' <= weight w); [|lia].
    destruct Hstep; unfold weight; cbn; lia.
Qed.

Lemma queued_nonempty ws : queued (L := L) ws <> [] -> exists i w, ws !! i = Some w /\ w_queue w <> [].
Proof using Type.
  induction ws as [|w ws IH]; [done|]. change (queued (w :: ws)) with (w_queue w ++ queued ws).
  intros H. destruct (w_queue w) as [|j q] eqn:E; [|by exists 0, w; rewrite E].
  destruct (IH H) as (i & w' & Hi & Hq). by exists (S i), w'.
Qed.

Lemma pending_work p : pending p = [] -> work p = 0.
Proof using Type.
  unfold work, pending. intros [-> H]%app_eq_nil. cbn. unfold weights.
  induction (p_workers p) as [|w ws IH]; [done|]. cbn in *. apply app_eq_nil in H as [Hw H].
  rewrite IH by done. unfold weight. by rewrite Hw.
Qed.

Lemma work_pending p : work p <= 3 * length (pending p).
Proof using Type.
  unfold work, pending. rewrite length_app. unfold weights. induction (p_workers p) as [|w ws IH]; [cbn; lia|].
  cbn in *. rewrite length_app. assert (weight w <= 2 * length (w_queue w)); [|lia].
  unfold weight. destruct (w_phase w); lia.
Qed.

Lemma arrival_work p p' j : step p p' -> p_arrived p' = p_arrived p ++ [j] -> work p' = work p + 3.
Proof using Type.
  intros Hs Ha. destruct Hs; cbn in *; try (apply (f_equal length) in Ha; rewrite length_app in Ha; simpl in Ha; lia).
  unfold work. cbn. rewrite length_app. cbn. lia.
Qed.

(** While the dispatcher runs, Lua states can be built and handlers return, some
    step takes away from the work. *)
Lemma pool_progress p :
  pool_wf p -> p_running p = true -> is_Some new_lua -> (forall l req, returns l req = true) -> pending p <> [] ->
  exists p', step p p' /\ p_running p' = true /\ p_open p' = p_open p /\ p_arrived p' = p_arrived p /\
    work p' < work p.
Proof.
  intros Hwf Hrun [l Hl] Hret Hp. destruct p as [op running inc ws next arr log]. cbn in Hrun. subst running.
  destruct inc as [|j inc].
  - apply queued_nonempty in Hp as (i & w & Hi & Hq). cbn in Hi.
    destruct Hwf as [_ _ Hw _]. apply Forall_lookup_1 with (2 := Hi) in Hw as (Hend & _ & Hhung).
    assert (Hstep : exists w' outs, worker_step new_lua call returns w w' outs /\ weight w' < weight w).
    { destruct w as [[|j q] ph]; [done|]. unfold weight. destruct ph as [|l'|l'|b].
      - eexists _, _. split; [by constructor|]. cbn. lia.
      - eexists _, _. split; [apply worker_serve, Hret|]. cbn. lia.
      - destruct (Hhung l' eq_refl) as (j' & q' & _ & Hf). by rewrite Hret in Hf.
      - by discriminate Hend. }
    destruct Hstep as (w' & outs & Hstep & Hlt). eexists. split; [by eapply step_worker|].
    split_and!; [done..|]. pose proof (weights_insert ws i w w' Hi). unfold work. cbn [p_incoming p_workers]. lia.
  - destruct (dispatch_job config (length inc) j ws next) as [[ws' next'] o] eqn:E.
    eexists. split; [apply step_dispatch; exact E|]. split_and!; [done..|].
    apply dispatch_job_weights in E. unfold work. cbn [p_incoming p_workers length]. lia.
Qed.

(** No request gets stuck: at every point of every schedule at which the
    dispatcher runs, when Lua states can be built and handlers return, a bounded
    number of steps of the dispatcher and the workers alone leads to a point where
    every request that arrived has its outcome. *)
Theorem pool_drains p :
  rtc step start p -> p_running p = true -> is_Some new_lua -> (forall l req, returns l req = true) ->
  exists n p', n <= work p /\ nsteps step n p p' /\ p_arrived p' = p_arrived p /\ pending p' = [] /\
    p_arrived p ≡ₚ map fst (p_log p').
Proof.
  intros Hwf%reachable_wf Hrun Hl Hret. remember (work p) as m eqn:Em. revert p Hwf Hrun Em.
  induction m as [m IH] using lt_wf_ind. intros p Hwf Hrun ->.
  destruct (decide (pending p = [])) as [Hp|Hp].
  - exists 0, p. split_and!; [lia|constructor|done|done|]. destruct Hwf as [Hc _ _ _]. by rewrite Hc, Hp.
  - destruct (pool_progress p Hwf Hrun Hl Hret Hp) as (p1 & H1 & H2 & _ & H3 & H4).
    destruct (IH _ H4 p1 (step_wf _ _ H1 Hwf) H2 eq_refl) as (n & p2 & Hn & G1 & G2 & G3 & G4).
    exists (S n), p2. rewrite <-H3. split_and!; [lia|by econstructor|done..].
Qed.

(** ** A handler that does not return *)

(** A worker is in a call for the request, for ever. *)
Definition hangs_on (p : Pool (L := L)) (j : job) : Prop :=
  exists w l q, w ∈ p_workers p /\ w_phase w = Hung l /\ w_queue w = j :: q.

Lemma hangs_on_pending p j : hangs_on p j -> j ∈ pending p.
Proof using Type.
  intros (w & l & q & Hw & _ & Hq). unfold pending. apply elem_of_app. right.
  apply list_elem_of_In, in_concat. exists (w_queue w). split; [|rewrite Hq; by left].
  apply in_map. by apply list_elem_of_In.
Qed.

Lemma pool_step_hangs p p' j : step p p' -> hangs_on p j -> hangs_on p' j.
Proof using Type.
  intros Hs (w & l & q & Hw & Hph & Hq). assert (Hne : ended w = false) by (unfold ended; by rewrite Hph).
  destruct Hs as [running inc ws next arr log j' _|running inc ws next arr log
    |op j' inc ws next arr log ws' next' o E|op inc ws next arr log|ws next arr log
    |op running inc ws next arr log i v v' outs Hi Hstep]; try (by exists w, l, q); cbn [p_workers] in Hw.
  - unfold dispatch_job in E. destruct (inflate_repeat config (length inc) ws) as (n & Ei & _). rewrite Ei in E.
    assert (Hw1 : w ∈ ws ++ repeat fresh n) by (apply elem_of_app; by left). clear Ei Hw.
    set (ws1 := ws ++ repeat fresh n) in *.
    destruct (is_empty ws1); [by injection E as <- _ _; exists w, l, q|].
    destruct (ws1 !! (next mod length ws1)) as [v|] eqn:Hi; [|by injection E as <- _ _; exists w, l, q].
    destruct (ended v) eqn:Hv; injection E as <- _ _.
    + exists w, l, q. split; [|done]. rewrite (swap_remove_perm ws1 _ v Hi) in Hw1.
      apply elem_of_cons in Hw1 as [->|?]; [congruence|done].
    + apply list_elem_of_lookup_1 in Hw1 as [k Hk]. destruct (decide (k = next mod length ws1)) as [->|Hki].
      * rewrite Hi in Hk. injection Hk as ->. exists (mkWorker (w_queue w ++ [j']) (w_phase w)), l, (q ++ [j']).
        cbn. split; [|by rewrite Hq]. apply list_elem_of_lookup_2 with (next mod length ws1).
        apply list_lookup_insert_eq. by eapply lookup_lt_Some.
      * exists w, l, q. split; [|done]. apply list_elem_of_lookup_2 with k. cbn. by rewrite list_lookup_insert_ne.
  - exists w, l, q. split; [|done]. cbn. unfold cleanup.
    destruct (replenish_repeat config (min_n config) (List.filter (fun w => negb (is_finished w)) ws)) as (n & -> & _).
    apply elem_of_app. left. apply list_elem_of_In, filter_In. split; [by apply list_elem_of_In|].
    unfold is_finished. by rewrite Hph.
  - exists w, l, q. split; [|done]. cbn. apply list_elem_of_lookup_1 in Hw as [k Hk].
    destruct (decide (k = i)) as [->|Hki].
    + rewrite Hi in Hk. injection Hk as ->. destruct w as [q0 ph]. cbn in Hph. subst ph. by inversion Hstep.
    + apply list_elem_of_lookup_2 with k. cbn. by rewrite list_lookup_insert_ne.
Qed.

(** A request taken for a worker whose task has ended is dropped, not passed
    to another worker: its frontend is told that the handler did not respond,
    even when the other workers are idle.  A worker that reached its idle limit
    and was not cleaned up yet loses the next request this way. *)
Theorem ended_worker_drops_request j op inc ws next arr log w :
  ws <> [] -> length inc <= 5 -> ws !! (next mod length ws) = Some w -> ended w = true ->
  let p' := mkPool op true inc (swap_remove (next mod length ws) ws) (next mod length ws) arr
              (log ++ [(j, JDropped)]) in
  step (mkPool op true (j :: inc) ws next arr log) p' /\ observed JDropped = NoReply.
Proof.
  intros Hne Hinc Hi Hend. split; [|done]. 
  change [(j, JDropped)] with (match Some JDropped with Some o => [(j, o)] | None => [] end).
  apply step_dispatch.
  unfold dispatch_job, inflate. destruct (Nat.ltb_spec 5 (length inc)); [lia|]. cbn [andb].
  destruct (is_empty ws) eqn:E; [by destruct ws|]. by rewrite Hi, Hend.
Qed.
End pool_theorems.

(** * The theorems at a concrete pool *)
Module PoolExample.
Definition config : WorkerConfig := mkWorkerConfig 2 4 60.
(** A Lua state counts the calls it served and answers with the count. *)
Definition call (l : nat) (r : HandlerRequest) : nat * result HandlerResponse bytes :=
  (S l, Ok (mkHandlerResponse (dec (N.of_nat l)) None false)).
Definition returns (l : nat) (r : HandlerRequest) : bool := true.
Definition req (i : N) : job := mkJob i (mkHandlerRequest ∅ [] (str "__route_0")).
Abbreviation step := (pool_step config (Some 0) call returns).

(** The first worker started and reached its idle limit; a request arrived. *)
Definition idle : Pool (L := nat) :=
  mkPool true true [req 1] [mkWorker [] (Ended false); mkWorker [] Starting] 0 [req 1] [].

Lemma idle_reachable : rtc step (start config) idle.
Proof.
  eapply rtc_l; [eapply (step_worker _ _ _ _ _ _ _ _ _ _ _ 0); [reflexivity|apply worker_build; reflexivity]|].
  eapply rtc_l; [eapply (step_worker _ _ _ _ _ _ _ _ _ _ _ 0); [reflexivity|apply worker_exit]|].
  cbn [map app]. eapply rtc_l; [apply (step_arrive _ _ _ _ _ _ _ _ _ _ (req 1)); cbn; lia|].
  cbn. apply rtc_refl.
Qed.

Lemma idle_reachable_seq : rtc (seq_step config (Some 0) call returns) (start config) idle.
Proof.
  eapply rtc_l.
  { split; [eapply (step_worker _ _ _ _ _ _ _ _ _ _ _ 0); [reflexivity|apply worker_build; reflexivity]|by left]. }
  eapply rtc_l.
  { split; [eapply (step_worker _ _ _ _ _ _ _ _ _ _ _ 0); [reflexivity|apply worker_exit]|by left]. }
  cbn [map app]. eapply rtc_l.
  { split; [apply (step_arrive _ _ _ _ _ _ _ _ _ _ (req 1)); cbn; lia|by right]. }
  cbn. apply rtc_refl.
Qed.
End PoolExample.

Lemma pool_conserves_requests_witness :
  rtc PoolExample.step (start PoolExample.config) PoolExample.idle /\
  length (p_workers PoolExample.idle) <= 4 /\
  forall p', PoolExample.step PoolExample.idle p' -> exists outs, p_log p' = outs /\
    Forall (finishes PoolExample.call PoolExample.returns PoolExample.idle p') outs.
Proof.
  split; [apply PoolExample.idle_reachable|].
  destruct (pool_conserves_requests PoolExample.config (Some 0) PoolExample.call PoolExample.returns _
    PoolExample.idle_reachable) as (_ & _ & Hn & _ & Hs).
  split; [exact Hn|exact Hs].
Defined.

Lemma pool_never_inflates_witness :
  rtc (seq_step PoolExample.config (Some 0) PoolExample.call PoolExample.returns) (start PoolExample.config) PoolExample.idle /\
  length (p_workers PoolExample.idle) <= 2.
Proof.
  split; [apply PoolExample.idle_reachable_seq|].
  apply (pool_never_inflates PoolExample.config (Some 0) PoolExample.call PoolExample.returns _ PoolExample.idle_reachable_seq).
Defined.

Lemma dispatch_round_robin_witness :
  fst (dispatch_all PoolExample.config [PoolExample.req 1; PoolExample.req 2; PoolExample.req 3]
         [fresh (L := nat); fresh] 1) !! 1 =
  Some (mkWorker [PoolExample.req 1; PoolExample.req 3] Starting).
Proof.
  apply (proj2 (dispatch_round_robin PoolExample.config
    [PoolExample.req 1; PoolExample.req 2; PoolExample.req 3] [fresh (L := nat); fresh] 1
    (fst (dispatch_all PoolExample.config [PoolExample.req 1; PoolExample.req 2; PoolExample.req 3]
            [fresh (L := nat); fresh] 1)) _ eq_refl ltac:(repeat constructor) ltac:(discriminate)
    ltac:(right; cbn; lia)) 1 fresh eq_refl).
Defined.

Lemma pool_drains_witness :
  exists n p', n <= 3 /\ nsteps PoolExample.step n PoolExample.idle p' /\ [PoolExample.req 1] ≡ₚ map fst (p_log p').
Proof.
  destruct (pool_drains PoolExample.config (Some 0) PoolExample.call PoolExample.returns _ PoolExample.idle_reachable
    eq_refl (mk_is_Some _ _ eq_refl) (fun _ _ => eq_refl)) as (n & p' & Hn & H & _ & _ & Hp).
  exists n, p'. split; [exact Hn|]. split; [exact H|exact Hp].
Defined.

Lemma living_pool_answers_witness :
  let p := mkPool true true [] [mkWorker [] (Running 1); fresh] 1 [PoolExample.req 1]
    [(PoolExample.req 1, JAnswered (Ok (mkHandlerResponse (str "0") None false)))] in
  rtc (alive_step PoolExample.config (Some 0) PoolExample.call PoolExample.returns) (start PoolExample.config) p /\
  log_lives (Some 0) PoolExample.call (p_log p).
Proof.
  intros p. assert (H : rtc (alive_step PoolExample.config (Some 0) PoolExample.call PoolExample.returns)
    (start PoolExample.config) p).
  { eapply rtc_l; [split; [apply (step_arrive PoolExample.config (Some 0) PoolExample.call PoolExample.returns true []
      [fresh; fresh] 0 [] [] (PoolExample.req 1)); cbn; lia|repeat constructor]|]. cbn [app].
    eapply rtc_l; [split; [eapply step_dispatch; reflexivity|repeat constructor]|]. cbn [app].
    eapply rtc_l; [split; [eapply (step_worker _ _ _ _ _ _ _ _ _ _ _ 0); [reflexivity|apply worker_build; reflexivity]
      |repeat constructor]|]. cbn [app].
    eapply rtc_l; [split; [eapply (step_worker _ _ _ _ _ _ _ _ _ _ _ 0); [reflexivity|apply worker_serve; reflexivity]
      |repeat constructor]|]. apply rtc_refl. }
  split; [exact H|].
  exact (living_pool_answers PoolExample.config (Some 0) PoolExample.call PoolExample.returns p H ltac:(discriminate)).
Defined.

Lemma ended_worker_drops_request_witness :
  rtc PoolExample.step (start PoolExample.config) PoolExample.idle /\
  PoolExample.step PoolExample.idle
    (mkPool true true [] [mkWorker [] Starting] 0 [PoolExample.req 1] [(PoolExample.req 1, JDropped)]).
Proof.
  split; [apply PoolExample.idle_reachable|].
  apply (ended_worker_drops_request PoolExample.config (Some 0) PoolExample.call PoolExample.returns (PoolExample.req 1) true []
    [mkWorker [] (Ended false); mkWorker [] Starting] 0 [PoolExample.req 1] [] (mkWorker [] (Ended false)));
    [discriminate|cbn; lia|reflexivity|reflexivity].
Defined.
