(* ===== verification/System.v ===== *)
(** The running program: the tasks of the frontends, the router task
    ([src/src/router.rs]) and the worker pool ([src/src/worker.rs]), composed
    through their channels into one step relation.

    A frontend is known through the interface [Frontend]: which of its tasks
    wait for the router, what they become when the reply comes, and whether they
    may give up waiting ([expired]: an SFTP connection does after a minute).  Every pool
    of handlers ([Proc]) implements it, and so do two frontends side by side and
    a list of them.  The router is [run_router] with its two waits written out:
    for room in the channel of the dispatcher, and for the outcome of the request
    it sent. *)
From S2P Require Import Prelude RustStr Proc Router Handler Worker.

(** * Frontends *)
Class Frontend (C T : Type) := {
  (** A step that does not involve the router. *)
  fe_local : C -> C -> Prop;
  (** The request a task has made and waits for the reply of. *)
  fe_waiting : C -> T -> option Request;
  fe_resume : C -> T -> route_reply -> C;
  (** The task gives up, if it may. *)
  fe_expire : C -> T -> option C;
  fe_local_waiting c c' t rq :
    fe_local c c' -> fe_waiting c t = Some rq -> fe_waiting c' t = Some rq;
  fe_resume_waiting c t t' r :
    t <> t' -> fe_waiting (fe_resume c t' r) t = fe_waiting c t;
  fe_expire_waiting c c' t t' :
    fe_expire c t' = Some c' -> t <> t' -> fe_waiting c' t = fe_waiting c t;
}.

(** What a frontend may do when nothing is known of the replies. *)
Inductive fe_step `{Frontend C T} : C -> C -> Prop :=
| fe_step_local c c' : fe_local c c' -> fe_step c c'
| fe_step_reply c t rq r : fe_waiting c t = Some rq -> fe_step c (fe_resume c t r)
| fe_step_expire c c' t rq : fe_waiting c t = Some rq -> fe_expire c t = Some c' -> fe_step c c'.

(** What a task sees of a reply, and of the end of its patience, if any. *)
Class Replies (Rp : Type) := { seen : route_reply -> Rp; expired : option Rp }.

#[export] Instance patient_replies : Replies route_reply := {| seen r := r; expired := None |}.

(** ** Pools of handlers *)
Section procs.
Context {St Rp M E A : Type} `{Replies Rp}.
Abbreviation pool := (Proc.pool St Request Rp M E A).

Definition proc_waiting (p : proc St Request Rp M E A) : option Request :=
  match p with Call rq _ => Some rq | _ => None end.

Definition procs_waiting (c : pool) (i : nat) : option Request := snd c !! i ≫= proc_waiting.

Definition procs_reply (c : pool) (i : nat) (r : Rp) : pool :=
  match snd c !! i with
  | Some (Call _ k) => (fst c, <[i := k r]> (snd c))
  | _ => c
  end.

Definition procs_resume (c : pool) (i : nat) (r : route_reply) : pool := procs_reply c i (seen r).

Definition procs_expire (c : pool) (i : nat) : option pool := procs_reply c i <$> expired.

Inductive procs_local : pool -> pool -> Prop :=
| procs_local_at s s' i p p' ps :
    ps !! i = Some p -> proc_waiting p = None -> action s p s' p' ->
    procs_local (s, ps) (s', <[i := p']> ps).

Lemma procs_reply_waiting c i j r : i <> j -> procs_waiting (procs_reply c j r) i = procs_waiting c i.
Proof.
  intros Hne. unfold procs_waiting, procs_reply.
  destruct (snd c !! j) as [[]|]; try done. cbn. by rewrite list_lookup_insert_ne.
Qed.

#[export] Program Instance procs_frontend : Frontend pool nat := {
  fe_local := procs_local;
  fe_waiting := procs_waiting;
  fe_resume := procs_resume;
  fe_expire := procs_expire;
}.
Next Obligation.
  intros c c' i rq Hl Hw. destruct Hl as [s s' j p p' ps Hj Hp _]. unfold procs_waiting in *. cbn in *.
  destruct (decide (j = i)) as [->|Hne].
  - rewrite Hj in Hw. cbn in Hw. congruence.
  - by rewrite list_lookup_insert_ne.
Qed.
Next Obligation. intros. by apply procs_reply_waiting. Qed.
Next Obligation.
  intros c c' i j (r & _ & ->)%fmap_Some Hne. by apply procs_reply_waiting.
Qed.

(** The steps of the interface are those of the interleaving of [Proc]. *)
Lemma procs_reply_step c i rq r : procs_waiting c i = Some rq -> Proc.step c (procs_reply c i r).
Proof.
  destruct c as [s ps]. unfold procs_waiting, procs_reply. cbn.
  destruct (ps !! i) as [p|] eqn:Hi; [|done]. cbn. destruct p as [| | | |rq' k|]; try done.
  intros _. by econstructor; [|constructor].
Qed.

Lemma procs_step c c' : fe_step c c' -> Proc.step c c'.
Proof.
  destruct 1 as [c c' [s s' i p p' ps Hi _ Ha]|c i rq r Hw|c c' i rq Hw (r & _ & ->)%fmap_Some];
    [by econstructor|by eapply procs_reply_step..].
Qed.
End procs.

(** ** Frontends side by side *)
#[export] Program Instance both_frontend {C1 T1 C2 T2} `{Frontend C1 T1, Frontend C2 T2} :
    Frontend (C1 * C2) (T1 + T2) := {
  fe_local c c' := (fe_local (fst c) (fst c') /\ snd c' = snd c) \/ (fe_local (snd c) (snd c') /\ fst c' = fst c);
  fe_waiting c t := match t with inl t => fe_waiting (fst c) t | inr t => fe_waiting (snd c) t end;
  fe_resume c t r :=
    match t with
    | inl t => (fe_resume (fst c) t r, snd c)
    | inr t => (fst c, fe_resume (snd c) t r)
    end;
  fe_expire c t :=
    match t with
    | inl t => (fun c1 => (c1, snd c)) <$> fe_expire (fst c) t
    | inr t => (fun c2 => (fst c, c2)) <$> fe_expire (snd c) t
    end;
}.
Next Obligation.
  intros C1 T1 C2 T2 F1 F2 [c1 c2] [c1' c2'] [t|t] rq [[Hl He]|[Hl He]]; cbn in *; try by subst.
  - by apply fe_local_waiting.
  - by apply fe_local_waiting.
Qed.
Next Obligation.
  intros C1 T1 C2 T2 F1 F2 [c1 c2] [t|t] [t'|t'] r Hne; cbn; try done; apply fe_resume_waiting; congruence.
Qed.
Next Obligation.
  intros C1 T1 C2 T2 F1 F2 [c1 c2] c' [t|t] [t'|t'] Hex Hne; cbn in *;
    apply fmap_Some in Hex as (d & Hd & ->); cbn; try done; apply (fe_expire_waiting _ _ _ _ Hd); congruence.
Qed.

#[export] Program Instance list_frontend {C T} `{Frontend C T} : Frontend (list C) (nat * T) := {
  fe_local cs cs' := exists i c c', cs !! i = Some c /\ fe_local c c' /\ cs' = <[i := c']> cs;
  fe_waiting cs t := cs !! fst t ≫= fun c => fe_waiting c (snd t);
  fe_resume cs t r := alter (fun c => fe_resume c (snd t) r) (fst t) cs;
  fe_expire cs t := cs !! fst t ≫= fun c => (fun c' => <[fst t := c']> cs) <$> fe_expire c (snd t);
}.
Next Obligation.
  intros C T F cs cs' [i t] rq (j & c & c' & Hj & Hl & ->). cbn. intros Hw.
  destruct (decide (j = i)) as [->|Hne].
  - rewrite Hj in Hw. cbn in Hw. rewrite list_lookup_insert_eq by by eapply lookup_lt_Some.
    by apply (fe_local_waiting _ _ _ _ Hl).
  - by rewrite list_lookup_insert_ne.
Qed.
Next Obligation.
  intros C T F cs [i t] [j t'] r Hne. cbn. destruct (decide (j = i)) as [->|Hji].
  - rewrite list_lookup_alter_eq. destruct (cs !! i) as [c|]; [|done]. cbn.
    apply fe_resume_waiting. congruence.
  - by rewrite list_lookup_alter_ne.
Qed.
Next Obligation.
  intros C T F cs cs' [i t] [j t'] (c & Hc & (c' & Hex & ->)%fmap_Some)%bind_Some Hne. cbn in *.
  destruct (decide (j = i)) as [->|Hji].
  - rewrite Hc, list_lookup_insert_eq by by eapply lookup_lt_Some. cbn.
    apply (fe_expire_waiting _ _ _ _ Hex). congruence.
  - by rewrite list_lookup_insert_ne.
Qed.

(** * The router task *)

Section system.
Context {C T L Trie : Type} `{Frontend C T}.
Variable at_path : Trie -> bytes -> result (RouteMeta * list (bytes * bytes)) bytes.
Variable trie : Trie.
Variable config : WorkerConfig.
Variable new_lua : option L.
Variable call : L -> HandlerRequest -> L * result HandlerResponse bytes.
Variable returns : L -> HandlerRequest -> bool.

(** A request with the task that waits for its reply, unless it gave up. *)
Abbreviation ticket := (option T * Request)%type.

(** Between two requests; waiting for room in the channel of the dispatcher; and
    waiting for the outcome of a job. *)
Inductive router_phase :=
| RIdle
| RSends (t : option T) (rq : Request) (hreq : HandlerRequest) (pattern : bytes) (children : bool)
| RWaits (t : option T) (rq : Request) (j : job) (pattern : bytes) (children : bool).

(** * The system *)

(** [s_sent] and [s_log] record the requests that were sent and those that were
    answered, in order; [s_next] numbers the jobs. *)
Record Sys := mkSys {
  s_front : C;
  s_queue : list ticket;
  s_router : router_phase;
  s_pool : Pool (L := L);
  s_next : N;
  s_sent : list Request;
  s_log : list (ticket * route_reply);
}.

Definition in_service (r : router_phase) : list ticket :=
  match r with RIdle => [] | RSends t rq _ _ _ | RWaits t rq _ _ _ => [(t, rq)] end.

(** The task of the request in service gave up. *)
Definition nobody_waits (r : router_phase) : router_phase :=
  match r with
  | RIdle => RIdle
  | RSends _ rq hreq pattern children => RSends None rq hreq pattern children
  | RWaits _ rq j pattern children => RWaits None rq j pattern children
  end.

(** The reply goes to the task, or nowhere. *)
Definition deliver (f : C) (t : option T) (r : route_reply) : C :=
  match t with Some t => fe_resume f t r | None => f end.

(** The requests of which the reply is due. *)
Definition in_flight (s : Sys) : list ticket := in_service (s_router s) ++ s_queue s.

Definition sys_start (f : C) : Sys := mkSys f [] RIdle (start config) 0 [] [].

(** The steps of the router and of the pool. *)
Inductive serve_step : Sys -> Sys -> Prop :=
| serve_direct f q p n sent log t rq a :
    route_request at_path trie rq = Direct a ->
    serve_step (mkSys f ((t, rq) :: q) RIdle p n sent log)
      (mkSys (deliver f t (Replied a)) q RIdle p n sent (log ++ [(t, rq, Replied a)]))
| serve_take f q p n sent log t rq hreq pattern children :
    route_request at_path trie rq = Forward hreq pattern children ->
    serve_step (mkSys f ((t, rq) :: q) RIdle p n sent log)
      (mkSys f q (RSends t rq hreq pattern children) p n sent log)
| serve_forward f q p p' n sent log t rq hreq pattern children :
    pool_step config new_lua call returns p p' -> p_arrived p' = p_arrived p ++ [mkJob n hreq] ->
    serve_step (mkSys f q (RSends t rq hreq pattern children) p n sent log)
      (mkSys f q (RWaits t rq (mkJob n hreq) pattern children) p' (n + 1) sent log)
| serve_no_pool f q p n sent log t rq hreq pattern children :
    p_running p = false ->
    serve_step (mkSys f q (RSends t rq hreq pattern children) p n sent log)
      (mkSys (deliver f t HandlerGone) q RIdle p n sent (log ++ [(t, rq, HandlerGone)]))
| serve_pool f q r p p' n sent log :
    pool_step config new_lua call returns p p' -> p_arrived p' = p_arrived p -> p_open p' = p_open p ->
    serve_step (mkSys f q r p n sent log) (mkSys f q r p' n sent log)
| serve_reply f q p n sent log t rq j o pattern children :
    (j, o) ∈ p_log p ->
    let r := stamp pattern children (observed o) in
    serve_step (mkSys f q (RWaits t rq j pattern children) p n sent log)
      (mkSys (deliver f t r) q RIdle p n sent (log ++ [(t, rq, r)])).

(** The channel of the router holds 128 requests; a task sends one and waits. *)
Inductive sys_step : Sys -> Sys -> Prop :=
| sys_local f f' q r p n sent log :
    fe_local f f' -> sys_step (mkSys f q r p n sent log) (mkSys f' q r p n sent log)
| sys_send f q r p n sent log t rq :
    fe_waiting f t = Some rq -> t ∉ omap fst (in_service r ++ q) -> length q < 128 ->
    sys_step (mkSys f q r p n sent log) (mkSys f (q ++ [(Some t, rq)]) r p n (sent ++ [rq]) log)
| sys_expire_queued f f' q1 q2 r p n sent log t rq :
    fe_expire f t = Some f' ->
    sys_step (mkSys f (q1 ++ (Some t, rq) :: q2) r p n sent log)
      (mkSys f' (q1 ++ (None, rq) :: q2) r p n sent log)
| sys_expire_served f f' q r p n sent log t rq :
    fe_expire f t = Some f' -> in_service r = [(Some t, rq)] ->
    sys_step (mkSys f q r p n sent log) (mkSys f' q (nobody_waits r) p n sent log)
| sys_serve s s' : serve_step s s' -> sys_step s s'.

(** * Specification *)

(** What the pool may do with a request after those in [before]: no outcome, the
    refusal of an empty pool, or the answer of a Lua state that served some of
    them, in order. *)
Definition pool_answers (before : list HandlerRequest) (hreq : HandlerRequest) (r : handler_reply) : Prop :=
  r = NoReply \/ r = HReplied no_workers \/
  exists hist a, hist `sublist_of` before /\ answer_after new_lua call hist hreq = Some a /\ r = HReplied a.

Definition forwarded (req : Request) : option HandlerRequest :=
  match route_request at_path trie req with Direct _ => None | Forward hreq _ _ => Some hreq end.

(** A reply is the one [dispatch] makes of what the pool did, after the requests
    answered before. *)
Definition answers (before : list Request) (req : Request) (r : route_reply) : Prop :=
  match route_request at_path trie req with
  | Direct d => r = Replied d
  | Forward hreq pattern children =>
      exists h, pool_answers (omap forwarded before) hreq h /\ r = stamp pattern children h
  end.

(** The requests of a log. *)
Definition logged (log : list (ticket * route_reply)) : list Request := map (fun a => snd (fst a)) log.

Definition answers_ok (log : list (ticket * route_reply)) : Prop :=
  forall k t req r, log !! k = Some (t, req, r) -> answers (logged (take k log)) req r.
End system.

(** * The invariant *)
Section invariant.
Context {C T L Trie : Type} `{Frontend C T}.
Variable at_path : Trie -> bytes -> result (RouteMeta * list (bytes * bytes)) bytes.
Variable trie : Trie.
Variable config : WorkerConfig.
Variable new_lua : option L.
Variable call : L -> HandlerRequest -> L * result HandlerResponse bytes.
Variable returns : L -> HandlerRequest -> bool.
Abbreviation Sys := (Sys (C := C) (T := T) (L := L)).
Abbreviation ticket := (option T * Request)%type.
Abbreviation step := (sys_step at_path trie config new_lua call returns).
Abbreviation serve := (serve_step at_path trie config new_lua call returns).
Abbreviation route := (route_request at_path trie).
Abbreviation forwarded := (forwarded at_path trie).
Abbreviation answers_to := (answers at_path trie new_lua call).
Abbreviation pool_wf := (Worker.pool_wf config new_lua call returns).
Implicit Types (s : Sys) (p : Pool (L := L)).
#[local] Arguments logged : simpl never.

Lemma pool_step_running p p' :
  pool_step config new_lua call returns p p' -> p_open p' = true -> p_running p = true -> p_running p' = true.
Proof. by destruct 1. Qed.

(** The jobs are numbered in the order in which they arrive. *)
Definition numbered (arr : list job) : Prop := map job_id arr = map N.of_nat (seq 0 (length arr)).

Lemma numbered_NoDup arr : numbered arr -> NoDup arr.
Proof.
  intros Hn. apply (NoDup_fmap_1 job_id). change (job_id <$> arr) with (map job_id arr). rewrite Hn.
  apply NoDup_fmap_2; [intros ??; lia|]. apply NoDup_ListNoDup, seq_NoDup.
Qed.

Lemma numbered_snoc arr n hreq :
  numbered arr -> n = N.of_nat (length arr) -> numbered (arr ++ [mkJob n hreq]).
Proof.
  intros Hn ->. unfold numbered in *. rewrite length_app, seq_app, !map_app, Hn. done.
Qed.

(** ** The clauses *)

(** The requests the router handed on, or answered itself. *)
Definition reached (s : Sys) : list Request :=
  logged (s_log s) ++ match s_router s with RWaits _ rq _ _ _ => [rq] | _ => [] end.

Definition router_ok (s : Sys) : Prop :=
  match s_router s with
  | RIdle => pending (s_pool s) = []
  | RSends _ rq hreq pattern children =>
      pending (s_pool s) = [] /\ route rq = Forward hreq pattern children
  | RWaits _ rq j pattern children =>
      last (p_arrived (s_pool s)) = Some j /\ route rq = Forward (job_req j) pattern children
  end.

Record sys_wf (s : Sys) : Prop := {
  sw_pool : rtc (seq_step config new_lua call returns) (start config) (s_pool s);
  sw_open : p_open (s_pool s) = true /\ p_running (s_pool s) = true;
  sw_order : s_sent s = logged (s_log s) ++ map snd (in_flight s);
  sw_waiting : forall t rq, (Some t, rq) ∈ in_flight s -> fe_waiting (s_front s) t = Some rq;
  sw_once : NoDup (omap fst (in_flight s));
  sw_router : router_ok s;
  sw_arrived : map job_req (p_arrived (s_pool s)) = omap forwarded (reached s);
  sw_numbered : numbered (p_arrived (s_pool s)) /\ s_next s = N.of_nat (length (p_arrived (s_pool s)));
  sw_answers : answers_ok at_path trie new_lua call (s_log s);
}.

(** ** Lemmas *)
Lemma answers_snoc log t rq r :
  answers_ok at_path trie new_lua call log -> answers_to (logged log) rq r ->
  answers_ok at_path trie new_lua call (log ++ [(t : option T, rq, r)]).
Proof.
  intros Hlog Ha k t' rq' r' Hk. destruct (decide (k < length log)) as [Hlt|Hge].
  - rewrite lookup_app_l in Hk by done. rewrite take_app_le by lia. by eapply Hlog.
  - rewrite lookup_app_r in Hk by lia. apply list_lookup_singleton_Some in Hk as [Hk [= <- <- <-]].
    by rewrite take_app_ge, Hk, take_0, app_nil_r by lia.
Qed.

Lemma logged_app (log1 log2 : list (ticket * route_reply)) : logged (log1 ++ log2) = logged log1 ++ logged log2.
Proof. apply map_app. Qed.

(** A reply to one task, or its giving up, leaves the others waiting. *)
Lemma other_tasks (f : C) q1 (t : option T) (rq : Request) q2 :
  NoDup (omap fst (q1 ++ (t, rq) :: q2)) ->
  (forall t' rq', (Some t', rq') ∈ q1 ++ (t, rq) :: q2 -> fe_waiting f t' = Some rq') ->
  NoDup (omap fst (q1 ++ q2)) /\
  forall t' rq', (Some t', rq') ∈ q1 ++ q2 -> t <> Some t' /\ fe_waiting f t' = Some rq'.
Proof.
  intros Hnd Hw. assert (Hin : forall t' rq', (Some t', rq') ∈ q1 ++ q2 -> fe_waiting f t' = Some rq').
  { intros t' rq' Hin. apply Hw. rewrite elem_of_app, elem_of_cons. apply elem_of_app in Hin. tauto. }
  rewrite omap_app in *. cbn [omap list_omap fst] in Hnd. destruct t as [t|]; [|by split; [|intros; split; [|apply Hin]]].
  apply NoDup_app in Hnd as (H1 & H2 & [H3 H4]%NoDup_cons). split.
  - apply NoDup_app. split_and!; [done| |done]. intros x Hx Hx2. apply (H2 x Hx). by right.
  - intros t' rq' Ht. split; [|by apply Hin]. intros [= <-].
    assert (Hom : t ∈ omap fst q1 \/ t ∈ omap fst q2).
    { apply elem_of_app in Ht as [Ht|Ht]; [left|right]; apply list_elem_of_omap; by exists (Some t, rq'). }
    destruct Hom as [Hom|Hom]; [|done]. apply (H2 _ Hom). by left.
Qed.

Lemma deliver_waiting f t t' r : t <> Some t' -> fe_waiting (deliver f t r) t' = fe_waiting f t'.
Proof. destruct t as [t|]; [|done]. intros Hne. apply fe_resume_waiting. congruence. Qed.

(** When the job of the router has its outcome, nothing is pending, and the
    outcome is among the answers of the pool. *)
Lemma outcome_answers f q t rq j pattern children p n sent log o :
  sys_wf (mkSys f q (RWaits t rq j pattern children) p n sent log) -> (j, o) ∈ p_log p ->
  pending p = [] /\ pool_answers new_lua call (omap forwarded (logged log)) (job_req j) (observed o).
Proof.
  intros [Hp _ _ _ _ [Hlast Hrt] Harr [Hn _] _] Hin. cbn in *. unfold reached in Harr. cbn in Harr.
  destruct (seq_reachable _ _ _ _ _ Hp) as ([_ _ _ Ho] & _ & Hlen & Hord). unfold in_order in Hord.
  pose proof (numbered_NoDup _ Hn) as Hnd. rewrite Hord in Hnd, Hlast, Harr. apply NoDup_app in Hnd as (Hnd & Hni & _).
  assert (Hpend : pending p = []).
  { destruct (pending p) as [|x [|]]; [done| |simpl in Hlen; lia]. exfalso.
    rewrite last_snoc in Hlast. injection Hlast as ->. apply (Hni j); [|by left].
    apply list_elem_of_fmap. by exists (j, o). }
  split; [done|]. rewrite Hpend, app_nil_r in *. clear Hord Hlen Hni Hpend.
  destruct (p_log p) as [|[j' o'] pre _] eqn:E using rev_ind; [done|]. 
  rewrite map_app in Hlast, Hnd. cbn [map fst] in Hlast, Hnd. rewrite last_snoc in Hlast. injection Hlast as ->.
   apply NoDup_app in Hnd as (_ & Hni & _). apply elem_of_app in Hin as [Hin|[= ->]%list_elem_of_singleton].
  { exfalso. apply (Hni j); [|by left]. apply list_elem_of_fmap. by exists (j, o). }
  rewrite !map_app, omap_app in Harr. cbn in Harr. unfold System.forwarded at 2 in Harr. rewrite Hrt in Harr.
  apply app_inj_tail in Harr as [Harr _]. specialize (Ho (length pre) (j, o')).
  rewrite take_app_length, list_lookup_middle in Ho by done. specialize (Ho eq_refl).
  destruct o' as [r|]; [|by left]. cbn in Ho. destruct Ho as [->|(hist & Hh & Ha)]; [by right; left|].
  right; right. exists hist, r. split_and!; [|done..]. rewrite <-Harr. unfold finished in Hh. by rewrite map_map.
Qed.

Lemma sys_start_wf f : sys_wf (sys_start config f).
Proof.
  pose proof (start_wf config new_lua call returns) as Hs. pose proof (pool_wf_length config new_lua call returns _ Hs) as Hl.
  split; try done.
  - intros t rq Hin. by apply elem_of_nil in Hin.
  - constructor.
  - unfold router_ok. cbn [s_router sys_start s_pool]. apply nil_length_inv. cbn [p_arrived p_log start length] in Hl. lia.
Qed.

(** A step of the pool without an arrival keeps the clauses. *)
Lemma sys_pool_wf f q r p p' n sent log :
  pool_step config new_lua call returns p p' -> p_arrived p' = p_arrived p -> p_open p' = p_open p ->
  sys_wf (mkSys f q r p n sent log) -> sys_wf (mkSys f q r p' n sent log).
Proof.
  intros Hs Ha Ho [Hp [Hop Hrun] Hord Hw Hnd Hr Harr [Hn Hnum] Hans]. cbn in *.
  assert (Hnil : pending p = [] -> pending p' = []).
  { intros E. pose proof (seq_reachable _ _ _ _ _ Hp) as (Hwf & _).
    destruct (step_pending _ _ _ _ _ _ Hs Hwf Ha) as (outs & _ & Hpend). rewrite E in Hpend.
    apply Permutation_nil in Hpend. by apply app_eq_nil in Hpend as [_ ->]. }
  split; cbn; try done; rewrite ?Ha; try done.
  - eapply rtc_r; [exact Hp|]. split; [done|by left].
  - rewrite Ho. split; [done|]. eapply pool_step_running; [done|by rewrite Ho|done].
  - unfold router_ok in *. cbn in *. rewrite Ha. destruct r; naive_solver.
Qed.

(** So does a reply to the request in service, or to the next one. *)
Lemma sys_reply_wf f q0 q r0 t rq r p n sent log :
  sys_wf (mkSys f q0 r0 p n sent log) ->
  in_service r0 ++ q0 = (t, rq) :: q -> pending p = [] -> answers_to (logged log) rq r ->
  match r0 with RWaits _ _ _ _ _ => True | _ => forwarded rq = None end ->
  sys_wf (mkSys (deliver f t r) q RIdle p n sent (log ++ [(t, rq, r)])).
Proof.
  intros [Hp Hop Hord Hw Hnd Hr Harr Hnum Hans] Hin Hpend Ha Hfw. unfold in_flight in *. cbn in *.
  rewrite Hin in *. destruct (other_tasks f [] t rq q Hnd Hw) as [Hnd' Hw'].
  split; cbn; try done.
  - rewrite Hord, logged_app. by rewrite <-app_assoc.
  - intros t' rq' [Hne Ht]%Hw'. by rewrite deliver_waiting.
  - rewrite Harr. unfold reached. cbn. rewrite logged_app, !omap_app, app_nil_r. f_equal.
    change (logged [(t, rq, r)]) with [rq]. cbn.
    destruct r0; cbn in Hin; [by rewrite Hfw..|]. by injection Hin as -> -> _.
  - by apply answers_snoc.
Qed.

(** And the arrival of the request the router holds. *)
Lemma sys_forward_wf f q p p' n sent log t rq hreq pattern children :
  pool_step config new_lua call returns p p' -> p_arrived p' = p_arrived p ++ [mkJob n hreq] ->
  sys_wf (mkSys f q (RSends t rq hreq pattern children) p n sent log) ->
  sys_wf (mkSys f q (RWaits t rq (mkJob n hreq) pattern children) p' (n + 1) sent log).
Proof.
  intros Hs Ha [Hp [Hop Hrun] Hord Hw Hnd [Hpend Hrt] Harr [Hn Hnum] Hans]. cbn in *.
  destruct (step_arrived _ _ _ _ _ _ Hs) as [E|(j & _ & _ & _ & Hop')].
  { rewrite Ha in E. apply (f_equal length) in E. rewrite length_app in E. simpl in E. lia. }
  split; cbn; try done.
  - eapply rtc_r; [exact Hp|]. split; [done|by right].
  - split; [done|]. by eapply pool_step_running.
  - unfold router_ok. cbn. by rewrite Ha, last_snoc.
  - rewrite Ha, map_app, Harr. unfold reached. cbn. rewrite !omap_app, app_nil_r. f_equal. cbn.
    unfold System.forwarded. by rewrite Hrt.
  - rewrite Ha, length_app. cbn. split; [by apply numbered_snoc|lia].
Qed.

(** And a task that gives up. *)
Lemma sys_expire_wf f f' q1 q2 t rq q r q' r' p n sent log :
  sys_wf (mkSys f q r p n sent log) -> fe_expire f t = Some f' ->
  in_service r ++ q = q1 ++ (Some t, rq) :: q2 -> in_service r' ++ q' = q1 ++ (None, rq) :: q2 ->
  r' = r \/ r' = nobody_waits r ->
  sys_wf (mkSys f' q' r' p n sent log).
Proof.
  intros [Hp Hop Hord Hw Hnd Hr Harr Hnum Hans] Hex Hin Hin' Hr'. unfold in_flight in *. cbn in *.
  rewrite Hin in *. destruct (other_tasks f q1 (Some t) rq q2 Hnd Hw) as [Hnd' Hw'].
  split; try done; unfold in_flight; cbn; rewrite ?Hin'.
  - rewrite Hord, !map_app. done.
  - intros t' rq' Ht. destruct (Hw' t' rq') as [Hne Hf].
    { apply elem_of_app in Ht as [Ht|[Ht|Ht]%elem_of_cons]; [|done|]; apply elem_of_app; [by left|by right]. }
    rewrite (fe_expire_waiting _ _ _ _ Hex) by congruence. done.
  - rewrite omap_app in *. exact Hnd'.
  - unfold router_ok in *. cbn in *. by destruct Hr' as [->| ->], r.
  - rewrite Harr. unfold reached. cbn. by destruct Hr' as [->| ->], r.
Qed.

Lemma serve_step_wf s s' : serve s s' -> sys_wf s -> sys_wf s'.
Proof.
  destruct 1 as [f q p n sent log t rq a Hr
    |f q p n sent log t rq hreq pat ch Hr|f q p p' n sent log t rq hreq pat ch Hs Ha
    |f q p n sent log t rq hreq pat ch Hrun|f q r p p' n sent log Hs Ha Ho
    |f q p n sent log t rq j o pat ch Hin r]; intros Hwf.
  - eapply sys_reply_wf; [exact Hwf|done|exact (sw_router _ Hwf)| |].
    + unfold answers. by rewrite Hr.
    + unfold System.forwarded. by rewrite Hr.
  - destruct Hwf as [Hp Hop Hord Hw Hnd Hro Harr Hnum Hans]. by split.
  - by apply (sys_forward_wf _ _ p).
  - destruct Hwf as [_ [_ Hop] _ _ _ _ _ _ _]. cbn in Hop. congruence.
  - by apply (sys_pool_wf _ _ _ p).
  - destruct (outcome_answers _ _ _ _ _ _ _ _ _ _ _ _ Hwf Hin) as [Hpend Hout].
    pose proof (sw_router _ Hwf) as [_ Hrt].
    eapply sys_reply_wf; [exact Hwf|done|done| |done]. unfold answers. rewrite Hrt. by eexists.
Qed.

Lemma sys_send_wf f q r p n sent log t rq :
  sys_wf (mkSys f q r p n sent log) -> fe_waiting f t = Some rq -> t ∉ omap fst (in_service r ++ q) ->
  sys_wf (mkSys f (q ++ [(Some t, rq)]) r p n (sent ++ [rq]) log).
Proof.
  intros [Hp Hop Hord Hw' Hnd Hr Harr Hnum Hans] Hw Hni. unfold in_flight in *. cbn in *.
  split; try done; unfold in_flight; cbn.
  - by rewrite Hord, !map_app, <-!app_assoc.
  - intros t' rq'. rewrite app_assoc, elem_of_app, list_elem_of_singleton. intros [Hin|[= -> ->]]; [by apply Hw'|done].
  - rewrite app_assoc, omap_app. apply NoDup_app. split; [done|]. split; [|apply NoDup_singleton].
    intros x Hx ->%list_elem_of_singleton. done.
Qed.

Lemma sys_step_wf s s' : step s s' -> sys_wf s -> sys_wf s'.
Proof.
  destruct 1 as [f f' q r p n sent log Hl|f q r p n sent log t rq Hw Hni Hlen
    |f f' q1 q2 r p n sent log t rq Hex|f f' q r p n sent log t rq Hex Hin|s s' Hs]; intros Hwf.
  - destruct Hwf as [Hp Hop Hord Hw Hnd Hr Harr Hnum Hans]. split; try done. cbn in *.
    intros t rq Hin. eapply fe_local_waiting; [exact Hl|]. by apply Hw.
  - by apply sys_send_wf.
  - eapply (sys_expire_wf _ _ (in_service r ++ q1) q2); [exact Hwf|exact Hex|by rewrite <-app_assoc..|by left].
  - eapply (sys_expire_wf _ _ [] q); [exact Hwf|exact Hex|by rewrite Hin| |by right].
    destruct r; [done| |]; by injection Hin as -> ->.
  - by eapply serve_step_wf.
Qed.

Lemma sys_reachable_wf f s : rtc step (sys_start config f) s -> sys_wf s.
Proof.
  intros Hs. pose proof (sys_start_wf f) as H0. revert Hs H0. generalize (sys_start (T := T) (L := L) config f).
  induction 1 as [|s1 s2 s3 H12 _ IH]; [done|]. intros Hwf. by eapply IH, sys_step_wf.
Qed.

(** * Theorems *)

(** C2: At every point of every schedule of the running program, each request a
    frontend task sent is in exactly one place: answered, with the router, or in
    the router's channel, in the order in which they were sent; a task that did
    not give up has at most one of them under way and waits for it.  Every reply is the one
    [dispatch] makes of the request: the router's own, or the stamped outcome of
    the pool, which is that of a Lua state that served requests answered before,
    in order; the router and the pool are never gone. *)
Theorem replies_linearizable f s :
  rtc step (sys_start config f) s ->
  s_sent s = logged (s_log s) ++ map snd (in_flight s) /\
  NoDup (omap fst (in_flight s)) /\
  (forall t rq, (Some t, rq) ∈ in_flight s -> fe_waiting (s_front s) t = Some rq) /\
  (forall k t rq r, s_log s !! k = Some (t, rq, r) ->
     answers_to (logged (take k (s_log s))) rq r /\ r <> RouterGone /\ r <> HandlerGone).
Proof.
  intros Hs%sys_reachable_wf. split_and!; [apply Hs|apply Hs|apply Hs|]. intros k t rq r Hk.
  pose proof (sw_answers _ Hs k t rq r Hk) as Ha. split; [done|]. unfold answers in Ha.
  destruct (route rq) as [d|hreq pat ch]; [by subst|].
  destruct Ha as (h & [->|[->|(hist & a & _ & _ & ->)]] & ->); by split.
Qed.

(** C39: In the running program the dispatcher never has more than one request, so
    the pool never grows over [worker.min] workers, whatever [worker.max] is and
    however many tasks of the frontends wait. *)
Theorem pool_stays_small f s :
  rtc step (sys_start config f) s ->
  length (p_workers (s_pool s)) <= N.to_nat (min_workers config) /\ length (pending (s_pool s)) <= 1.
Proof. intros Hs%sys_reachable_wf. apply sw_pool, seq_reachable in Hs as (_ & ? & ? & _). by split. Qed.

(** ** The frontends *)
Lemma sys_step_front s s' :
  step s s' -> sys_wf s -> s_front s' = s_front s \/ fe_step (s_front s) (s_front s').
Proof.
  intros Hs Hwf.
  assert (Hreply : forall t rq r, (t, rq) ∈ in_flight s ->
    deliver (s_front s) t r = s_front s \/ fe_step (s_front s) (deliver (s_front s) t r)).
  { intros [t|] rq r Hin; [|by left]. right. eapply fe_step_reply, sw_waiting; [exact Hwf|exact Hin]. }
  assert (Hexpire : forall f' t rq, fe_expire (s_front s) t = Some f' -> (Some t, rq) ∈ in_flight s ->
    fe_step (s_front s) f').
  { intros f' t rq Hex Hin. eapply fe_step_expire; [|exact Hex]. by eapply sw_waiting. }
  unfold in_flight in *.
  destruct Hs as [f f' q r p n sent log Hl|f q r p n sent log t rq Hw Hni Hlen
    |f f' q1 q2 r p n sent log t rq Hex|f f' q r p n sent log t rq Hex Hin|s s' Hs]; cbn in *;
    [right; by constructor|by left| | |].
  - right. apply (Hexpire _ t rq Hex). set_solver.
  - right. apply (Hexpire _ t rq Hex). rewrite Hin. by left.
  - destruct Hs; cbn in *; try (by left); (eapply Hreply; by left).
Qed.

(** The running program does with its frontends nothing that the interleaving
    of their tasks with arbitrary replies does not do, in no more steps: what
    holds of a frontend at every point of every interleaving holds of it in the
    program. *)
Theorem program_refines_frontends n f s :
  nsteps step n (sys_start config f) s -> exists m, m <= n /\ nsteps fe_step m f (s_front s).
Proof.
  intros Hn. assert (Hrun : forall n s0, nsteps step n s0 s -> sys_wf s0 ->
    exists m, m <= n /\ nsteps fe_step m (s_front s0) (s_front s)).
  { clear n Hn. induction 1 as [s0|n s0 s1 s2 H01 _ IH]; intros Hwf; [exists 0; split; [lia|constructor]|].
    destruct (IH (sys_step_wf _ _ H01 Hwf)) as (m & Hm & Hsteps).
    destruct (sys_step_front _ _ H01 Hwf) as [E|Hf]; [exists m; rewrite <-E; split; [lia|done]|].
    exists (S m). split; [lia|]. by econstructor. }
  exact (Hrun n _ Hn (sys_start_wf f)).
Qed.

(** ** Progress *)

(** The steps that the requests in flight still need. *)
Definition router_rank (r : router_phase (T := T)) (p : Pool (L := L)) : nat :=
  match r with RIdle => 0 | RSends _ _ _ _ _ => 5 | RWaits _ _ _ _ _ => 1 + work p end.
Definition rank s : nat := 6 * length (s_queue s) + router_rank (s_router s) (s_pool s).

Lemma rank_in_flight s : sys_wf s -> rank s <= 6 * length (in_flight s).
Proof.
  intros Hwf. pose proof (seq_reachable _ _ _ _ _ (sw_pool _ Hwf)) as (_ & _ & Hp & _).
  pose proof (work_pending (s_pool s)). unfold rank, in_flight. rewrite length_app.
  destruct (s_router s); cbn [router_rank in_service length]; lia.
Qed.

Lemma serve_step_rank s s' : serve s s' -> sys_wf s -> rank s' <= rank s.
Proof.
  intros Hs Hwf. unfold rank.
  destruct Hs as [f q p n sent log t rq a Hr
    |f q p n sent log t rq hreq pat ch Hr|f q p p' n sent log t rq hreq pat ch Hs Ha
    |f q p n sent log t rq hreq pat ch Hrun|f q r p p' n sent log Hs Ha Ho
    |f q p n sent log t rq j o pat ch Hin r]; cbn [s_queue s_router s_pool router_rank length]; try lia.
  - destruct (sw_router _ Hwf) as [Hp _]. cbn in Hp. rewrite (arrival_work _ _ _ _ _ _ _ Hs Ha), pending_work by done.
    lia.
  - pose proof (pool_step_work _ _ _ _ _ _ Hs Ha). destruct r; cbn [router_rank]; lia.
Qed.

(** As long as a request has no reply, the router or the pool can bring one nearer. *)
Lemma serve_progress s :
  sys_wf s -> is_Some new_lua -> (forall l req, returns l req = true) -> in_flight s <> [] ->
  exists s', serve s s' /\ s_sent s' = s_sent s /\ rank s' < rank s.
Proof.
  intros Hwf Hl Hret Hne. destruct s as [f q r p n sent log]. unfold rank. destruct r as [|t rq hreq pat ch|t rq j pat ch].
  - destruct q as [|[t rq] q]; [done|]. destruct (route rq) as [a|hreq pat ch] eqn:Hr.
    + eexists. split; [by apply serve_direct|]. cbn. split; [done|lia].
    + eexists. split; [by apply serve_take|]. cbn. split; [done|lia].
  - destruct Hwf as [_ [Hop _] _ _ _ [Hpend _] _ _ _]. destruct p as [op running inc ws next arr plog].
    cbn in Hop. subst op. pose proof (pending_work _ Hpend) as Hw. apply app_eq_nil in Hpend as [Hinc _].
    cbn in Hinc. subst inc.
    assert (Hs : pool_step config new_lua call returns (mkPool true running [] ws next arr plog)
      (mkPool true running ([] ++ [mkJob n hreq]) ws next (arr ++ [mkJob n hreq]) plog)) by (apply step_arrive; cbn; lia).
    eexists. split; [apply serve_forward; [exact Hs|done]|]. split; [done|]. cbn [s_queue s_router s_pool router_rank].
    rewrite (arrival_work _ _ _ _ _ _ (mkJob n hreq) Hs eq_refl).
    change (work (mkPool true running [] ws next arr plog) = 0) in Hw. lia.
  - destruct (decide (pending p = [])) as [Hpend|Hpend].
    + destruct Hwf as [Hp _ _ _ _ [Hlast _] _ _ _]. cbn in Hp, Hlast.
      destruct (seq_reachable _ _ _ _ _ Hp) as ([Hc _ _ _] & _). rewrite Hpend in Hc. cbn in Hc.
      assert (Hj : j ∈ map fst (p_log p)). { rewrite <-Hc. apply last_Some in Hlast as [l ->]. set_solver. }
      apply list_elem_of_fmap in Hj as ([j' o] & -> & Hj). eexists. split; [by apply serve_reply with (o := o)|].
      cbn [s_sent s_queue s_router s_pool router_rank]. split; [done|lia].
    + destruct Hwf as [Hp [_ Hrun] _ _ _ _ _ _ _]. cbn in Hp, Hrun.
      destruct (seq_reachable _ _ _ _ _ Hp) as (Hpw & _).
      destruct (pool_progress _ _ _ _ _ Hpw Hrun Hl Hret Hpend) as (p' & Hs & _ & Ho & Ha & Hlt).
      eexists. split; [by apply serve_pool|].
      cbn [s_sent s_queue s_router s_pool router_rank]. split; [done|lia].
Qed.

(** C6: When Lua states can be built and handlers return, the router and the pool
    keep no request for ever: as long as one has no reply some step of theirs
    brings a reply nearer (the [rank] decreases), no step of the program but a new
    request undoes that, and at most six such steps for each request in flight
    answer them all. *)
Theorem program_drains f s :
  rtc step (sys_start config f) s -> is_Some new_lua -> (forall l req, returns l req = true) ->
  (in_flight s <> [] -> exists s', serve s s' /\ rank s' < rank s) /\
  (forall s', step s s' -> rank s' <= rank s \/ exists rq, s_sent s' = s_sent s ++ [rq]) /\
  exists n s', n <= rank s <= 6 * length (in_flight s) /\ nsteps serve n s s' /\
    s_sent s' = s_sent s /\ logged (s_log s') = s_sent s.
Proof.
  intros Hwf%sys_reachable_wf Hl Hret. split_and!.
  - intros Hne. destruct (serve_progress s Hwf Hl Hret Hne) as (s' & ? & _ & ?). by exists s'.
  - intros s' Hs. destruct Hs as [| | | |s s' Hs]; try (by left); [right; by eexists| | |].
    + left. unfold rank. cbn. rewrite !length_app. cbn. lia.
    + left. unfold rank. cbn. by destruct r.
    + left. by apply serve_step_rank.
  - pose proof (rank_in_flight s Hwf) as Hb. remember (rank s) as m eqn:Em.
    cut (exists n s', n <= m /\ nsteps serve n s s' /\ s_sent s' = s_sent s /\ logged (s_log s') = s_sent s).
    { intros (n & s' & Hn & Hrest). exists n, s'. destruct Hrest as (? & ? & ?). by split_and!. }
    clear Hb. revert s Hwf Em. induction m as [m IH] using lt_wf_ind. intros s Hwf ->.
    destruct (decide (in_flight s = [])) as [E|Hne].
    + exists 0, s. split_and!; [lia|constructor|done|]. by rewrite (sw_order _ Hwf), E, app_nil_r.
    + destruct (serve_progress s Hwf Hl Hret Hne) as (s1 & H1 & H2 & H3).
      destruct (IH _ H3 s1 (serve_step_wf _ _ H1 Hwf) eq_refl) as (n & s2 & Hn & G1 & G2 & G3).
      exists (S n), s2. rewrite <-H2. split_and!; [lia|by econstructor|done..].
Qed.

(** ** A handler that does not return *)

(** C7: One call that does not return stops the whole program: from then on, in
    every schedule, no task of any frontend gets a reply to any request (it waits,
    or gives up), whatever the number of workers: the router waits for that
    call. *)
Theorem looping_handler_blocks f s s' t rq j pattern children :
  rtc step (sys_start config f) s -> s_router s = RWaits t rq j pattern children -> hangs_on (s_pool s) j ->
  rtc step s s' ->
  s_log s' = s_log s /\ hangs_on (s_pool s') j /\ exists t', s_router s' = RWaits t' rq j pattern children.
Proof.
  intros Hwf%sys_reachable_wf Hr Hh Hs. revert t Hr Hh Hwf.
  induction Hs as [s|s s1 s2 H01 _ IH]; intros t Hr Hh Hwf; [split_and!; [done..|by exists t]|].
  assert (H1 : s_log s1 = s_log s /\ hangs_on (s_pool s1) j /\ exists t', s_router s1 = RWaits t' rq j pattern children).
  { destruct H01 as [f0 f' q r p n sent log Hl|f0 q r p n sent log t0 rq0 Hw Hni Hlen
      |f0 f' q1 q2 r p n sent log t0 rq0 Hex|f0 f' q r p n sent log t0 rq0 Hex Hin|s s1 Hs]; cbn in *; subst;
      try (by split_and!; [..|by eexists]).
    destruct Hs as [| | | |f0 q r p p' n sent log Hs Ha Ho|f0 q p n sent log t0 rq0 j0 o pat ch Hin r]; cbn in *;
      simplify_eq; try (split_and!; [done|by eapply pool_step_hangs|by eexists]).
    destruct (outcome_answers _ _ _ _ _ _ _ _ _ _ _ _ Hwf Hin) as [Hp _].
    apply hangs_on_pending in Hh. rewrite Hp in Hh. by apply elem_of_nil in Hh. }
  destruct H1 as (E & Hh1 & t1 & Hr1). rewrite <-E. exact (IH t1 Hr1 Hh1 (sys_step_wf _ _ H01 Hwf)).
Qed.

(** ** The first request *)

(** The first request, when it needs a worker, reaches the first one. *)
Lemma first_request_taken f t rq hreq pattern children l :
  fe_waiting f t = Some rq -> route rq = Forward hreq pattern children -> new_lua = Some l ->
  min_workers config <> 0%N ->
  exists ws, nsteps step 5 (sys_start config f)
    (mkSys f [] (RWaits (Some t) rq (mkJob 0 hreq) pattern children)
      (mkPool true true [] (mkWorker [mkJob 0 hreq] (Running l) :: ws) 1 [mkJob 0 hreq] []) 1 [rq] []).
Proof.
  intros Hw Hr Hl Hmin. unfold sys_start, start.
  assert (Hws : exists ws, spawn_n (L := L) (min_n config) [] = fresh :: ws).
  { rewrite spawn_n_repeat. unfold min_n. destruct (N.to_nat (min_workers config)) as [|n] eqn:E; [lia|].
    by exists (repeat fresh n). }
  destruct Hws as [ws ->]. exists ws. set (j := mkJob 0 hreq).
  assert (Hpool : forall p p', pool_step config new_lua call returns p p' -> p_arrived p' = p_arrived p ->
    p_open p' = p_open p -> step (mkSys f [] (RWaits (Some t) rq j pattern children) p 1 [rq] [])
      (mkSys f [] (RWaits (Some t) rq j pattern children) p' 1 [rq] [])).
  { intros p p' Hs Ha Ho. by apply sys_serve, serve_pool. }
  assert (Hdisp : dispatch_job config 0 j (fresh :: ws) 0 = (mkWorker [j] Starting :: ws, 1, None)).
  { unfold dispatch_job, inflate. cbn [Nat.ltb Nat.leb andb is_empty]. by rewrite Nat.Div0.mod_0_l. }
  eapply nsteps_l; [apply sys_send; [exact Hw|by apply not_elem_of_nil|simpl; lia]|].
  eapply nsteps_l; [apply sys_serve, serve_take, Hr|].
  eapply nsteps_l; [apply sys_serve, serve_forward; [apply step_arrive; simpl; lia|done]|].
  eapply nsteps_l; [apply (Hpool _ (mkPool true true [] (mkWorker [j] Starting :: ws) 1 [j] []));
    [apply (step_dispatch _ _ _ _ _ j [] (fresh :: ws) 0 [j] [] _ _ None), Hdisp|done..]|].
  eapply nsteps_l; [|apply nsteps_O].
  apply (Hpool _ (mkPool true true [] (mkWorker [j] (Running l) :: ws) 1 [j] [])); [|done..].
  apply (step_worker _ _ _ _ _ _ _ (mkWorker [j] Starting :: ws) _ _ [] 0 (mkWorker [j] Starting)
    (mkWorker [j] (Running l)) []); [done|by constructor].
Qed.

(** And is answered there, if the handler returns; *)
Lemma first_request_served f t rq hreq pattern children l :
  fe_waiting f t = Some rq -> route rq = Forward hreq pattern children -> new_lua = Some l ->
  min_workers config <> 0%N -> returns l hreq = true ->
  let r := stamp pattern children (HReplied (snd (call l hreq))) in
  exists s, nsteps step 7 (sys_start config f) s /\ s_front s = fe_resume f t r /\ s_log s = [(Some t, rq, r)].
Proof.
  intros Hw Hr Hl Hmin Hret r. destruct (first_request_taken f t rq hreq pattern children l) as [ws Hs]; try done.
  eexists. split.
  - change 7 with (5 + 2). eapply nsteps_trans; [exact Hs|].
    eapply nsteps_l; [|eapply nsteps_l; [|apply nsteps_O]].
    + eapply sys_serve, serve_pool;
        [eapply (step_worker _ _ _ _ _ _ _ _ _ _ _ 0); [done|by constructor]|done..].
    + apply sys_serve, serve_reply with (o := JAnswered (snd (call l hreq))). cbn. by left.
  - done.
Qed.

(** and holds the worker, if it does not. *)
Lemma first_request_hangs f t rq hreq pattern children l :
  fe_waiting f t = Some rq -> route rq = Forward hreq pattern children -> new_lua = Some l ->
  min_workers config <> 0%N -> returns l hreq = false ->
  exists s j, nsteps step 6 (sys_start config f) s /\ s_router s = RWaits (Some t) rq j pattern children /\
    hangs_on (s_pool s) j.
Proof.
  intros Hw Hr Hl Hmin Hret. destruct (first_request_taken f t rq hreq pattern children l) as [ws Hs]; try done.
  eexists _, (mkJob 0 hreq). split.
  - change 6 with (5 + 1). eapply nsteps_trans; [exact Hs|]. eapply nsteps_l; [|apply nsteps_O].
    eapply sys_serve, serve_pool;
      [eapply (step_worker _ _ _ _ _ _ _ _ _ _ _ 0); [done|by apply worker_hangs]|done..].
  - split; [done|]. eexists _, _, _. by split; [left|].
Qed.
End invariant.

(** * The theorems at a concrete program *)
Module SystemExample.
Definition request : Request := mkRequest Read (str "/a") [].
(** One task that makes one request and waits for the reply, for ever. *)
Definition frontend : Proc.pool unit Request route_reply unit unit unit :=
  (tt, [Call request (fun _ => Ret tt)]).
Definition trie : gmap bytes RouteMeta := {[ str "/a" := mkRouteMeta {[ str "read" := str "h" ]} (str "/a") ]}.
Abbreviation step := (sys_step exact_at trie PoolExample.config (Some 0) PoolExample.call PoolExample.returns).
Abbreviation serve := (serve_step exact_at trie PoolExample.config (Some 0) PoolExample.call PoolExample.returns).
Definition init : Sys (T := nat) (L := nat) := sys_start PoolExample.config frontend.
(** The request is sent. *)
Definition sent : Sys (T := nat) (L := nat) := mkSys frontend [(Some 0, request)] RIdle (start PoolExample.config) 0 [request] [].
Definition reply : route_reply := Replied (Ok (mkHandlerResponse (str "0") (Some (str "/a")) false)).

Lemma sends : rtc step init sent.
Proof.
  apply rtc_once. apply (sys_send exact_at trie PoolExample.config (Some 0) PoolExample.call PoolExample.returns frontend [] RIdle
    (start PoolExample.config) 0 [] [] 0 request); [reflexivity|by apply not_elem_of_nil|cbn; lia].
Qed.

Lemma served :
  exists s, nsteps step 7 init s /\ s_front s = (tt, [Ret tt]) /\ s_log s = [(Some 0, request, reply)].
Proof.
  destruct (first_request_served exact_at trie PoolExample.config (Some 0) PoolExample.call PoolExample.returns frontend 0 request
    (mkHandlerRequest ∅ [] (str "h")) (str "/a") false 0) as (s & Hs & Hf & Hl);
    [reflexivity|vm_compute; reflexivity|reflexivity|discriminate|reflexivity|].
  exists s. split_and!; [exact Hs|rewrite Hf; reflexivity|rewrite Hl; vm_compute; reflexivity].
Qed.
End SystemExample.

Lemma replies_linearizable_witness :
  exists s, rtc SystemExample.step SystemExample.init s /\
    s_log s !! 0 = Some (Some 0, SystemExample.request, SystemExample.reply) /\
    answers exact_at SystemExample.trie (Some 0) PoolExample.call [] SystemExample.request SystemExample.reply.
Proof.
  destruct SystemExample.served as (s & Hs & _ & Hlog). apply rtc_nsteps_2 in Hs. exists s. split; [exact Hs|].
  assert (Hk : s_log s !! 0 = Some (Some 0, SystemExample.request, SystemExample.reply)) by (rewrite Hlog; reflexivity).
  split; [exact Hk|].
  exact (proj1 (proj2 (proj2 (proj2 (replies_linearizable exact_at SystemExample.trie PoolExample.config (Some 0)
    PoolExample.call PoolExample.returns SystemExample.frontend s Hs))) 0 _ _ _ Hk)).
Defined.

Lemma pool_stays_small_witness :
  rtc SystemExample.step SystemExample.init SystemExample.sent /\
  length (p_workers (s_pool SystemExample.sent)) <= 2.
Proof.
  split; [exact SystemExample.sends|].
  exact (proj1 (pool_stays_small exact_at SystemExample.trie PoolExample.config (Some 0)
    PoolExample.call PoolExample.returns SystemExample.frontend SystemExample.sent SystemExample.sends)).
Defined.

Lemma program_refines_frontends_witness :
  exists s m, nsteps SystemExample.step 7 SystemExample.init s /\ m <= 7 /\
    nsteps fe_step m SystemExample.frontend (tt, [Ret tt]).
Proof.
  destruct SystemExample.served as (s & Hs & Hf & _).
  destruct (program_refines_frontends exact_at SystemExample.trie PoolExample.config (Some 0)
    PoolExample.call PoolExample.returns 7 SystemExample.frontend s Hs) as (m & Hm & Hsteps).
  rewrite Hf in Hsteps. exists s, m. split_and!; [exact Hs|exact Hm|exact Hsteps].
Defined.

Lemma program_drains_witness :
  exists n s, n <= 6 /\ nsteps SystemExample.serve n SystemExample.sent s /\ logged (s_log s) = [SystemExample.request].
Proof.
  destruct (program_drains exact_at SystemExample.trie PoolExample.config (Some 0) PoolExample.call
    PoolExample.returns SystemExample.frontend SystemExample.sent SystemExample.sends (mk_is_Some _ _ eq_refl)
    (fun _ _ => eq_refl)) as (_ & _ & n & s & [Hn _] & Hs & _ & Hl).
  exists n, s. split; [exact Hn|]. split; [exact Hs|exact Hl].
Defined.

(** The same program with a handler that loops. *)
Lemma looping_handler_blocks_witness :
  let step := sys_step exact_at SystemExample.trie PoolExample.config (Some 0) PoolExample.call (fun _ _ => false) in
  exists s, rtc step (sys_start PoolExample.config SystemExample.frontend) s /\
    forall s', rtc step s s' -> s_log s' = s_log s.
Proof.
  intros step. destruct (first_request_hangs exact_at SystemExample.trie PoolExample.config (Some 0)
    PoolExample.call (fun _ _ => false) SystemExample.frontend 0 SystemExample.request
    (mkHandlerRequest ∅ [] (str "h")) (str "/a") false 0) as (s & j & Hs & Hr & Hh);
    [reflexivity|vm_compute; reflexivity|reflexivity|discriminate|reflexivity|].
  apply rtc_nsteps_2 in Hs. exists s. split; [exact Hs|]. intros s' Hs'.
  exact (proj1 (looping_handler_blocks exact_at SystemExample.trie PoolExample.config (Some 0) PoolExample.call
    (fun _ _ => false) SystemExample.frontend s s' (Some 0) SystemExample.request j (str "/a") false Hs Hr Hh Hs')).
Defined.
