(* ===== verification/Serialize.v ===== *)
(** The serialisation API of the Lua handlers ([src/src/serialize.rs]): the
    conversions between Lua values and JSON, path queries, and CSV.

    A Lua value is seen as the host sees it: a table is its length (the border
    Lua reports) and its entries in the order of iteration.  Floating-point
    numbers, how Lua holds a number, the border of a table, and the texts of the
    formats ([serde_json], [csv]) are parameters; values are trees, so tables
    that contain themselves are left out.  [serde_json::Map] is sorted by key. *)
From S2P Require Import Prelude RustStr.
From Stdlib Require Import Sorted.

(** * Values *)
Section serialize.
Context {Flt : Type}.

#[local] Unset Elimination Schemes.
Inductive value :=
| VNil
| VBool (b : bool)
| VInt (z : Z)
| VNum (f : Flt)
| VStr (s : bytes)
| VTable (len : nat) (entries : list (value * value))
| VOther.

Inductive number := NInt (z : Z) | NFlt (f : Flt).

Inductive json :=
| JNull
| JBool (b : bool)
| JNumber (n : number)
| JString (s : bytes)
| JArray (arr : list json)
| JObject (map : list (bytes * json)).
#[local] Set Elimination Schemes.

(** The standard library's and Lua's numbers. *)
Variable is_finite : Flt -> bool.
Variable flt_to_string : Flt -> bytes.
Variable flt_of_Z : Z -> Flt.

(** [i.to_string()] *)
Definition int_to_string (z : Z) : bytes :=
  if Z.ltb z 0 then str "-" ++ dec (Z.to_N (- z)) else dec (Z.to_N z).

(** ** The sorted map *)
Fixpoint bytes_ltb (a b : bytes) : bool :=
  match a, b with
  | _, [] => false
  | [], _ :: _ => true
  | x :: a, y :: b => N.ltb (ord x) (ord y) || (Ascii.eqb x y && bytes_ltb a b)
  end.

Fixpoint map_insert (k : bytes) (v : json) (m : list (bytes * json)) : list (bytes * json) :=
  match m with
  | [] => [(k, v)]
  | (k', v') :: m =>
      if bool_decide (k = k') then (k, v) :: m
      else if bytes_ltb k k' then (k, v) :: (k', v') :: m
      else (k', v') :: map_insert k v m
  end.

Fixpoint assoc {A} (k : bytes) (m : list (bytes * A)) : option A :=
  match m with
  | [] => None
  | (k', v) :: m => if bool_decide (k = k') then Some v else assoc k m
  end.

(** * Lua to JSON *)
Definition key_text (k : value) : result bytes bytes :=
  match k with
  | VStr s => if valid_utf8 s then Ok s else Err (str "invalid utf-8")
  | VInt z => Ok (int_to_string z)
  | VNum f => Ok (flt_to_string f)
  | _ => Err (str "object keys must be strings or numbers")
  end.

(** [t.raw_get(i)] among converted entries; an absent entry is [nil]. *)
Definition raw_get {A} (absent : A) (i : Z) (entries : list (value * A)) : A :=
  match List.find (fun e => match fst e with VInt z => Z.eqb z i | _ => false end) entries with
  | Some (_, v) => v
  | None => absent
  end.

Fixpoint sequence (rs : list (result json bytes)) : result (list json) bytes :=
  match rs with
  | [] => Ok []
  | Ok j :: rs => result_map (cons j) (sequence rs)
  | Err e :: _ => Err e
  end.

Fixpoint collect_object (entries : list (value * result json bytes)) (m : list (bytes * json)) :
    result (list (bytes * json)) bytes :=
  match entries with
  | [] => Ok m
  | (k, r) :: entries =>
      match key_text k, r with
      | Err e, _ | Ok _, Err e => Err e
      | Ok key, Ok j => collect_object entries (map_insert key j m)
      end
  end.

Fixpoint lua_to_json (val : value) : result json bytes :=
  match val with
  | VNil => Ok JNull
  | VBool b => Ok (JBool b)
  | VInt i => Ok (JNumber (NInt i))
  | VNum n =>
      if is_finite n then Ok (JNumber (NFlt n)) else Err (str "cannot encode non-finite number")
  | VStr s => if valid_utf8 s then Ok (JString s) else Err (str "invalid utf-8")
  | VTable len entries =>
      let converted := map (fun e => (fst e, lua_to_json (snd e))) entries in
      if Nat.ltb 0 len then
        result_map JArray
          (sequence (map (fun i => raw_get (Ok JNull) (Z.of_nat i) converted) (seq 1 len)))
      else result_map JObject (collect_object converted [])
  | VOther => Err (str "cannot encode this Lua type")
  end.

(** * JSON to Lua *)

(** How Lua gives back a number that was put into it, and the border of a table
    with these entries. *)
Variable push_int : Z -> value.
Variable push_num : Flt -> value.
Variable border : list (value * value) -> nat.

(** [t.set(k, v)]: [nil] leaves no entry. *)
Definition table_set (k v : value) (same : value -> bool) (entries : list (value * value)) :
    list (value * value) :=
  let rest := List.filter (fun e => negb (same (fst e))) entries in
  match v with VNil => rest | _ => rest ++ [(k, v)] end.

Definition same_int (z : Z) (k : value) : bool := match k with VInt z' => Z.eqb z' z | _ => false end.
Definition same_str (s : bytes) (k : value) : bool :=
  match k with VStr s' => bool_decide (s' = s) | _ => false end.

Definition table (entries : list (value * value)) : value := VTable (border entries) entries.

(** The loops that fill a table from converted elements. *)
Fixpoint set_elements (i : Z) (vs : list value) (entries : list (value * value)) :
    list (value * value) :=
  match vs with
  | [] => entries
  | v :: vs => set_elements (i + 1) vs (table_set (VInt i) v (same_int i) entries)
  end.

Fixpoint set_fields (kvs : list (bytes * value)) (entries : list (value * value)) :
    list (value * value) :=
  match kvs with
  | [] => entries
  | (k, v) :: kvs => set_fields kvs (table_set (VStr k) v (same_str k) entries)
  end.

(** The entry of a string key in a table. *)
Definition get_str (k : bytes) (entries : list (value * value)) : option value :=
  snd <$> List.find (fun e => same_str k (fst e)) entries.
Definition field (k : bytes) (v : value) : option value :=
  match v with VTable _ entries => get_str k entries | _ => None end.

Definition in_i64 (z : Z) : bool := Z.leb (- 2 ^ 63) z && Z.ltb z (2 ^ 63).

Fixpoint json_to_lua (val : json) : value :=
  match val with
  | JNull => VNil
  | JBool b => VBool b
  | JNumber (NInt i) => if in_i64 i then push_int i else push_num (flt_of_Z i)
  | JNumber (NFlt f) => push_num f
  | JString s => VStr s
  | JArray arr => table (set_elements 1 (map json_to_lua arr) [])
  | JObject m => table (set_fields (map (fun kv => (fst kv, json_to_lua (snd kv))) m) [])
  end.

(** * Path queries *)
Definition type_name (val : json) : bytes :=
  match val with
  | JNull => str "null"
  | JBool _ => str "boolean"
  | JNumber _ => str "number"
  | JString _ => str "string"
  | JArray _ => str "array"
  | JObject _ => str "object"
  end.

Definition query_segment (current : json) (segment : bytes) : result json bytes :=
  match current with
  | JObject m =>
      match assoc segment m with
      | Some v => Ok v
      | None => Err (str "key '" ++ segment ++ str "' not found")
      end
  | JArray arr =>
      match parse_u64 segment with
      | None => Err (str "array index '" ++ segment ++ str "' is not a valid integer")
      | Some idx =>
          match arr !! N.to_nat idx with
          | Some v => Ok v
          | None =>
              Err (str "index " ++ dec idx ++ str " out of bounds (len " ++ dec (lenN arr) ++ str ")")
          end
      end
  | other =>
      Err (str "cannot index into " ++ type_name other ++ str " with '" ++ segment ++ str "'")
  end.

Fixpoint query_segments (current : json) (segments : list bytes) : result json bytes :=
  match segments with
  | [] => Ok current
  | segment :: segments =>
      if is_empty segment then query_segments current segments
      else
        match query_segment current segment with
        | Ok v => query_segments v segments
        | Err e => Err e
        end
  end.

Definition json_query_value (val : json) (path : bytes) : result json bytes :=
  if is_empty path then Ok val else query_segments val (split_on "." path).

(** [decode_and_query]: [parser] is the format's decoder. *)
Definition decode_and_query (parser : bytes -> result json bytes) (format text path : bytes) :
    result value bytes :=
  match parser text with
  | Err e => Err (format ++ str " error: " ++ e)
  | Ok j => result_map json_to_lua (json_query_value j path)
  end.

(** * CSV *)

(** The reader's headers and records, the writer on records of one length, the
    text of a JSON value, and the standard library's [parse::<f64>]. *)
Variable csv_read : bytes -> result (list bytes * list (result (list bytes) bytes)) bytes.
Variable csv_write : list (list bytes) -> bytes.
Variable json_text : json -> bytes.
Variable parse_f64 : bytes -> option Flt.

Definition csv_error (e : bytes) : bytes := str "CSV error: " ++ e.

(** [field.parse::<i64>()] *)
Definition parse_i64 (s : bytes) : option Z :=
  match s with
  | "-"%char :: digits =>
      if is_empty digits then None
      else match parse_digits 0 digits with
           | Some n => if N.leb n (2 ^ 63) then Some (- Z.of_N n)%Z else None
           | None => None
           end
  | _ =>
      match parse_u64 s with
      | Some n => if N.ltb n (2 ^ 63) then Some (Z.of_N n) else None
      | None => None
      end
  end.

Definition field_value (field : bytes) : value :=
  match parse_i64 field with
  | Some n => push_int n
  | None =>
      match parse_f64 field with
      | Some n => push_num n
      | None => if is_empty field then VNil else VStr field
      end
  end.

(** The table of a record. *)
Definition record_table (headers rec : list bytes) : value :=
  table (set_fields (imap (fun i field => (default [] (headers !! i), field_value field)) rec) []).

(** The columns of the rows, each once, in order of appearance. *)
Definition add_columns (columns : list bytes) (row : json) : list bytes :=
  match row with
  | JObject m =>
      fold_left (fun cols kv => if bool_decide (fst kv ∈ cols) then cols else cols ++ [fst kv]) m columns
  | _ => columns
  end.

(** [columns.sort()] *)
Fixpoint insert_column (c : bytes) (l : list bytes) : list bytes :=
  match l with
  | [] => [c]
  | x :: l => if bytes_ltb x c then x :: insert_column c l else c :: x :: l
  end.
Definition sort_columns (l : list bytes) : list bytes := fold_right insert_column [] l.

Definition cell_text (v : option json) : bytes :=
  match v with
  | None | Some JNull => []
  | Some (JString s) => s
  | Some other => json_text other
  end.

Definition not_objects : bytes := str "CSV encode expects an array of objects".

Fixpoint csv_records (columns : list bytes) (rows : list json) : result (list (list bytes)) bytes :=
  match rows with
  | [] => Ok []
  | JObject m :: rows =>
      result_map (cons (map (fun col => cell_text (assoc col m)) columns)) (csv_records columns rows)
  | _ :: _ => Err not_objects
  end.

Definition csv_encode (val : value) : result bytes bytes :=
  match lua_to_json val with
  | Err e => Err e
  | Ok (JArray rows) =>
      let columns := sort_columns (fold_left add_columns rows []) in
      result_map (fun recs => from_utf8_lossy (csv_write (columns :: recs))) (csv_records columns rows)
  | Ok _ => Err not_objects
  end.

(** The loop over the records; [keep] selects the rows of the result, which stay
    at their own index. *)
Fixpoint decode_rows (keep : list bytes -> bool) (headers : list bytes) (i : Z)
    (rows : list (result (list bytes) bytes)) (entries : list (value * value)) :
    result (list (value * value)) bytes :=
  match rows with
  | [] => Ok entries
  | Err e :: _ => Err (csv_error e)
  | Ok rec :: rows =>
      decode_rows keep headers (i + 1) rows
        (if keep rec then table_set (VInt i) (record_table headers rec) (same_int i) entries else entries)
  end.

Definition csv_decode (text : bytes) : result value bytes :=
  match csv_read text with
  | Err e => Err (csv_error e)
  | Ok (headers, rows) => result_map table (decode_rows (fun _ => true) headers 1 rows [])
  end.

Fixpoint column_index (col : bytes) (headers : list bytes) : option nat :=
  match headers with
  | [] => None
  | h :: headers => if bool_decide (h = col) then Some 0 else S <$> column_index col headers
  end.

Definition csv_query (text filter : bytes) : result value bytes :=
  match split_once "=" filter with
  | None => Err (str "CSV query syntax: column=value")
  | Some (col, expected) =>
      let col := trim col in
      let expected := trim expected in
      match csv_read text with
      | Err e => Err (csv_error e)
      | Ok (headers, rows) =>
          match column_index col headers with
          | None => Err (str "column '" ++ col ++ str "' not found in CSV")
          | Some col_idx =>
              result_map table
                (decode_rows (fun rec => bool_decide (default [] (rec !! col_idx) = expected))
                   headers 1 rows [])
          end
      end
  end.
End serialize.

(** * Lemmas *)
Section json_induction.
Context {Flt : Type}.
Variable P : json (Flt := Flt) -> Prop.
Hypothesis Hnull : P JNull.
Hypothesis Hbool : forall b, P (JBool b).
Hypothesis Hnum : forall n, P (JNumber n).
Hypothesis Hstr : forall s, P (JString s).
Hypothesis Harr : forall arr, Forall P arr -> P (JArray arr).
Hypothesis Hobj : forall m, Forall (fun kv => P (snd kv)) m -> P (JObject m).

Lemma json_ind j : P j.
Proof.
  revert j. fix IH 1. intros [| | | |arr|m]; [apply Hnull|apply Hbool|apply Hnum|apply Hstr| |].
  - apply Harr. induction arr as [|j arr IHarr]; constructor; [apply IH|apply IHarr].
  - apply Hobj. induction m as [|[k j] m IHm]; constructor; [apply IH|apply IHm].
Qed.
End json_induction.

Lemma bytes_ltb_asym a b : bytes_ltb a b = true -> bytes_ltb b a = false.
Proof.
  revert b. induction a as [|x a IH]; intros [|y b]; cbn [bytes_ltb]; try done.
  rewrite orb_true_iff, andb_true_iff, N.ltb_lt. intros [H|[Hxy H]].
  - apply orb_false_iff. split; [apply N.ltb_ge; lia|].
    destruct (Ascii.eqb_spec y x) as [->|]; [lia|done].
  - apply Ascii.eqb_eq in Hxy as ->. rewrite N.ltb_irrefl, Ascii.eqb_refl. by apply IH.
Qed.

Section tables.
Context {Flt : Type}.
Abbreviation value := (value (Flt := Flt)).
Implicit Types (es : list (value * value)) (v : value).

Lemma find_filter_ne {A} (f g : A -> bool) l :
  (forall x, f x = true -> g x = true) ->
  List.find f (List.filter g l) = List.find f l.
Proof.
  intros H. induction l as [|x l IH]; [done|]. cbn [List.filter List.find].
  destruct (f x) eqn:E; [rewrite (H x E); cbn [List.find]; by rewrite E|].
  destruct (g x); [cbn [List.find]; by rewrite E|done].
Qed.

Lemma find_filter_none {A} (f g : A -> bool) l :
  (forall x, f x = true -> g x = false) -> List.find f (List.filter g l) = None.
Proof.
  intros H. induction l as [|x l IH]; [done|]. cbn [List.filter]. destruct (g x) eqn:E; [|done].
  cbn [List.find]. destruct (f x) eqn:Ef; [by rewrite (H x Ef) in E|done].
Qed.

Lemma find_app {A} (f : A -> bool) l1 l2 :
  List.find f (l1 ++ l2) = match List.find f l1 with Some x => Some x | None => List.find f l2 end.
Proof. induction l1 as [|x l IH]; [done|]. cbn. by destruct (f x). Qed.

(** Setting an entry changes that entry only. *)
Lemma raw_get_table_set i k v es :
  raw_get VNil k (table_set (VInt i) v (same_int i) es) =
  if Z.eqb k i then v else raw_get VNil k es.
Proof.
  unfold raw_get, table_set. set (f := fun e : value * value => _).
  assert (Hrest : List.find f (List.filter (fun e => negb (same_int i (fst e))) es) =
    if Z.eqb k i then None else List.find f es).
  { destruct (Z.eqb_spec k i) as [->|Hne].
    - apply find_filter_none. intros [k' v'] H. unfold f in H. cbn in *. destruct k'; try done. unfold same_int. by rewrite H.
    - apply find_filter_ne. intros [k' v'] H. unfold f in H. cbn in *. destruct k'; try done.
      apply Z.eqb_eq in H as ->. apply negb_true_iff. cbn. by apply Z.eqb_neq. }
  assert (Hlast : forall w, List.find f [(VInt i, w)] = if Z.eqb k i then Some (VInt i, w) else None)
    by (intros w; cbn; by rewrite (Z.eqb_sym i k)).
  destruct v; rewrite ?find_app, Hrest, ?Hlast; destruct (Z.eqb k i); try done;
    by destruct (List.find f es) as [[]|].
Qed.

Lemma raw_get_set_elements i vs k es :
  raw_get VNil k (set_elements i vs es) =
  if Z.leb i k && Z.ltb k (i + Z.of_nat (length vs))
  then default VNil (vs !! Z.to_nat (k - i)) else raw_get VNil k es.
Proof.
  revert i es. induction vs as [|v vs IH]; intros i es; cbn [set_elements length].
  { destruct (Z.leb_spec i k), (Z.ltb_spec k (i + Z.of_nat 0)); simpl; (done || lia). }
  rewrite IH, raw_get_table_set.
  destruct (Z.leb_spec (i + 1) k), (Z.ltb_spec k (i + 1 + Z.of_nat (length vs)));
    destruct (Z.leb_spec i k), (Z.ltb_spec k (i + Z.of_nat (S (length vs)))); try lia; cbn [andb];
    destruct (Z.eqb_spec k i) as [E|Hne]; try lia; try done.
  - replace (Z.to_nat (k - i)) with (S (Z.to_nat (k - (i + 1)))) by lia. done.
  - by replace (Z.to_nat (k - i)) with 0 by lia.
Qed.

Lemma get_str_table_set k k' v es :
  get_str k (table_set (VStr k') v (same_str k') es) =
  if bool_decide (k = k') then (match v with VNil => None | v => Some v end) else get_str k es.
Proof.
  unfold get_str, table_set.
  assert (Hrest : List.find (fun e => same_str k (fst e))
      (List.filter (fun e => negb (same_str k' (fst e))) es) =
    if bool_decide (k = k') then None else List.find (fun e => same_str k (fst e)) es).
  { destruct (bool_decide_reflect (k = k')) as [->|Hne].
    - apply find_filter_none. intros [k0 v0] H. cbn in *. by rewrite H.
    - apply find_filter_ne. intros [k0 v0] H. cbn in *. destruct k0; try done. cbn in *.
      apply bool_decide_eq_true in H as ->. by rewrite bool_decide_eq_false_2. }
  assert (Hlast : forall w, List.find (fun e : value * value => same_str k (fst e)) [(VStr k', w)] =
    if bool_decide (k = k') then Some (VStr k', w) else None).
  { intros w. cbn. by rewrite (bool_decide_ext (k' = k) (k = k')) by (split; congruence). }
  destruct v; rewrite ?find_app, Hrest, ?Hlast; destruct (bool_decide (k = k')); try done;
    by destruct (List.find _ es).
Qed.

(** The last setting of a key decides. *)
Lemma get_str_set_fields k kvs es :
  get_str k (set_fields kvs es) =
  match last (List.filter (fun kv => bool_decide (k = fst kv)) kvs) with
  | Some (_, VNil) => None
  | Some (_, v) => Some v
  | None => get_str k es
  end.
Proof.
  revert es. induction kvs as [|[k' v] kvs IH]; intros es; [done|].
  cbn [set_fields List.filter fst]. rewrite IH, get_str_table_set.
  destruct (bool_decide (k = k')); [|done]. rewrite last_cons.
  by destruct (last (List.filter _ kvs)) as [[k0 v0]|]; [|destruct v].
Qed.

(** Among different names, a name picks out its entry. *)
Lemma filter_key {A} k (a : A) (kvs : list (bytes * A)) :
  NoDup (fst <$> kvs) -> (k, a) ∈ kvs ->
  List.filter (fun kv => bool_decide (k = fst kv)) kvs = [(k, a)].
Proof.
  induction kvs as [|[k' a'] kvs IH]; intros Hnd Hin; [by apply not_elem_of_nil in Hin|].
  cbn in Hnd. apply NoDup_cons in Hnd as [Hk Hnd]. cbn [List.filter fst].
  apply elem_of_cons in Hin as [[= -> ->]|Hin].
  - rewrite bool_decide_eq_true_2 by done. f_equal. clear IH Hnd.
    induction kvs as [|[k1 a1] kvs IH]; [done|]. cbn in *. apply not_elem_of_cons in Hk as [Hne Hk].
    rewrite bool_decide_eq_false_2 by done. by apply IH.
  - rewrite bool_decide_eq_false_2; [by apply IH|]. intros ->. destruct Hk.
    apply list_elem_of_fmap. by exists (k', a).
Qed.

Lemma field_table border k (kvs : list (bytes * value)) v :
  NoDup (fst <$> kvs) -> (k, v) ∈ kvs ->
  field k (table border (set_fields kvs [])) = match v with VNil => None | v => Some v end.
Proof. intros Hnd Hin. cbn. by rewrite get_str_set_fields, (filter_key k v kvs Hnd Hin). Qed.

(** Fields with different names and values other than [nil] are kept in order. *)
Lemma set_fields_fresh kvs es :
  NoDup (fst <$> kvs) -> Forall (fun kv => snd kv <> VNil) kvs ->
  (forall kv, kv ∈ kvs -> List.find (fun e => same_str (fst kv) (fst e)) es = None) ->
  set_fields kvs es = es ++ map (fun kv => (VStr (fst kv), snd kv)) kvs.
Proof.
  revert es. induction kvs as [|[k v] kvs IH]; intros es Hnd Hnn Hfresh; [by rewrite app_nil_r|].
  cbn in Hnd. apply NoDup_cons in Hnd as [Hk Hnd]. inversion Hnn as [|? ? Hv Hnn']; subst.
  cbn [set_fields].
  assert (Hset : table_set (VStr k) v (same_str k) es = es ++ [(VStr k, v)]).
  { unfold table_set. specialize (Hfresh (k, v) ltac:(left)). cbn [fst] in Hfresh.
    assert (Hid : List.filter (fun e => negb (same_str k (fst e))) es = es).
    { clear -Hfresh. induction es as [|e es IH]; [done|]. cbn in *.
      destruct (same_str k (fst e)); [done|]. cbn. by rewrite IH. }
    rewrite Hid. by destruct v. }
  rewrite Hset, IH; [by rewrite <-app_assoc|done|done|].
  intros [k' v'] Hin. rewrite find_app, Hfresh by by right. cbn.
  destruct (bool_decide_reflect (k = k')) as [->|]; [|done].
  destruct Hk. apply list_elem_of_fmap. by exists (k', v').
Qed.

Lemma raw_get_fields k (kvs : list (bytes * value)) :
  raw_get VNil k (map (fun kv => (VStr (fst kv) : value, snd kv)) kvs) = VNil.
Proof. unfold raw_get. by induction kvs. Qed.

Lemma raw_get_map {A} (f : value -> A) k es :
  raw_get (f VNil) k (map (fun e => (fst e, f (snd e))) es) = f (raw_get VNil k es).
Proof.
  unfold raw_get. induction es as [|[k' v] es IH]; [done|]. cbn.
  destruct k'; try done. by destruct (Z.eqb z k).
Qed.
End tables.

(** ** Maps *)
Section maps.
Context {Flt : Type}.
Abbreviation json := (json (Flt := Flt)).

Definition key_lt (a b : bytes * json) : Prop := bytes_ltb (fst a) (fst b) = true.

Lemma map_insert_last k (v : json) m :
  Forall (fun kv => bytes_ltb (fst kv) k = true) m -> map_insert k v m = m ++ [(k, v)].
Proof.
  induction 1 as [|[k' v'] m Hk _ IH]; [done|]. cbn in *.
  destruct (bool_decide_reflect (k = k')) as [->|].
  { pose proof (bytes_ltb_asym _ _ Hk). congruence. }
  by rewrite (bytes_ltb_asym _ _ Hk), IH.
Qed.

Lemma sorted_keys_nodup (m : list (bytes * json)) : StronglySorted key_lt m -> NoDup (fst <$> m).
Proof.
  induction 1 as [|[k v] m _ IH Hk]; [constructor|]. cbn. constructor; [|done].
  intros [[k' v'] [-> Hin]]%list_elem_of_fmap. rewrite Forall_forall in Hk.
  pose proof (Hk _ Hin) as H. unfold key_lt in H. cbn in H. pose proof (bytes_ltb_asym _ _ H). congruence.
Qed.

(** Collecting the entries of a sorted map gives the map. *)
Lemma collect_object_sorted flt_to_string (m acc : list (bytes * json)) :
  StronglySorted key_lt (acc ++ m) -> Forall (fun kv => valid_utf8 (fst kv) = true) m ->
  collect_object flt_to_string (map (fun kv => (VStr (fst kv), Ok (snd kv))) m) acc = Ok (acc ++ m).
Proof.
  revert acc. induction m as [|[k v] m IH]; intros acc Hs Hu; cbn; [by rewrite app_nil_r|].
  inversion Hu as [|? ? Hk Hu']; subst. cbn in Hk. rewrite Hk. rewrite map_insert_last.
  - rewrite IH; [by rewrite <-app_assoc|by rewrite <-app_assoc|done].
  - clear -Hs. induction acc as [|a acc IH]; [constructor|]. cbn in Hs. inversion Hs as [|? ? Hs' Ha]; subst.
    constructor; [|by apply IH]. rewrite Forall_forall in Ha. apply (Ha (k, v)). set_solver.
Qed.
End maps.

(** * Theorems *)
Section theorems.
Context {Flt : Type}.
Abbreviation value := (value (Flt := Flt)).
Abbreviation json := (json (Flt := Flt)).
Variable is_finite : Flt -> bool.
Variable flt_to_string : Flt -> bytes.
Variable flt_of_Z : Z -> Flt.
Variable push_int : Z -> value.
Variable push_num : Flt -> value.
Variable border : list (value * value) -> nat.
Abbreviation lua_to_json := (lua_to_json is_finite flt_to_string).
Abbreviation json_to_lua := (json_to_lua flt_of_Z push_int push_num border).

(** What Lua says of the length of a table: an entry that is followed by none,
    or 0. *)
Definition is_border : Prop := forall es,
  (border es = 0 \/ raw_get VNil (Z.of_nat (border es)) es <> VNil) /\
  raw_get VNil (Z.of_nat (border es) + 1) es = VNil.

Definition not_null (j : json) : Prop := j <> JNull.

(** The values Lua can hold without loss: no [null] inside a container (a table
    has no [nil] entries), no empty array (it is the empty table, as the empty
    object), integers of 64 bits and numbers that Lua gives back as they are. *)
Fixpoint faithful (j : json) : Prop :=
  match j with
  | JNull | JBool _ => True
  | JNumber (NInt i) => in_i64 i = true /\ push_int i = VInt i
  | JNumber (NFlt f) => is_finite f = true /\ push_num f = VNum f
  | JString s => valid_utf8 s = true
  | JArray arr => arr <> [] /\ Forall not_null arr /\ foldr (fun j P => faithful j /\ P) True arr
  | JObject m =>
      StronglySorted key_lt m /\ Forall (fun kv => valid_utf8 (fst kv) = true) m /\
      Forall (fun kv => not_null (snd kv)) m /\ foldr (fun kv P => faithful (snd kv) /\ P) True m
  end.

Lemma json_to_lua_not_nil j : faithful j -> not_null j -> json_to_lua j <> VNil.
Proof.
  destruct j as [|b|[i|f]|s|arr|m]; cbn; try done.
  - intros [-> ->]. done.
  - by intros [_ ->].
Qed.

Lemma foldr_Forall {A} (Q : A -> Prop) l : foldr (fun x P => Q x /\ P) True l <-> Forall Q l.
Proof.
  split.
  - induction l; cbn; [constructor|]. intros [? ?]. constructor; auto.
  - by induction 1.
Qed.

(** The border of the table of a list. *)
Lemma border_elements vs :
  is_border -> Forall (fun v => v <> VNil) vs -> border (set_elements 1 vs []) = length vs.
Proof.
  intros Hb Hvs. destruct (Hb (set_elements 1 vs [])) as [H1 H2].
  set (n := border _) in *. clearbody n. rewrite !raw_get_set_elements in *.
  destruct (decide (n = length vs)) as [|Hne]; [done|]. exfalso.
  destruct (Nat.lt_ge_cases n (length vs)) as [Hlt|Hge].
  - destruct (Z.leb_spec 1 (Z.of_nat n + 1)), (Z.ltb_spec (Z.of_nat n + 1) (1 + Z.of_nat (length vs)));
      try lia. cbn [andb] in H2. replace (Z.to_nat (Z.of_nat n + 1 - 1)) with n in H2 by lia.
    destruct (lookup_lt_is_Some_2 vs n Hlt) as [v Hv]. rewrite Hv in H2. cbn in H2.
    exact (Forall_lookup_1 _ _ _ _ Hvs Hv H2).
  - destruct H1 as [->|H1]; [simpl in *; lia|]. apply H1.
    destruct (Z.leb_spec 1 (Z.of_nat n)), (Z.ltb_spec (Z.of_nat n) (1 + Z.of_nat (length vs)));
      try lia; done.
Qed.

Lemma sequence_ok (js : list json) : sequence (map Ok js) = Ok js.
Proof. induction js as [|j js IH]; [done|]. cbn. by rewrite IH. Qed.

Lemma border_fields (kvs : list (bytes * value)) :
  is_border -> border (map (fun kv => (VStr (fst kv), snd kv)) kvs) = 0.
Proof. intros Hb. destruct (Hb (map (fun kv => (VStr (fst kv), snd kv)) kvs)) as [[H|H] _]; [done|].
  by rewrite raw_get_fields in H. Qed.

Lemma json_lua_roundtrip_ok j : is_border -> faithful j -> lua_to_json (json_to_lua j) = Ok j.
Proof.
  intros Hb. induction j as [|b|[i|f]|s|arr IH|m IH] using json_ind; intros Hj; try done.
  - cbn in *. destruct Hj as [-> ->]. done.
  - cbn in *. destruct Hj as [Hf ->]. cbn. by rewrite Hf.
  - cbn in *. by rewrite Hj.
  - destruct Hj as (Hne & Hnn & Hj%foldr_Forall). cbn [json_to_lua]. unfold table.
    assert (Hnil : Forall (fun v => v <> VNil) (map json_to_lua arr)).
    { apply Forall_map. rewrite Forall_forall in *. intros j Hin.
      apply json_to_lua_not_nil; [by apply Hj|by apply Hnn]. }
    cbn [lua_to_json]. rewrite border_elements by done. rewrite length_map.
    destruct (Nat.ltb_spec 0 (length arr)); [|destruct arr; [done|simpl in *; lia]].
    assert (Hseq : map (fun i => raw_get (Ok JNull) (Z.of_nat i)
                     (map (fun e => (fst e, lua_to_json (snd e))) (set_elements 1 (map json_to_lua arr) [])))
                     (seq 1 (length arr)) = map Ok arr).
    { apply list_eq. intros k. rewrite !list_lookup_fmap.
      destruct (decide (k < length arr)) as [Hk|Hk].
      - rewrite lookup_seq_lt by done. destruct (lookup_lt_is_Some_2 arr k Hk) as [j Hkj]. rewrite Hkj.
        cbn [fmap option_fmap option_map]. f_equal.
        change (Ok JNull) with (lua_to_json VNil). rewrite raw_get_map, raw_get_set_elements.
        rewrite length_map.
        destruct (Z.leb_spec 1 (Z.of_nat (1 + k))), (Z.ltb_spec (Z.of_nat (1 + k)) (1 + Z.of_nat (length arr)));
          try lia. cbn [andb]. replace (Z.to_nat (Z.of_nat (1 + k) - 1)) with k by lia.
        rewrite list_lookup_fmap, Hkj. cbn [fmap option_fmap option_map default].
        rewrite Forall_forall in IH, Hj. apply list_elem_of_lookup_2 in Hkj. by apply IH, Hj.
      - rewrite lookup_seq_ge by lia. by rewrite (lookup_ge_None_2 arr) by lia. }
    rewrite Hseq. by rewrite sequence_ok.
  - destruct Hj as (Hs & Hu & Hnn & Hj%foldr_Forall). cbn [json_to_lua]. unfold table.
    rewrite set_fields_fresh.
    + cbn [app]. rewrite map_map. cbn [fst snd lua_to_json].
      pose proof (border_fields (map (fun kv => (fst kv, json_to_lua (snd kv))) m) Hb) as Hb0.
      rewrite map_map in Hb0. cbn [fst snd] in Hb0. rewrite Hb0. cbn [Nat.ltb Nat.leb].
      rewrite map_map. cbn [fst snd].
      rewrite (map_ext_in _ (fun kv => (VStr (fst kv), Ok (snd kv)))).
      2:{ intros [k j] Hin. cbn. f_equal. rewrite Forall_forall in IH, Hj.
          apply list_elem_of_In in Hin. apply (IH _ Hin), (Hj _ Hin). }
      rewrite collect_object_sorted by done. done.
    + rewrite <-list_fmap_compose. by apply sorted_keys_nodup.
    + apply Forall_map. rewrite Forall_forall in *. intros [k j] Hin. cbn.
      apply json_to_lua_not_nil; [apply (Hj _ Hin)|apply (Hnn _ Hin)].
    + done.
Qed.
(** C16: A JSON value that a handler decodes and encodes again comes back the same,
    for every value Lua can hold without loss, nested arrays and objects
    included. *)
Theorem json_lua_roundtrip j : is_border -> faithful j -> lua_to_json (json_to_lua j) = Ok j.
Proof. apply json_lua_roundtrip_ok. Qed.

(** ** Path queries *)
Lemma query_segments_app (j : json) a b :
  query_segments j (a ++ b) = result_bind (query_segments j a) (fun v => query_segments v b).
Proof.
  revert j. induction a as [|s a IH]; intros j; [done|]. cbn [app query_segments].
  destruct (is_empty s); [apply IH|]. destruct (query_segment j s); [apply IH|done].
Qed.

Lemma json_query_value_segments (j : json) path :
  json_query_value j path = query_segments j (split_on "." path).
Proof. by destruct path. Qed.

(** Path queries compose: querying [p.q] is querying [p] and then [q] in what
    it gives, errors included, for all paths; an empty path, and the dots of an
    empty segment, give the value itself. *)
Theorem query_path_composes (j : json) p q :
  json_query_value j (p ++ str "." ++ q) =
  result_bind (json_query_value j p) (fun v => json_query_value v q) /\
  json_query_value j [] = Ok j /\ json_query_value j (str "." ++ q) = json_query_value j q.
Proof.
  assert (H : forall (j : json) p q, json_query_value j (p ++ str "." ++ q) =
    result_bind (json_query_value j p) (fun v => json_query_value v q)).
  { clear. intros j p q. rewrite !json_query_value_segments.
    change (p ++ str "." ++ q) with (p ++ "."%char :: q). rewrite split_on_join_app, query_segments_app.
    destruct (query_segments j (split_on "." p)); [|done]. cbn [result_bind].
    by rewrite json_query_value_segments. }
  split_and!; [apply H|done|]. exact (H j [] q).
Qed.

(** ** CSV *)
Variable csv_read : bytes -> result (list bytes * list (result (list bytes) bytes)) bytes.
Variable csv_write : list (list bytes) -> bytes.
Variable json_text : json -> bytes.
Variable parse_f64 : bytes -> option Flt.
Abbreviation record_table := (record_table push_int push_num border parse_f64).
Abbreviation csv_decode := (csv_decode push_int push_num border csv_read parse_f64).
Abbreviation csv_query := (csv_query push_int push_num border csv_read parse_f64).
Abbreviation csv_encode := (csv_encode is_finite flt_to_string csv_write json_text).

Lemma decode_rows_lookup keep headers i rows es :
  exists es',
    decode_rows push_int push_num border parse_f64 keep headers i (map Ok rows) es = Ok es' /\
    forall k, raw_get VNil k es' =
      if Z.leb i k && Z.ltb k (i + Z.of_nat (length rows)) then
        match rows !! Z.to_nat (k - i) with
        | Some rec => if keep rec then record_table headers rec else raw_get VNil k es
        | None => VNil
        end
      else raw_get VNil k es.
Proof.
  revert i es. induction rows as [|rec rows IH]; intros i es; cbn [map decode_rows length].
  { eexists. split; [done|]. intros k.
    destruct (Z.leb_spec i k), (Z.ltb_spec k (i + Z.of_nat 0)); simpl; (done || lia). }
  edestruct IH as (es' & E & H). rewrite E. eexists. split; [done|]. intros k. rewrite H. clear IH E H.
  assert (Hset : raw_get VNil k (if keep rec then table_set (VInt i) (record_table headers rec) (same_int i) es
                                 else es) =
                 if Z.eqb k i && keep rec then record_table headers rec else raw_get VNil k es).
  { destruct (keep rec); [|by rewrite andb_false_r]. rewrite raw_get_table_set, andb_true_r. done. }
  rewrite Hset.
  destruct (Z.leb_spec (i + 1) k), (Z.ltb_spec k (i + 1 + Z.of_nat (length rows)));
    destruct (Z.leb_spec i k), (Z.ltb_spec k (i + Z.of_nat (S (length rows)))); try lia; cbn [andb];
    destruct (Z.eqb_spec k i) as [E|Hne]; try lia; cbn [andb]; try done.
  - by replace (Z.to_nat (k - i)) with (S (Z.to_nat (k - (i + 1)))) by lia.
  - by replace (Z.to_nat (k - i)) with 0 by lia.
Qed.

(** A CSV query leaves each matching row at its own row number: the entry
    [k + 1] of the result is the [k]-th row when its column has the value, and
    [nil] otherwise; so the result is an array only when the rows before the
    last match all match. *)
Theorem csv_query_keeps_row_numbers text filter col expected headers rows i :
  split_once "=" filter = Some (col, expected) ->
  csv_read text = Ok (headers, map Ok rows) -> column_index (trim col) headers = Some i ->
  exists es, csv_query text filter = Ok (VTable (border es) es) /\
    forall k, raw_get VNil (Z.of_nat k + 1) es =
      match rows !! k with
      | Some rec => if bool_decide (default [] (rec !! i) = trim expected)
                    then record_table headers rec else VNil
      | None => VNil
      end.
Proof.
  intros Hf Hr Hi. unfold csv_query. rewrite Hf, Hr, Hi.
  destruct (decode_rows_lookup (fun rec => bool_decide (default [] (rec !! i) = trim expected)) headers 1 rows [])
    as (es & -> & H). exists es. split; [done|]. intros k. rewrite H.
  destruct (Z.leb_spec 1 (Z.of_nat k + 1)), (Z.ltb_spec (Z.of_nat k + 1) (1 + Z.of_nat (length rows))); try lia; cbn [andb].
  - by replace (Z.to_nat (Z.of_nat k + 1 - 1)) with k by lia.
  - by rewrite lookup_ge_None_2 by lia.
Qed.

(** *** Reading back what was written *)

(** A row of text cells, as an object. *)
Definition row_object (cols cells : list bytes) : json := JObject (zip cols (map JString cells)).
Definition rows_json (cols : list bytes) (rows : list (list bytes)) : json :=
  JArray (map (row_object cols) rows).

(** Text that is read back as text: not empty, and not a number. *)
Definition text_cell (c : bytes) : Prop :=
  valid_utf8 c = true /\ c <> [] /\ parse_i64 c = None /\ parse_f64 c = None.

Definition lt_cols (a b : bytes) : Prop := bytes_ltb a b = true.

(** The writer's text of a header and some records is read back as they are. *)
Definition csv_reads_back (h : list bytes) (rs : list (list bytes)) : Prop :=
  valid_utf8 (csv_write (h :: rs)) = true /\ csv_read (csv_write (h :: rs)) = Ok (h, map Ok rs).

Lemma text_field c : text_cell c -> field_value push_int push_num parse_f64 c = VStr c.
Proof. intros (_ & Hne & Hi & Hf). unfold field_value. rewrite Hi, Hf. by destruct c. Qed.

Lemma lt_cols_nodup cols : StronglySorted lt_cols cols -> NoDup cols.
Proof.
  induction 1 as [|c cols _ IH Hc]; constructor; [|done]. intros Hin. rewrite Forall_forall in Hc.
  pose proof (Hc _ Hin) as H. unfold lt_cols in H. pose proof (bytes_ltb_asym _ _ H). congruence.
Qed.

Lemma row_columns cols cells :
  length cells = length cols -> NoDup cols -> forall acc,
  add_columns acc (row_object cols cells) = acc ++ List.filter (fun c => negb (bool_decide (c ∈ acc))) cols.
Proof.
  unfold add_columns, row_object. revert cells. induction cols as [|c cols IH]; intros cells Hlen Hnd acc.
  { by rewrite app_nil_r. }
  destruct cells as [|x cells]; [done|]. apply NoDup_cons in Hnd as [Hc Hnd].
  cbn [map zip zip_with fold_left fst List.filter]. destruct (bool_decide_reflect (c ∈ acc)) as [Hin|Hout]; cbn [negb].
  - apply IH; [by injection Hlen|done].
  - rewrite IH by (by injection Hlen || done). rewrite <-app_assoc. f_equal. cbn [app]. f_equal.
    apply filter_ext_in. intros c' Hin. f_equal. apply bool_decide_ext.
    rewrite elem_of_app, list_elem_of_singleton. split; [|by left]. intros [?| ->]; [done|].
    by apply list_elem_of_In in Hin.
Qed.

Lemma rows_columns cols rows :
  cols <> [] -> rows <> [] -> NoDup cols -> Forall (fun r => length r = length cols) rows ->
  fold_left add_columns (map (row_object cols) rows) [] = cols.
Proof.
  intros Hc Hr Hnd Hlen. destruct rows as [|r rows]; [done|]. inversion Hlen as [|? ? Hl Hls]; subst.
  cbn [map fold_left]. rewrite row_columns by done. cbn [app].
  assert (Hall : List.filter (fun c => negb (bool_decide (c ∈ []))) cols = cols).
  { clear. induction cols as [|c cols IH]; [done|]. cbn [List.filter].
    rewrite bool_decide_eq_false_2 by apply not_elem_of_nil. cbn. by rewrite IH. }
  rewrite Hall. clear Hr Hall Hlen. induction Hls as [|r' rows Hl' _ IH]; [done|].
  cbn [map fold_left]. rewrite row_columns by done.
  assert (Hnone : List.filter (fun c => negb (bool_decide (c ∈ cols))) cols = []).
  { clear. assert (H : forall l, l ⊆ cols ->
      List.filter (fun c => negb (bool_decide (c ∈ cols))) l = []).
    { induction l as [|c l IH]; intros Hl; [done|]. cbn [List.filter].
      rewrite bool_decide_eq_true_2 by set_solver. cbn. apply IH. set_solver. }
    by apply H. }
  by rewrite Hnone, app_nil_r.
Qed.

Lemma sort_sorted cols : StronglySorted lt_cols cols -> sort_columns cols = cols.
Proof.
  induction 1 as [|c cols _ IH Hc]; [done|]. unfold sort_columns in *. cbn [fold_right]. rewrite IH.
  destruct cols as [|c' cols]; [done|]. cbn [insert_column]. inversion Hc as [|? ? H]; subst.
  unfold lt_cols in H. by rewrite (bytes_ltb_asym _ _ H).
Qed.

Lemma assoc_zip (cols cells : list bytes) :
  length cells = length cols -> NoDup cols ->
  map (fun col => cell_text json_text (assoc col (zip cols (map JString cells)))) cols = cells.
Proof.
  revert cells. induction cols as [|c cols IH]; intros [|x cells] Hlen Hnd; try done.
  apply NoDup_cons in Hnd as [Hc Hnd]. injection Hlen as Hlen. cbn [map zip zip_with assoc].
  rewrite bool_decide_eq_true_2 by done. cbn [cell_text]. f_equal. etransitivity; [|apply (IH cells Hlen Hnd)].
  apply map_ext_in. intros c' Hin%list_elem_of_In. rewrite bool_decide_eq_false_2; [done|].
  by intros ->.
Qed.

Lemma records_rows cols rows :
  NoDup cols -> Forall (fun r => length r = length cols) rows ->
  csv_records json_text cols (map (row_object cols) rows) = Ok rows.
Proof.
  intros Hnd. induction 1 as [|r rows Hl _ IH]; [done|].
  cbn [map csv_records row_object]. by rewrite IH, assoc_zip.
Qed.

Lemma row_faithful cols cells :
  length cells = length cols -> StronglySorted lt_cols cols -> Forall (fun c => valid_utf8 c = true) cols ->
  Forall text_cell cells -> faithful (row_object cols cells).
Proof.
  intros Hlen Hs Hu Ht. revert cells Hlen Ht.
  induction Hs as [|c cols Hs IH Hc]; intros [|x cells] Hlen Ht; try done.
  { split_and!; constructor. }
  injection Hlen as Hlen. inversion Hu as [|? ? Hu1 Hu2]; subst. inversion Ht as [|? ? Ht1 Ht2]; subst.
  destruct (IH Hu2 cells Hlen Ht2) as (H1 & H2 & H3 & H4). cbn [map zip zip_with row_object faithful].
  split_and!.
  - constructor; [done|]. rewrite Forall_forall. intros [c' j] Hin. unfold key_lt. cbn.
    rewrite Forall_forall in Hc. apply Hc. by apply elem_of_zip_l in Hin.
  - by constructor.
  - by constructor.
  - cbn. split; [apply Ht1|exact H4].
Qed.

Lemma record_row cols cells :
  length cells = length cols -> Forall text_cell cells ->
  record_table cols cells = json_to_lua (row_object cols cells).
Proof.
  intros Hlen Ht. unfold record_table, row_object. cbn [json_to_lua]. do 2 f_equal.
  apply list_eq. intros i. rewrite list_lookup_imap, list_lookup_fmap.
  destruct (decide (i < length cells)) as [Hi|Hi].
  - destruct (lookup_lt_is_Some_2 cells i Hi) as [x Hx].
    destruct (lookup_lt_is_Some_2 cols i ltac:(lia)) as [c Hc].
    rewrite Hx. cbn. rewrite lookup_zip_with, list_lookup_fmap, Hx, Hc. cbn.
    by rewrite text_field by exact (Forall_lookup_1 _ _ _ _ Ht Hx).
  - rewrite (lookup_ge_None_2 cells) by lia. cbn.
    rewrite (lookup_ge_None_2 (zip cols _)); [done|].
    rewrite length_zip_with, length_map. lia.
Qed.

Lemma decode_all cols rows i es :
  decode_rows push_int push_num border parse_f64 (fun _ => true) cols i (map Ok rows) es =
  Ok (set_elements i (map (record_table cols) rows) es).
Proof. revert i es. induction rows as [|r rows IH]; intros i es; [done|]. apply IH. Qed.

(** C18: Rows of text written as CSV are read back as they were: for every list of
    rows with the same sorted columns and cells of text that are not numbers,
    decoding what [csv.enc] gives returns the value that was encoded. *)
Theorem csv_roundtrip cols rows :
  is_border -> csv_reads_back cols rows ->
  cols <> [] -> StronglySorted lt_cols cols -> Forall (fun c => valid_utf8 c = true) cols ->
  rows <> [] -> Forall (fun r => length r = length cols /\ Forall text_cell r) rows ->
  exists text, csv_encode (json_to_lua (rows_json cols rows)) = Ok text /\
    csv_decode text = Ok (json_to_lua (rows_json cols rows)).
Proof.
  intros Hb [Hutf Hread] Hne Hs Hu Hr Hrows.
  assert (Hnd : NoDup cols) by by apply lt_cols_nodup.
  assert (Hlens : Forall (fun r => length r = length cols) rows) by (eapply Forall_impl; [exact Hrows|]; by intros ? []).
  assert (Hf : faithful (rows_json cols rows)).
  { split_and!; [by destruct rows|by apply Forall_map, Forall_true|].
    apply foldr_Forall, Forall_map. rewrite Forall_forall in Hrows |- *.
    intros r Hin. apply row_faithful; [apply (Hrows r Hin)|done|done|apply (Hrows r Hin)]. }
  exists (csv_write (cols :: rows)). split.
  - unfold csv_encode. rewrite json_lua_roundtrip_ok by done. cbn [rows_json].
    rewrite rows_columns, sort_sorted, records_rows by done. cbn [result_map].
    by rewrite from_utf8_lossy_id.
  - unfold csv_decode. rewrite Hread, decode_all. cbn [result_map]. unfold rows_json. cbn [json_to_lua].
    do 3 f_equal. rewrite map_map. apply map_ext_in. intros r Hin%list_elem_of_In.
    rewrite Forall_forall in Hrows. apply record_row; apply (Hrows r Hin).
Qed.
End theorems.

(** * The theorems at concrete parameters *)
Module SerializeExample.
Abbreviation value := (value (Flt := unit)).
Abbreviation json := (json (Flt := unit)).

(** The largest positive integer key with an entry is a border. *)
Definition is_nil (v : value) : bool := match v with VNil => true | _ => false end.
Definition border (es : list (value * value)) : nat :=
  foldr (fun (e : value * value) m => match fst e with
                    | VInt z => if is_nil (raw_get VNil z es) then m else Nat.max (Z.to_nat z) m
                    | _ => m
                    end) 0 es.

Lemma border_is_border : is_border border.
Proof.
  intros es. unfold border.
  assert (H : forall l,
    let m := foldr (fun (e : value * value) m => match fst e with
                               | VInt z => if is_nil (raw_get VNil z es) then m else Nat.max (Z.to_nat z) m
                               | _ => m end) 0 l in
    (m = 0 \/ raw_get VNil (Z.of_nat m) es <> VNil) /\
    forall z v, In (VInt z, v) l -> raw_get VNil z es <> VNil -> Z.to_nat z <= m).
  { induction l as [|[k v] l [IH1 IH2]]; [split; [by left|done]|]. cbn [foldr fst]. cbn zeta in *.
    destruct k as [| |z| | | |]; try (split; [exact IH1|intros z' v' [E|Hin]; [done|by eapply IH2]]).
    destruct (raw_get VNil z es) eqn:E; cbn [is_nil];
      try (split; [destruct (Nat.max_spec (Z.to_nat z) (foldr (fun (e : value * value) m => match fst e with
             | VInt z => if is_nil (raw_get VNil z es) then m else Nat.max (Z.to_nat z) m
             | _ => m end) 0 l)) as [[_ ->]|[_ ->]]; [exact IH1|];
           destruct (decide (Z.to_nat z = 0)) as [|Hz]; [by left|right]; rewrite Z2Nat.id, E by lia; done
          |intros z' v' [[= -> ->]|Hin] Hne; [lia|specialize (IH2 z' v' Hin Hne); lia]]).
    split; [exact IH1|]. intros z' v' [[= -> ->]|Hin] Hne; [done|by eapply IH2]. }
  destruct (H es) as [H1 H2]. cbn zeta in *. set (m := foldr _ 0 es) in *. split; [exact H1|].
  destruct (raw_get VNil (Z.of_nat m + 1) es) eqn:E; [done|exfalso..];
    (assert (Hin : exists v, In (VInt (Z.of_nat m + 1), v) es);
     [unfold raw_get in E; destruct (List.find _ es) as [[k v]|] eqn:Ef; [|done];
      apply find_some in Ef as [Hin Hk]; cbn in Hk; destruct k; try done;
      apply Z.eqb_eq in Hk as ->; by exists v
     |destruct Hin as [v' Hin]; specialize (H2 _ _ Hin ltac:(by rewrite E)); lia]).
Qed.

Definition push_int (z : Z) : value := VInt z.
Definition push_num (f : unit) : value := VNum f.
Definition no_text {A} (x : A) : bytes := [].
Definition zero (z : Z) : unit := tt.
Definition finite (f : unit) : bool := true.
Definition no_f64 (s : bytes) : option unit := None.

(** Lines of cells without commas, quotes or line ends. *)
Definition csv_write (rs : list (list bytes)) : bytes :=
  concat (map (fun r => join (str ",") r ++ [chr 10]) rs).
Definition csv_read (text : bytes) : result (list bytes * list (result (list bytes) bytes)) bytes :=
  match lines text with
  | [] => Ok ([], [])
  | h :: rs => Ok (split_on "," h, map (fun r => Ok (split_on "," r)) rs)
  end.

Definition people : list (list bytes) := [[str "rome"; str "ann"]; [str "oslo"; str "bob"]].
Definition columns : list bytes := [str "city"; str "name"].
Definition doc : json := JObject [(str "a", JArray [JNumber (NInt 1); JString (str "x")]); (str "b", JBool true)].
End SerializeExample.

Lemma json_lua_roundtrip_witness :
  faithful SerializeExample.finite SerializeExample.push_int SerializeExample.push_num SerializeExample.doc /\
  lua_to_json SerializeExample.finite SerializeExample.no_text
    (json_to_lua SerializeExample.zero SerializeExample.push_int SerializeExample.push_num
       SerializeExample.border SerializeExample.doc) = Ok SerializeExample.doc.
Proof.
  assert (H : faithful SerializeExample.finite SerializeExample.push_int SerializeExample.push_num
    SerializeExample.doc) by (repeat (split || constructor || discriminate)).
  split; [exact H|]. apply json_lua_roundtrip; [apply SerializeExample.border_is_border|exact H].
Defined.

Lemma csv_query_keeps_row_numbers_witness :
  exists es, csv_query SerializeExample.push_int SerializeExample.push_num SerializeExample.border
      SerializeExample.csv_read SerializeExample.no_f64
      (SerializeExample.csv_write (SerializeExample.columns :: SerializeExample.people)) (str "name = bob") =
    Ok (VTable (SerializeExample.border es) es) /\
  raw_get VNil 1 es = VNil /\ raw_get VNil 2 es <> VNil.
Proof.
  destruct (csv_query_keeps_row_numbers SerializeExample.push_int SerializeExample.push_num
    SerializeExample.border SerializeExample.csv_read SerializeExample.no_f64
    (SerializeExample.csv_write (SerializeExample.columns :: SerializeExample.people)) (str "name = bob")
    (str "name ") (str " bob") SerializeExample.columns SerializeExample.people 1
    ltac:(reflexivity) ltac:(vm_compute; reflexivity) ltac:(vm_compute; reflexivity)) as (es & H & Hk).
  exists es. split; [exact H|]. split; [exact (Hk 0)|]. rewrite (Hk 1 : raw_get VNil 2 es = _). vm_compute. discriminate.
Defined.

Lemma csv_roundtrip_witness :
  exists text,
    csv_encode SerializeExample.finite SerializeExample.no_text SerializeExample.csv_write
      SerializeExample.no_text
      (json_to_lua SerializeExample.zero SerializeExample.push_int SerializeExample.push_num
         SerializeExample.border (rows_json SerializeExample.columns SerializeExample.people)) = Ok text /\
    csv_decode SerializeExample.push_int SerializeExample.push_num SerializeExample.border
      SerializeExample.csv_read SerializeExample.no_f64 text =
    Ok (json_to_lua SerializeExample.zero SerializeExample.push_int SerializeExample.push_num
         SerializeExample.border (rows_json SerializeExample.columns SerializeExample.people)).
Proof.
  apply csv_roundtrip; [apply SerializeExample.border_is_border|split; vm_compute; reflexivity|discriminate| | |discriminate|].
  - repeat constructor.
  - repeat constructor.
  - repeat (constructor || split || discriminate || reflexivity).
Defined.
