(* ===== verification/Store.v ===== *)
(** The database API of the Lua handlers ([src/src/store.rs]): the registry of
    open databases, the writer and reader tasks, and the functions of [doc.*]
    (a document store) and [sql.*].

    SQLite ([rusqlite]) is a set of parameters on a type [DB] of database
    contents; [serde_json]'s printer and parser are parameters too.  A Lua state
    has its own registry and calls the API one call at a time; a call sends one
    request to a task and waits for its reply, so a task is the function that
    serves one request.  A path names one file for every connection (not so for
    [:memory:]), and every statement commits on its own (no [BEGIN] is left open).  Lua values are those of [Serialize]. *)
From S2P Require Import Prelude RustStr Serialize.

Section store.
Context {Flt DB : Type}.
Context {ord : IterOrder bytes (value (Flt := Flt))}.
Abbreviation value := (value (Flt := Flt)).
Abbreviation json := (json (Flt := Flt)).

(** * Data *)
Inductive Param := PNull | PInteger (i : Z) | PReal (f : Flt) | PText (s : bytes).

(** A cell of a row as SQLite has it, and as the API gives it. *)
Inductive raw_cell := RawNull | RawInteger (i : Z) | RawReal (f : Flt) | RawText (s : bytes) | RawBlob (n : N).
Inductive cell := CNull | CInteger (i : Z) | CReal (f : Flt) | CText (s : bytes).
Abbreviation Row := (gmap bytes cell).

(** An open database: the file its two connections are on, and whether the
    writer task still runs (its end of the channel is open). *)
Record DbHandle := mkHandle { h_path : bytes; h_writer : bool }.

(** A request to the writer task. *)
Inductive WriteRequest := Exec (sql : bytes) (params : list Param) | Close.

(** The files of databases, the open handles, and the next handle. *)
Record Store := mkStore {
  st_files : gmap bytes DB;
  reg_handles : gmap N DbHandle;
  reg_next_id : N;
}.

(** ** SQLite and JSON *)
Variable new_db : DB.
Variable open_error : bytes -> option bytes.
Variable open_reader_error : bytes -> option bytes.
Variable execute_batch : DB -> bytes -> DB * result unit bytes.
Variable execute : DB -> bytes -> list Param -> DB * result N bytes.
(** The column names and the rows, or the error of one of the three steps. *)
Variable select : DB -> bytes -> list Param -> result (list bytes * list (list raw_cell)) bytes.
Variable lua_to_json : value -> result json bytes.
Variable json_to_lua : json -> value.
Variable json_text : json -> bytes.
Variable json_parse : bytes -> result json bytes.
Variable push_int : Z -> value.
Variable push_num : Flt -> value.
Variable border : list (value * value) -> nat.

(** * The tasks *)
Definition read_cell (c : raw_cell) : cell :=
  match c with
  | RawNull => CNull
  | RawInteger i => CInteger i
  | RawReal f => CReal f
  | RawText s => CText (if valid_utf8 s then s else [])
  | RawBlob n => CText (str "<blob " ++ dec n ++ str " bytes>")
  end.

Definition make_row (names : list bytes) (cells : list raw_cell) : Row :=
  fold_left (fun m nc => <[fst nc := read_cell (snd nc)]> m) (zip names cells) ∅.

Definition exec_sql (db : DB) (sql : bytes) (params : list Param) : DB * result N bytes :=
  let '(db, r) := execute db sql params in
  (db, result_map_err (fun e => str "SQL exec error: " ++ e) r).

Definition query_sql (db : DB) (sql : bytes) (params : list Param) : result (list Row) bytes :=
  result_map (fun t => map (make_row (fst t)) (snd t)) (select db sql params).

(** One round of the writer's loop: the reply to the request, and whether the
    task goes on.  A [Close] is answered with no count. *)
Definition run_writer_conn (db : DB) (req : WriteRequest) : DB * result N bytes * bool :=
  match req with
  | Exec sql params => (exec_sql db sql params, true)
  | Close => (db, Ok 0%N, false)
  end.

(** * The registry *)
Definition set_file (path : bytes) (db : DB) (s : Store) : Store :=
  mkStore (<[path := db]> (st_files s)) (reg_handles s) (reg_next_id s).
Definition file (path : bytes) (s : Store) : DB := default new_db (st_files s !! path).

Definition new_registry (files : gmap bytes DB) : Store := mkStore files ∅ 1.

Definition pragma : bytes := str "PRAGMA journal_mode=WAL;".

Definition reg_open (path : bytes) (init_sql : option bytes) (s : Store) : Store * result N bytes :=
  let id := reg_next_id s in
  let s := mkStore (st_files s) (reg_handles s) (u64_wrap (id + 1)) in
  match open_error path with
  | Some e => (s, Err (str "open writer connection: " ++ e))
  | None =>
      let db := fst (execute_batch (file path s) pragma) in
      let '(db, r) := match init_sql with
                      | Some sql => execute_batch db sql
                      | None => (db, Ok tt)
                      end in
      let s := set_file path db s in
      match r with
      | Err e => (s, Err (str "init SQL: " ++ e))
      | Ok _ =>
          match open_reader_error path with
          | Some e => (s, Err (str "open reader connection: " ++ e))
          | None => (mkStore (st_files s) (<[id := mkHandle path true]> (reg_handles s)) (reg_next_id s), Ok id)
          end
      end
  end.

Definition reg_remove (id : N) (s : Store) : Store :=
  mkStore (st_files s) (delete id (reg_handles s)) (reg_next_id s).

Definition invalid_handle : bytes := str "invalid database handle".

Definition get_handle (s : Store) (id : Z) : result DbHandle bytes :=
  match reg_handles s !! as_u64 id with Some h => Ok h | None => Err invalid_handle end.

(** A request to the writer of a handle: the reply, and whether the writer still
    runs; to a writer that ended, the send fails. *)
Definition send_writer (h : DbHandle) (req : WriteRequest) (s : Store) : Store * result N bytes * bool :=
  if h_writer h then
    let '(db, r, running) := run_writer_conn (file (h_path h) s) req in
    (set_file (h_path h) db s, r, running)
  else (s, Err (str "writer task gone"), false).

Definition send_exec_writer (h : DbHandle) (sql : bytes) (params : list Param) (s : Store) :
    Store * result N bytes := fst (send_writer h (Exec sql params) s).

(** Stopping the writer of a handle; the handle stays in the registry. *)
Definition send_close_writer (id : N) (h : DbHandle) (s : Store) : Store * result unit bytes :=
  let '(s, r, running) := send_writer h Close s in
  (mkStore (st_files s) (<[id := mkHandle (h_path h) running]> (reg_handles s)) (reg_next_id s),
   result_map (fun _ => tt) r).

(** A request to the reader of a handle, which runs as long as the handle is
    registered. *)
Definition send_query_reader (h : DbHandle) (sql : bytes) (params : list Param) (s : Store) :
    result (list Row) bytes := query_sql (file (h_path h) s) sql params.
Definition send_row_reader (h : DbHandle) (sql : bytes) (params : list Param) (s : Store) :
    result (option Row) bytes := result_map head (send_query_reader h sql params s).

(** * Conversions *)
Definition lua_single_to_param (v : value) : Param :=
  match v with
  | VNil => PNull
  | VInt i => PInteger i
  | VNum f => PReal f
  | VStr s => PText (if valid_utf8 s then s else [])
  | VBool b => PInteger (if b then 1 else 0)%Z
  | VTable _ _ | VOther => PNull
  end.

Definition lua_value_to_params (v : value) : list Param :=
  match v with
  | VNil | VOther => []
  | VTable len entries =>
      map (fun i => lua_single_to_param (raw_get VNil (Z.of_nat i) entries)) (seq 1 len)
  | v => [lua_single_to_param v]
  end.

Definition cell_value (c : cell) : value :=
  match c with
  | CNull => VNil
  | CInteger i => push_int i
  | CReal f => push_num f
  | CText s => VStr s
  end.

Definition lua_table (entries : list (value * value)) : value := VTable (border entries) entries.

(** A row as a table, its columns in any order. *)
Definition row_table (row : Row) : value :=
  lua_table (set_fields (iter_order (cell_value <$> row)) []).

Definition json_decode (text : bytes) : result value bytes :=
  match json_parse text with
  | Ok j => Ok (json_to_lua j)
  | Err e => Err (str "JSON error: " ++ e)
  end.

Definition json_encode (v : value) : result bytes bytes := result_map json_text (lua_to_json v).

Definition text_field (name : bytes) (row : Row) : option bytes :=
  match row !! name with Some (CText s) => Some s | _ => None end.

Definition kv_entry (row : Row) : value :=
  let k := match text_field (str "key") row with Some k => [(str "key", VStr k)] | None => [] end in
  let v := match text_field (str "value") row with
           | Some v => [(str "value", match json_decode v with Ok val => val | Err _ => VNil end)]
           | None => []
           end in
  lua_table (set_fields (k ++ v) []).

Definition kv_rows_to_lua (rows : list Row) : value := lua_table (set_elements 1 (map kv_entry rows) []).
Definition sql_rows_to_lua (rows : list Row) : value := lua_table (set_elements 1 (map row_table rows) []).

(** * The document store *)
Definition CREATE_DOCS : bytes := str "CREATE TABLE IF NOT EXISTS docs (key TEXT PRIMARY KEY, value TEXT)".
Definition UPSERT : bytes :=
  str "INSERT INTO docs (key, value) VALUES (?1, ?2) ON CONFLICT(key) DO UPDATE SET value=excluded.value".
Definition GET : bytes := str "SELECT value FROM docs WHERE key = ?1".
Definition DELETE : bytes := str "DELETE FROM docs WHERE key = ?1".
Definition FIND : bytes := str "SELECT key, value FROM docs WHERE json_extract(value, ?1) = ?2".
Definition ALL : bytes := str "SELECT key, value FROM docs ORDER BY key".
Definition COUNT : bytes := str "SELECT COUNT(*) AS cnt FROM docs".

Definition api_open (init_sql : option bytes) (path : bytes) (s : Store) : Store * result Z bytes :=
  let '(s, r) := reg_open path init_sql s in (s, result_map as_i64 r).

Definition doc_open : bytes -> Store -> Store * result Z bytes := api_open (Some CREATE_DOCS).
Definition sql_open : bytes -> Store -> Store * result Z bytes := api_open None.

(** [close] of either API; an error is discarded. *)
Definition api_close (id : Z) (s : Store) : Store * result unit bytes :=
  match get_handle s id with
  | Ok h => (reg_remove (as_u64 id) (fst (send_close_writer (as_u64 id) h s)), Ok tt)
  | Err _ => (s, Ok tt)
  end.

(** The errors of [doc.set] and [doc.delete] are discarded too. *)
Definition doc_set (id : Z) (key : bytes) (v : value) (s : Store) : Store * result unit bytes :=
  match get_handle s id with
  | Err _ => (s, Ok tt)
  | Ok h =>
      match json_encode v with
      | Err _ => (s, Ok tt)
      | Ok text => (fst (send_exec_writer h UPSERT [PText key; PText text] s), Ok tt)
      end
  end.

Definition doc_get (id : Z) (key : bytes) (s : Store) : result value bytes :=
  match get_handle s id with
  | Err e => Err e
  | Ok h =>
      match send_row_reader h GET [PText key] s with
      | Err e => Err e
      | Ok row =>
          match row ≫= text_field (str "value") with
          | Some text => json_decode text
          | None => Ok VNil
          end
      end
  end.

Definition doc_delete (id : Z) (key : bytes) (s : Store) : Store * result unit bytes :=
  match get_handle s id with
  | Err _ => (s, Ok tt)
  | Ok h => (fst (send_exec_writer h DELETE [PText key] s), Ok tt)
  end.

Definition doc_find (id : Z) (json_path v : bytes) (s : Store) : result value bytes :=
  match get_handle s id with
  | Err e => Err e
  | Ok h => result_map kv_rows_to_lua (send_query_reader h FIND [PText json_path; PText v] s)
  end.

Definition doc_all (id : Z) (s : Store) : result value bytes :=
  match get_handle s id with
  | Err e => Err e
  | Ok h => result_map kv_rows_to_lua (send_query_reader h ALL [] s)
  end.

Definition doc_count (id : Z) (s : Store) : result Z bytes :=
  match get_handle s id with
  | Err e => Err e
  | Ok h =>
      result_map (fun row =>
        match row ≫= (fun r => r !! str "cnt") with Some (CInteger i) => i | _ => 0%Z end)
        (send_row_reader h COUNT [] s)
  end.

(** * Plain SQL *)
Definition sql_exec (id : Z) (sql : bytes) (params : value) (s : Store) : Store * result Z bytes :=
  match get_handle s id with
  | Err e => (s, Err e)
  | Ok h =>
      let '(s, r) := send_exec_writer h sql (lua_value_to_params params) s in
      (s, result_map as_i64 r)
  end.

Definition sql_query (id : Z) (sql : bytes) (params : value) (s : Store) : result value bytes :=
  match get_handle s id with
  | Err e => Err e
  | Ok h => result_map sql_rows_to_lua (send_query_reader h sql (lua_value_to_params params) s)
  end.

Definition sql_row (id : Z) (sql : bytes) (params : value) (s : Store) : result value bytes :=
  match get_handle s id with
  | Err e => Err e
  | Ok h =>
      result_map (fun row => match row with Some r => row_table r | None => VNil end)
        (send_row_reader h sql (lua_value_to_params params) s)
  end.

(** The calls of the API that change the registry or a file. *)
Inductive db_call :=
  | Open (init_sql : option bytes) (path : bytes) | CloseHandle (id : Z)
  | DocSet (id : Z) (key : bytes) (v : value) | DocDelete (id : Z) (key : bytes)
  | SqlExec (id : Z) (sql : bytes) (params : value).

Definition db_step (s : Store) (c : db_call) : Store :=
  match c with
  | Open init_sql path => fst (api_open init_sql path s)
  | CloseHandle id => fst (api_close id s)
  | DocSet id k v => fst (doc_set id k v s)
  | DocDelete id k => fst (doc_delete id k s)
  | SqlExec id sql params => fst (sql_exec id sql params s)
  end.

(** * Specification: a map from keys to JSON values *)

(** What SQLite promises of the statements of the document store; [contents] are
    the texts in the table [docs], if there is one. *)
Record docs_table (contents : DB -> option (gmap bytes bytes)) : Prop := {
  dt_pragma db : contents (fst (execute_batch db pragma)) = contents db;
  dt_create db : exists db', execute_batch db CREATE_DOCS = (db', Ok tt) /\
    contents db' = Some (default ∅ (contents db));
  dt_upsert db m k v : contents db = Some m ->
    exists db' n, execute db UPSERT [PText k; PText v] = (db', Ok n) /\ contents db' = Some (<[k := v]> m);
  dt_delete db m k : contents db = Some m ->
    exists db' n, execute db DELETE [PText k] = (db', Ok n) /\ contents db' = Some (delete k m);
  dt_get db m k : contents db = Some m ->
    select db GET [PText k] =
    Ok ([str "value"], match m !! k with Some v => [[RawText v]] | None => [] end);
  dt_count db m : contents db = Some m ->
    select db COUNT [] = Ok ([str "cnt"], [[RawInteger (Z.of_nat (size m))]]);
}.

Inductive doc_op := DSet (key : bytes) (v : value) | DGet (key : bytes) | DDelete (key : bytes) | DCount.
Inductive doc_answer := AUnit | AValue (r : result value bytes) | ACount (r : result Z bytes).

Definition doc_step (id : Z) (op : doc_op) (s : Store) : Store * doc_answer :=
  match op with
  | DSet k v => (fst (doc_set id k v s), AUnit)
  | DGet k => (s, AValue (doc_get id k s))
  | DDelete k => (fst (doc_delete id k s), AUnit)
  | DCount => (s, ACount (doc_count id s))
  end.

Definition spec_step (op : doc_op) (m : gmap bytes json) : gmap bytes json * doc_answer :=
  match op with
  | DSet k v => (match lua_to_json v with Ok j => <[k := j]> m | Err _ => m end, AUnit)
  | DGet k => (m, AValue (Ok (match m !! k with Some j => json_to_lua j | None => VNil end)))
  | DDelete k => (delete k m, AUnit)
  | DCount => (m, ACount (Ok (Z.of_nat (size m))))
  end.

Fixpoint run_ops {S} (step : doc_op -> S -> S * doc_answer) (ops : list doc_op) (s : S) :
    S * list doc_answer :=
  match ops with
  | [] => (s, [])
  | op :: ops =>
      let '(s, a) := step op s in
      let '(s, answers) := run_ops step ops s in (s, a :: answers)
  end.

(** A value whose text is read back. *)
Definition stored (j : json) : Prop := json_parse (json_text j) = Ok j /\ valid_utf8 (json_text j) = true.

Definition op_ok (op : doc_op) : Prop :=
  match op with DSet _ v => forall j, lua_to_json v = Ok j -> stored j | _ => True end.

(** The file holds the map. *)
Record represents (contents : DB -> option (gmap bytes bytes)) (s : Store) (path : bytes)
    (m : gmap bytes json) : Prop := {
  rp_contents : contents (file path s) = Some (json_text <$> m);
  rp_stored : map_Forall (fun _ j => stored j) m;
}.

(** Handles are numbered from 1 up to the next one, and their writers run. *)
Definition registry_wf (s : Store) : Prop :=
  (0 < reg_next_id s)%N /\
  forall id h, reg_handles s !! id = Some h -> (0 < id < reg_next_id s)%N /\ h_writer h = true.

(** ** Lemmas *)
Lemma file_set_file path db s : file path (set_file path db s) = db.
Proof. unfold file, set_file. cbn. by rewrite lookup_insert_eq. Qed.

Lemma registry_wf_next_free s : registry_wf s -> reg_handles s !! reg_next_id s = None.
Proof using Type.
  clear - DB.
  intros [_ Hwf]. destruct (reg_handles s !! reg_next_id s) as [p|] eqn:Ep; [|done]. apply Hwf in Ep. lia.
Qed.

Lemma registry_wf_next files s : registry_wf s -> (reg_next_id s + 1 < 2 ^ 64)%N ->
  registry_wf (mkStore files (reg_handles s) (u64_wrap (reg_next_id s + 1))).
Proof using Type.
  clear - DB.
  intros [Hpos Hwf] Hnext. unfold u64_wrap. rewrite wrap_small by lia. split; [cbn; lia|].
  intros id h Hin. cbn in *. apply Hwf in Hin. split; [lia|tauto].
Qed.

Lemma registry_wf_insert files s path : registry_wf s -> (reg_next_id s + 1 < 2 ^ 64)%N ->
  registry_wf (mkStore files (<[reg_next_id s := mkHandle path true]> (reg_handles s))
    (u64_wrap (reg_next_id s + 1))).
Proof using Type.
  clear - DB.
  intros Hwf Hnext. destruct (registry_wf_next files s Hwf Hnext) as [Hp Hin]. split; [exact Hp|].
  intros id h. cbn in *. intros [[<- <-]|[_ H]]%lookup_insert_Some; [|by apply Hin].
  destruct Hwf. unfold u64_wrap. rewrite wrap_small by lia. split; [lia|done].
Qed.

Lemma registry_wf_files files s : registry_wf s -> registry_wf (mkStore files (reg_handles s) (reg_next_id s)).
Proof. done. Qed.

Lemma send_writer_registry h req s :
  reg_handles (fst (fst (send_writer h req s))) = reg_handles s /\
  reg_next_id (fst (fst (send_writer h req s))) = reg_next_id s.
Proof.
  unfold send_writer. destruct (h_writer h); [|done].
  by destruct (run_writer_conn (file (h_path h) s) req) as [[db r] b].
Qed.

Lemma send_exec_writer_wf h sql ps s :
  registry_wf s -> registry_wf (fst (send_exec_writer h sql ps s)) /\
  reg_next_id (fst (send_exec_writer h sql ps s)) = reg_next_id s.
Proof using Type.
  unfold send_exec_writer, registry_wf. by destruct (send_writer_registry h (Exec sql ps) s) as [-> ->].
Qed.

Lemma reg_open_wf path init_sql s :
  registry_wf s -> (reg_next_id s + 1 < 2 ^ 64)%N ->
  registry_wf (fst (reg_open path init_sql s)) /\
  reg_next_id (fst (reg_open path init_sql s)) = (reg_next_id s + 1)%N.
Proof using Type.
  intros Hwf Hn. assert (Hw : u64_wrap (reg_next_id s + 1) = (reg_next_id s + 1)%N)
    by (unfold u64_wrap; rewrite wrap_small; lia).
  unfold reg_open. destruct (open_error path); [split; [by apply (registry_wf_next _ s)|exact Hw]|].
  destruct (match init_sql with Some sql => _ | None => _ end) as [db [[]|e]];
    [|split; [by apply (registry_wf_next _ s)|exact Hw]].
  destruct (open_reader_error path); (split; [|exact Hw]);
    [by apply (registry_wf_next _ s)|by apply (registry_wf_insert _ s)].
Qed.

Lemma api_close_registry id s :
  reg_next_id (fst (api_close id s)) = reg_next_id s /\
  reg_handles (fst (api_close id s)) = delete (as_u64 id) (reg_handles s) /\
  forall p, file p (fst (api_close id s)) = file p s.
Proof using Type.
  unfold api_close, get_handle. destruct (reg_handles s !! as_u64 id) as [h|] eqn:Eh; cbn [fst].
  - unfold send_close_writer, send_writer. destruct (h_writer h); cbn; rewrite delete_insert_eq; [|done].
    split_and!; [done|done|]. intros p. unfold file. cbn.
    destruct (decide (p = h_path h)) as [->|Hne]; [by rewrite lookup_insert_eq|by rewrite lookup_insert_ne].
  - by rewrite delete_id.
Qed.

Lemma db_step_wf s c : registry_wf s -> (reg_next_id s + 1 < 2 ^ 64)%N ->
  registry_wf (db_step s c) /\ (reg_next_id (db_step s c) <= reg_next_id s + 1)%N.
Proof using Type.
  intros Hwf Hn. destruct c as [init path|id|id k v|id k|id sql ps]; cbn [db_step].
  - unfold api_open. destruct (reg_open_wf path init s Hwf Hn) as [Hw Hid].
    destruct (reg_open path init s) as [s' r]. cbn in *. split; [done|lia].
  - destruct (api_close_registry id s) as (Hid & Hh & _). split; [|lia]. destruct Hwf as [Hp Hwf].
    split; [lia|]. rewrite Hid, Hh. intros id' h [_ Hin]%lookup_delete_Some. by apply Hwf.
  - unfold doc_set. destruct (get_handle s id) as [h|]; [|split; [done|cbn; lia]].
    destruct (json_encode v) as [text|]; [|split; [done|cbn; lia]]. cbn [fst].
    destruct (send_exec_writer_wf h UPSERT [PText k; PText text] s Hwf) as [? ->]. split; [done|lia].
  - unfold doc_delete. destruct (get_handle s id) as [h|]; [|split; [done|cbn; lia]]. cbn [fst].
    destruct (send_exec_writer_wf h DELETE [PText k] s Hwf) as [? ->]. split; [done|lia].
  - unfold sql_exec. destruct (get_handle s id) as [h|]; [|split; [done|cbn; lia]].
    destruct (send_exec_writer_wf h sql (lua_value_to_params ps) s Hwf) as [H1 H2].
    destruct (send_exec_writer h sql (lua_value_to_params ps) s) as [s' r]. cbn in *. split; [done|lia].
Qed.

Lemma db_run_wf calls s : registry_wf s -> (reg_next_id s + N.of_nat (length calls) < 2 ^ 64)%N ->
  registry_wf (fold_left db_step calls s).
Proof using Type.
  revert s. induction calls as [|c calls IH]; intros s Hwf Hn; [done|]. cbn [length fold_left] in *.
  destruct (db_step_wf s c Hwf) as [Hwf' Hle]; [lia|]. apply IH; [done|lia].
Qed.

Lemma one_cell name c : make_row [name] [c] !! name = Some (read_cell c).
Proof. unfold make_row. cbn [zip zip_with fold_left fst snd]. by rewrite lookup_insert_eq. Qed.

Lemma doc_step_refines contents id path s m op s' a :
  docs_table contents -> get_handle s id = Ok (mkHandle path true) -> represents contents s path m -> op_ok op ->
  doc_step id op s = (s', a) ->
  exists m', spec_step op m = (m', a) /\ represents contents s' path m' /\ get_handle s' id = Ok (mkHandle path true).
Proof.
  intros Hdt Hh [Hc Hs] Hop E. destruct op as [k v|k|k|]; cbn [doc_step spec_step] in *.
  - unfold doc_set in E. rewrite Hh in E. unfold json_encode in E.
    destruct (lua_to_json v) as [j|e] eqn:Ej; cbn [result_map fst] in E; injection E as <- <-.
    + eexists. split; [done|]. unfold send_exec_writer, send_writer. cbn [h_writer h_path run_writer_conn]. unfold exec_sql.
      destruct (dt_upsert _ Hdt _ _ k (json_text j) Hc) as (db' & n & E & Hc'). rewrite E. cbn [fst].
      split; [|done]. split; [by rewrite file_set_file, Hc', fmap_insert|].
      apply map_Forall_insert_2; [by apply Hop|done].
    + by exists m.
  - injection E as <- <-. exists m. split; [|by split]. unfold doc_get. rewrite Hh.
    unfold send_row_reader, send_query_reader, query_sql. cbn [h_path]. rewrite (dt_get _ Hdt _ _ k Hc), lookup_fmap.
    destruct (m !! k) as [j|] eqn:Ek; [|done]. destruct (Hs k j Ek) as [Hp Hu].
    cbn [fmap option_fmap option_map result_map map fst snd head mbind option_bind].
    unfold text_field. rewrite one_cell. cbn [read_cell]. rewrite Hu. unfold json_decode. by rewrite Hp.
  - unfold doc_delete in E. rewrite Hh in E. injection E as <- <-. eexists. split; [done|].
    unfold send_exec_writer, send_writer. cbn [h_writer h_path run_writer_conn]. unfold exec_sql.
    destruct (dt_delete _ Hdt _ _ k Hc) as (db' & n & E & Hc'). rewrite E. cbn [fst].
    split; [|done]. split; [by rewrite file_set_file, Hc', fmap_delete|].
    by apply map_Forall_delete.
  - injection E as <- <-. exists m. split; [|by split]. unfold doc_count. rewrite Hh.
    unfold send_row_reader, send_query_reader, query_sql. cbn [h_path]. rewrite (dt_count _ Hdt _ _ Hc).
    cbn [result_map map fst snd head mbind option_bind]. rewrite one_cell. cbn [read_cell].
    by rewrite map_size_fmap.
Qed.

(** C17: Whatever sequence of calls opens, closes and writes databases, from the
    registry of a new Lua state on, every handle in the registry is a number
    between 1 and the next handle with a running writer: a write on it is run on
    the file of the handle, and never fails for want of a writer. *)
Theorem registry_stays_wf files calls :
  (N.of_nat (length calls) < 2 ^ 64 - 1)%N ->
  let s := fold_left db_step calls (new_registry files) in
  registry_wf s /\
  forall id h sql params, get_handle s id = Ok h -> as_u64 id <> 0%N /\
    send_exec_writer h sql params s =
    (set_file (h_path h) (fst (exec_sql (file (h_path h) s) sql params)) s,
     snd (exec_sql (file (h_path h) s) sql params)).
Proof using Type.
  intros Hn s. assert (Hwf : registry_wf s).
  { apply db_run_wf; [|cbn; lia]. split; [done|]. intros id h Hin. cbn in Hin. by rewrite lookup_empty in Hin. }
  split; [exact Hwf|]. intros id h sql ps Hh. unfold get_handle in Hh.
  destruct (reg_handles s !! as_u64 id) as [h'|] eqn:E; [|done]. injection Hh as ->.
  destruct Hwf as [_ Hwf]. destruct (Hwf _ _ E) as [Hid Hw]. split; [lia|].
  unfold send_exec_writer, send_writer. rewrite Hw. cbn [run_writer_conn].
  by destruct (exec_sql (file (h_path h) s) sql ps).
Qed.

(** C15: On an open handle the document store is a map from keys to JSON values:
    any sequence of [doc.set], [doc.get], [doc.delete] and [doc.count] answers as
    the map does, a value being read back as what Lua makes of its JSON; a value
    that JSON cannot hold is dropped without an error. *)
Theorem doc_store_refines_map contents id path ops s m :
  docs_table contents -> get_handle s id = Ok (mkHandle path true) -> represents contents s path m ->
  Forall op_ok ops ->
  snd (run_ops (doc_step id) ops s) = snd (run_ops spec_step ops m) /\
  represents contents (fst (run_ops (doc_step id) ops s)) path (fst (run_ops spec_step ops m)).
Proof.
  intros Hdt Hh Hr Hops. revert s m Hh Hr. induction Hops as [|op ops Hop _ IH]; intros s m Hh Hr; [by split|].
  cbn [run_ops]. destruct (doc_step id op s) as [s1 a] eqn:E.
  destruct (doc_step_refines _ _ _ _ _ _ _ _ Hdt Hh Hr Hop E) as (m1 & E1 & Hr1 & Hh1).
  rewrite E1. destruct (IH s1 m1 Hh1 Hr1) as [Ha Hr2].
  destruct (run_ops (doc_step id) ops s1) as [s2 as2], (run_ops spec_step ops m1) as [m2 as2'].
  cbn in *. by rewrite Ha.
Qed.

(** Opening a document store gives a handle that no open database has, on
    which the file's map (the empty one when the file has no table) can be used;
    the other handles stay as they are. *)
Theorem doc_open_fresh contents path s :
  docs_table contents -> registry_wf s -> (reg_next_id s + 1 < 2 ^ 64)%N ->
  open_error path = None -> open_reader_error path = None ->
  forall m, (contents (file path s) = None /\ m = ∅ \/ represents contents s path m) ->
  exists s' id, doc_open path s = (s', Ok id) /\ reg_handles s !! as_u64 id = None /\
    get_handle s' id = Ok (mkHandle path true) /\ represents contents s' path m /\ registry_wf s' /\
    forall id' h, get_handle s id' = Ok h -> get_handle s' id' = Ok h.
Proof.
  intros Hdt Hwf Hnext Ho Hor m Hm. unfold doc_open, api_open, reg_open. rewrite Ho.
  set (s1 := mkStore (st_files s) (reg_handles s) (u64_wrap (reg_next_id s + 1))).
  destruct (dt_create _ Hdt (fst (execute_batch (file path s1) pragma))) as (db' & E & Hc).
  rewrite E, Hor. rewrite (dt_pragma _ Hdt) in Hc. change (file path s1) with (file path s) in Hc.
  assert (Hfree : reg_handles s !! reg_next_id s = None) by (by apply registry_wf_next_free).
  assert (Hid : as_u64 (as_i64 (reg_next_id s)) = reg_next_id s) by (apply as_u64_i64; lia).
  eexists _, _. cbn [result_map]. split; [done|]. rewrite Hid. split; [done|]. unfold get_handle.
  cbn [reg_handles]. rewrite Hid, lookup_insert_eq. split_and!; [done| | |].
  - assert (Hcm : contents db' = Some (json_text <$> m)).
    { destruct Hm as [[Hn ->]|[Hrc _]]; [by rewrite Hc, Hn, fmap_empty|by rewrite Hc, Hrc]. }
    split; [by unfold file; cbn; rewrite lookup_insert_eq|].
    destruct Hm as [[_ ->]|[_ Hs]]; [apply map_Forall_empty|exact Hs].
  - by apply (registry_wf_insert _ s).
  - intros id' p H. destruct (decide (as_u64 id' = reg_next_id s)) as [He|Hne].
    + rewrite He, Hfree in H. done.
    + cbn. by rewrite lookup_insert_ne.
Qed.

(** C37: After [close], the handle is dead and the others live: [doc.set],
    [doc.delete] and [close] on it succeed without any effect, every other
    function fails with an invalid handle, and the files are untouched. *)
Theorem closed_handle_is_dead id s :
  let s' := fst (api_close id s) in
  snd (api_close id s) = Ok tt /\ (forall p, file p s' = file p s) /\
  (forall id', as_u64 id' <> as_u64 id -> get_handle s' id' = get_handle s id') /\
  (forall k v, doc_set id k v s' = (s', Ok tt)) /\ (forall k, doc_delete id k s' = (s', Ok tt)) /\
  api_close id s' = (s', Ok tt) /\
  (forall k, doc_get id k s' = Err invalid_handle) /\ (forall p v, doc_find id p v s' = Err invalid_handle) /\
  doc_all id s' = Err invalid_handle /\ doc_count id s' = Err invalid_handle /\
  (forall sql ps, sql_exec id sql ps s' = (s', Err invalid_handle) /\
     sql_query id sql ps s' = Err invalid_handle /\ sql_row id sql ps s' = Err invalid_handle).
Proof.
  destruct (api_close id s) as [s' r] eqn:E. cbn [fst snd]. assert (H : r = Ok tt /\ (forall p, file p s' = file p s) /\
    (forall id', as_u64 id' <> as_u64 id -> get_handle s' id' = get_handle s id') /\
    get_handle s' id = Err invalid_handle).
  { pose proof (api_close_registry id s) as (_ & Hh & Hf). rewrite E in Hh, Hf. cbn in Hh, Hf. split_and!.
    - unfold api_close in E. by destruct (get_handle s id); injection E as <- <-.
    - exact Hf.
    - intros id' Hne. unfold get_handle. rewrite Hh. by rewrite lookup_delete_ne.
    - unfold get_handle. by rewrite Hh, lookup_delete_eq. }
  destruct H as (H1 & H2 & H3 & H4).
  unfold doc_set, doc_delete, api_close, doc_get, doc_find, doc_all, doc_count, sql_exec, sql_query, sql_row.
  rewrite H4. by split_and!.
Qed.
End store.

(** * The theorems at a concrete database *)
Module StoreExample.
Abbreviation value := (value (Flt := unit)).
Abbreviation json := (json (Flt := unit)).
(** A database is its [docs] table; statements are recognised by their text. *)
Definition DB : Type := option (gmap bytes bytes).
Definition contents (db : DB) : DB := db.
Definition no_error (path : bytes) : option bytes := None.
Definition execute_batch (db : DB) (sql : bytes) : DB * result unit bytes :=
  if bool_decide (sql = CREATE_DOCS) then (Some (default ∅ db), Ok tt) else (db, Ok tt).
Definition execute (db : DB) (sql : bytes) (ps : list (Param (Flt := unit))) : DB * result N bytes :=
  match db, ps with
  | Some m, [PText k; PText v] =>
      if bool_decide (sql = UPSERT) then (Some (<[k := v]> m), Ok 1%N) else (db, Err (str "no such statement"))
  | Some m, [PText k] =>
      if bool_decide (sql = DELETE) then (Some (delete k m), Ok 1%N) else (db, Err (str "no such statement"))
  | _, _ => (db, Err (str "no such table"))
  end.
Definition select (db : DB) (sql : bytes) (ps : list (Param (Flt := unit))) :
    result (list bytes * list (list (raw_cell (Flt := unit)))) bytes :=
  match db, ps with
  | Some m, [PText k] =>
      if bool_decide (sql = GET)
      then Ok ([str "value"], match m !! k with Some v => [[RawText v]] | None => [] end)
      else Err (str "no such statement")
  | Some m, [] =>
      if bool_decide (sql = COUNT) then Ok ([str "cnt"], [[RawInteger (Z.of_nat (size m))]])
      else Err (str "no such statement")
  | _, _ => Err (str "no such table")
  end.

Definition to_json (v : value) : result json bytes :=
  lua_to_json SerializeExample.finite SerializeExample.no_text v.
Definition to_lua (j : json) : value :=
  json_to_lua SerializeExample.zero SerializeExample.push_int SerializeExample.push_num
    SerializeExample.border j.
(** Only strings are printed in full. *)
Definition print (j : json) : bytes := match j with JString s => s | _ => [] end.
Definition parse (s : bytes) : result json bytes := Ok (JString s).

Lemma docs_ok : docs_table execute_batch execute select contents.
Proof.
  split.
  - intros db. unfold execute_batch. by rewrite bool_decide_eq_false_2 by (vm_compute; discriminate).
  - intros db. eexists. split; [|done]. unfold execute_batch. by rewrite bool_decide_eq_true_2.
  - intros db m k v Hc. unfold contents in Hc. subst db. eexists _, _. split; [|done].
    unfold execute. by rewrite bool_decide_eq_true_2.
  - intros db m k Hc. unfold contents in Hc. subst db. eexists _, _. split; [|done].
    unfold execute. by rewrite bool_decide_eq_true_2.
  - intros db m k Hc. unfold contents in Hc. subst db. unfold select. by rewrite bool_decide_eq_true_2.
  - intros db m Hc. unfold contents in Hc. subst db. unfold select. by rewrite bool_decide_eq_true_2.
Qed.

(** One open document store, on an empty table. *)
Definition store : Store (DB := DB) :=
  mkStore {[ str "a.db" := Some ∅ ]} {[ 1%N := mkHandle (str "a.db") true ]} 2.
Definition ops : list (doc_op (Flt := unit)) :=
  [DSet (str "k") (VStr (str "v")); DSet (str "l") VOther; DGet (str "k"); DGet (str "l"); DCount].

Lemma store_represents : represents None print parse contents store (str "a.db") ∅.
Proof. split; [vm_compute; reflexivity|]. apply map_Forall_empty. Qed.

Lemma ops_ok : Forall (op_ok to_json print parse) ops.
Proof.
  constructor; [intros j Hj; vm_compute in Hj; injection Hj as <-; split; vm_compute; reflexivity|].
  constructor; [intros j Hj; vm_compute in Hj; discriminate|].
  repeat (constructor; [exact I|]). constructor.
Qed.
End StoreExample.

Lemma doc_store_refines_map_witness :
  Forall (op_ok StoreExample.to_json StoreExample.print StoreExample.parse) StoreExample.ops /\
  snd (run_ops (doc_step None StoreExample.execute StoreExample.select StoreExample.to_json
         StoreExample.to_lua StoreExample.print StoreExample.parse 1) StoreExample.ops StoreExample.store) =
  [AUnit; AUnit; AValue (Ok (VStr (str "v"))); AValue (Ok VNil); ACount (Ok 1%Z)].
Proof.
  split; [apply StoreExample.ops_ok|].
  exact (proj1 (doc_store_refines_map None StoreExample.execute_batch StoreExample.execute
    StoreExample.select StoreExample.to_json StoreExample.to_lua StoreExample.print StoreExample.parse
    StoreExample.contents 1 (str "a.db") StoreExample.ops StoreExample.store ∅ StoreExample.docs_ok
    eq_refl StoreExample.store_represents StoreExample.ops_ok)).
Defined.

Lemma doc_open_fresh_witness :
  exists s' id, doc_open None StoreExample.no_error StoreExample.no_error StoreExample.execute_batch
    (str "b.db") StoreExample.store = (s', Ok id) /\ get_handle s' id = Ok (mkHandle (str "b.db") true) /\
  get_handle s' 1 = Ok (mkHandle (str "a.db") true).
Proof.
  destruct (doc_open_fresh None StoreExample.no_error StoreExample.no_error StoreExample.execute_batch
    StoreExample.execute StoreExample.select StoreExample.print StoreExample.parse StoreExample.contents
    (str "b.db") StoreExample.store StoreExample.docs_ok) with (m := (∅ : gmap bytes StoreExample.json))
    as (s' & id & H1 & _ & H2 & _ & _ & H3); [|reflexivity|reflexivity|reflexivity|left; split; reflexivity|].
  - split; [reflexivity|]. intros id h. unfold StoreExample.store. cbn. intros [<- <-]%lookup_singleton_Some.
    split; [split; reflexivity|reflexivity].
  - exists s', id. split; [exact H1|]. split; [exact H2|]. exact (H3 1%Z _ eq_refl).
Defined.

Lemma registry_stays_wf_witness :
  let calls := [Open (Some CREATE_DOCS) (str "b.db"); DocSet 1 (str "k") (VStr (str "v")); CloseHandle 1;
    Open None (str "b.db")] in
  let s := fold_left (db_step None StoreExample.no_error StoreExample.no_error StoreExample.execute_batch
    StoreExample.execute StoreExample.to_json StoreExample.print) calls (new_registry ∅) in
  get_handle s 2 = Ok (mkHandle (str "b.db") true) /\ file None (str "b.db") s = Some {[str "k" := str "v"]} /\
  registry_wf s.
Proof.
  intros calls s. split; [vm_compute; reflexivity|]. split; [vm_compute; reflexivity|].
  apply (registry_stays_wf None StoreExample.no_error StoreExample.no_error StoreExample.execute_batch
    StoreExample.execute StoreExample.to_json StoreExample.print ∅ calls). reflexivity.
Defined.
