(* ===== verification/Fs.v ===== *)
(** The [fs.*] functions of the Lua handlers ([src/src/fs.rs]): access to the
    machine's file system, and the text of a Unix mode.

    The operating system is an interface, [Os]: a world [W] and the system calls
    the functions make ([std::fs], [libc]); [OsLaws] is what its documentation
    promises of them.  A function takes the arguments [mlua] converted to Rust
    strings and integers and returns the new world and a Lua value.  Failures
    are [nil], never an error. *)
From S2P Require Import Prelude RustStr Serialize.

(** * The operating system *)
Inductive file_kind := KFile | KDir | KSymlink | KOther.
#[export] Instance file_kind_eq_dec : EqDecision file_kind.
Proof. solve_decision. Defined.

(** [std::fs::Metadata]; the time is that of the last change in seconds, [None]
    when there is none or it lies before 1970. *)
Record Metadata := mkMetadata {
  md_len : N;
  md_kind : file_kind;
  md_mode : N;
  md_uid : N;
  md_gid : N;
  md_modified : option N;
}.

Class Os (W : Type) := {
  os_read : W -> bytes -> option bytes;
  (** The entries, each a name and the data of [lstat] or a failure of it; the
      entries that could not be read at all are [None]. *)
  os_read_dir : W -> bytes -> option (list (option (bytes * option Metadata)));
  os_metadata : W -> bytes -> option Metadata;
  os_write : bytes -> bytes -> W -> W * bool;
  os_remove_file : bytes -> W -> W * bool;
  os_remove_dir : bytes -> W -> W * bool;
  os_remove_dir_all : bytes -> W -> W * bool;
  os_rename : bytes -> bytes -> W -> W * bool;
  os_copy : bytes -> bytes -> W -> W * bool;
  os_create_dir : bytes -> W -> W * bool;
  os_create_dir_all : bytes -> W -> W * bool;
  os_set_permissions : bytes -> N -> W -> W * bool;
  os_chown : bytes -> N -> N -> W -> W * bool;
  os_utimensat : bytes -> Z -> Z -> W -> W * bool;
}.

Section fs.
Context {Flt W : Type} `{Os W}.
Abbreviation value := (value (Flt := Flt)).
Variable push_int : Z -> value.
Variable border : list (value * value) -> nat.

Definition fs_table (fields : list (bytes * value)) : value :=
  Serialize.table border (set_fields fields []).
Definition fs_array (vs : list value) : value := Serialize.table border (set_elements 1 vs []).

(** [Ok(Some(true))] or [Ok(None)]. *)
Definition done_or_nil (r : W * bool) : W * value :=
  (fst r, if snd r then VBool true else VNil).

(** * Reading *)

(** [fs::read_to_string] *)
Definition read_to_string (w : W) (path : bytes) : option bytes :=
  match os_read w path with
  | Some s => if valid_utf8 s then Some s else None
  | None => None
  end.

Definition fs_read (path : bytes) (w : W) : value :=
  match read_to_string w path with Some s => VStr s | None => VNil end.

Definition is_kind (k : file_kind) (m : Metadata) : bool := bool_decide (md_kind m = k).

(** [rd.filter_map(|e| e.ok())] *)
Definition dir_entries (w : W) (path : bytes) : option (list (bytes * option Metadata)) :=
  match os_read_dir w path with
  | Some entries => Some (omap (fun e => e) entries)
  | None => None
  end.

Definition readdir_entry (entry : bytes * option Metadata) : value :=
  fs_table ((str "name", VStr (from_utf8_lossy (fst entry))) ::
    match snd entry with
    | Some m => [(str "is_dir", VBool (is_kind KDir m)); (str "is_file", VBool (is_kind KFile m));
                 (str "size", push_int (as_i64 (md_len m)))]
    | None => []
    end).

Definition fs_readdir (path : bytes) (w : W) : value :=
  match dir_entries w path with
  | Some entries => fs_array (map readdir_entry entries)
  | None => VNil
  end.

Definition stat_fields (m : Metadata) : list (bytes * value) := [
  (str "size", push_int (as_i64 (md_len m)));
  (str "is_dir", VBool (is_kind KDir m));
  (str "is_file", VBool (is_kind KFile m));
  (str "is_symlink", VBool (is_kind KSymlink m));
  (str "mode", push_int (Z.of_N (md_mode m)));
  (str "uid", push_int (Z.of_N (md_uid m)));
  (str "gid", push_int (Z.of_N (md_gid m)));
  (str "mtime", push_int (as_i64 (default 0%N (md_modified m))))
].

Definition fs_stat (path : bytes) (w : W) : value :=
  match os_metadata w path with Some m => fs_table (stat_fields m) | None => VNil end.

(** [Path::exists], [Path::is_dir] and [Path::is_file] *)
Definition fs_exists (path : bytes) (w : W) : value := VBool (bool_decide (is_Some (os_metadata w path))).
Definition fs_is_dir (path : bytes) (w : W) : value :=
  VBool (match os_metadata w path with Some m => is_kind KDir m | None => false end).
Definition fs_is_file (path : bytes) (w : W) : value :=
  VBool (match os_metadata w path with Some m => is_kind KFile m | None => false end).

Definition fs_ls (path : bytes) (w : W) : value :=
  match dir_entries w path with
  | Some entries => fs_array (map (fun e => VStr (from_utf8_lossy (fst e))) entries)
  | None => VNil
  end.

(** * Writing *)
Definition fs_write (path content : bytes) (w : W) : W * value := done_or_nil (os_write path content w).

(** As a file first, then as an empty directory. *)
Definition fs_remove (path : bytes) (w : W) : W * value :=
  let '(w1, ok) := os_remove_file path w in
  if ok then (w1, VBool true) else done_or_nil (os_remove_dir path w1).

Definition fs_remove_all (path : bytes) (w : W) : W * value := done_or_nil (os_remove_dir_all path w).
Definition fs_rename (old new : bytes) (w : W) : W * value := done_or_nil (os_rename old new w).
Definition fs_copy (src dst : bytes) (w : W) : W * value := done_or_nil (os_copy src dst w).
Definition fs_mkdir (path : bytes) (w : W) : W * value := done_or_nil (os_create_dir path w).
Definition fs_mkdir_all (path : bytes) (w : W) : W * value := done_or_nil (os_create_dir_all path w).

(** * Attributes *)
Definition fs_chmod (path : bytes) (mode : N) (w : W) : W * value :=
  done_or_nil (os_set_permissions path mode w).

(** [CString::new] fails on a byte 0. *)
Definition has_nul (s : bytes) : bool := contains_char (chr 0) s.

Definition fs_chown (path : bytes) (uid gid : N) (w : W) : W * value :=
  if has_nul path then (w, VNil) else done_or_nil (os_chown path uid gid w).
Definition fs_utimens (path : bytes) (atime mtime : Z) (w : W) : W * value :=
  if has_nul path then (w, VNil) else done_or_nil (os_utimensat path atime mtime w).
End fs.

(** * Modes *)
Definition mode_char (mode mask : N) (c : byte) : byte :=
  if N.eqb (N.land mode mask) 0 then "-"%char else c.

Definition mode_string (mode : N) : bytes := [
  mode_char mode 256 "r"; mode_char mode 128 "w"; mode_char mode 64 "x";
  mode_char mode 32 "r"; mode_char mode 16 "w"; mode_char mode 8 "x";
  mode_char mode 4 "r"; mode_char mode 2 "w"; mode_char mode 1 "x"
]%char.

(** * Specification *)

(** What the documentation of the system calls promises. *)
Class OsLaws (W : Type) `{Os W} : Prop := {
  (** [metadata] follows symbolic links. *)
  metadata_follows w p m : os_metadata w p = Some m -> md_kind m <> KSymlink;
  (** What is written to a regular file is read from it. *)
  write_read w w' p s m :
    os_write p s w = (w', true) -> os_metadata w' p = Some m -> md_kind m = KFile ->
    os_read w' p = Some s;
  (** A removal removes the name, or changes nothing. *)
  remove_file_gone w w' p : os_remove_file p w = (w', true) -> os_metadata w' p = None;
  remove_file_fails w w' p : os_remove_file p w = (w', false) -> w' = w;
  remove_dir_gone w w' p : os_remove_dir p w = (w', true) -> os_metadata w' p = None;
  remove_dir_fails w w' p : os_remove_dir p w = (w', false) -> w' = w;
}.

Section theorems.
Context {Flt W : Type} `{OsLaws W}.
Abbreviation value := (value (Flt := Flt)).
Variable push_int : Z -> value.
Variable border : list (value * value) -> nat.
(** Lua makes a number of an integer. *)
Hypothesis push_int_num : forall z, push_int z <> VNil.

Lemma stat_names_distinct m : NoDup (fst <$> stat_fields push_int m).
Proof.
  change (NoDup (map str ["size"; "is_dir"; "is_file"; "is_symlink"; "mode"; "uid"; "gid"; "mtime"]%string)).
  solve_names.
Qed.

(** C35: [fs.stat] gives [nil] exactly for a path that has no metadata; else a
    table with the metadata of what the path leads to, so that [is_symlink] is
    false for every path. *)
Theorem fs_stat_spec path (w : W) :
  match os_metadata w path with
  | None => fs_stat push_int border path w = VNil
  | Some m =>
      let get k := field (str k) (fs_stat push_int border path w) in
      get "size"%string = Some (push_int (as_i64 (md_len m))) /\
      get "is_dir"%string = Some (VBool (is_kind KDir m)) /\
      get "is_file"%string = Some (VBool (is_kind KFile m)) /\
      get "is_symlink"%string = Some (VBool false) /\
      get "mode"%string = Some (push_int (Z.of_N (md_mode m))) /\
      get "uid"%string = Some (push_int (Z.of_N (md_uid m))) /\
      get "gid"%string = Some (push_int (Z.of_N (md_gid m))) /\
      get "mtime"%string = Some (push_int (as_i64 (default 0%N (md_modified m))))
  end.
Proof using H0 push_int_num.
  unfold fs_stat. destruct (os_metadata w path) as [m|] eqn:E; [|done]. cbn beta zeta.
  assert (Hl : is_kind KSymlink m = false).
  { apply bool_decide_eq_false_2. by eapply metadata_follows. }
  assert (Hf : forall k v, (k, v) ∈ stat_fields push_int m -> v <> VNil ->
    field k (fs_table border (stat_fields push_int m)) = Some v).
  { intros k v Hin Hv. unfold fs_table. rewrite (field_table _ _ _ v) by (done || apply stat_names_distinct). by destruct v. }
  split_and!; (apply Hf; [unfold stat_fields; rewrite ?Hl; solve_in|try done; apply push_int_num]).
Qed.

(** [fs.remove] returns [true] when the path is gone, and otherwise [nil] with
    the file system unchanged; a directory is tried only when the path is not a
    removable file. *)
Theorem fs_remove_spec path (w w' : W) (v : value) :
  fs_remove path w = (w', v) ->
  v = VBool true /\ os_metadata w' path = None \/ v = VNil /\ w' = w.
Proof using H0.
  unfold fs_remove, done_or_nil. destruct (os_remove_file path w) as [w1 [|]] eqn:E1.
  - intros [= <- <-]. left. split; [done|]. by eapply remove_file_gone.
  - apply remove_file_fails in E1 as ->.
    destruct (os_remove_dir path w) as [w2 [|]] eqn:E2; cbn; intros [= <- <-].
    + left. split; [done|]. by eapply remove_dir_gone.
    + right. split; [done|]. by eapply remove_dir_fails.
Qed.

(** A text written to a regular file is read back, and a written file that is
    not UTF-8 reads as [nil]. *)
Theorem fs_write_read path s (w w' : W) m :
  fs_write path s w = (w', VBool true : value) -> os_metadata w' path = Some m -> md_kind m = KFile ->
  fs_read path w' = if valid_utf8 s then VStr s else VNil : value.
Proof using H0.
  unfold fs_write, done_or_nil. destruct (os_write path s w) as [w1 [|]] eqn:E; cbn; [|done].
  intros [= <-] Hm Hk. unfold fs_read, read_to_string. rewrite (write_read _ _ _ _ _ E Hm Hk).
  by destruct (valid_utf8 s).
Qed.
End theorems.

(** * Modes *)
Lemma land_pow2 m k : N.eqb (N.land m (2 ^ k)) 0 = negb (N.testbit m k).
Proof.
  destruct (N.testbit m k) eqn:E.
  - apply N.eqb_neq. intros H. apply (f_equal (fun n => N.testbit n k)) in H.
    rewrite N.land_spec, N.pow2_bits_true, E in H. by rewrite N.bits_0 in H.
  - apply N.eqb_eq. apply N.bits_inj_0. intros i. rewrite N.land_spec.
    destruct (N.eq_dec i k) as [->|]; [by rewrite E|]. rewrite N.pow2_bits_false by done. apply andb_false_r.
Qed.

Lemma mode_char_bit m k c : mode_char m (2 ^ k) c = if N.testbit m k then c else "-"%char.
Proof. unfold mode_char. rewrite land_pow2. by destruct (N.testbit m k). Qed.

Lemma mode_string_bits m :
  let bit k (c : byte) := if N.testbit m k then c else "-"%char in
  mode_string m = [bit 8 "r"; bit 7 "w"; bit 6 "x"; bit 5 "r"; bit 4 "w"; bit 3 "x";
                   bit 2 "r"; bit 1 "w"; bit 0 "x"]%N%char.
Proof.
  cbn beta zeta. rewrite <-!mode_char_bit. reflexivity.
Qed.

Lemma land_ones_eq m m' w :
  N.land m (N.ones w) = N.land m' (N.ones w) <-> forall k, (k < w)%N -> N.testbit m k = N.testbit m' k.
Proof.
  split.
  - intros H k Hk. apply (f_equal (fun n => N.testbit n k)) in H.
    rewrite !N.land_spec, N.ones_spec_low, !andb_true_r in H by done. exact H.
  - intros H. apply N.bits_inj. intros k. rewrite !N.land_spec. destruct (N.lt_ge_cases k w) as [Hk|Hk].
    + by rewrite (H k Hk).
    + by rewrite N.ones_spec_high, !andb_false_r.
Qed.

(** [fs.mode_string] writes one character for each of the nine permission bits
    and nothing else: two modes have the same text exactly when their permission
    bits are the same. *)
Theorem mode_string_permissions m m' :
  length (mode_string m) = 9 /\
  (mode_string m = mode_string m' <-> N.land m 511 = N.land m' 511).
Proof.
  split; [done|]. change 511%N with (N.ones 9). rewrite land_ones_eq, !mode_string_bits. cbn beta zeta. split.
  - intros E. assert (Hc : forall k (c : byte), c <> "-"%char ->
      (if N.testbit m k then c else "-"%char) = (if N.testbit m' k then c else "-"%char) ->
      N.testbit m k = N.testbit m' k).
    { intros k c Hc. by destruct (N.testbit m k), (N.testbit m' k); intros H; try (by destruct Hc). }
    injection E as E8 E7 E6 E5 E4 E3 E2 E1 E0. intros k Hk.
    assert (Hcases : (k = 0 \/ k = 1 \/ k = 2 \/ k = 3 \/ k = 4 \/ k = 5 \/ k = 6 \/ k = 7 \/ k = 8)%N) by lia.
    destruct Hcases as [ -> | [ -> | [ -> | [ -> | [ -> | [ -> | [ -> | [ -> | -> ]]]]]]]]; (eapply Hc; [|eassumption]; done).
  - intros Hb. by rewrite !Hb by lia.
Qed.

(** * The theorems on a concrete disk *)
Module FsExample.
(** Files, directories and links by their paths. *)
Inductive node := File (s : bytes) | Dir | Link (target : bytes).
Abbreviation disk := (gmap bytes node).

(** The node a path leads to, and its path. *)
Definition resolve (w : disk) (p : bytes) : option (bytes * node) :=
  match w !! p with
  | Some (Link t) => match w !! t with Some (Link _) | None => None | Some n => Some (t, n) end
  | Some n => Some (p, n)
  | None => None
  end.
Definition metadata (w : disk) (p : bytes) : option Metadata :=
  match resolve w p with
  | Some (_, File s) => Some (mkMetadata (lenN s) KFile 420 0 0 (Some 7%N))
  | Some (_, _) => Some (mkMetadata 0 KDir 493 0 0 None)
  | None => None
  end.
Definition write (p s : bytes) (w : disk) : disk * bool :=
  match w !! p with
  | Some Dir => (w, false)
  | Some (Link t) =>
      match w !! t with
      | Some (File _) => (<[t := File s]> w, true)
      | _ => (w, false)
      end
  | _ => (<[p := File s]> w, true)
  end.
Definition remove_file (p : bytes) (w : disk) : disk * bool :=
  match w !! p with Some (File _) | Some (Link _) => (delete p w, true) | _ => (w, false) end.
Definition remove_dir (p : bytes) (w : disk) : disk * bool :=
  match w !! p with
  | Some Dir =>
      if existsb (starts_with (p ++ str "/")) (map fst (map_to_list w)) then (w, false) else (delete p w, true)
  | _ => (w, false)
  end.
Definition refused {A} (a : A) (w : disk) : disk * bool := (w, false).

#[global] Instance disk_os : Os disk := {
  os_read w p := match resolve w p with Some (_, File s) => Some s | _ => None end;
  os_read_dir w p := match resolve w p with Some (_, Dir) => Some [] | _ => None end;
  os_metadata := metadata;
  os_write := write;
  os_remove_file := remove_file;
  os_remove_dir := remove_dir;
  os_remove_dir_all p w := (w, false);
  os_rename p q w := (w, false);
  os_copy p q w := (w, false);
  os_create_dir p w := (w, false);
  os_create_dir_all p w := (w, false);
  os_set_permissions p m w := (w, false);
  os_chown p u g w := (w, false);
  os_utimensat p a m w := (w, false);
}.

Lemma resolve_gone w p : resolve (delete p w) p = None.
Proof. unfold resolve. by rewrite lookup_delete_eq. Qed.

#[global] Instance disk_laws : OsLaws disk.
Proof.
  split; cbn.
  - intros w p m. unfold metadata. destruct (resolve w p) as [[q [s| |t]]|]; intros [= <-]; done.
  - intros w w' p s m. unfold write. destruct (w !! p) as [[s0| |t]|] eqn:E.
    + intros [= <-] _ _. unfold resolve. by rewrite lookup_insert_eq.
    + done.
    + destruct (w !! t) as [[s1| |t']|] eqn:Et; intros [= <-] _ _. unfold resolve.
      destruct (decide (p = t)) as [->|]; [by rewrite lookup_insert_eq|].
      by rewrite lookup_insert_ne, E, lookup_insert_eq by done.
    + intros [= <-] _ _. unfold resolve. by rewrite lookup_insert_eq.
  - intros w w' p. unfold remove_file, metadata. destruct (w !! p) as [[s| |t]|]; intros [= <-];
      by rewrite resolve_gone.
  - intros w w' p. unfold remove_file. by destruct (w !! p) as [[s| |t]|]; intros [= <-].
  - intros w w' p. unfold remove_dir, metadata. destruct (w !! p) as [[s| |t]|]; try done.
    destruct (existsb _ _); intros [= <-]. by rewrite resolve_gone.
  - intros w w' p. unfold remove_dir. destruct (w !! p) as [[s| |t]|]; try (by intros [= <-]).
    destruct (existsb _ _); by intros [= <-].
Qed.

Definition root : disk :=
  {[ str "/d" := Dir; str "/d/f" := File (str "x"); str "/l" := Link (str "/d/f") ]}.
Definition push_int (z : Z) : value (Flt := unit) := VInt z.
Definition border (entries : list (value (Flt := unit) * value (Flt := unit))) : nat := 0.
End FsExample.

Lemma fs_stat_spec_witness :
  field (str "is_symlink") (fs_stat FsExample.push_int FsExample.border (str "/l") FsExample.root) =
    Some (VBool false) /\
  fs_stat FsExample.push_int FsExample.border (str "/x") FsExample.root = VNil.
Proof.
  assert (Hp : forall z, FsExample.push_int z <> VNil) by (intros z; discriminate).
  split.
  - exact (proj1 (proj2 (proj2 (proj2 (fs_stat_spec FsExample.push_int FsExample.border Hp (str "/l") FsExample.root))))).
  - exact (fs_stat_spec FsExample.push_int FsExample.border Hp (str "/x") FsExample.root).
Defined.

Lemma fs_remove_spec_witness :
  fs_remove (Flt := unit) (str "/d/f") FsExample.root = (delete (str "/d/f") FsExample.root, VBool true) /\
  os_metadata (delete (str "/d/f") FsExample.root) (str "/d/f") = None.
Proof.
  assert (E : fs_remove (Flt := unit) (str "/d/f") FsExample.root =
    (delete (str "/d/f") FsExample.root, VBool true)) by reflexivity.
  split; [exact E|]. destruct (fs_remove_spec _ _ _ _ E) as [[_ H]|[H _]]; [exact H|discriminate H].
Defined.

Lemma fs_write_read_witness :
  fs_write (Flt := unit) (str "/l") (str "new") FsExample.root =
    (<[str "/d/f" := FsExample.File (str "new")]> FsExample.root, VBool true) /\
  fs_read (Flt := unit) (str "/l") (<[str "/d/f" := FsExample.File (str "new")]> FsExample.root) = VStr (str "new").
Proof.
  assert (E : fs_write (Flt := unit) (str "/l") (str "new") FsExample.root =
    (<[str "/d/f" := FsExample.File (str "new")]> FsExample.root, VBool true)) by reflexivity.
  split; [exact E|].
  exact (fs_write_read (str "/l") (str "new") _ _ (mkMetadata 3 KFile 420 0 0 (Some 7%N)) E eq_refl eq_refl).
Defined.
