(* ===== verification/Env.v ===== *)
(** The [env.*] functions of the Lua handlers ([src/src/env.rs]).  The
    environment belongs to the process, so all the workers share it; a name that
    the operating system refuses makes [env.set] and [env.unset] panic. *)
From S2P Require Import Prelude RustStr Serialize.

Section env.
Context {Flt : Type} {ord : IterOrder bytes bytes}.
Abbreviation value := (value (Flt := Flt)).
Abbreviation environ := (gmap bytes bytes).

(** * The standard library's environment *)

(** The names [std::env::set_var] panics on. *)
Definition bad_name (key : bytes) : bool :=
  is_empty key || contains_char "=" key || contains_char (chr 0) key.

(** What the C library's [getenv] finds for a name that holds [=]: glibc compares
    the name with the start of an entry, so [A=B] finds the entry [A=B=c]; musl
    refuses such a name. *)
Variable getenv_equals : bytes -> environ -> option bytes.

(** [std::env::var(key).ok()] *)
Definition env_var (key : bytes) (w : environ) : option bytes :=
  if is_empty key || contains_char (chr 0) key then None
  else match (if contains_char "=" key then getenv_equals key w else w !! key) with
       | Some v => if valid_utf8 v then Some v else None
       | None => None
       end.

(** * The functions; [None] is a panic *)
Definition env_get (key : bytes) (w : environ) : value :=
  match env_var key w with Some v => VStr v | None => VNil end.

Definition env_set (key v : bytes) (w : environ) : option environ :=
  if bad_name key || contains_char (chr 0) v then None else Some (<[key := v]> w).

Definition env_unset (key : bytes) (w : environ) : option environ :=
  if bad_name key then None else Some (delete key w).

(** [env.KEY]: a function of the table, or a variable. *)
Inductive env_field := EnvGet | EnvSet | EnvUnset | EnvValue (v : value).

Definition env_index (key : bytes) (w : environ) : env_field :=
  if bool_decide (key = str "get") then EnvGet
  else if bool_decide (key = str "set") then EnvSet
  else if bool_decide (key = str "unset") then EnvUnset
  else EnvValue (env_get key w).

(** What [pairs(env)] goes through: a snapshot of the environment when the Lua
    state honours [__pairs], else the (empty) table itself.  [std::env::vars]
    panics on a name or a value that is not UTF-8. *)
Definition env_pairs (honours_pairs : bool) (w : environ) : option (list (bytes * bytes)) :=
  if honours_pairs then
    let vars := iter_order w in
    if forallb (fun kv => valid_utf8 (fst kv) && valid_utf8 (snd kv)) vars then Some vars else None
  else Some [].

(** * Any sequence of writes, by any workers *)
Inductive env_op := OpSet (key v : bytes) | OpUnset (key : bytes).

Definition env_apply (op : env_op) (w : environ) : option environ :=
  match op with OpSet k v => env_set k v w | OpUnset k => env_unset k w end.

Fixpoint env_run (ops : list env_op) (w : environ) : option environ :=
  match ops with
  | [] => Some w
  | op :: ops => match env_apply op w with Some w => env_run ops w | None => None end
  end.

Definition op_key (op : env_op) : bytes := match op with OpSet k _ => k | OpUnset k => k end.

(** What the last write of a name left, or what was there before. *)
Definition last_write (key : bytes) (ops : list env_op) (before : option bytes) : option bytes :=
  match last (List.filter (fun op => bool_decide (op_key op = key)) ops) with
  | Some (OpSet _ v) => Some v
  | Some (OpUnset _) => None
  | None => before
  end.

Definition env_op_ok (op : env_op) : bool :=
  match op with
  | OpSet k v => negb (bad_name k || contains_char (chr 0) v)
  | OpUnset k => negb (bad_name k)
  end.

Lemma env_run_lookup (ops : list env_op) w w' key :
  env_run ops w = Some w' -> w' !! key = last_write key ops (w !! key).
Proof.
  revert w. induction ops as [|op ops IH]; intros w Hrun; [by injection Hrun as <-|].
  cbn [env_run] in Hrun. destruct (env_apply op w) as [w1|] eqn:E; [|done].
  rewrite (IH _ Hrun). unfold last_write. cbn [List.filter].
  destruct (bool_decide_reflect (op_key op = key)) as [Hk|Hk].
  - rewrite last_cons. destruct (last (List.filter _ ops)) as [op'|]; [done|].
    destruct op as [k v|k]; cbn in *; subst k; unfold env_set, env_unset in E;
      destruct (bad_name key); try done; cbn in E.
    + destruct (contains_char (chr 0) v); [done|]. injection E as <-. by rewrite lookup_insert_eq.
    + injection E as <-. by rewrite lookup_delete_eq.
  - destruct (last (List.filter _ ops)) as [[]|]; try done.
    destruct op as [k v|k]; cbn in *; unfold env_set, env_unset in E.
    + destruct (_ || _); [done|]. injection E as <-. by rewrite lookup_insert_ne.
    + destruct (bad_name k); [done|]. injection E as <-. by rewrite lookup_delete_ne.
Qed.

(** C33: Whatever sequence of [env.set] and [env.unset] the handlers of all the
    workers make, it runs through exactly when no name is empty or holds [=] or a
    zero byte and no value holds a zero byte (else the worker panics); then
    [env.get] gives the value of the last [set] of the name, [nil] after
    [unset], and [env.NAME] gives the same except for the names of the three
    functions. *)
Theorem env_last_write_wins (ops : list env_op) (w : environ) :
  (is_Some (env_run ops w) <-> forallb env_op_ok ops = true) /\
  forall w' key, env_run ops w = Some w' -> bad_name key = false ->
    env_get key w' =
      (match last_write key ops (w !! key) with
       | Some v => if valid_utf8 v then VStr v else VNil
       | None => VNil
       end) /\
    (key <> str "get" -> key <> str "set" -> key <> str "unset" ->
     env_index key w' = EnvValue (env_get key w')) /\
    env_index (str "get") w' = EnvGet /\ env_index (str "set") w' = EnvSet /\
    env_index (str "unset") w' = EnvUnset.
Proof.
  split.
  - revert w. induction ops as [|op ops IH]; intros w; [cbn; split; [done|by eexists]|].
    cbn [env_run forallb].
    assert (H : env_op_ok op = true <-> exists w1, env_apply op w = Some w1).
    { destruct op as [k v|k]; cbn; unfold env_set, env_unset.
      - destruct (_ || _); cbn; split; try done; [by intros [? ?]|by eexists].
      - destruct (bad_name k); cbn; split; try done; [by intros [? ?]|by eexists]. }
    destruct (env_apply op w) as [w1|].
    + assert (env_op_ok op = true) as -> by (apply H; by eexists). exact (IH w1).
    + split; [by intros []|]. destruct (env_op_ok op); [|done]. destruct H as [H _]. by destruct (H eq_refl).
  - intros w' key Hrun Hk. apply orb_false_iff in Hk as [[Hemp Heq]%orb_false_iff Hzero].
    unfold env_get at 1, env_var. rewrite Hemp, Heq, Hzero, (env_run_lookup _ _ _ _ Hrun). cbn [orb].
    split; [by destruct (last_write key ops (w !! key)) as [v|]; [destruct (valid_utf8 v)|]|].
    split; [|split_and!; vm_compute; reflexivity].
    intros H1 H2 H3. unfold env_index. by rewrite !bool_decide_eq_false_2 by done.
Qed.
End env.

Module EnvExample.
Definition getenv_equals (key : bytes) (w : gmap bytes bytes) : option bytes := None.
Definition ops : list env_op := [OpSet (str "A") (str "1"); OpSet (str "B") (str "2"); OpUnset (str "A")].
Definition left : gmap bytes bytes := delete (str "A") (<[str "B" := str "2"]> (<[str "A" := str "1"]> ∅)).
End EnvExample.

Lemma env_last_write_wins_witness :
  env_run EnvExample.ops ∅ = Some EnvExample.left /\
  env_get (Flt := unit) EnvExample.getenv_equals (str "A") EnvExample.left = VNil /\
  env_get (Flt := unit) EnvExample.getenv_equals (str "B") EnvExample.left = VStr (str "2").
Proof.
  assert (E : env_run EnvExample.ops ∅ = Some EnvExample.left) by reflexivity.
  pose proof (proj2 (env_last_write_wins (Flt := unit) EnvExample.getenv_equals EnvExample.ops ∅) EnvExample.left) as H.
  split; [exact E|]. split.
  - exact (proj1 (H (str "A") E eq_refl)).
  - exact (proj1 (H (str "B") E eq_refl)).
Defined.
