(* ===== verification/Req.v ===== *)
(** The HTTP client of the Lua handlers ([src/src/req.rs]): the options given to
    libcurl for a call of [req.*], and the Lua value made of the answer.  The
    [curl] crate is a parameter: the errors of its setters and [perform]. *)
From S2P Require Import Prelude RustStr Serialize.

Section req.
Context {Flt : Type}.
Abbreviation value := (value (Flt := Flt)).
Variable push_int : Z -> value.
Variable border : list (value * value) -> nat.

(** * Requests *)

(** The table of options.  A header that [mlua] cannot make a pair of strings of
    is an error; [None] for a field that is missing or not a string. *)
Record ReqOpts := mkReqOpts {
  o_headers : option (list (result (bytes * bytes) bytes));
  o_body : option bytes;
  o_decode : option bytes;
}.

(** What the handle of libcurl is told. *)
Record Easy := mkEasy {
  e_url : bytes;
  e_custom_request : option bytes;
  e_headers : list bytes;
  e_post_fields : option bytes;
}.

Record HttpResponse := mkHttpResponse { r_status : N; r_body : bytes; r_headers : bytes }.

Variable url_error : bytes -> option bytes.
Variable method_error : bytes -> option bytes.
Variable append_error : bytes -> option bytes.
Variable body_error : bytes -> option bytes.
Variable perform : Easy -> result HttpResponse bytes.

(** The outcome of a call: a value, an error, or a panic. *)
Inductive req_result := ReqOk (v : value) | ReqErr (msg : bytes) | ReqPanic.

(** The header lines; [to_str().unwrap()] panics on text that is not UTF-8. *)
Fixpoint header_lines (pairs : list (result (bytes * bytes) bytes)) (acc : list bytes) :
    option (result (list bytes) bytes) :=
  match pairs with
  | [] => Some (Ok acc)
  | Err e :: _ => Some (Err (str "header: " ++ e))
  | Ok (k, v) :: pairs =>
      if valid_utf8 k && valid_utf8 v then header_lines pairs (acc ++ [k ++ str ": " ++ v]) else None
  end.

Definition setter (name : bytes) (e : option bytes) : result unit bytes :=
  match e with Some e => Err (name ++ str ": " ++ e) | None => Ok tt end.

Fixpoint append_headers (l : list bytes) : result unit bytes :=
  match l with
  | [] => Ok tt
  | h :: l => result_bind (setter (str "header") (append_error h)) (fun _ => append_headers l)
  end.

Definition is_get (method : bytes) : bool := bool_decide (method = str "GET").

Definition easy_handle (method url : bytes) (headers : list bytes) (body : option bytes) : Easy :=
  mkEasy url (if is_get method then None else Some method) headers body.

(** Setting the handle up, in order, and the transfer.  The options that take
    constants do not fail. *)
Definition transfer (method url : bytes) (headers : list bytes) (body : option bytes) :
    result HttpResponse bytes :=
  result_bind (setter (str "url") (url_error url)) (fun _ =>
  result_bind (if is_get method then Ok tt else setter (str "method") (method_error method)) (fun _ =>
  result_bind (append_headers headers) (fun _ =>
  result_bind (match body with Some b => setter (str "body") (body_error b) | None => Ok tt end) (fun _ =>
  result_map_err (fun e => str "perform: " ++ e) (perform (easy_handle method url headers body)))))).

(** * Answers *)
Variable json_decode yaml_decode toml_decode csv_decode : bytes -> result value bytes.

(** The decoder a name stands for. *)
Definition decoder (fmt : bytes) : option (bytes -> result value bytes) :=
  if bool_decide (fmt = str "json") then Some json_decode
  else if bool_decide (fmt = str "yaml") then Some yaml_decode
  else if bool_decide (fmt = str "toml") then Some toml_decode
  else if bool_decide (fmt = str "csv") then Some csv_decode
  else None.

Definition body_value (decode : option bytes) (body : bytes) : result value bytes :=
  match decode with
  | Some fmt =>
      match decoder fmt with
      | Some dec => dec body
      | None => Err (str "unknown decode: " ++ fmt)
      end
  | None => Ok (VStr body)
  end.

(** The header of a line, if it has one. *)
Definition header_of (line : bytes) : option (bytes * bytes) :=
  match split_once ":" line with
  | Some (n, v) => if is_empty (trim n) then None else Some (trim n, trim v)
  | None => None
  end.

Definition response_headers (raw : bytes) : list (bytes * value) :=
  map (fun nv => (fst nv, VStr (snd nv))) (omap header_of (lines (from_utf8_lossy raw))).

Definition status_ok (status : N) : bool := N.leb 200 status && N.ltb status 300.

Definition req_table (fields : list (bytes * value)) : value :=
  Serialize.table border (set_fields fields []).

Definition response_fields (status : N) (body : value) (raw : bytes) : list (bytes * value) :=
  [(str "status", push_int (Z.of_N status)); (str "ok", VBool (status_ok status));
   (str "body", body); (str "headers", req_table (response_headers raw))].

Definition response_table (status : N) (body : value) (raw : bytes) : value :=
  req_table (response_fields status body raw).

Definition no_opts : ReqOpts := mkReqOpts None None None.

Definition do_request (method url : bytes) (opts : option ReqOpts) : req_result :=
  let o := default no_opts opts in
  match header_lines (default [] (o_headers o)) [] with
  | None => ReqPanic
  | Some (Err e) => ReqErr e
  | Some (Ok headers) =>
      match transfer method url headers (o_body o) with
      | Err e => ReqErr e
      | Ok r =>
          let body := from_utf8_lossy (r_body r) in
          if is_get method && bool_decide (opts = None) then ReqOk (VStr body)
          else match body_value (o_decode o) body with
               | Err e => ReqErr e
               | Ok b => ReqOk (response_table (r_status r) b (r_headers r))
               end
      end
  end.

(** * What a call returns *)

(** The headers of the options: the lines of the pairs of text, until one is not
    a pair of strings. *)
Definition pair_line (pair : result (bytes * bytes) bytes) (line : bytes) : Prop :=
  exists k v, pair = Ok (k, v) /\ valid_utf8 k = true /\ valid_utf8 v = true /\ line = k ++ str ": " ++ v.

(** What each setter says, in the order of the calls. *)
Definition url_set (url : bytes) : Prop := url_error url = None.
Definition method_set (method : bytes) : Prop := method = str "GET" \/ method_error method = None.
Definition headers_set (ls : list bytes) : Prop := Forall (fun l => append_error l = None) ls.
Definition body_set (body : option bytes) : Prop := forall b, body = Some b -> body_error b = None.

Inductive setup_refused (method url : bytes) (ls : list bytes) (body : option bytes) : bytes -> Prop :=
| url_refused e : url_error url = Some e -> setup_refused method url ls body (str "url: " ++ e)
| method_refused e :
    url_set url -> method <> str "GET" -> method_error method = Some e ->
    setup_refused method url ls body (str "method: " ++ e)
| header_refused pre l post e :
    url_set url -> method_set method -> ls = pre ++ l :: post -> headers_set pre -> append_error l = Some e ->
    setup_refused method url ls body (str "header: " ++ e)
| body_refused b e :
    url_set url -> method_set method -> headers_set ls -> body = Some b -> body_error b = Some e ->
    setup_refused method url ls body (str "body: " ++ e).

(** The transfer is made with the handle of the call, and gives [res]. *)
Record transferred (method url : bytes) (ls : list bytes) (body : option bytes)
    (res : result HttpResponse bytes) : Prop := mkTransferred {
  tr_url : url_set url;
  tr_method : method_set method;
  tr_headers : headers_set ls;
  tr_body : body_set body;
  tr_perform : exists custom, perform (mkEasy url custom ls body) = res /\
    (method = str "GET" -> custom = None) /\ (method <> str "GET" -> custom = Some method);
}.

Inductive decoded (text : bytes) : option bytes -> result value bytes -> Prop :=
| decoded_text : decoded text None (Ok (VStr text))
| decoded_json : decoded text (Some (str "json")) (json_decode text)
| decoded_yaml : decoded text (Some (str "yaml")) (yaml_decode text)
| decoded_toml : decoded text (Some (str "toml")) (toml_decode text)
| decoded_csv : decoded text (Some (str "csv")) (csv_decode text)
| decoded_unknown fmt :
    fmt ∉ map str ["json"; "yaml"; "toml"; "csv"]%string ->
    decoded text (Some fmt) (Err (str "unknown decode: " ++ fmt)).

(** The line gives the header a value: split at its first colon, both parts trimmed. *)
Definition header_line (name v line : bytes) : Prop :=
  exists a b, line = a ++ ":"%char :: b /\ contains_char ":" a = false /\
    name = trim a /\ name <> [] /\ v = trim b.

(** The last line that gives a header a value decides it. *)
Definition last_header (ls : list bytes) (name : bytes) (found : option value) : Prop :=
  (exists pre line post v, ls = pre ++ line :: post /\ header_line name v line /\
    Forall (fun l => forall v', ~ header_line name v' l) post /\ found = Some (VStr v)) \/
  (Forall (fun l => forall v', ~ header_line name v' l) ls /\ found = None).

(** What a field set to [v] holds. *)
Definition not_nil (v : value) : option value := match v with VNil => None | v => Some v end.

(** The table made of an answer whose body decodes to [b]. *)
Record answer_table (r : HttpResponse) (b v : value) : Prop := mkAnswerTable {
  an_status : field (str "status") v = not_nil (push_int (Z.of_N (r_status r)));
  an_ok : exists ok, field (str "ok") v = Some (VBool ok) /\
    (ok = true <-> (200 <= r_status r < 300)%N);
  an_body : field (str "body") v = not_nil b;
  an_headers : exists ht, field (str "headers") v = Some ht /\
    forall name, last_header (lines (from_utf8_lossy (r_headers r))) name (field name ht);
  an_only : forall k, k ∉ map str ["status"; "ok"; "body"; "headers"]%string -> field k v = None;
}.

(** ** The parts *)
Lemma header_lines_spec pairs acc :
  match header_lines pairs acc with
  | Some (Ok ls) => exists ls', ls = acc ++ ls' /\ Forall2 pair_line pairs ls'
  | Some (Err msg) => exists pre e post ls, pairs = pre ++ Err e :: post /\ Forall2 pair_line pre ls /\
      msg = str "header: " ++ e
  | None => exists pre k v post ls, pairs = pre ++ Ok (k, v) :: post /\ Forall2 pair_line pre ls /\
      ~ (valid_utf8 k = true /\ valid_utf8 v = true)
  end.
Proof.
  revert acc. induction pairs as [|[[k v]|e] pairs IH]; intros acc; cbn [header_lines].
  - exists []. by rewrite app_nil_r.
  - destruct (valid_utf8 k && valid_utf8 v) eqn:Ev.
    + apply andb_true_iff in Ev as [Hk Hv]. set (l := k ++ str ": " ++ v).
      assert (Hl : pair_line (Ok (k, v)) l) by (by exists k, v).
      specialize (IH (acc ++ [l])). destruct (header_lines pairs _) as [[ls|msg]|].
      * destruct IH as (ls' & -> & HF). exists (l :: ls'). rewrite <-app_assoc. auto.
      * destruct IH as (pre & e & post & ls & -> & HF & ->).
        exists (Ok (k, v) :: pre), e, post, (l :: ls). auto.
      * destruct IH as (pre & k' & v' & post & ls & -> & HF & Hb).
        exists (Ok (k, v) :: pre), k', v', post, (l :: ls). auto.
    + exists [], k, v, pairs, []. split_and!; [done|constructor|]. intros [Hk Hv]. by rewrite Hk, Hv in Ev.
  - exists [], e, pairs, []. auto.
Qed.

Lemma append_headers_spec ls :
  match append_headers ls with
  | Ok _ => headers_set ls
  | Err msg => exists pre l post e, ls = pre ++ l :: post /\ headers_set pre /\ append_error l = Some e /\
      msg = str "header: " ++ e
  end.
Proof.
  induction ls as [|l ls IH]; cbn [append_headers]; [constructor|].
  unfold setter. destruct (append_error l) as [e|] eqn:E; cbn [result_bind].
  - exists [], l, ls, e. by repeat constructor.
  - destruct (append_headers ls); [by constructor|]. destruct IH as (pre & l' & post & e' & -> & Hp & He & ->).
    exists (l :: pre), l', post, e'. split_and!; [done|by constructor|done..].
Qed.

Lemma is_get_spec method : reflect (method = str "GET") (is_get method).
Proof. unfold is_get. by destruct (bool_decide_reflect (method = str "GET")); constructor. Qed.

Lemma transfer_spec method url ls body :
  match transfer method url ls body with
  | Ok r => transferred method url ls body (Ok r)
  | Err msg => setup_refused method url ls body msg \/
      exists e, transferred method url ls body (Err e) /\ msg = str "perform: " ++ e
  end.
Proof.
  unfold transfer. destruct (url_error url) as [e|] eqn:Eu; cbn [setter result_bind].
  { left. by apply url_refused. }
  destruct (is_get_spec method) as [Hg|Hg]; cbn [result_bind].
  2: destruct (method_error method) as [e|] eqn:Em; cbn [setter result_bind]; [left; by apply method_refused|].
  all: pose proof (append_headers_spec ls) as Hh; destruct (append_headers ls) as [[]|msg]; cbn [result_bind];
    [|destruct Hh as (pre & l & post & e & Hl & Hp & He & ->); left;
      apply (header_refused _ _ _ _ pre l post); unfold method_set; auto].
  all: destruct body as [b|]; cbn [result_bind];
    [destruct (body_error b) as [e|] eqn:Eb; cbn [setter result_bind];
      [left; apply (body_refused _ _ _ _ b); unfold method_set; auto|]|].
  all: match goal with |- context [easy_handle _ _ _ ?b] =>
      assert (Ht : transferred method url ls b (perform (easy_handle method url ls b)))
        by (split; [done|unfold method_set; auto|done|intros ? ?; by simplify_eq|];
            eexists; split; [done|]; destruct (is_get_spec method); split; congruence) end.
  all: destruct (perform _) as [r|e]; cbn [result_map_err]; eauto.
Qed.

Lemma body_value_spec decode text : decoded text decode (body_value decode text).
Proof.
  destruct decode as [fmt|]; cbn [body_value]; [|constructor]. unfold decoder.
  repeat match goal with |- context [bool_decide (fmt = ?n)] =>
    destruct (bool_decide_reflect (fmt = n)) as [->|?]; [constructor|] end.
  apply decoded_unknown. cbn [map].
  repeat (apply not_elem_of_cons; split; [done|]). apply not_elem_of_nil.
Qed.

Lemma header_of_spec line name v : header_of line = Some (name, v) <-> header_line name v line.
Proof.
  unfold header_of, header_line. split.
  - destruct (split_once ":" line) as [[a b]|] eqn:E; [|done].
    apply split_once_Some in E as [-> Ha]. destruct (trim a) eqn:Et; cbn [is_empty]; [done|].
    intros [= <- <-]. exists a, b. by rewrite Et.
  - intros (a & b & -> & Ha & -> & Hn & ->).
    rewrite (proj2 (split_once_Some ":" _ a b)) by done. by destruct (trim a).
Qed.

Lemma response_header_spec raw name :
  last_header (lines (from_utf8_lossy raw)) name (field name (req_table (response_headers raw))).
Proof.
  cbn. rewrite get_str_set_fields. unfold response_headers. generalize (lines (from_utf8_lossy raw)) as ls.
  induction ls as [|line ls IH] using rev_ind; [right; by repeat constructor|].
  rewrite omap_app, map_app, List.filter_app. cbn [omap list_omap].
  assert (Hother : (forall v, ~ header_line name v line) -> forall found,
    last_header ls name found -> last_header (ls ++ [line]) name found).
  { intros Hl found [(pre & l & post & v & -> & Hv & Hp & ->)|[Hls ->]].
    - left. exists pre, l, (post ++ [line]), v. rewrite <-app_assoc. split_and!; [done|done| |done].
      apply Forall_app. auto.
    - right. split; [|done]. apply Forall_app. auto. }
  destruct (header_of line) as [[n v]|] eqn:E; cbn [map List.filter fst].
  - destruct (bool_decide_reflect (name = n)) as [->|Hne].
    + rewrite last_snoc. left. exists ls, line, [], v. split_and!; [done|by apply header_of_spec|constructor|done].
    + rewrite app_nil_r. apply Hother; [|exact IH]. intros v' Hv'. apply header_of_spec in Hv'. congruence.
  - rewrite app_nil_r. apply Hother; [|exact IH]. intros v' Hv'. apply header_of_spec in Hv'. congruence.
Qed.

Lemma response_field k v status body raw :
  (k, v) ∈ response_fields status body raw -> field k (response_table status body raw) = not_nil v.
Proof.
  intros Hin. apply field_table; [|exact Hin].
  change (NoDup (map str ["status"; "ok"; "body"; "headers"]%string)). solve_names.
Qed.

Lemma response_table_spec r b :
  answer_table r b (response_table (r_status r) b (r_headers r)).
Proof.
  assert (Hf := fun k v => response_field k v (r_status r) b (r_headers r)). split.
  - apply Hf. unfold response_fields. solve_in.
  - exists (status_ok (r_status r)). split; [apply (Hf _ (VBool _)); unfold response_fields; solve_in|].
    unfold status_ok. rewrite andb_true_iff, N.leb_le, N.ltb_lt. done.
  - apply Hf. unfold response_fields. solve_in.
  - exists (req_table (response_headers (r_headers r))).
    split; [apply (Hf _ (req_table _)); unfold response_fields; solve_in|]. apply response_header_spec.
  - intros k Hk. unfold response_table, req_table. cbn [field Serialize.table].
    rewrite get_str_set_fields. cbn [map] in Hk. rewrite !not_elem_of_cons in Hk.
    destruct Hk as (H1 & H2 & H3 & H4 & _). unfold response_fields. cbn [List.filter fst].
    by rewrite !bool_decide_eq_false_2.
Qed.

(** The errors of a call: a header that is not a pair of strings, a setter that
    refuses, a transfer that fails, a body that does not decode. *)
Inductive call_fails (method url : bytes) (o : ReqOpts) : bytes -> Prop :=
| fails_pair pre e post ls :
    default [] (o_headers o) = pre ++ Err e :: post -> Forall2 pair_line pre ls ->
    call_fails method url o (str "header: " ++ e)
| fails_setup ls msg :
    Forall2 pair_line (default [] (o_headers o)) ls -> setup_refused method url ls (o_body o) msg ->
    call_fails method url o msg
| fails_transfer ls e :
    Forall2 pair_line (default [] (o_headers o)) ls -> transferred method url ls (o_body o) (Err e) ->
    call_fails method url o (str "perform: " ++ e)
| fails_decode ls r e :
    Forall2 pair_line (default [] (o_headers o)) ls -> transferred method url ls (o_body o) (Ok r) ->
    decoded (from_utf8_lossy (r_body r)) (o_decode o) (Err e) -> call_fails method url o e.

(** The value of a call whose transfer gave [r]. *)
Inductive call_gives (method : bytes) (opts : option ReqOpts) (r : HttpResponse) : value -> Prop :=
| gives_text :
    method = str "GET" -> opts = None -> call_gives method opts r (VStr (from_utf8_lossy (r_body r)))
| gives_table b v :
    ~ (method = str "GET" /\ opts = None) ->
    decoded (from_utf8_lossy (r_body r)) (o_decode (default no_opts opts)) (Ok b) ->
    answer_table r b v -> call_gives method opts r v.

(** C34: Every call of the HTTP client ends in one of three ways.  It panics on
    the first header that is not UTF-8.  It fails with the first of: a header that
    is not a pair of strings, a setter that refuses (in the order URL, method,
    headers, body), the transfer, the decoder (or its name).  Or it returns, for
    [GET] without options, the body as text, and otherwise a table with the
    status, whether it is in 200..299, the body decoded as asked, and each header
    as the last line with its name says, split at the first colon and trimmed;
    the transfer was made with that URL, the method unless it is [GET], the
    header lines "name: value" in order, and the body. *)
Theorem do_request_answer method url opts :
  let o := default no_opts opts in
  match do_request method url opts with
  | ReqPanic => exists pre k v post ls, default [] (o_headers o) = pre ++ Ok (k, v) :: post /\
      Forall2 pair_line pre ls /\ ~ (valid_utf8 k = true /\ valid_utf8 v = true)
  | ReqErr msg => call_fails method url o msg
  | ReqOk v => exists ls r, Forall2 pair_line (default [] (o_headers o)) ls /\
      transferred method url ls (o_body o) (Ok r) /\ call_gives method opts r v
  end.
Proof.
  unfold do_request. cbn zeta. set (o := default no_opts opts).
  pose proof (header_lines_spec (default [] (o_headers o)) []) as Hh.
  destruct (header_lines _ []) as [[ls|msg]|]; [|destruct Hh as (pre & e & post & ls & ? & ? & ->);
    by eapply fails_pair|done].
  destruct Hh as (? & -> & Hh). cbn [app]. match type of Hh with Forall2 _ _ ?l => rename l into ls end.
  pose proof (transfer_spec method url ls (o_body o)) as Ht.
  destruct (transfer method url ls (o_body o)) as [r|msg].
  2:{ destruct Ht as [Ht|(e & Ht & ->)]; [by eapply fails_setup|by eapply fails_transfer]. }
  destruct (is_get_spec method) as [Hg|Hg]; cbn [andb].
  1: destruct (bool_decide_reflect (opts = None)) as [Ho|Ho]; [exists ls, r; eauto using gives_text|].
  all: pose proof (body_value_spec (o_decode o) (from_utf8_lossy (r_body r))) as Hb;
    destruct (body_value _ _) as [b|e]; [|by eapply fails_decode];
    exists ls, r; split; [done|]; split; [done|];
    apply (gives_table _ _ _ b); [tauto|done|apply response_table_spec].
Qed.
End req.

(** * A call *)
Module ReqExample.
Abbreviation value := (value (Flt := unit)).
Definition push_int (z : Z) : value := VInt z.
Definition border (entries : list (value * value)) : nat := 0.
Definition no_error (s : bytes) : option bytes := None.
Definition text (s : bytes) : result value bytes := Ok (VStr s).
Definition perform (e : Easy) : result HttpResponse bytes :=
  Ok (mkHttpResponse 404 (e_url e) (str "HTTP/1.1 404" ++ [chr 13; chr 10] ++ str "A: 1" ++ [chr 13; chr 10] ++
      str "A : 2" ++ [chr 13; chr 10])).
Definition opts : option ReqOpts := Some no_opts.
Definition answer : value :=
  VTable 0 [(VStr (str "status"), VInt 404); (VStr (str "ok"), VBool false);
            (VStr (str "body"), VStr (str "/x"));
            (VStr (str "headers"), VTable 0 [(VStr (str "A"), VStr (str "2"))])].
End ReqExample.

(** A [GET] with options: the two headers of the same name, spelled differently. *)
Example do_request_example :
  do_request ReqExample.push_int ReqExample.border ReqExample.no_error ReqExample.no_error
    ReqExample.no_error ReqExample.no_error ReqExample.perform ReqExample.text ReqExample.text ReqExample.text
    ReqExample.text (str "GET") (str "/x") ReqExample.opts = ReqOk ReqExample.answer.
Proof. vm_compute. reflexivity. Qed.
