(* ===== verification/Runtime.v ===== *)
(** The Lua runtime of the handlers ([setup_runtime_apis] of
    [src/src/handler.rs]): the tables [json], [yaml], [toml] and [csv] with the
    functions of [serialize.rs] behind them, the table [ninep_client], and the
    working directory of [dofile], [loadfile], [require] and [fs.cwd].

    The parsers and printers of the formats and the jq engine are parameters; a
    script that is not valid UTF-8 where a Rust string is asked for is an error
    of the call. *)
From S2P Require Import Prelude RustStr Proc Router Ninep NinepClient Serialize Store.

(** * Formats *)
Section formats.
Context {Flt Filter Val : Type}.
Abbreviation value := (value (Flt := Flt)).
Abbreviation json := (json (Flt := Flt)).
Variable is_finite : Flt -> bool.
Variable flt_to_string : Flt -> bytes.
Variable flt_of_Z : Z -> Flt.
Variable push_int : Z -> value.
Variable push_num : Flt -> value.
Variable border : list (value * value) -> nat.
Variable json_text json_pretty : json -> bytes.
Variable yaml_print toml_print : json -> result bytes bytes.
Variable json_parse yaml_parse toml_parse : bytes -> result json bytes.
Variable csv_read : bytes -> result (list bytes * list (result (list bytes) bytes)) bytes.
Variable csv_write : list (list bytes) -> bytes.
Variable parse_f64 : bytes -> option Flt.
Variable jq_compile : bytes -> result Filter bytes.
(** What a filter gives for a text, in order; an input that does not parse, or a
    value that is an error, ends it.  A value is written as JSON text. *)
Variable jq_run : Filter -> bytes -> list (result Val bytes).
Variable jq_write : Val -> result bytes bytes.
Abbreviation lua_to_json := (lua_to_json is_finite flt_to_string).
Abbreviation json_to_lua := (json_to_lua flt_of_Z push_int push_num border).
Abbreviation decode_and_query := (decode_and_query flt_of_Z push_int push_num border).
Abbreviation csv_encode := (csv_encode is_finite flt_to_string csv_write json_text).
Abbreviation csv_decode := (csv_decode push_int push_num border csv_read parse_f64).
Abbreviation csv_query := (csv_query push_int push_num border csv_read parse_f64).

(** [format!("{name} error: {e}")] *)
Definition format_error (name e : bytes) : bytes := name ++ str " error: " ++ e.

Definition json_encode_pretty (v : value) : result bytes bytes := result_map json_pretty (lua_to_json v).

Definition json_from_yaml (text : bytes) : result bytes bytes :=
  result_map json_text (result_map_err (format_error (str "YAML")) (yaml_parse text)).

Definition yaml_encode (v : value) : result bytes bytes :=
  result_bind (lua_to_json v) (fun j => result_map_err (format_error (str "YAML")) (yaml_print j)).

Definition yaml_decode (text : bytes) : result value bytes :=
  result_map json_to_lua (result_map_err (format_error (str "YAML")) (yaml_parse text)).

Definition yaml_from_json (text : bytes) : result bytes bytes :=
  result_bind (result_map_err (format_error (str "JSON")) (json_parse text)) (fun j =>
  result_map_err (format_error (str "YAML")) (yaml_print j)).

(** Only an object can be at the top of a TOML text. *)
Definition toml_object (j : json) : json :=
  match j with JObject _ => j | _ => JObject [(str "value", j)] end.

Definition toml_encode (v : value) : result bytes bytes :=
  result_bind (lua_to_json v) (fun j => result_map_err (format_error (str "TOML")) (toml_print (toml_object j))).

Definition toml_decode (text : bytes) : result value bytes :=
  result_map json_to_lua (result_map_err (format_error (str "TOML")) (toml_parse text)).

Definition json_query (text path : bytes) : result value bytes :=
  decode_and_query json_parse (str "JSON") text path.
Definition yaml_query (text path : bytes) : result value bytes :=
  decode_and_query yaml_parse (str "YAML") text path.
Definition toml_query (text path : bytes) : result value bytes :=
  decode_and_query toml_parse (str "TOML") text path.

(** The outputs of a filter: none, one, or an array of them. *)
Definition jq_results (results : list json) : value :=
  match results with
  | [] => VNil
  | [j] => json_to_lua j
  | _ => json_to_lua (JArray results)
  end.

(** The outputs are collected until the first error; each goes through its text. *)
Fixpoint jq_collect (outputs : list (result Val bytes)) (results : list json) : result (list json) bytes :=
  match outputs with
  | [] => Ok results
  | val_result :: outputs =>
      result_bind val_result (fun val =>
      result_bind (jq_write val) (fun buf =>
      result_bind (json_parse buf) (fun sv => jq_collect outputs (results ++ [sv]))))
  end.

Definition json_jq (text filter : bytes) : result value bytes :=
  result_bind (result_map_err (fun e => str "jq filter error: " ++ e) (jq_compile filter)) (fun f =>
  result_map jq_results (jq_collect (jq_run f text) [])).

(** ** The functions of the tables *)

(** An error is given to the script as a table with the field [error]. *)
Definition error_table (e : bytes) : value :=
  Serialize.table border (set_fields [(str "error", VStr e)] []).
Definition to_lua_result (r : result value bytes) : value :=
  match r with Ok v => v | Err e => error_table e end.
Definition to_lua_str_result (r : result bytes bytes) : value :=
  match r with Ok s => VStr s | Err e => error_table e end.

Inductive serial_fn :=
  | JsonEnc | JsonEncPretty | JsonDec | JsonQ | JsonJq | JsonFromYaml
  | YamlEnc | YamlDec | YamlQ | YamlFromJson
  | TomlEnc | TomlDec | TomlQ
  | CsvEnc | CsvDec | CsvQ.

(** The name of a table, that of a field, and what the field holds. *)
Definition serial_tables : list (bytes * list (bytes * serial_fn)) := [
  (str "json", [(str "enc", JsonEnc); (str "enc_pretty", JsonEncPretty); (str "dec", JsonDec);
                (str "q", JsonQ); (str "jq", JsonJq); (str "from_yaml", JsonFromYaml)]);
  (str "yaml", [(str "enc", YamlEnc); (str "dec", YamlDec); (str "q", YamlQ); (str "from_json", YamlFromJson)]);
  (str "toml", [(str "enc", TomlEnc); (str "dec", TomlDec); (str "q", TomlQ)]);
  (str "csv", [(str "enc", CsvEnc); (str "dec", CsvDec); (str "q", CsvQ)])
].

Definition serial_lookup (table name : bytes) : option serial_fn :=
  fields ← assoc table serial_tables; assoc name fields.

(** What [mlua] makes of an argument that should be a string; numbers are
    turned into text. *)
Variable number_text : value -> option bytes.
Definition arg_string (v : value) : option bytes :=
  match v with
  | VStr s => if valid_utf8 s then Some s else None
  | VInt _ | VNum _ => number_text v
  | _ => None
  end.
Definition arg (i : nat) (args : list value) : value := default VNil (args !! i).

Definition with_text (args : list value) (f : bytes -> value) : option value := f <$> arg_string (arg 0 args).
Definition with_texts (args : list value) (f : bytes -> bytes -> value) : option value :=
  a ← arg_string (arg 0 args); f a <$> arg_string (arg 1 args).

(** A call; [None] when an argument cannot be converted, which raises an error
    in the script. *)
Definition serial_call (fn : serial_fn) (args : list value) : option value :=
  match fn with
  | JsonEnc => Some (to_lua_str_result (json_encode lua_to_json json_text (arg 0 args)))
  | JsonEncPretty => Some (to_lua_str_result (json_encode_pretty (arg 0 args)))
  | JsonDec => with_text args (fun s => to_lua_result (json_decode json_to_lua json_parse s))
  | JsonQ => with_texts args (fun s p => to_lua_result (json_query s p))
  | JsonJq => with_texts args (fun s f => to_lua_result (json_jq s f))
  | JsonFromYaml => with_text args (fun s => to_lua_str_result (json_from_yaml s))
  | YamlEnc => Some (to_lua_str_result (yaml_encode (arg 0 args)))
  | YamlDec => with_text args (fun s => to_lua_result (yaml_decode s))
  | YamlQ => with_texts args (fun s p => to_lua_result (yaml_query s p))
  | YamlFromJson => with_text args (fun s => to_lua_str_result (yaml_from_json s))
  | TomlEnc => Some (to_lua_str_result (toml_encode (arg 0 args)))
  | TomlDec => with_text args (fun s => to_lua_result (toml_decode s))
  | TomlQ => with_texts args (fun s p => to_lua_result (toml_query s p))
  | CsvEnc => Some (to_lua_str_result (csv_encode (arg 0 args)))
  | CsvDec => with_text args (fun s => to_lua_result (csv_decode s))
  | CsvQ => with_texts args (fun s f => to_lua_result (csv_query s f))
  end.

(** What a function of [ninep_client] gives the script; [None] for a panic. *)
Definition client_answer (o : outcome bytes (option bytes)) : option value :=
  match o with
  | ORet (Some s) => Some (VStr s)
  | OFail e => Some (error_table e)
  | _ => None
  end.

(** ** Lemmas *)
Lemma arg_string_text s args : valid_utf8 s = true -> arg_string (arg 0 (VStr s :: args)) = Some s.
Proof. intros Hs. cbn. by rewrite Hs. Qed.

Lemma field_single (v : value) k :
  v <> VNil -> field k (Serialize.table border (set_fields [(k, v)] [])) = Some v.
Proof.
  intros Hv. rewrite (field_table border k [(k, v)] v); [by destruct v| |by left].
  apply NoDup_singleton.
Qed.

(** The number of text arguments of a function. *)
Definition texts (fn : serial_fn) : nat :=
  match fn with
  | JsonEnc | JsonEncPretty | YamlEnc | TomlEnc | CsvEnc => 0
  | JsonDec | JsonFromYaml | YamlDec | YamlFromJson | TomlDec | CsvDec => 1
  | JsonQ | JsonJq | YamlQ | TomlQ | CsvQ => 2
  end.

(** A function of the tables raises an error in the script only when one of
    its text arguments is not text; whatever else goes wrong is given back as a
    table whose field [error] says it.  The encoders never raise, and what they
    give back is a string or such a table. *)
Theorem serial_call_raises fn args :
  (serial_call fn args = None <-> exists i, i < texts fn /\ arg_string (arg i args) = None) /\
  (texts fn = 0 -> exists r, serial_call fn args = Some (to_lua_str_result r)) /\
  (forall e, field (str "error") (error_table e) = Some (VStr e)).
Proof.
  split; [|split].
  - assert (H1 : forall f, with_text args f = None <-> exists i, i < 1 /\ arg_string (arg i args) = None).
    { intros f. unfold with_text. destruct (arg_string (arg 0 args)) eqn:E; cbn; split; try done.
      - intros (i & Hi & H). assert (i = 0) as -> by lia. congruence.
      - intros _. exists 0. split; [lia|done]. }
    assert (H2 : forall f, with_texts args f = None <-> exists i, i < 2 /\ arg_string (arg i args) = None).
    { intros f. unfold with_texts. destruct (arg_string (arg 0 args)) eqn:E0; cbn.
      - destruct (arg_string (arg 1 args)) eqn:E1; cbn; split; try done.
        + intros (i & Hi & H). assert (i = 0 \/ i = 1) as [-> | ->] by lia; congruence.
        + intros _. exists 1. split; [lia|done].
      - split; [|done]. intros _. exists 0. split; [lia|done]. }
    destruct fn; cbn [serial_call texts]; try apply H1; try apply H2;
      (split; [done|intros (i & Hi & _); lia]).
  - destruct fn; cbn [texts]; intros Hn; try lia; by eexists.
  - intros e. by apply (field_single (VStr e)).
Qed.

(** An output of a filter that comes through its text as a JSON value. *)
Definition jq_output (o : result Val bytes) (j : json) : Prop :=
  exists val buf, o = Ok val /\ jq_write val = Ok buf /\ json_parse buf = Ok j.

Lemma jq_collect_app outputs rest js results :
  Forall2 jq_output outputs js -> jq_collect (outputs ++ rest) results = jq_collect rest (results ++ js).
Proof using Type.
  intros H. revert results. induction H as [|o j outputs js (val & buf & -> & Hw & Hp) _ IH]; intros results.
  - by rewrite app_nil_r.
  - cbn [app jq_collect result_bind]. rewrite Hw. cbn [result_bind]. rewrite Hp. cbn [result_bind].
    by rewrite IH, <-app_assoc.
Qed.

(** [json.jq] gives the script every output of the filter, in order (the only one
    as itself, and nil for none); the first output that is an error, or that is no
    JSON value, is the error of the call, whatever came before it. *)
Theorem json_jq_outputs text filter f js :
  jq_compile filter = Ok f ->
  (Forall2 jq_output (jq_run f text) js -> json_jq text filter = Ok (jq_results js)) /\
  (forall pre bad post e, jq_run f text = pre ++ bad :: post -> Forall2 jq_output pre js ->
     (bad = Err e \/ exists val, bad = Ok val /\
        (jq_write val = Err e \/ exists buf, jq_write val = Ok buf /\ json_parse buf = Err e)) ->
     json_jq text filter = Err e).
Proof using Type.
  intros Hf. unfold json_jq. rewrite Hf. cbn [result_map_err result_bind]. split.
  - intros H. rewrite <-(app_nil_r (jq_run f text)), (jq_collect_app _ _ js) by done. done.
  - intros pre bad post e -> Hpre Hbad. rewrite (jq_collect_app _ _ js) by done. cbn [jq_collect].
    destruct Hbad as [->|(val & -> & Hw)]; [done|]. cbn [result_bind].
    destruct Hw as [->|(buf & -> & Hp)]; [done|]. cbn [result_bind]. by rewrite Hp.
Qed.

(** A script that decodes a JSON text and encodes the value again gets the
    text back, for the texts of the values Lua can hold without loss. *)
Theorem script_json_roundtrip j :
  is_border border -> faithful is_finite push_int push_num j ->
  json_parse (json_text j) = Ok j -> valid_utf8 (json_text j) = true ->
  exists v, serial_call JsonDec [VStr (json_text j)] = Some v /\
    serial_call JsonEnc [v] = Some (VStr (json_text j)).
Proof.
  intros Hb Hf Hp Hu. exists (json_to_lua j). split.
  - cbn [serial_call]. unfold with_text. rewrite arg_string_text by done. cbn [fmap option_fmap option_map].
    unfold json_decode. by rewrite Hp.
  - cbn [serial_call]. unfold json_encode. change (arg 0 [json_to_lua j]) with (json_to_lua j).
    by rewrite json_lua_roundtrip_ok.
Qed.

(** TOML has objects at the top only: a value that is no object comes back from
    [toml.enc] and [toml.dec] as the field [value] of a table, an object as
    itself. *)
Theorem script_toml_wraps j text :
  is_border border -> faithful is_finite push_int push_num j -> not_null j ->
  toml_print (toml_object j) = Ok text -> toml_parse text = Ok (toml_object j) -> valid_utf8 text = true ->
  serial_call TomlEnc [json_to_lua j] = Some (VStr text) /\
  exists v, serial_call TomlDec [VStr text] = Some v /\
    match j with
    | JObject _ => v = json_to_lua j
    | _ => field (str "value") v = Some (json_to_lua j)
    end.
Proof.
  intros Hb Hf Hn Hpr Hpa Hu. split.
  - cbn [serial_call]. unfold toml_encode. change (arg 0 [json_to_lua j]) with (json_to_lua j).
    rewrite json_lua_roundtrip_ok by done. cbn [result_bind]. by rewrite Hpr.
  - eexists. split.
    + cbn [serial_call]. unfold with_text. rewrite arg_string_text by done. cbn [fmap option_fmap option_map].
      unfold toml_decode. rewrite Hpa. cbn [result_map result_map_err to_lua_result]. reflexivity.
    + assert (Hv : json_to_lua j <> VNil) by (by apply (json_to_lua_not_nil is_finite)).
      assert (Hfield : field (str "value") (json_to_lua (JObject [(str "value", j)])) = Some (json_to_lua j)).
      { change (json_to_lua (JObject [(str "value", j)])) with
          (Serialize.table border (set_fields [(str "value", json_to_lua j)] [])).
        by apply field_single. }
      destruct j; exact Hfield || reflexivity.
Qed.
End formats.

(** * The 9P client of the scripts *)

(** The functions of the table [ninep_client]: each opens a connection of its
    own; an error carries the name of the step.  [None] when the fuel of a loop
    runs out. *)
Inductive client_fn := CRead | CWrite (data : bytes) | CStat | CLs | CLsl | CMkdir | CCreate | CRemove.

Section client.
#[local] Open Scope proc_scope.

Definition client_label (fn : client_fn) : bytes :=
  match fn with
  | CRead => str "9p read"
  | CWrite _ => str "9p write"
  | CStat => str "9p stat"
  | CLs => str "9p ls"
  | CLsl => str "9p ls -l"
  | CMkdir => str "9p mkdir"
  | CCreate => str "9p create"
  | CRemove => str "9p remove"
  end.

Definition client_op (fuel : nat) (fn : client_fn) (path : bytes) : Client.proc (option bytes) :=
  match fn with
  | CRead => Client.read_file fuel path
  | CWrite data => Client.write_file fuel path data
  | CStat => (let! s := Client.stat path in Ret (Some s))
  | CLs => Client.ls fuel path false
  | CLsl => Client.ls fuel path true
  | CMkdir => (let! s := Client.mkdir path in Ret (Some s))
  | CCreate => (let! s := Client.create_file path in Ret (Some s))
  | CRemove => (let! s := Client.remove path in Ret (Some s))
  end.

Definition labelled {A} (label : bytes) (p : Client.proc A) : Client.proc A :=
  catch p (fun e => Fail (label ++ str ": " ++ e)).

Definition client_call (fuel : nat) (fn : client_fn) (path : bytes) : Client.proc (option bytes) :=
  (labelled (str "9p connect") Client.connect ;!
   labelled (client_label fn) (client_op fuel fn path)).

(** ** A script that reads a remote file *)
Lemma run_labelled_bind {W A B} (io : W -> bytes -> W * result bytes bytes) l l' (p : Client.proc A)
    (q : Client.proc B) w c b w' c' ms :
  run io (p ;! q) w c = (ORet b, w', c', ms) ->
  run io (labelled l p ;! labelled l' q) w c = (ORet b, w', c', ms).
Proof.
  unfold labelled. rewrite !run_bind, run_catch. destruct (run io p w c) as [[[[a|e|] w1] c1] ms1]; [|done..].
  rewrite run_catch. destruct (run io q w1 c1) as [[[[b'|e|] w2] c2] ms2]; [|done..]. done.
Qed.

(** C8: A script that calls [ninep_client.read] for a file another pinhead serves
    gets the contents its router serves for the path, as text. *)
Theorem script_reads_remote_file {ord : IterOrder N PathEntry} now {W} (backend : W -> Request -> W * route_reply)
    m path content b fuel :
  (4096 <= m <= 65536)%N -> file_path path -> serves_file backend (spelled path) content ->
  (11 + lenN content < 2 ^ 32)%N -> 2 <= fuel ->
  exists b' s',
    run (conn now backend) (client_call fuel CRead path) (b, new_shared m) (mkClient [] 65536 1) =
      (ORet (Some (from_utf8_lossy content)), (b', s'), mkClient [] 65536 5, []) /\
    fids s' = {[ 1%N := root_entry ]}.
Proof.
  intros Hm Hp Hs Hl Hf.
  destruct (client_reads_file now backend m path content b fuel Hm Hp Hs Hl Hf) as (b' & s' & Hrun & Hfids).
  exists b', s'. split; [|exact Hfids]. unfold client_call. by apply run_labelled_bind.
Qed.
End client.

(** * The working directory of a script *)

(** The globals [__pinhead_cwd], [__pinhead_orig_path] and [package.path]. *)
Record LuaPaths := mkLuaPaths { lua_cwd : bytes; lua_orig_path : bytes; package_path : bytes }.

Section cwd.
(** What a chunk makes of a text between double quotes; [std::path::Path::is_dir]. *)
Variable quoted : bytes -> result bytes bytes.
Variable is_dir : bytes -> bool.

Definition search_path (cwd orig : bytes) : bytes :=
  cwd ++ str "/?.lua;" ++ cwd ++ str "/?/init.lua;" ++ orig.

(** The set-up: [cwd] is pasted into the text of a chunk. *)
Definition setup_cwd (cwd orig : bytes) : result LuaPaths bytes :=
  let cwd_str := from_utf8_lossy cwd in
  match quoted (cwd_str ++ str "/?.lua;" ++ cwd_str ++ str "/?/init.lua;") with
  | Ok prefix => Ok (mkLuaPaths cwd_str orig (prefix ++ orig))
  | Err e => Err (str "CWD setup error: " ++ e)
  end.

(** The file [dofile] and [loadfile] open for a string. *)
Definition dofile_path (s : LuaPaths) (path : bytes) : bytes :=
  if starts_with (str "/") path then path else lua_cwd s ++ str "/" ++ path.

(** [fs.cwd]: without an argument the directory; with one, the new directory. *)
Definition fs_cwd (path : option bytes) (s : LuaPaths) : LuaPaths * result bytes bytes :=
  match path with
  | None => (s, Ok (lua_cwd s))
  | Some p =>
      let resolved := dofile_path s p in
      if is_dir resolved
      then (mkLuaPaths resolved (lua_orig_path s) (search_path resolved (lua_orig_path s)), Ok resolved)
      else (s, Err (str "not a directory: " ++ resolved))
  end.

(** A text that a Lua string literal holds as it is. *)
Definition plain (s : bytes) : bool :=
  forallb (fun c => negb (contains_char c s)) [chr 34; chr 92; chr 10; chr 13].

Lemma plain_app s t : plain (s ++ t) = plain s && plain t.
Proof.
  unfold plain. induction [chr 34; chr 92; chr 10; chr 13] as [|c l IH]; [done|]. cbn [forallb].
  rewrite contains_char_app, IH.
  by destruct (contains_char c s), (contains_char c t); cbn; rewrite ?andb_false_r.
Qed.

Lemma search_path_app cwd orig :
  (cwd ++ str "/?.lua;" ++ cwd ++ str "/?/init.lua;") ++ orig = search_path cwd orig.
Proof. unfold search_path. by rewrite <-!app_assoc. Qed.

(** C31: In a directory whose name a Lua string can hold, the set-up succeeds, and
    after any calls of [fs.cwd] the search path of [require] is that of the
    current directory, which is the first one or one that exists; [fs.cwd()]
    tells it, and [dofile] resolves a relative path in it. *)
Theorem cwd_consistent cwd orig (moves : list (option bytes)) :
  (forall s, plain s = true -> quoted s = Ok s) -> plain (from_utf8_lossy cwd) = true ->
  exists s0, setup_cwd cwd orig = Ok s0 /\
    let s := fold_left (fun s m => fst (fs_cwd m s)) moves s0 in
    package_path s = search_path (lua_cwd s) orig /\
    (lua_cwd s = from_utf8_lossy cwd \/ is_dir (lua_cwd s) = true) /\
    snd (fs_cwd None s) = Ok (lua_cwd s) /\
    (forall p, starts_with (str "/") p = false -> dofile_path s p = lua_cwd s ++ str "/" ++ p).
Proof.
  intros Hq Hc. unfold setup_cwd. rewrite Hq by (by rewrite !plain_app, Hc).
  eexists. split; [done|]. set (s0 := mkLuaPaths _ _ _).
  set (ok s := package_path s = search_path (lua_cwd s) orig /\ lua_orig_path s = orig /\
    (lua_cwd s = from_utf8_lossy cwd \/ is_dir (lua_cwd s) = true)).
  assert (H0 : ok s0).
  { split_and!; [apply search_path_app|done|by left]. }
  assert (Hstep : forall s m, ok s -> ok (fst (fs_cwd m s))).
  { intros s [p|] (H1 & H2 & H3); [|by split_and!]. unfold fs_cwd.
    destruct (is_dir (dofile_path s p)) eqn:E; [|by split_and!]. unfold ok. cbn. rewrite H2. auto. }
  assert (H : ok (fold_left (fun s m => fst (fs_cwd m s)) moves s0)).
  { clearbody s0. revert s0 H0. induction moves as [|m moves IH]; intros s0 H0; [done|].
    cbn [fold_left]. by apply IH, Hstep. }
  cbn zeta. destruct H as (H1 & _ & H3). split_and!; [done|done|done|].
  intros p Hp. unfold dofile_path. by rewrite Hp.
Qed.
End cwd.

(** * The theorems at concrete values *)
Module RuntimeExample.
Abbreviation value := (value (Flt := unit)).
Abbreviation json := (json (Flt := unit)).
(** Strings are printed as they are, and the field [value] of an object. *)
Definition print (j : json) : bytes :=
  match j with JString s => s | JObject [(_, JString s)] => s | _ => [] end.
Definition print_ok (j : json) : result bytes bytes := Ok (print j).
Definition parse (s : bytes) : result json bytes := Ok (JString s).
Definition parse_toml (s : bytes) : result json bytes := Ok (JObject [(str "value", JString s)]).
Definition csv_fails (text : bytes) : result (list bytes * list (result (list bytes) bytes)) bytes :=
  Err (str "no CSV").
Definition no_number (v : value) : option bytes := None.
(** The filter [.] alone, which gives its input twice. *)
Definition jq_compile (f : bytes) : result unit bytes := if bool_decide (f = str ".") then Ok tt else Err f.
Definition jq_run (f : unit) (text : bytes) : list (result json bytes) := [Ok (JString text); Ok (JString text)].
Definition call : serial_fn -> list value -> option value :=
  serial_call SerializeExample.finite SerializeExample.no_text SerializeExample.zero
    SerializeExample.push_int SerializeExample.push_num SerializeExample.border print print print_ok print_ok
    parse parse parse_toml csv_fails SerializeExample.csv_write SerializeExample.no_f64 jq_compile jq_run print_ok no_number.

Definition quoted (s : bytes) : result bytes bytes := if plain s then Ok s else Err (str "syntax error").
Definition is_dir (p : bytes) : bool := bool_decide (p = str "/srv/a" \/ p = str "/tmp").
Definition moves : list (option bytes) := [Some (str "a"); Some (str "missing"); None].
End RuntimeExample.

Lemma json_jq_outputs_witness :
  json_jq SerializeExample.zero SerializeExample.push_int SerializeExample.push_num SerializeExample.border
    RuntimeExample.parse RuntimeExample.jq_compile RuntimeExample.jq_run RuntimeExample.print_ok
    (str "hi") (str ".") =
  Ok (Serialize.table SerializeExample.border [(VInt 1, VStr (str "hi")); (VInt 2, VStr (str "hi"))]).
Proof.
  apply (proj1 (json_jq_outputs SerializeExample.zero SerializeExample.push_int SerializeExample.push_num
    SerializeExample.border RuntimeExample.parse RuntimeExample.jq_compile RuntimeExample.jq_run
    RuntimeExample.print_ok (str "hi") (str ".") tt [JString (str "hi"); JString (str "hi")] eq_refl)).
  repeat constructor; exists (JString (str "hi")), (str "hi"); repeat split.
Defined.

Lemma script_json_roundtrip_witness :
  exists v, RuntimeExample.call JsonDec [VStr (str "hi")] = Some v /\
    RuntimeExample.call JsonEnc [v] = Some (VStr (str "hi")).
Proof.
  apply (script_json_roundtrip SerializeExample.finite SerializeExample.no_text SerializeExample.zero
    SerializeExample.push_int SerializeExample.push_num SerializeExample.border
    RuntimeExample.print RuntimeExample.print RuntimeExample.print_ok RuntimeExample.print_ok
    RuntimeExample.parse RuntimeExample.parse RuntimeExample.parse_toml
    RuntimeExample.csv_fails SerializeExample.csv_write SerializeExample.no_f64 RuntimeExample.jq_compile
    RuntimeExample.jq_run RuntimeExample.print_ok RuntimeExample.no_number (JString (str "hi"))).
  - apply SerializeExample.border_is_border.
  - reflexivity.
  - reflexivity.
  - reflexivity.
Defined.

Lemma script_toml_wraps_witness :
  exists v, RuntimeExample.call TomlDec [VStr (str "hi")] = Some v /\
    field (str "value") v = Some (VStr (str "hi")).
Proof.
  apply (script_toml_wraps SerializeExample.finite SerializeExample.no_text SerializeExample.zero
    SerializeExample.push_int SerializeExample.push_num SerializeExample.border
    RuntimeExample.print RuntimeExample.print RuntimeExample.print_ok RuntimeExample.print_ok
    RuntimeExample.parse RuntimeExample.parse RuntimeExample.parse_toml
    RuntimeExample.csv_fails SerializeExample.csv_write SerializeExample.no_f64 RuntimeExample.jq_compile
    RuntimeExample.jq_run RuntimeExample.print_ok RuntimeExample.no_number (JString (str "hi")) (str "hi")).
  - apply SerializeExample.border_is_border.
  - reflexivity.
  - discriminate.
  - reflexivity.
  - reflexivity.
  - reflexivity.
Defined.

Lemma script_reads_remote_file_witness :
  exists b' s',
    run (conn (ord := default_order) 0 ClientExample.backend)
      (client_call 2 CRead ClientExample.path) (0, new_shared 8192) (mkClient [] 65536 1) =
      (ORet (Some (str "hello")), (b', s'), mkClient [] 65536 5, []).
Proof.
  destruct (script_reads_remote_file (ord := default_order) 0 ClientExample.backend 8192 ClientExample.path
    (str "hello") 0 2) as (b' & s' & H & _);
    [lia|apply ClientExample.path_ok|apply ClientExample.serves|reflexivity|lia|].
  exists b', s'. exact H.
Defined.

Lemma cwd_consistent_witness :
  exists s0, setup_cwd RuntimeExample.quoted (str "/srv") (str "./?.lua") = Ok s0 /\
    dofile_path (fold_left (fun s m => fst (fs_cwd RuntimeExample.is_dir m s)) RuntimeExample.moves s0)
      (str "x.lua") = str "/srv/a/x.lua".
Proof.
  destruct (cwd_consistent RuntimeExample.quoted RuntimeExample.is_dir (str "/srv") (str "./?.lua")
    RuntimeExample.moves) as (s0 & H0 & _ & _ & _ & Hd).
  - intros s Hs. unfold RuntimeExample.quoted. by rewrite Hs.
  - reflexivity.
  - exists s0. split; [exact H0|]. rewrite Hd by reflexivity. vm_compute in H0. injection H0 as <-.
    vm_compute. reflexivity.
Defined.
