(* ===== verification/Tables.v ===== *)
(** The tables [log], [req] and [oauth] of the Lua handlers
    ([setup_runtime_apis] of [src/src/handler.rs]): the conversion of the
    arguments, the call of [do_request], and what the script gets.

    libcurl, the parsers of the formats and the texts of conversion errors are
    parameters. *)
From S2P Require Import Prelude RustStr Serialize Store Runtime Req.

Section tables.
Context {Flt : Type}.
Abbreviation value := (value (Flt := Flt)).
Abbreviation json := (json (Flt := Flt)).
Variable flt_of_Z : Z -> Flt.
Variable push_int : Z -> value.
Variable push_num : Flt -> value.
Variable border : list (value * value) -> nat.
Variable number_text : value -> option bytes.
Variable to_i64 : value -> option Z.
Abbreviation arg_string := (arg_string number_text).

(** How a call ends: with a value, with an error in the script, or with a panic. *)
Inductive call_result := Returned (v : value) | Raised | Panicked.

(** A conversion of an argument that may fail. *)
Definition with_arg {A} (a : option A) (f : A -> call_result) : call_result :=
  match a with Some a => f a | None => Raised end.

(** * log *)
Inductive log_fn := LogPrint | LogDebug.

Definition log_prefix (fn : log_fn) : bytes :=
  match fn with LogPrint => str "[log.print] " | LogDebug => str "[log.debug] " end.

(** A line on the standard error of the process. *)
Definition log_call (fn : log_fn) (args : list value) (stderr : list bytes) : list bytes * call_result :=
  match arg_string (arg 0 args) with
  | Some msg => (stderr ++ [log_prefix fn ++ msg], Returned VNil)
  | None => (stderr, Raised)
  end.

(** * oauth *)
Inductive oauth_fn := DeviceFlowStart | DevicePoll | AuthCodeUrl | ExchangeCode | AttachTo.

Definition is_table (v : value) : bool := match v with VTable _ _ => true | _ => false end.

(** The functions of a client: fixed answers, once the arguments are converted. *)
Definition oauth_call (fn : oauth_fn) (args : list value) : call_result :=
  let text i := arg_string (arg i args) in
  let int i := to_i64 (arg i args) in
  match fn with
  | DeviceFlowStart =>
      with_arg (text 0) (fun _ => Returned (VStr (str "Simulated device_flow_start. Requires real OAuth provider.")))
  | DevicePoll =>
      with_arg (text 0) (fun _ => with_arg (int 1) (fun _ => with_arg (int 2) (fun _ =>
      Returned (VStr (str "Simulated device_poll. Requires real OAuth provider.")))))
  | AuthCodeUrl =>
      with_arg (text 0) (fun _ => with_arg (text 1) (fun _ => with_arg (text 2) (fun _ =>
      Returned (VStr (str "https://example.com/oauth/authorize?client_id=YOUR_CLIENT_ID&scope=...")))))
  | ExchangeCode =>
      with_arg (text 0) (fun _ => with_arg (text 1) (fun _ => with_arg (text 2) (fun _ =>
      Returned (VStr (str "Simulated exchange_code. Requires real OAuth provider.")))))
  | AttachTo =>
      if is_table (arg 0 args) then with_arg (text 1) (fun _ => Returned (VBool true)) else Raised
  end.

(** * req *)

(** The functions of the table, and the method each sends. *)
Definition req_methods : list (bytes * bytes) := [
  (str "get", str "GET"); (str "post", str "POST"); (str "put", str "PUT"); (str "delete", str "DELETE");
  (str "patch", str "PATCH"); (str "head", str "HEAD"); (str "options", str "OPTIONS")
].

(** ** The table of options *)
Variable conversion_error : value -> bytes.

(** A Lua string is a string or a number; its bytes are not checked. *)
Definition lua_string (v : value) : result bytes bytes :=
  match v with
  | VStr s => Ok s
  | VInt _ | VNum _ => match number_text v with Some s => Ok s | None => Err (conversion_error v) end
  | _ => Err (conversion_error v)
  end.

Definition header_pair (kv : value * value) : result (bytes * bytes) bytes :=
  result_bind (lua_string (fst kv)) (fun k => result_bind (lua_string (snd kv)) (fun v => Ok (k, v))).

Definition text_option (k : bytes) (t : value) : option bytes := arg_string (default VNil (field k t)).

Definition read_opts (t : value) : ReqOpts :=
  mkReqOpts
    (match field (str "headers") t with
     | Some (VTable _ entries) => Some (map header_pair entries)
     | _ => None
     end)
    (text_option (str "body") t)
    (text_option (str "decode") t).

(** [Option<mlua::Table>]; [None] when the argument is neither a table nor
    [nil]. *)
Definition table_arg (v : value) : option (option value) :=
  match v with
  | VNil => Some None
  | VTable _ _ => Some (Some v)
  | _ => None
  end.

(** ** The call *)
Variable url_error method_error append_error body_error : bytes -> option bytes.
Variable perform : Easy -> result HttpResponse bytes.
Variable json_parse yaml_parse toml_parse : bytes -> result json bytes.
Variable csv_read : bytes -> result (list bytes * list (result (list bytes) bytes)) bytes.
Variable parse_f64 : bytes -> option Flt.
Abbreviation json_to_lua := (json_to_lua flt_of_Z push_int push_num border).

Definition lua_do_request : bytes -> bytes -> option ReqOpts -> req_result :=
  Req.do_request push_int border url_error method_error append_error body_error perform
    (json_decode json_to_lua json_parse)
    (yaml_decode flt_of_Z push_int push_num border yaml_parse)
    (toml_decode flt_of_Z push_int push_num border toml_parse)
    (csv_decode push_int push_num border csv_read parse_f64).

Definition req_call (method : bytes) (args : list value) : call_result :=
  with_arg (arg_string (arg 0 args)) (fun url =>
  with_arg (table_arg (arg 1 args)) (fun opts =>
  match lua_do_request method url (option_map read_opts opts) with
  | ReqOk v => Returned v
  | ReqErr e => Returned (error_table border e)
  | ReqPanic => Panicked
  end)).

(** A script that calls [req.get(url, {decode = "json"})] for an address that
    answers with the text of a JSON value gets a table whose [body] is the Lua
    form of the value and whose [ok] tells a 2xx status; when libcurl refuses the
    address or the transfer fails, a table whose [error] says it. *)
Theorem req_get_json url args :
  arg_string (arg 0 args) = Some url -> arg 1 args = VTable 0 [(VStr (str "decode"), VStr (str "json"))] ->
  match url_error url, perform (mkEasy url None [] None) with
  | Some e, _ => req_call (str "GET") args = Returned (error_table border (str "url: " ++ e))
  | None, Err e => req_call (str "GET") args = Returned (error_table border (str "perform: " ++ e))
  | None, Ok r =>
      forall j, json_parse (r_body r) = Ok j -> valid_utf8 (r_body r) = true ->
      exists t, req_call (str "GET") args = Returned t /\
        field (str "body") t = (match json_to_lua j with VNil => None | _ => Some (json_to_lua j) end) /\
        field (str "ok") t = Some (VBool (status_ok (r_status r)))
  end.
Proof.
  intros Hu Ho. unfold req_call. rewrite Hu, Ho. cbn [with_arg table_arg option_map].
  set (o := read_opts _). assert (Eo : o = mkReqOpts None None (Some (str "json"))) by reflexivity.
  rewrite Eo. unfold lua_do_request, Req.do_request, transfer, easy_handle.
  change (is_get (str "GET")) with true. cbn -[str concat app decoder json_to_lua].
  destruct (url_error url) as [e|]; [done|]. cbn -[str concat app decoder json_to_lua].
  destruct (perform _) as [r|e]; [|done]. intros j Hj Hv. cbn -[str decoder json_to_lua].
  change (decoder _ _ _ _ (str "json")) with (Some (json_decode json_to_lua json_parse)).
  rewrite from_utf8_lossy_id by done. unfold json_decode. rewrite Hj.
  eexists. split; [done|]. split.
  - apply (response_field push_int border (str "body") (json_to_lua j)). unfold response_fields. solve_in.
  - apply (response_field push_int border (str "ok") (VBool _)). unfold response_fields. solve_in.
Qed.
End tables.

(** * The theorem at a concrete call *)
Module TablesExample.
Abbreviation value := (value (Flt := unit)).
Abbreviation json := (json (Flt := unit)).
Definition opts : value := VTable 0 [(VStr (str "decode"), VStr (str "json"))].
Definition perform (e : Easy) : result HttpResponse bytes :=
  if bool_decide (e_url e = str "http://a") then Ok (mkHttpResponse 200 (str "hi") []) else Err (str "no host").
Definition no_error (s : bytes) : option bytes := None.
Definition no_conversion (v : value) : bytes := [].
Definition get (url : value) : call_result (Flt := unit) :=
  req_call SerializeExample.zero SerializeExample.push_int SerializeExample.push_num SerializeExample.border
    RuntimeExample.no_number no_conversion no_error no_error no_error no_error perform
    RuntimeExample.parse RuntimeExample.parse RuntimeExample.parse_toml
    RuntimeExample.csv_fails SerializeExample.no_f64 (str "GET") [url; opts].
End TablesExample.

Lemma req_get_json_witness :
  (exists t, TablesExample.get (VStr (str "http://a")) = Returned t /\
     field (str "body") t = Some (VStr (str "hi")) /\ field (str "ok") t = Some (VBool true)) /\
  TablesExample.get (VStr (str "http://b")) =
    Returned (error_table SerializeExample.border (str "perform: no host")).
Proof.
  pose proof (req_get_json SerializeExample.zero SerializeExample.push_int SerializeExample.push_num
    SerializeExample.border RuntimeExample.no_number TablesExample.no_conversion TablesExample.no_error
    TablesExample.no_error TablesExample.no_error TablesExample.no_error TablesExample.perform
    RuntimeExample.parse RuntimeExample.parse RuntimeExample.parse_toml
    RuntimeExample.csv_fails SerializeExample.no_f64) as H.
  split.
  - exact (H (str "http://a") [VStr (str "http://a"); TablesExample.opts] eq_refl eq_refl
      (JString (str "hi")) eq_refl eq_refl).
  - exact (H (str "http://b") [VStr (str "http://b"); TablesExample.opts] eq_refl eq_refl).
Defined.
