(* ===== verification/Main.v ===== *)
(** The start of the program ([src/src/main.rs]): finding and reading the
    script, the set-up of Lua, the routes and the worker pool, and the frontends
    of the configuration.

    The command line, the files, standard input and the working directory of the
    process are parameters, as are Lua and the path trie (the [matchit] crate). *)
From S2P Require Import Prelude RustStr Router Handler SshAuth Runtime.

(** * Paths ([std::path::Path] on Unix) *)

(** The bytes of a path before its first component: a root, or a leading [.]. *)
Definition body_start (s : bytes) : nat :=
  if starts_with (str "/") s || starts_with (str "./") s || bool_decide (s = str ".") then 1 else 0.

(** What follows the last slash of the body, with the number of bytes to drop. *)
Definition last_component (s : bytes) : nat * bytes :=
  let body := drop (body_start s) s in
  match rsplit_once "/" body with
  | Some (_, comp) => (S (length comp), comp)
  | None => (length body, body)
  end.

(** Dropping empty components and [.] at the end. *)
Fixpoint trim_right (fuel : nat) (s : bytes) : bytes :=
  match fuel with
  | O => s
  | S fuel =>
      let '(n, comp) := last_component s in
      if Nat.ltb (body_start s) (length s) && (is_empty comp || bool_decide (comp = str "."))
      then trim_right fuel (take (length s - n) s) else s
  end.

(** [Path::parent] *)
Definition parent (s : bytes) : option bytes :=
  let t := trim_right (length s) s in
  if Nat.ltb (body_start t) (length t) then
    let '(n, _) := last_component t in
    let p := take (length t - n) t in Some (trim_right (length p) p)
  else if starts_with (str "/") t then None
  else if is_empty t then None
  else Some [].

(** * Loading the script *)

(** The first argument, how files are read, standard input ([None] for a
    terminal) and the working directory. *)
Record Process := mkProcess {
  proc_arg : option bytes;
  proc_read : bytes -> result bytes bytes;
  proc_stdin : option (result bytes bytes);
  proc_cwd : option bytes;
}.

Inductive load_result := Loaded (script cwd : bytes) | Exit (code : N) (msg : bytes).

Definition strip_shebang (script : bytes) : bytes :=
  if starts_with (str "#!") script then
    match split_once (chr 10) script with Some (_, rest) => rest | None => [] end
  else script.

Definition usage : bytes :=
  let nl := [chr 10] in
  nl ++ str "Usage:" ++ nl ++ nl ++ str "  pinhead SCRIPT.lua" ++ nl ++
  str "  #!/path/to/pinhead" ++ nl ++ str "  cat SCRIPT.lua|pinhead" ++ nl.

Definition load_stdin (p : Process) : load_result :=
  match proc_stdin p with
  | Some (Err e) => Exit 1 (str "[main] error: reading stdin: " ++ e)
  | Some (Ok s) =>
      if Nat.ltb 0 (length s) then Loaded (strip_shebang s) (default [] (proc_cwd p)) else Exit 1 usage
  | None => Exit 1 usage
  end.

Definition load_script (p : Process) : load_result :=
  match proc_arg p with
  | Some path =>
      if starts_with (str "-") path then load_stdin p
      else match proc_read p path with
           | Ok s =>
               Loaded (strip_shebang s)
                 (match parent path with Some d => d | None => default [] (proc_cwd p) end)
           | Err e => Exit 1 (str "[main] error: cannot read `" ++ path ++ str "`: " ++ e)
           end
  | None => load_stdin p
  end.

(** * Frontends *)
Inductive frontend :=
| StartFuse (path : bytes)
| StartSocket (path : bytes)
| StartTcp (addr : bytes) (max_conns : option N)
| StartTls (addr cert key : bytes)
| StartUdp (addr : bytes)
| StartSshfs (addr : bytes) (config : SshfsConfig)
| Complain (msg : bytes).

Definition ninep_frontend (cfg : Config) (listener : bytes) : frontend :=
  match strip_prefix (str "sock:") listener with
  | Some path => StartSocket path
  | None =>
  match strip_prefix (str "tcp:") listener with
  | Some addr => StartTcp addr (ninep_max_conns cfg)
  | None =>
  match strip_prefix (str "tls:") listener with
  | Some addr =>
      match tls_cert_path cfg, tls_key_path cfg with
      | Some c, Some k => StartTls addr c k
      | _, _ => Complain (str "[9p-tls] tls: address requires ninep.tls_cert() and ninep.tls_key()")
      end
  | None =>
  match strip_prefix (str "udp:") listener with
  | Some addr => StartUdp addr
  | None => Complain (str "[main] unknown 9p listener prefix: " ++ listener)
  end end end end.

Definition sshfs_frontend (cfg : Config) (listener : bytes) : frontend :=
  StartSshfs listener (mkSshfsConfig (sshfs_password cfg) (sshfs_authorized_keys_path cfg)
    (sshfs_userpasswds cfg) (sshfs_max_conns cfg)).

Definition has_config (cfg : Config) : bool :=
  negb (is_empty (fuse_mounts cfg)) || negb (is_empty (ninep_listeners cfg)) ||
  negb (is_empty (sshfs_listeners cfg)).

Definition frontends (cfg : Config) : list frontend :=
  if has_config cfg
  then map StartFuse (fuse_mounts cfg) ++ map (ninep_frontend cfg) (ninep_listeners cfg) ++
       map (sshfs_frontend cfg) (sshfs_listeners cfg)
  else [].

(** * The program *)
Section main.
Context {F Trie : Type} {ord : IterOrder bytes RouteMeta}.
Variable trie_new : Trie.
Variable trie_insert : Trie -> bytes -> RouteMeta -> result Trie bytes.
(** What Lua makes of the text of a script, and the quoted text of a chunk. *)
Variable parse_script : bytes -> script F.
Variable quoted : bytes -> result bytes bytes.

(** [PathRouterBuilder::register] *)
Definition trie_register (pattern : bytes) (meta : RouteMeta) (t : Trie) : result Trie bytes :=
  result_map_err (fun e => str "route registration failed: " ++ e) (trie_insert t pattern meta).

(** The loop over the merged routes, in the order of the hash map; the error is
    the message of the panic. *)
Fixpoint register_all (entries : list (bytes * RouteMeta)) (t : Trie) : result Trie bytes :=
  match entries with
  | [] => Ok t
  | (pattern, meta) :: entries =>
      match trie_register pattern meta t with
      | Ok t => register_all entries t
      | Err e => Err (str "route `" ++ pattern ++ str "`: " ++ e)
      end
  end.

(** What runs when [main] waits for the end. *)
Record System := mkSystem {
  sys_trie : Trie;
  sys_script : script F;
  sys_workers : WorkerConfig;
  sys_frontends : list frontend;
  sys_paths : LuaPaths;
}.

Inductive start := Running (s : System) | Exited (code : N) (msg : bytes) | Panicked (msg : bytes).

Definition main (p : Process) (orig_path : bytes) : start :=
  match load_script p with
  | Exit code msg => Exited code msg
  | Loaded text cwd =>
      match setup_cwd quoted cwd orig_path with
      | Err e => Panicked (str "Lua setup failed: " ++ e)
      | Ok paths =>
          match compile (parse_script text) with
          | Err e => Panicked (str "Lua setup failed: " ++ e)
          | Ok (cfg, routes, bytecodes, worker_config) =>
              match register_all (iter_order (merge_routes routes)) trie_new with
              | Err e => Panicked e
              | Ok t => Running (mkSystem t bytecodes worker_config (frontends cfg) paths)
              end
          end
      end
  end.
End main.

(** * The directory of the script *)

(** A file name, and a directory whose last component is a name. *)
Definition file_name (s : bytes) : Prop :=
  contains_char "/" s = false /\ s <> [] /\ s <> str ".".
Definition directory (d : bytes) : Prop :=
  body_start d < length d /\ snd (last_component d) <> [] /\ snd (last_component d) <> str ".".

Lemma starts_with_app_le p d r : length p <= length d -> starts_with p (d ++ r) = starts_with p d.
Proof.
  unfold starts_with. revert d. induction p as [|a p IH]; intros d Hl; [by destruct d, r|].
  destruct d as [|b d]; [simpl in Hl; lia|]. cbn [app strip_prefix].
  destruct (Ascii.eqb a b); [|done]. apply IH. simpl in Hl. lia.
Qed.

Lemma starts_with_slash s : contains_char "/" s = false -> starts_with (str "/") s = false.
Proof.
  intros H. destruct (starts_with (str "/") s) eqn:E; [|done]. apply starts_with_spec in E as [r ->].
  cbn in H. done.
Qed.

Lemma body_start_name s : file_name s -> body_start s = 0.
Proof.
  intros (H & _ & Hd). unfold body_start. rewrite starts_with_slash by done. cbn [orb].
  destruct (starts_with (str "./") s) eqn:E.
  - apply starts_with_spec in E as [r ->]. rewrite contains_char_app in H. done.
  - cbn [orb]. by rewrite bool_decide_eq_false_2.
Qed.

Lemma trim_right_stops fuel s :
  snd (last_component s) <> [] -> snd (last_component s) <> str "." -> trim_right fuel s = s.
Proof.
  intros H1 H2. destruct fuel as [|fuel]; [done|]. cbn [trim_right].
  destruct (last_component s) as [n comp]. cbn [snd] in *. destruct comp; [done|].
  rewrite bool_decide_eq_false_2 by done. by rewrite andb_false_r.
Qed.

Lemma rsplit_once_last c a b :
  contains_char c b = false -> rsplit_once c (a ++ c :: b) = Some (a, b).
Proof.
  intros Hb. induction a as [|x a IH]; cbn [app rsplit_once].
  - rewrite (proj2 (rsplit_once_None c b) Hb). by rewrite (proj2 (Ascii.eqb_eq c c) eq_refl).
  - by rewrite IH.
Qed.

Lemma parent_name s : file_name s -> parent s = Some [].
Proof.
  intros Hs. pose proof (body_start_name s Hs) as Hb. destruct Hs as (Hc & Hne & Hd).
  assert (Hl : last_component s = (length s, s)).
  { unfold last_component. rewrite Hb, drop_0. by rewrite (proj2 (rsplit_once_None _ _) Hc). }
  unfold parent. rewrite trim_right_stops by (by rewrite Hl). rewrite Hb, Hl.
  destruct s as [|x s]; [done|]. cbn [length Nat.ltb]. rewrite Nat.sub_diag. done.
Qed.

Lemma parent_directory d name : directory d -> file_name name -> parent (d ++ str "/" ++ name) = Some d.
Proof.
  intros (Hlen & Hne & Hdot) (Hc & Hn1 & Hn2). set (s := d ++ str "/" ++ name).
  assert (Hd : d <> []) by (intros ->; simpl in Hlen; lia).
  assert (Hd1 : d <> str ".") by (intros ->; vm_compute in Hlen; lia).
  assert (Hb : body_start s = body_start d).
  { unfold body_start, s. rewrite (bool_decide_eq_false_2 (d = str ".")) by done.
    rewrite (bool_decide_eq_false_2 (d ++ _ = str ".")).
    2:{ intros E. destruct d as [|x [|y d]]; [done|by injection E|done]. }
    rewrite starts_with_app_le by (destruct d; [done|simpl; lia]).
    assert (E : starts_with (str "./") (d ++ str "/" ++ name) = starts_with (str "./") d).
    { destruct d as [|x [|y d]]; [done| |apply starts_with_app_le; simpl; lia].
      assert (Hx : x <> "."%char) by (intros ->; by apply Hd1).
      apply Ascii.eqb_neq in Hx. rewrite Ascii.eqb_sym in Hx.
      unfold starts_with. cbn [app str strip_prefix String.list_ascii_of_string]. by rewrite Hx. }
    by rewrite E. }
  assert (Hl : last_component s = (S (length name), name)).
  { unfold last_component. rewrite Hb. unfold s. rewrite drop_app_le by lia.
    change (str "/" ++ name) with ("/"%char :: name). by rewrite rsplit_once_last. }
  unfold parent. rewrite trim_right_stops by (by rewrite Hl). rewrite Hl, Hb.
  assert (Hs : length s = length d + S (length name)) by (unfold s; rewrite !length_app; done).
  rewrite (proj2 (Nat.ltb_lt _ _)) by lia.
  replace (take (length s - S (length name)) s) with d.
  - by rewrite trim_right_stops.
  - unfold s at 2. rewrite take_app_le by lia. by rewrite take_ge by lia.
Qed.

Section theorems.
Context {F Trie : Type} {ord : IterOrder bytes RouteMeta}.
Variable trie_new : Trie.
Variable trie_insert : Trie -> bytes -> RouteMeta -> result Trie bytes.
Variable parse_script : bytes -> script F.
Variable quoted : bytes -> result bytes bytes.
Abbreviation main := (main trie_new trie_insert parse_script quoted).
Abbreviation register_all := (register_all trie_insert).

Lemma main_running p orig sys :
  main p orig = Running sys ->
  exists text cwd cfg rs,
    load_script p = Loaded text cwd /\ setup_cwd quoted cwd orig = Ok (sys_paths sys) /\
    compile (parse_script text) = Ok (cfg, rs, sys_script sys, sys_workers sys) /\
    register_all (iter_order (merge_routes rs)) trie_new = Ok (sys_trie sys) /\
    sys_frontends sys = frontends cfg.
Proof.
  unfold Main.main. destruct (load_script p) as [text cwd|]; [|done].
  destruct (setup_cwd quoted cwd orig) as [paths|] eqn:Es; [|done].
  destruct (compile (parse_script text)) as [[[[cfg rs] q] w]|] eqn:Ec; [|done].
  destruct (register_all _ trie_new) as [t|] eqn:Et; [|done].
  intros [= <-]. by exists text, cwd, cfg, rs.
Qed.

Lemma loaded_path p path text cwd :
  proc_arg p = Some path -> starts_with (str "-") path = false -> load_script p = Loaded text cwd ->
  cwd = match parent path with Some d => d | None => default [] (proc_cwd p) end.
Proof.
  intros Ha Hd. unfold load_script. rewrite Ha, Hd. destruct (proc_read p path); [|done]. by intros [= _ <-].
Qed.

Hypothesis quoted_plain : forall s, plain s = true -> quoted s = Ok s.

Lemma setup_cwd_plain cwd orig paths :
  plain (from_utf8_lossy cwd) = true -> setup_cwd quoted cwd orig = Ok paths ->
  lua_cwd paths = from_utf8_lossy cwd /\ package_path paths = search_path (from_utf8_lossy cwd) orig.
Proof.
  intros Hc. unfold setup_cwd. rewrite quoted_plain by (by rewrite !plain_app, Hc).
  intros [= <-]. split; [done|]. apply search_path_app.
Qed.

(** A script given as a file in a directory opens its relative files in that
    directory, in the main state and in every worker. *)
Theorem script_directory p orig sys d name f :
  main p orig = Running sys -> proc_arg p = Some (d ++ str "/" ++ name) ->
  directory d -> file_name name -> starts_with (str "-") d = false -> plain (from_utf8_lossy d) = true ->
  starts_with (str "/") f = false ->
  dofile_path (sys_paths sys) f = from_utf8_lossy d ++ str "/" ++ f /\
  package_path (sys_paths sys) = search_path (from_utf8_lossy d) orig.
Proof using quoted_plain.
  intros Hm Ha Hd Hn Hdash Hpl Hf. destruct (main_running _ _ _ Hm) as (text & cwd & cfg & rs & Hl & Hs & _).
  assert (Hdash' : starts_with (str "-") (d ++ str "/" ++ name) = false).
  { rewrite starts_with_app_le; [done|]. destruct d; [by destruct Hd as (H & _); simpl in H; lia|simpl; lia]. }
  rewrite (loaded_path _ _ _ _ Ha Hdash' Hl), parent_directory in Hs by done.
  destruct (setup_cwd_plain _ _ _ Hpl Hs) as [H1 H2]. split; [|done].
  unfold dofile_path. by rewrite Hf, H1.
Qed.

(** C32: A script given as a bare file name opens its relative files at the root of
    the file system, not in the working directory: [Path::parent] of a bare name
    is the empty path, so the fallback on [current_dir] is not taken. *)
Theorem bare_script_at_root p orig sys name f :
  main p orig = Running sys -> proc_arg p = Some name -> file_name name ->
  starts_with (str "-") name = false -> starts_with (str "/") f = false ->
  dofile_path (sys_paths sys) f = str "/" ++ f /\
  package_path (sys_paths sys) = str "/?.lua;/?/init.lua;" ++ orig.
Proof using quoted_plain.
  intros Hm Ha Hn Hdash Hf. destruct (main_running _ _ _ Hm) as (text & cwd & cfg & rs & Hl & Hs & _).
  rewrite (loaded_path _ _ _ _ Ha Hdash Hl), parent_name in Hs by done.
  destruct (setup_cwd_plain [] _ _ eq_refl Hs) as [H1 H2]. split; [|done].
  unfold dofile_path. by rewrite Hf, H1.
Qed.

(** * Frontends *)
Lemma frontends_all cfg :
  frontends cfg = map StartFuse (fuse_mounts cfg) ++ map (ninep_frontend cfg) (ninep_listeners cfg) ++
    map (sshfs_frontend cfg) (sshfs_listeners cfg).
Proof.
  unfold frontends, has_config.
  by destruct (fuse_mounts cfg), (ninep_listeners cfg), (sshfs_listeners cfg).
Qed.

Lemma elem_of_frontends cfg x :
  x ∈ frontends cfg <->
  (exists m, x = StartFuse m /\ m ∈ fuse_mounts cfg) \/
  (exists l, x = ninep_frontend cfg l /\ l ∈ ninep_listeners cfg) \/
  (exists l, x = sshfs_frontend cfg l /\ l ∈ sshfs_listeners cfg).
Proof. rewrite frontends_all, !elem_of_app. by rewrite !list_elem_of_fmap. Qed.

(** Which server a listener gets. *)
Lemma listener_socket cfg l path : StartSocket path = ninep_frontend cfg l <-> l = str "sock:" ++ path.
Proof.
  rewrite <-strip_prefix_Some. unfold ninep_frontend. repeat case_match; split; try done; by intros [= ->].
Qed.

Lemma listener_tcp cfg l addr mc :
  StartTcp addr mc = ninep_frontend cfg l <-> l = str "tcp:" ++ addr /\ mc = ninep_max_conns cfg.
Proof.
  split; [|by intros [-> ->]]. unfold ninep_frontend. repeat case_match; try done.
  intros [= -> ->]. split; [by apply strip_prefix_Some|done].
Qed.

Lemma listener_tls cfg l addr c k :
  StartTls addr c k = ninep_frontend cfg l <->
  l = str "tls:" ++ addr /\ tls_cert_path cfg = Some c /\ tls_key_path cfg = Some k.
Proof.
  split; [|intros (-> & Hc & Hk); unfold ninep_frontend; cbn; by rewrite Hc, Hk].
  unfold ninep_frontend. repeat case_match; try done.
  intros [= -> -> ->]. split; [by apply strip_prefix_Some|done].
Qed.

Lemma listener_udp cfg l addr : StartUdp addr = ninep_frontend cfg l <-> l = str "udp:" ++ addr.
Proof.
  split; [|by intros ->]. unfold ninep_frontend. repeat case_match; try done.
  intros [= ->]. by apply strip_prefix_Some.
Qed.

Lemma main_compiled p orig sys :
  main p orig = Running sys ->
  exists rs, compile (sys_script sys) = Ok (config_after (calls (sys_script sys)), rs, sys_script sys, sys_workers sys) /\
    register_all (iter_order (merge_routes rs)) trie_new = Ok (sys_trie sys) /\
    sys_frontends sys = frontends (config_after (calls (sys_script sys))).
Proof.
  intros Hm. destruct (main_running _ _ _ Hm) as (text & cwd & cfg & rs & _ & _ & Hc & Ht & Hf).
  pose proof Hc as Hc'. rewrite compile_run in Hc'. destruct (ending _) as [[]|]; [|done].
  injection Hc' as Hcfg Hrs Hq Hw. rewrite <-Hq. rewrite <-Hcfg in Hf, Hc. rewrite <-Hq in Hc. by exists rs.
Qed.

(** C21: The frontends the program starts are those the script asked for: one FUSE
    mount per mount point, one SFTP server per address with the passwords, keys
    and limit of the configuration, and one 9P server per listener, on a socket,
    TCP (with the connection limit), TLS (only when both a certificate and a key
    are set) or UDP by its prefix; an address that was taken back starts
    nothing. *)
Theorem main_starts_frontends p orig sys :
  main p orig = Running sys ->
  let cs := calls (sys_script sys) in
  let cfg := config_after cs in
  let listens := added NinepListen NinepKill NinepKillAll cs in
  (forall m, StartFuse m ∈ sys_frontends sys <-> added FuseMount FuseUnmount FuseUnmountAll cs m) /\
  (forall path, StartSocket path ∈ sys_frontends sys <-> listens (str "sock:" ++ path)) /\
  (forall addr mc, StartTcp addr mc ∈ sys_frontends sys <->
     listens (str "tcp:" ++ addr) /\ mc = ninep_max_conns cfg) /\
  (forall addr c k, StartTls addr c k ∈ sys_frontends sys <->
     listens (str "tls:" ++ addr) /\ tls_cert_path cfg = Some c /\ tls_key_path cfg = Some k) /\
  (forall addr, StartUdp addr ∈ sys_frontends sys <-> listens (str "udp:" ++ addr)) /\
  (forall addr config, StartSshfs addr config ∈ sys_frontends sys <->
     added SshfsListen SshfsKill SshfsKillAll cs addr /\
     config = mkSshfsConfig (sshfs_password cfg) (sshfs_authorized_keys_path cfg)
                (sshfs_userpasswds cfg) (sshfs_max_conns cfg)).
Proof.
  intros Hm. destruct (main_compiled _ _ _ Hm) as (rs & Hc & _ & ->). cbn zeta.
  set (cfg := config_after _) in *. pose proof (compile_config_lists _ _ _ _ _ Hc) as Hl.
  assert (Hno : forall l x, x = ninep_frontend cfg l ->
    match x with StartFuse _ | StartSshfs _ _ => False | _ => True end).
  { intros l x ->. unfold ninep_frontend. by repeat case_match. }
  split_and!; intros; rewrite elem_of_frontends.
  - rewrite <-(proj1 (Hl m)). naive_solver.
  - setoid_rewrite listener_socket. rewrite <-(proj1 (proj2 (Hl (str "sock:" ++ path)))). naive_solver.
  - setoid_rewrite listener_tcp. rewrite <-(proj1 (proj2 (Hl (str "tcp:" ++ addr)))). naive_solver.
  - setoid_rewrite listener_tls. rewrite <-(proj1 (proj2 (Hl (str "tls:" ++ addr)))). naive_solver.
  - setoid_rewrite listener_udp. rewrite <-(proj1 (proj2 (Hl (str "udp:" ++ addr)))). naive_solver.
  - rewrite <-(proj2 (proj2 (Hl addr))). unfold sshfs_frontend. naive_solver.
Qed.

(** * Requests *)
Context {L : Type}.
Variable apply : F -> L -> gmap bytes bytes -> option bytes -> L * result bytes bytes.
Variable at_path : Trie -> bytes -> result (RouteMeta * list (bytes * bytes)) bytes.

(** A lookup in the trie gives an entry that was inserted. *)
Definition trie_sound : Prop := forall entries t path meta ps,
  register_all entries trie_new = Ok t -> at_path t path = Ok (meta, ps) ->
  exists pattern, (pattern, meta) ∈ entries.

(** The routes of the running program are those of the compiled script, in the
    trie and in the workers. *)
Lemma main_table p orig sys :
  main p orig = Running sys -> trie_sound ->
  exists cfg rs rt, compile (sys_script sys) = Ok (cfg, rs, sys_script sys, sys_workers sys) /\
    from_bytecodes (sys_script sys) = Ok rt /\
    forall path meta ps, at_path (sys_trie sys) path = Ok (meta, ps) -> merge_routes rs !! rm_pattern meta = Some meta.
Proof.
  intros Hm Hsound. destruct (main_compiled _ _ _ Hm) as (rs & Hc & Ht & _).
  assert (Hrt : exists rt, from_bytecodes (sys_script sys) = Ok rt).
  { rewrite from_bytecodes_run. rewrite compile_run in Hc. destruct (ending _) as [[]|]; [by eexists|done]. }
  destruct Hrt as [rt Hrt]. exists (config_after (calls (sys_script sys))), rs, rt. split_and!; [done..|].
  intros path meta ps Hat. destruct (Hsound _ _ _ _ _ Ht Hat) as [pattern Hin%iter_order_elem].
  by rewrite (merge_routes_pattern _ _ _ Hin).
Qed.

(** The running program answers a request with the Lua function that the
    script registered last for the matched pattern and the operation (else for
    all operations), called in a worker that holds the script's functions; with
    no such function it answers with an error, whatever the hash map's order in
    which the patterns were inserted. *)
Theorem main_answers_requests p orig sys :
  main p orig = Running sys -> trie_sound ->
  exists rt, from_bytecodes (sys_script sys) = Ok rt /\
  forall l req meta ps,
    at_path (sys_trie sys) (req_path req) = Ok (meta, ps) ->
    probe_children at_path (sys_trie sys) (req_path req) (rm_pattern meta) && file_op (req_op req) = false ->
    fst (dispatch at_path (lua_worker apply rt) (sys_trie sys) l req) =
    match func_in_force (registrations (sys_script sys)) (rm_pattern meta) (req_op req) with
    | Some f =>
        let data := if is_empty (req_data req) then None else Some (req_data req) in
        let '(l', r) := apply f l (collect_params ps) data in
        (l', Replied (match r with
                      | Ok s => Ok (mkHandlerResponse s (Some (rm_pattern meta))
                                  (probe_children at_path (sys_trie sys) (req_path req) (rm_pattern meta)))
                      | Err e => Err (str "Lua handler error: " ++ e)
                      end))
    | None => (l, Replied (Err (no_handler_msg (req_path req) (req_op req))))
    end.
Proof.
  intros Hm Hsound. destruct (main_table _ _ _ Hm Hsound) as (cfg & rs & rt & Hc & Hrt & Htable).
  exists rt. split; [exact Hrt|]. intros l req meta ps Hat Hdir.
  eapply request_calls_registered_function; [exact Hc|exact Hrt|exact Hat| |exact Hdir]. by eapply Htable.
Qed.
End theorems.

(** * The theorems at a concrete process *)
Module MainExample.
Abbreviation trie := (gmap bytes RouteMeta).
Definition insert (t : trie) (pattern : bytes) (meta : RouteMeta) : result trie bytes :=
  match t !! pattern with Some _ => Err (str "conflict") | None => Ok (<[pattern := meta]> t) end.
Definition parse_script (text : bytes) : script nat := HandlerExample.main.
Definition process (path : bytes) : Process :=
  mkProcess (Some path) (fun _ => Ok (str "#!ph")) None (Some (str "/home")).
Definition run (path : bytes) : start (F := nat) (Trie := trie) :=
  main (ord := default_order) ∅ insert parse_script RuntimeExample.quoted (process path) (str "./?.lua").
Definition system (paths : LuaPaths) : System (F := nat) (Trie := trie) :=
  mkSystem (merge_routes HandlerExample.rs) HandlerExample.main default_worker_config
    [StartTcp (str "0:9") None] paths.
Definition in_srv : System := system (mkLuaPaths (str "/srv") (str "./?.lua") (search_path (str "/srv") (str "./?.lua"))).
Definition at_root : System := system (mkLuaPaths [] (str "./?.lua") (search_path [] (str "./?.lua"))).

Lemma runs_in_srv : run (str "/srv/" ++ str "main.lua") = Running in_srv.
Proof. vm_compute. reflexivity. Qed.

Lemma runs_at_root : run (str "main.lua") = Running at_root.
Proof. vm_compute. reflexivity. Qed.

Lemma quoted_plain s : plain s = true -> RuntimeExample.quoted s = Ok s.
Proof. intros H. unfold RuntimeExample.quoted. by rewrite H. Qed.

Lemma main_lua : file_name (str "main.lua").
Proof. split_and!; [reflexivity|discriminate|discriminate]. Qed.

Lemma srv : directory (str "/srv").
Proof. split_and!; [vm_compute; lia|vm_compute; discriminate|vm_compute; discriminate]. Qed.

Lemma table_sound : trie_sound ∅ insert exact_at.
Proof.
  intros entries t path meta ps Hreg Hat. unfold exact_at in Hat. destruct (t !! path) as [m|] eqn:E; [|done].
  injection Hat as -> <-. exists path.
  assert (H : forall entries (t0 t1 : trie), register_all insert entries t0 = Ok t1 -> t1 !! path = Some meta ->
    t0 !! path = Some meta \/ (path, meta) ∈ entries).
  { clear. induction entries as [|[p m] entries IH]; intros t0 t1; cbn.
    - intros [= ->]. by left.
    - unfold trie_register, insert. destruct (t0 !! p); [done|]. cbn. intros Hr Hp.
      destruct (IH _ _ Hr Hp) as [Hl|Hin]; [|right; by right].
      apply lookup_insert_Some in Hl as [[-> ->]|[_ Hl]]; [right; by left|by left]. }
  destruct (H entries ∅ t Hreg E) as [Hl|Hin]; [|exact Hin]. by rewrite lookup_empty in Hl.
Qed.
End MainExample.

Lemma script_directory_witness :
  MainExample.run (str "/srv/" ++ str "main.lua") = Running MainExample.in_srv /\
  dofile_path (sys_paths MainExample.in_srv) (str "lib.lua") = str "/srv/lib.lua".
Proof.
  split; [exact MainExample.runs_in_srv|].
  apply (script_directory (ord := default_order) ∅ MainExample.insert MainExample.parse_script
    RuntimeExample.quoted MainExample.quoted_plain (MainExample.process (str "/srv/main.lua")) (str "./?.lua")
    MainExample.in_srv (str "/srv") (str "main.lua") (str "lib.lua") MainExample.runs_in_srv eq_refl
    MainExample.srv MainExample.main_lua eq_refl eq_refl eq_refl).
Defined.

Lemma bare_script_at_root_witness :
  MainExample.run (str "main.lua") = Running MainExample.at_root /\
  dofile_path (sys_paths MainExample.at_root) (str "lib.lua") = str "/lib.lua".
Proof.
  split; [exact MainExample.runs_at_root|].
  apply (bare_script_at_root (ord := default_order) ∅ MainExample.insert MainExample.parse_script
    RuntimeExample.quoted MainExample.quoted_plain (MainExample.process (str "main.lua")) (str "./?.lua")
    MainExample.at_root (str "main.lua") (str "lib.lua") MainExample.runs_at_root eq_refl
    MainExample.main_lua eq_refl eq_refl).
Defined.

Lemma main_starts_frontends_witness :
  MainExample.run (str "main.lua") = Running MainExample.at_root /\
  added NinepListen NinepKill NinepKillAll (calls HandlerExample.main) (str "tcp:0:9").
Proof.
  split; [exact MainExample.runs_at_root|].
  destruct (main_starts_frontends (ord := default_order) ∅ MainExample.insert MainExample.parse_script
    RuntimeExample.quoted (MainExample.process (str "main.lua")) (str "./?.lua") MainExample.at_root
    MainExample.runs_at_root) as (_ & _ & H & _).
  apply (H (str "0:9") None). left.
Defined.

Lemma main_answers_requests_witness :
  exists rt, from_bytecodes HandlerExample.main = Ok rt /\
  fst (dispatch exact_at (lua_worker HandlerExample.apply rt) (merge_routes HandlerExample.rs) 0
         (mkRequest Read (str "/a") (str "x"))) =
  (2, Replied (Ok (mkHandlerResponse (str "fx") (Some (str "/a")) false))).
Proof.
  destruct (main_answers_requests (ord := default_order) ∅ MainExample.insert MainExample.parse_script
    RuntimeExample.quoted HandlerExample.apply exact_at (MainExample.process (str "main.lua")) (str "./?.lua")
    MainExample.at_root MainExample.runs_at_root MainExample.table_sound) as (rt & Hrt & H).
  exists rt. split; [exact Hrt|].
  refine (eq_trans (H 0 (mkRequest Read (str "/a") (str "x")) HandlerExample.meta [] _ _) _);
    vm_compute; reflexivity.
Defined.
