(* ===== verification/Program.v ===== *)
(** The whole program: what [src/src/main.rs] starts, running.

    The frontends are those of [Main.frontends] with what their clients do: 9P
    servers on streams and on UDP, FUSE mounts and SFTP connections; the router and
    the worker pool are those of [Main.main] on the script.  The theorems put
    together what [System] shows of the composition and what the components' files
    show of each part. *)
From S2P Require Import Prelude RustStr Proc Wire Router Ninep NinepInv Serve Sftp Fuse Handler Worker System SshAuth Runtime Main.

(** * The frontends *)
Section frontends.
Context {ord : IterOrder N PathEntry}.
Variable now : N.

(** An SFTP connection gives up after a minute. *)
#[export] Instance sftp_replies : Replies sftp_reply := {| seen := Answered; expired := Some TimedOut |}.

Abbreviation ninep_server := (Proc.pool Shared Request route_reply bytes bytes unit).
Abbreviation udp_server Peer := (Proc.pool Shared Request route_reply (Peer * bytes) bytes unit).
Abbreviation fuse_mount := (Proc.pool Fuse Request route_reply reply Empty_set unit).
Abbreviation sftp_connection := (Proc.pool HandleState Request sftp_reply Packet StatusCode unit).

(** Steps of a frontend beside another, and of one of a list. *)
Lemma fe_step_both {C1 T1 C2 T2} `{Frontend C1 T1, Frontend C2 T2} (c c' : C1 * C2) :
  fe_step c c' ->
  (fst c' = fst c \/ fe_step (fst c) (fst c')) /\ (snd c' = snd c \/ fe_step (snd c) (snd c')).
Proof.
  destruct 1 as [c c' [[Hl He]|[Hl He]]|c [t|t] rq r Hw|c c' [t|t] rq Hw (d & Hd & ->)%fmap_Some]; cbn in *.
  - split; [right; by constructor|by left].
  - split; [by left|right; by constructor].
  - split; [right; by econstructor|by left].
  - split; [by left|right; by econstructor].
  - split; [right; by eapply fe_step_expire|by left].
  - split; [by left|right; by eapply fe_step_expire].
Qed.

Lemma fe_step_list {C T} `{Frontend C T} (cs cs' : list C) i c :
  fe_step cs cs' -> cs !! i = Some c -> exists c', cs' !! i = Some c' /\ (c' = c \/ fe_step c c').
Proof.
  intros Hs Hi. destruct Hs as [cs cs' (j & d & d' & Hj & Hl & ->)|cs [j t] rq r Hw
    |cs cs' [j t] rq Hw (d & Hj & (d' & Hex & ->)%fmap_Some)%bind_Some]; cbn in *.
  - destruct (decide (j = i)) as [->|Hne].
    + exists d'. rewrite list_lookup_insert_eq by by eapply lookup_lt_Some. split; [done|].
      right. simplify_eq. by constructor.
    + exists c. rewrite list_lookup_insert_ne by done. split; [done|by left].
  - destruct (decide (j = i)) as [->|Hne].
    + rewrite Hi in Hw. cbn in Hw. exists (fe_resume c t r). rewrite list_lookup_alter_eq, Hi.
      split; [done|]. right. by econstructor.
    + exists c. rewrite list_lookup_alter_ne by done. split; [done|by left].
  - destruct (decide (j = i)) as [->|Hne].
    + exists d'. rewrite list_lookup_insert_eq by by eapply lookup_lt_Some. split; [done|].
      right. simplify_eq. cbn in Hw. rewrite Hj in Hw. by eapply fe_step_expire.
    + exists c. rewrite list_lookup_insert_ne by done. split; [done|by left].
Qed.

(** A part of a frontend makes at most the steps of the whole. *)
Lemma project_steps {A B} (R : A -> A -> Prop) (Q : B -> B -> Prop) (part : A -> B -> Prop) n a a' b :
  (forall a a' b, R a a' -> part a b -> exists b', part a' b' /\ (b' = b \/ Q b b')) ->
  nsteps R n a a' -> part a b -> exists m b', m <= n /\ part a' b' /\ nsteps Q m b b'.
Proof.
  intros Hpart. induction 1 as [a|n a1 a2 a3 H12 _ IH] in b |- *; intros Hb.
  { exists 0, b. split_and!; [lia|done|constructor]. }
  destruct (Hpart _ _ _ H12 Hb) as (b2 & Hb2 & [->|Hs]); destruct (IH _ Hb2) as (m & b3 & Hm & Hb3 & Hn).
  - exists m, b3. split_and!; [lia|done..].
  - exists (S m), b3. split_and!; [lia|done|by econstructor].
Qed.

(** ** The invariants of the frontends in the running program *)
Context {fuse_order : IterOrder N bytes} {Peer L Trie : Type}.
Variable default_attrs : FileAttributes.
Variable decode : bytes -> option Packet.
Variable encodes : Packet -> bool.
Variable full : list dirent -> dirent -> bool.
Variable at_path : Trie -> bytes -> result (RouteMeta * list (bytes * bytes)) bytes.
Variable trie : Trie.
Variable config : WorkerConfig.
Variable new_lua : option L.
Variable call : L -> HandlerRequest -> L * result HandlerResponse bytes.
Variable returns : L -> HandlerRequest -> bool.
Abbreviation step := (sys_step at_path trie config new_lua call returns).

(** The 9P servers on streams (a socket, TCP or TLS), each with its connections,
    and on UDP; the FUSE mounts, each with its threads; and the SFTP connections. *)
Definition Frontends : Type :=
  list ninep_server * (list (udp_server Peer) * (list fuse_mount * list (list sftp_connection))).

Definition servers_of (f : Frontends) := fst f.
Definition udp_servers_of (f : Frontends) := fst (snd f).
Definition mounts_of (f : Frontends) := fst (snd (snd f)).

Definition on_stream (x : frontend) : bool :=
  match x with StartSocket _ | StartTcp _ _ | StartTls _ _ _ => true | _ => false end.
Definition on_udp (x : frontend) : bool := match x with StartUdp _ => true | _ => false end.
Definition on_fuse (x : frontend) : bool := match x with StartFuse _ => true | _ => false end.
Definition on_ssh (x : frontend) : bool := match x with StartSshfs _ _ => true | _ => false end.

(** What the clients do with the [i]-th frontend of a kind: the messages of each
    connection, the datagrams, the operations of each thread of the kernel, and
    the bytes on each SFTP channel. *)
Record Clients := mkClients {
  cl_messages : nat -> list (list (N * N * bytes));
  cl_datagrams : nat -> list (Peer * bytes);
  cl_operations : nat -> list (list operation);
  cl_channels : nat -> list bytes;
}.

Definition frontends_start (fs : list frontend) (cl : Clients) : Frontends :=
  (imap (fun i _ => (new_shared 8192, serve_messages now <$> cl_messages cl i)) (List.filter on_stream fs),
   (imap (fun i _ => (new_shared 65536, [serve_udp now (cl_datagrams cl i)])) (List.filter on_udp fs),
    (imap (fun i _ => (new_fuse, perform_all full <$> cl_operations cl i)) (List.filter on_fuse fs),
     imap (fun i _ => (fun input => (new_handles, [sftp_loop default_attrs decode encodes input])) <$> cl_channels cl i)
       (List.filter on_ssh fs)))).

Lemma procs_steps {St Rp M E A} `{Replies Rp} n (c c' : Proc.pool St Request Rp M E A) :
  nsteps fe_step n c c' -> nsteps Proc.step n c c'.
Proof. induction 1; [constructor|]. econstructor; [by apply procs_step|done]. Qed.

(** What a part of the frontends goes through. *)
Definition is_part {X TX} `{Frontend X TX} (sel : Frontends -> list X) : Prop :=
  forall f f', fe_step f f' -> sel f' = sel f \/ fe_step (sel f) (sel f').

Lemma servers_part : is_part servers_of.
Proof. intros f f' Hs. apply (fe_step_both _ _ Hs). Qed.

Lemma others_part (f f' : Frontends) : fe_step f f' -> snd f' = snd f \/ fe_step (snd f) (snd f').
Proof. intros Hs. apply (fe_step_both f f' Hs). Qed.

Lemma udp_part : is_part udp_servers_of.
Proof.
  intros f f' [E|Hs]%others_part; [left; unfold udp_servers_of; by rewrite E|]. apply (fe_step_both _ _ Hs).
Qed.

Lemma mounts_part : is_part mounts_of.
Proof.
  unfold mounts_of. intros f f' [E|Hs]%others_part; [left; by rewrite E|].
  destruct (proj2 (fe_step_both _ _ Hs)) as [E|Hs']; [left; by rewrite E|]. apply (fe_step_both _ _ Hs').
Qed.

Lemma part_run {St M E A} (sel : Frontends -> list (Proc.pool St Request route_reply M E A)) n f s i c0 :
  is_part sel -> nsteps step n (sys_start config f) s -> sel f !! i = Some c0 ->
  exists m c, m <= n /\ sel (s_front s) !! i = Some c /\ nsteps Proc.step m c0 c.
Proof.
  intros Hsel Hs Hi. destruct (program_refines_frontends _ _ _ _ _ _ _ _ _ Hs) as (k & Hk & Hfront).
  assert (Hpart : forall f f' c, fe_step f f' -> sel f !! i = Some c ->
    exists c', sel f' !! i = Some c' /\ (c' = c \/ fe_step c c')).
  { intros f1 f2 c [Heq|Hf]%Hsel Hc; [exists c; rewrite Heq; by split; [|left]|]. by apply (fe_step_list _ _ _ _ Hf). }
  destruct (project_steps fe_step fe_step (fun f c => sel f !! i = Some c) k _ _ c0 Hpart Hfront Hi)
    as (m & c & Hm & Hc & Hrun).
  exists m, c. split_and!; [lia|done|by apply procs_steps].
Qed.

(** C3: In the running program, with whatever frontends the script asked for and
    whatever their clients do, the session state of every 9P server, on a stream
    or on UDP, is well formed at every point of every schedule: its message size is
    within bounds, its qids are below the counter, and every fid has a known
    qid. *)
Theorem program_sessions_wf n fs cl s :
  (N.of_nat n < 2 ^ 64 - 1)%N ->
  nsteps step n (sys_start config (frontends_start fs cl)) s ->
  (forall i x, List.filter on_stream fs !! i = Some x ->
     exists c, servers_of (s_front s) !! i = Some c /\ session_wf (fst c)) /\
  (forall i x, List.filter on_udp fs !! i = Some x ->
     exists c, udp_servers_of (s_front s) !! i = Some c /\ session_wf (fst c)).
Proof.
  intros Hn Hs. split; intros i x Hi.
  - destruct (part_run servers_of _ _ _ i (new_shared 8192, serve_messages now <$> cl_messages cl i) servers_part Hs)
      as (m & c & Hm & Hc & Hrun); [cbn; by rewrite list_lookup_imap, Hi|].
    exists c. split; [done|]. eapply session_state_wf; [| |exact Hrun]; lia.
  - destruct (part_run udp_servers_of _ _ _ i (new_shared 65536, [serve_udp now (cl_datagrams cl i)]) udp_part Hs)
      as (m & c & Hm & Hc & Hrun); [cbn; by rewrite list_lookup_imap, Hi|].
    exists c. split; [done|]. eapply udp_session_wf; [| |exact Hrun]; lia.
Qed.

(** C9: And the inode table of every FUSE mount is well formed: inode 1 is the root
    and every inode with a path was handed out by the counter. *)
Theorem program_inodes_wf n fs cl s i x :
  (N.of_nat n < 2 ^ 64 - 3)%N ->
  Forall (Forall (fun op => valid_op op /\ named_op op)) (cl_operations cl i) ->
  nsteps step n (sys_start config (frontends_start fs cl)) s -> List.filter on_fuse fs !! i = Some x ->
  exists c, mounts_of (s_front s) !! i = Some c /\ fuse_wf (fst c).
Proof.
  intros Hn Hops Hs Hi.
  destruct (part_run mounts_of _ _ _ i (new_fuse, perform_all full <$> cl_operations cl i) mounts_part Hs)
    as (m & c & Hm & Hc & Hrun); [cbn; by rewrite list_lookup_imap, Hi|].
  exists c. split; [done|]. eapply fuse_table_wf; [| | |exact Hrun]; [lia|..];
    (eapply Forall_impl; [exact Hops|]; intros ops Ho; by eapply Forall_impl; [exact Ho|]; intros ? []).
Qed.
End frontends.

(** * What the frontends get *)
Section answers.
Context {F Trie L C T : Type} {ord : IterOrder bytes RouteMeta} `{Frontend C T}.
Variable trie_new : Trie.
Variable trie_insert : Trie -> bytes -> RouteMeta -> result Trie bytes.
Variable parse_script : bytes -> script F.
Variable quoted : bytes -> result bytes bytes.
Variable apply : F -> L -> gmap bytes bytes -> option bytes -> L * result bytes bytes.
Variable at_path : Trie -> bytes -> result (RouteMeta * list (bytes * bytes)) bytes.
Variable returns : L -> HandlerRequest -> bool.

(** The Lua state of a worker after some requests. *)
Definition lua_state_after (rt : HandlerRuntime F) (l0 : L) (hist : list HandlerRequest) : L :=
  fold_left (fun l hreq => fst (call_lua apply rt l hreq)) hist l0.

(** The requests of a list that the router hands on. *)
Abbreviation handed := (fun sys reqs => omap (forwarded at_path (sys_trie sys)) reqs).

(** The reply of the script to a request after the requests [before]. *)
Definition script_reply (sys : Main.System (F := F) (Trie := Trie)) (rt : HandlerRuntime F) (l0 : L)
    (before : list Request) (req : Request) (r : route_reply) : Prop :=
  match at_path (sys_trie sys) (req_path req) with
  | Err e => r = Replied (Err (no_route_msg (req_path req) e))
  | Ok (meta, ps) =>
      let children := probe_children at_path (sys_trie sys) (req_path req) (rm_pattern meta) in
      match func_in_force (registrations (sys_script sys)) (rm_pattern meta) (req_op req) with
      | None => r = Replied (Err (no_handler_msg (req_path req) (req_op req)))
      | Some f =>
          if children && file_op (req_op req) then r = Replied (Err (directory_msg (req_path req)))
          else
            r = Replied (Err (str "handler did not respond")) \/
            r = Replied (Err (str "no workers available")) \/
            exists hist, hist `sublist_of` handed sys before /\
              let data := if is_empty (req_data req) then None else Some (req_data req) in
              r = Replied (match snd (apply f (lua_state_after rt l0 hist) (collect_params ps) data) with
                           | Ok s => Ok (mkHandlerResponse s (Some (rm_pattern meta)) children)
                           | Err e => Err (str "Lua handler error: " ++ e)
                           end)
      end
  end.

(** C1: End to end, for the running program and any frontends: whatever the script
    is, the workers can load it, and every reply a frontend gets at any point of
    any schedule is the return value (or the error) of the Lua function that the
    script registered last for the matched pattern and the operation, else for
    all operations, called with the path's parameters and the payload in a Lua
    state that served some of the requests answered before, in order; a path
    without a route, a route without such a function, a file operation on a
    directory, a dropped request and an empty pool get their errors. *)
Theorem program_answers_requests p orig sys l0 f s :
  main trie_new trie_insert parse_script quoted p orig = Running sys ->
  trie_sound trie_new trie_insert at_path ->
  exists rt, from_bytecodes (sys_script sys) = Ok rt /\
    (rtc (sys_step at_path (sys_trie sys) (sys_workers sys) (Some l0) (call_lua apply rt) returns)
       (sys_start (sys_workers sys) f) s ->
     forall k t req r, s_log s !! k = Some (t, req, r) ->
       script_reply sys rt l0 (logged (take k (s_log s))) req r).
Proof.
  intros Hm Hsound. destruct (main_table _ _ _ _ _ _ _ _ Hm Hsound) as (cfg & rs & rt & Hc & Hrt & Htable).
  exists rt. split; [done|]. intros Hs%sys_reachable_wf k t req r Hk.
  pose proof (sw_answers _ _ _ _ _ _ _ Hs k t req r Hk) as Ha. unfold answers in Ha. unfold script_reply.
  destruct (at_path (sys_trie sys) (req_path req)) as [[meta ps]|e] eqn:Hat.
  2:{ unfold route_request in Ha. by rewrite Hat in Ha. }
  pose proof (request_routed apply _ _ _ _ _ _ _ _ _ _ _ Hc Hrt Hat (Htable _ _ _ Hat)) as Hroute.
  cbn zeta in *. destruct (func_in_force _ _ _) as [fn|]; [|by rewrite Hroute in Ha].
  destruct (_ && _); [by rewrite Hroute in Ha|]. destruct Hroute as (hreq & Hroute & Hcall).
  rewrite Hroute in Ha. destruct Ha as (h & [->|[->|(hist & a & Hh & Hlua & ->)]] & ->); [by left|by right; left|].
  right; right. exists hist. split; [done|]. cbn in Hlua. rewrite Hcall in Hlua. injection Hlua as <-.
  unfold func_reply, lua_state_after. by destruct (apply _ _ _ _) as [l' [v|e]].
Qed.
End answers.

(** * The theorems at a concrete program *)
Module ProgramExample.
Abbreviation step := (sys_step exact_at SystemExample.trie PoolExample.config (Some 0) PoolExample.call PoolExample.returns).
Definition decode (raw : bytes) : option Packet := None.
Definition encodes (packet : Packet) : bool := true.
Definition attrs : FileAttributes := mkFileAttributes None None.
(** A 9P server with two connections, a UDP server that receives an attach, and a
    FUSE mount with one thread. *)
Definition datagram : bytes := send_reply TATTACH 1 (u32_le 5 ++ u32_le 0).
Definition fs : list frontend := [StartUdp (str "0:9"); StartFuse (str "/mnt"); StartSocket (str "/tmp/a")].
Definition clients : Clients :=
  mkClients (fun _ => [[InvExample.attach]; [InvExample.flush]]) (fun _ => [(tt, datagram)])
    (fun _ => [[OpCreate 1 (str "f")]]) (fun _ => []).
Definition start := sys_start (T := nat * nat + (nat * nat + (nat * nat + nat * (nat * nat)))) (L := nat) PoolExample.config
  (frontends_start (ord := default_order) (fuse_order := default_order) 0 attrs decode encodes FuseExample.full
     fs clients).

Lemma local_first {C1 T1 C2 T2} `{Frontend C1 T1, Frontend C2 T2} (c c' : C1) (d : C2) :
  fe_local c c' -> fe_local (c, d) (c', d).
Proof. by left. Qed.

Lemma local_second {C1 T1 C2 T2} `{Frontend C1 T1, Frontend C2 T2} (c : C1) (d d' : C2) :
  fe_local d d' -> fe_local (c, d) (c, d').
Proof. by right. Qed.

Lemma local_at {C T} `{Frontend C T} (cs : list C) i c c' :
  cs !! i = Some c -> fe_local c c' -> fe_local cs (<[i := c']> cs).
Proof. intros Hi Hl. by exists i, c, c'. Qed.

Ltac process_step := eapply (procs_local_at _ _ 0); [reflexivity|reflexivity|vm_compute; apply act_lock].

(** The first steps of the servers; and the steps of the mount. *)
Lemma server_steps : exists s, nsteps step 2 start s /\
  (servers_of (s_front s) !! 0 ≫= fun c => fids (fst c) !! 5%N) = Some (mkFidEntry 0 (str "/") false true) /\
  (udp_servers_of (s_front s) !! 0 ≫= fun c => fids (fst c) !! 5%N) = Some (mkFidEntry 0 (str "/") false true).
Proof.
  eexists. split.
  - eapply nsteps_l; [eapply sys_local, local_first, (local_at _ 0); [reflexivity|process_step]|].
    eapply nsteps_l; [|apply nsteps_O].
    eapply sys_local, local_second, local_first, (local_at _ 0); [reflexivity|process_step].
  - split; vm_compute; reflexivity.
Qed.

Lemma mount_steps : exists s, nsteps step 3 start s /\
  (mounts_of (s_front s) !! 0 ≫= fun c => ino_paths (fst c) !! 2%N) = Some (str "/f").
Proof.
  eexists. split.
  - do 3 (eapply nsteps_l;
      [eapply sys_local, local_second, local_second, local_first, (local_at _ 0); [reflexivity|process_step]|]).
    apply nsteps_O.
  - vm_compute. reflexivity.
Qed.

(** A task that reads [/a], in the program of [MainExample]. *)
Definition request : Request := mkRequest Read (str "/a") (str "x").
Definition reader : Proc.pool unit Request route_reply unit unit unit := (tt, [Call request (fun _ => Ret tt)]).
Definition reply : route_reply := Replied (Ok (mkHandlerResponse (str "fx") (Some (str "/a")) false)).

Abbreviation main_step := (sys_step exact_at (sys_trie MainExample.at_root) (sys_workers MainExample.at_root)
  (Some 0) (call_lua HandlerExample.apply HandlerExample.rt) PoolExample.returns).

Lemma reads :
  exists s, nsteps main_step 7 (sys_start (sys_workers MainExample.at_root) reader) s /\
    s_log s = [(Some 0, request, reply)].
Proof.
  destruct (first_request_served exact_at (sys_trie MainExample.at_root) (sys_workers MainExample.at_root) (Some 0)
    (call_lua HandlerExample.apply HandlerExample.rt) PoolExample.returns reader 0 request
    (mkHandlerRequest ∅ (str "x") (str "__route_1")) (str "/a") false 0) as (s & Hs & _ & Hl);
    [reflexivity|vm_compute; reflexivity|reflexivity|discriminate|reflexivity|].
  exists s. split; [exact Hs|]. rewrite Hl. vm_compute. reflexivity.
Qed.
End ProgramExample.

Lemma program_sessions_wf_witness :
  exists s c c', nsteps ProgramExample.step 2 ProgramExample.start s /\
    servers_of (s_front s) !! 0 = Some c /\ session_wf (fst c) /\
    udp_servers_of (s_front s) !! 0 = Some c' /\ session_wf (fst c') /\
    fids (fst c') !! 5%N = Some (mkFidEntry 0 (str "/") false true).
Proof.
  destruct ProgramExample.server_steps as (s & Hs & _ & Hf).
  destruct (program_sessions_wf (ord := default_order) (fuse_order := default_order) 0 ProgramExample.attrs
    ProgramExample.decode ProgramExample.encodes FuseExample.full exact_at SystemExample.trie PoolExample.config (Some 0)
    PoolExample.call PoolExample.returns 2 ProgramExample.fs ProgramExample.clients s eq_refl Hs) as [H1 H2].
  destruct (H1 0 _ eq_refl) as (c & Hc & Hwf). destruct (H2 0 _ eq_refl) as (c' & Hc' & Hwf').
  exists s, c, c'. rewrite Hc' in Hf. split_and!; [exact Hs|exact Hc|exact Hwf|exact Hc'|exact Hwf'|exact Hf].
Defined.

Lemma program_inodes_wf_witness :
  exists s c, nsteps ProgramExample.step 3 ProgramExample.start s /\
    mounts_of (s_front s) !! 0 = Some c /\ fuse_wf (fst c) /\ ino_paths (fst c) !! 2%N = Some (str "/f").
Proof.
  destruct ProgramExample.mount_steps as (s & Hs & Hf). exists s.
  destruct (program_inodes_wf (ord := default_order) (fuse_order := default_order) 0 ProgramExample.attrs
    ProgramExample.decode ProgramExample.encodes FuseExample.full exact_at SystemExample.trie PoolExample.config (Some 0)
    PoolExample.call PoolExample.returns 3 ProgramExample.fs ProgramExample.clients s 0 _ eq_refl ltac:(repeat constructor) Hs eq_refl)
    as (c & Hc & Hwf).
  exists c. rewrite Hc in Hf. split_and!; [exact Hs|exact Hc|exact Hwf|exact Hf].
Defined.

Lemma program_answers_requests_witness :
  exists rt s, from_bytecodes HandlerExample.main = Ok rt /\
    rtc ProgramExample.main_step (sys_start (sys_workers MainExample.at_root) ProgramExample.reader) s /\
    s_log s !! 0 = Some (Some 0, ProgramExample.request, ProgramExample.reply) /\
    script_reply HandlerExample.apply exact_at MainExample.at_root rt 0 [] ProgramExample.request ProgramExample.reply.
Proof.
  destruct ProgramExample.reads as (s & Hs & Hl). apply rtc_nsteps_2 in Hs.
  destruct (program_answers_requests (ord := default_order) ∅ MainExample.insert MainExample.parse_script
    RuntimeExample.quoted HandlerExample.apply exact_at PoolExample.returns (MainExample.process (str "main.lua")) (str "./?.lua")
    MainExample.at_root 0 ProgramExample.reader s MainExample.runs_at_root MainExample.table_sound)
    as (rt & Hrt & Hreply).
  assert (E : rt = HandlerExample.rt) by (pose proof HandlerExample.loads; cbn in Hrt; congruence).
  assert (Hk : s_log s !! 0 = Some (Some 0, ProgramExample.request, ProgramExample.reply))
    by (rewrite Hl; reflexivity).
  exists rt, s. split_and!; [exact Hrt|exact Hs|exact Hk|]. rewrite E in Hreply |- *. exact (Hreply Hs 0 _ _ _ Hk).
Defined.
