(* ===== verification/Lifecycle.v ===== *)
(** The life of the program's tasks ([src/src/main.rs]): the frontends it
    starts, the socket files of the 9P servers on Unix sockets ([serve] and
    [SocketCleanup] of [src/src/frontend/ninep.rs]), the FUSE mounts, and the
    shutdown after an interrupt.

    The router task ends only when no sender of requests is left, and [main] holds
    one while it waits; what the servers do between start and end is that of the
    other files. *)
From S2P Require Import Prelude RustStr SshAuth Main.

(** * State *)

(** A server's task: spawned; past the removal of a stale socket; serving; and
    ended, its future dropped. *)
Inductive task_phase := Spawned | Unlinked | Serving | Finished.

Record task := mkTask { t_frontend : frontend; t_phase : task_phase }.

Inductive main_phase := Waiting | Cleaning | Exited.

#[export] Instance task_phase_eq_dec : EqDecision task_phase.
Proof. solve_decision. Defined.
#[export] Instance main_phase_eq_dec : EqDecision main_phase.
Proof. solve_decision. Defined.

(** [l_files] are the entries of the directories the sockets are in; [l_sessions]
    the mounts [main] holds. *)
Record Life := mkLife {
  l_main : main_phase;
  l_tasks : list task;
  l_files : gset bytes;
  l_sessions : list bytes;
}.

Definition socket_path (x : frontend) : option bytes :=
  match x with StartSocket path => Some path | _ => None end.

Definition mount_path (x : frontend) : option bytes :=
  match x with StartFuse path => Some path | _ => None end.

(** Every frontend but a FUSE mount is a task; one with a complaint only prints
    it. *)
Definition tasks_of (fs : list frontend) : list task :=
  map (fun x => mkTask x Spawned) (List.filter (fun x => bool_decide (mount_path x = None)) fs).

(** * The tasks of the servers *)

(** [SocketCleanup::drop], where the task holds one. *)
Definition drop_guard (t : task) (files : gset bytes) : gset bytes :=
  match t_phase t, socket_path (t_frontend t) with
  | Serving, Some path => files ∖ {[path]}
  | _, _ => files
  end.

(** The future of a task is dropped, by its end or by [abort]. *)
Definition drop_task (t : task) (files : gset bytes) : task * gset bytes :=
  (mkTask (t_frontend t) Finished, drop_guard t files).

(** What a task does with the files.  Removing a stale socket may fail, binding
    fails when there is a file, or for another reason, and a server ends when
    [accept] fails. *)
Inductive server_step : task -> gset bytes -> task -> gset bytes -> Prop :=
| task_unlink path files files' :
    files' = files ∖ {[path]} \/ files' = files ->
    server_step (mkTask (StartSocket path) Spawned) files (mkTask (StartSocket path) Unlinked) files'
| task_bind path files :
    path ∉ files ->
    server_step (mkTask (StartSocket path) Unlinked) files (mkTask (StartSocket path) Serving) ({[path]} ∪ files)
| task_serve x files :
    socket_path x = None -> server_step (mkTask x Spawned) files (mkTask x Serving) files
| task_bind_fails path files :
    let t := mkTask (StartSocket path) Unlinked in
    server_step t files (fst (drop_task t files)) (snd (drop_task t files))
| task_start_fails x files :
    socket_path x = None ->
    let t := mkTask x Spawned in
    server_step t files (fst (drop_task t files)) (snd (drop_task t files))
| task_accept_fails x files :
    let t := mkTask x Serving in
    server_step t files (fst (drop_task t files)) (snd (drop_task t files)).

(** * The program *)
Section lifecycle.
Variable fs : list frontend.
Variable files0 : gset bytes.

(** The mounts are made before [main] waits; each may fail.  The interrupt aborts
    every task and unmounts; [main] returns, and with the runtime every task that
    is left is dropped. *)
Definition life_start (mounted : list bytes) : Life := mkLife Waiting (tasks_of fs) files0 mounted.

Inductive life_step : Life -> Life -> Prop :=
| life_task m ts files ss i t t' files' :
    ts !! i = Some t -> server_step t files t' files' ->
    life_step (mkLife m ts files ss) (mkLife m (<[i := t']> ts) files' ss)
| life_sigint ts files ss :
    life_step (mkLife Waiting ts files ss) (mkLife Cleaning ts files [])
| life_drop ts files ss i t :
    ts !! i = Some t -> t_phase t <> Finished ->
    life_step (mkLife Cleaning ts files ss)
      (mkLife Cleaning (<[i := fst (drop_task t files)]> ts) (snd (drop_task t files)) ss)
| life_exit ts files :
    Forall (fun t => t_phase t = Finished) ts ->
    life_step (mkLife Cleaning ts files []) (mkLife Exited ts files []).

(** * Invariant *)

(** The sockets that are served. *)
Definition serving (t : task) : option bytes :=
  match t_phase t with Serving => socket_path (t_frontend t) | _ => None end.

Record life_wf (s : Life) : Prop := {
  lf_tasks : map t_frontend (l_tasks s) = map t_frontend (tasks_of fs);
  lf_files p : p ∈ l_files s -> p ∈ files0 \/ exists t, t ∈ l_tasks s /\ serving t = Some p;
  lf_bound p t : NoDup (omap socket_path fs) -> t ∈ l_tasks s -> serving t = Some p -> p ∈ l_files s;
  lf_sessions : l_main s <> Waiting -> l_sessions s = [];
  lf_exited : l_main s = Exited -> Forall (fun t => t_phase t = Finished) (l_tasks s);
}.

Lemma life_start_wf mounted : life_wf (life_start mounted).
Proof.
  split; cbn; try done; [by left|].
  intros p t _ Hin. unfold tasks_of in Hin. apply list_elem_of_fmap in Hin as (x & -> & _). done.
Qed.

(** The sockets of the tasks are those of the frontends. *)
Lemma tasks_sockets : omap (fun t => socket_path (t_frontend t)) (tasks_of fs) = omap socket_path fs.
Proof.
  unfold tasks_of. induction fs as [|x l IH]; [done|]. cbn [List.filter].
  destruct x; cbn; unfold omap in *; by rewrite ?IH.
Qed.

Lemma omap_NoDup_inj {A B} (f : A -> option B) l i j a b p :
  NoDup (omap f l) -> l !! i = Some a -> l !! j = Some b -> f a = Some p -> f b = Some p -> i = j.
Proof.
  induction l as [|x l IH] in i, j |- *; [done|]. intros Hnd Hi Hj Ha Hb.
  assert (Hin : forall k c, l !! k = Some c -> f c = Some p -> p ∈ omap f l).
  { intros k c Hk Hc. apply list_elem_of_omap. exists c. split; [|done]. by eapply list_elem_of_lookup_2. }
  cbn in Hnd. unfold omap in Hin. destruct i as [|i], j as [|j]; cbn in Hi, Hj; simplify_eq; [done|..].
  - rewrite Ha in Hnd. apply NoDup_cons in Hnd as [[] _]. by eapply Hin.
  - rewrite Hb in Hnd. apply NoDup_cons in Hnd as [[] _]. by eapply Hin.
  - f_equal. destruct (f x); [apply NoDup_cons in Hnd as [_ Hnd]|]; by eapply IH.
Qed.

(** Two tasks on one socket are one. *)
Lemma same_socket ts i j t1 t2 p :
  map t_frontend ts = map t_frontend (tasks_of fs) -> NoDup (omap socket_path fs) ->
  ts !! i = Some t1 -> ts !! j = Some t2 ->
  socket_path (t_frontend t1) = Some p -> socket_path (t_frontend t2) = Some p -> i = j.
Proof.
  intros Ht Hnd. rewrite <-tasks_sockets in Hnd.
  assert (E : forall l : list task, omap (fun t => socket_path (t_frontend t)) l = omap socket_path (map t_frontend l)).
  { induction l as [|x l IH]; [done|]. cbn. destruct (socket_path (t_frontend x)); [f_equal|]; exact IH. }
  rewrite E, <-Ht, <-E in Hnd. intros. by eapply (omap_NoDup_inj (fun t => socket_path (t_frontend t))).
Qed.

(** What the step of a task, or its end, does to the files. *)
Record task_moves (t : task) (files : gset bytes) (t' : task) (files' : gset bytes) : Prop := {
  tm_frontend : t_frontend t' = t_frontend t;
  tm_other p : p ∈ files' -> p ∈ files \/ serving t' = Some p;
  tm_kept p : p ∈ files -> p ∉ files' -> socket_path (t_frontend t) = Some p;
  tm_left p : serving t = Some p -> serving t' <> Some p -> p ∉ files';
  tm_serves p : serving t' = Some p -> p ∈ files';
}.

Lemma drop_moves t files : task_moves t files (fst (drop_task t files)) (snd (drop_task t files)).
Proof.
  split; try done; cbn; unfold drop_guard, serving.
  - intros p. destruct (t_phase t), (socket_path (t_frontend t)); set_solver.
  - intros p. destruct (t_phase t), (socket_path (t_frontend t)) as [q|] eqn:E; try done. intros Hp Hn.
    destruct (decide (p = q)) as [->|]; [done|]. set_solver.
  - intros p. destruct (t_phase t); try done. intros -> _. set_solver.
Qed.

Lemma server_step_moves t files t' files' : server_step t files t' files' -> task_moves t files t' files'.
Proof.
  destruct 1 as [path files files' Hf|path files Hni|x files Hx|path files t|x files Hx t|x files t];
    try apply drop_moves; split; try done; cbn; unfold serving; cbn; rewrite ?Hx; try done.
  - intros p Hp. left. destruct Hf as [->| ->]; set_solver.
  - intros p Hp Hn. destruct Hf as [->| ->]; [|done].
    destruct (decide (p = path)) as [->|]; [done|]. set_solver.
  - intros p [->%elem_of_singleton|Hp]%elem_of_union; [by right|by left].
  - intros p Hp []. set_solver.
  - intros p [= ->]. set_solver.
  - by left.
Qed.

Lemma life_move_wf m ts files ss i t t' files' :
  ts !! i = Some t -> task_moves t files t' files' -> m <> Exited ->
  life_wf (mkLife m ts files ss) -> life_wf (mkLife m (<[i := t']> ts) files' ss).
Proof.
  intros Hi Hm Hne [Ht Hf Hb Hs _]. cbn in *. pose proof (lookup_lt_Some _ _ _ Hi) as Hlt.
  assert (Hself : t' ∈ <[i := t']> ts).
  { apply (list_elem_of_lookup_2 _ i). by apply list_lookup_insert_eq. }
  split; try done; cbn.
  - rewrite <-Ht. change (t_frontend <$> <[i := t']> ts = t_frontend <$> ts).
    rewrite list_fmap_insert, (tm_frontend _ _ _ _ Hm).
    apply list_insert_id. by rewrite list_lookup_fmap, Hi.
  - intros p Hp. destruct (tm_other _ _ _ _ Hm p Hp) as [Hold|Hsv]; [|by right; exists t'].
    destruct (Hf p Hold) as [|(u & Hu & Hsu)]; [by left|]. right.
    apply list_elem_of_lookup in Hu as [j Hj]. destruct (decide (j = i)) as [->|Hji].
    + simplify_eq. exists t'. split; [done|]. destruct (decide (serving t' = Some p)) as [|Hno]; [done|].
      destruct (tm_left _ _ _ _ Hm p Hsu Hno). done.
    + exists u. split; [|done]. apply (list_elem_of_lookup_2 _ j). by rewrite list_lookup_insert_ne.
  - intros p u Hnd Hu Hsu. apply list_elem_of_lookup in Hu as [j Hj]. destruct (decide (j = i)) as [->|Hji].
    + rewrite list_lookup_insert_eq in Hj by done. simplify_eq.
      exact (tm_serves _ _ _ _ Hm p Hsu).
    + rewrite list_lookup_insert_ne in Hj by done.
      assert (Hp : p ∈ files) by (apply (Hb p u); [done|by eapply list_elem_of_lookup_2|done]).
      destruct (decide (p ∈ files')) as [|Hno]; [done|]. exfalso. apply Hji.
      eapply same_socket; [exact Ht|done|exact Hj|exact Hi| |exact (tm_kept _ _ _ _ Hm p Hp Hno)].
      unfold serving in Hsu. by destruct (t_phase u).
Qed.
Lemma life_step_wf s s' : life_step s s' -> life_wf s -> life_wf s'.
Proof.
  destruct 1 as [m ts files ss i t t' files' Hi Ht|ts files ss|ts files ss i t Hi Hp|ts files Hfin]; intros Hwf.
  - destruct (decide (m = Exited)) as [->|Hne].
    + exfalso. pose proof (lf_exited _ Hwf eq_refl) as Hex. cbn in Hex.
      rewrite Forall_lookup in Hex. specialize (Hex _ _ Hi). by destruct Ht.
    + eapply life_move_wf; [exact Hi|by apply server_step_moves|done|exact Hwf].
  - destruct Hwf as [Ht Hf Hb _ _]. by split.
  - eapply life_move_wf; [exact Hi|by apply drop_moves|done|exact Hwf].
  - destruct Hwf as [Ht Hf Hb Hs _]. by split.
Qed.

Lemma life_reachable_wf mounted s : rtc life_step (life_start mounted) s -> life_wf s.
Proof.
  intros Hs. pose proof (life_start_wf mounted) as H0. revert Hs H0. generalize (life_start mounted).
  induction 1 as [|s1 s2 s3 H12 _ IH]; [done|]. intros Hwf. by eapply IH, life_step_wf.
Qed.

(** The tasks that are left are dropped one after the other. *)
Lemma drop_all done_ts ts files :
  Forall (fun t => t_phase t = Finished) done_ts ->
  exists ts' files', rtc life_step (mkLife Cleaning (done_ts ++ ts) files []) (mkLife Cleaning ts' files' []) /\
    Forall (fun t => t_phase t = Finished) ts'.
Proof.
  revert done_ts files. induction ts as [|t ts IH]; intros done_ts files Hd.
  { exists done_ts, files. by rewrite app_nil_r. }
  assert (Hnext : forall t' files', t_phase t' = Finished -> exists ts' files'',
    rtc life_step (mkLife Cleaning (done_ts ++ t' :: ts) files' []) (mkLife Cleaning ts' files'' []) /\
    Forall (fun t => t_phase t = Finished) ts').
  { intros t' files' Ht'. destruct (IH (done_ts ++ [t']) files') as (ts' & files'' & Hr & Hf).
    - apply Forall_app. by repeat constructor.
    - exists ts', files''. by rewrite <-app_assoc in Hr. }
  destruct (decide (t_phase t = Finished)) as [Ht|Ht]; [by apply Hnext|].
  destruct (Hnext (fst (drop_task t files)) (snd (drop_task t files)) eq_refl) as (ts' & files' & Hr & Hf).
  exists ts', files'. split; [|done]. eapply rtc_l; [|exact Hr].
  replace (done_ts ++ fst (drop_task t files) :: ts)
    with (<[length done_ts + 0 := fst (drop_task t files)]> (done_ts ++ t :: ts)) by exact (insert_app_r done_ts (t :: ts) 0 _).
  apply life_drop; [|done]. rewrite Nat.add_0_r. by apply list_lookup_middle.
Qed.

(** * Theorems *)

(** C38: While a 9P server on a Unix socket serves, its socket is in the file system
    (unless another listener has the same path), whatever the other servers do;
    after an interrupt the program can always end, and when it has ended every
    server's task is dropped, nothing is mounted, and it leaves no file behind that
    was not there before. *)
Theorem program_leaves_no_socket mounted s :
  rtc life_step (life_start mounted) s ->
  (forall p t, NoDup (omap socket_path fs) -> t ∈ l_tasks s -> serving t = Some p -> p ∈ l_files s) /\
  (l_main s <> Exited -> exists s', rtc life_step s s' /\ l_main s' = Exited) /\
  (l_main s = Exited ->
     l_files s ⊆ files0 /\ l_sessions s = [] /\ Forall (fun t => t_phase t = Finished) (l_tasks s)).
Proof.
  intros Hs%life_reachable_wf. split_and!; [apply Hs| |].
  - intros Hne. destruct s as [m ts files ss]. assert (Hend : exists s',
      rtc life_step (mkLife Cleaning ts files []) s' /\ l_main s' = Exited).
    { destruct (drop_all [] ts files (Forall_nil_2 _)) as (ts' & files' & Hr & Hf).
      eexists. split; [eapply rtc_r; [exact Hr|by apply life_exit]|done]. }
    destruct m; [| |done]; [|by rewrite <-(lf_sessions _ Hs ltac:(done)) in Hend].
    destruct Hend as (s' & Hr & He). exists s'. split; [|done]. eapply rtc_l; [apply life_sigint|exact Hr].
  - intros Hex. pose proof (lf_exited _ Hs Hex) as Hfin. split_and!; [|apply Hs; by rewrite Hex|done].
    intros p [Hp|(t & Ht & Hsv)]%(lf_files _ Hs); [done|]. exfalso.
    rewrite Forall_forall in Hfin. specialize (Hfin _ Ht). unfold serving in Hsv. by rewrite Hfin in Hsv.
Qed.
End lifecycle.

(** * The theorem at a concrete program *)
Module LifecycleExample.
Definition path : bytes := str "/tmp/pinhead".
Definition fs : list frontend := [StartSocket path; StartFuse (str "/mnt")].
(** A socket of an earlier run is there. *)
Definition files0 : gset bytes := {[ path ]}.
Definition served : Life := mkLife Waiting [mkTask (StartSocket path) Serving] ({[path]} ∪ (files0 ∖ {[path]})) [str "/mnt"].
Definition ended : Life := mkLife Exited [mkTask (StartSocket path) Finished]
  (({[path]} ∪ (files0 ∖ {[path]})) ∖ {[path]}) [].

Lemma socket_served : rtc life_step (life_start fs files0 [str "/mnt"]) served.
Proof.
  eapply rtc_l; [eapply (life_task _ _ _ _ 0); [reflexivity|]; apply task_unlink; by left|].
  apply rtc_once. apply (life_task Waiting [mkTask (StartSocket path) Unlinked] (files0 ∖ {[path]}) [str "/mnt"] 0
    (mkTask (StartSocket path) Unlinked) (mkTask (StartSocket path) Serving)); [reflexivity|].
  apply task_bind. set_solver.
Qed.

Lemma ends : rtc life_step (life_start fs files0 [str "/mnt"]) ended.
Proof.
  etrans; [exact socket_served|]. eapply rtc_l; [apply life_sigint|].
  eapply rtc_l; [apply (life_drop [mkTask (StartSocket path) Serving] _ _ 0 (mkTask (StartSocket path) Serving));
    [reflexivity|discriminate]|].
  apply rtc_once. apply life_exit. repeat constructor.
Qed.
End LifecycleExample.

Lemma program_leaves_no_socket_witness :
  LifecycleExample.path ∈ l_files LifecycleExample.served /\
  l_files LifecycleExample.ended ⊆ LifecycleExample.files0.
Proof.
  split.
  - refine (proj1 (program_leaves_no_socket LifecycleExample.fs LifecycleExample.files0 [str "/mnt"] _
      LifecycleExample.socket_served) LifecycleExample.path (mkTask (StartSocket LifecycleExample.path) Serving) _ _ eq_refl).
    + repeat constructor. set_solver.
    + left.
  - exact (proj1 (proj2 (proj2 (program_leaves_no_socket LifecycleExample.fs LifecycleExample.files0 [str "/mnt"] _
      LifecycleExample.ends)) eq_refl)).
Defined.
